(* ===== verification/_CoqProject ===== *)
-Q . S2P
Prelude.v
Text.v
CList.v
CStackQueue.v
CHashTable.v
CBiTree.v
CTraverse.v
CAvlTree.v
CAvl.v
CSort.v
CString.v
BnsCsv.v
BnsHash.v
WeaponHandle.v
BnsPrint.v
BnsPrograms.v
MysqlCsv.v
MysqlSamples.v
ReadFile.v
RegexGrep.v
FileCopy.v
ThreadPool.v
MongoPool.v
ProcessPool.v
ProcessChild.v
Listen.v
LineServer.v
EchoServer.v
HelloServer.v
ChatServer.v
ChatClient.v
Epoll.v
EpollServer.v
EpollClient.v
EpollSystem.v
EpollModes.v
EpollOneshot.v
CurlEpoll.v
Kvmsg.v
Clone.v
Czmq.v
SpQueue.v
SpWorker.v
PpQueue.v
PpWorker.v
Zhelpers.v
LazyPirate.v
ZmqSamples.v
AsyncServer.v
Tripping.v
Mdp.v
MdBroker.v
MdShutdown.v
MdWorker.v
MdClient.v
MdClient2.v
MdSystem.v
