(* ===== verification/Prelude.v ===== *)
(** * A verification of sweet-clib

    sweet-clib ([src/lib]) is a collection of C programs and small libraries.  The
    development models the ones with logic of their own as functions and step
    relations over explicit state, and proves what makes them correct, or says
    exactly where they are not.

    ** The parts and the files

    Data structures, each over a store of cells with [malloc] that may fail:
    - CList.v: the linked list, [_structs/list.c] (the copies under [app/bns] and
      [threadpool] are the same text);
    - CStackQueue.v: [_structs/stack.c], [threadpool/queue.c], on the list, behind
      the class [Discipline];
    - CHashTable.v: [_structs/chtbl.c] and its key-value variant [app/bns/chtbl.c],
      on the list; the class [Hashing] is what a client's [h] and [match] promise;
    - CBiTree.v: [_structs/bitree.c]; CTraverse.v: [_structs/traverse.c];
    - CAvlTree.v, CAvl.v: [_structs/bistree.c], as trees of values and as pointer
      code that refines them;
    - CSort.v: [sort/issort.c].

    The table converters [app/bns]:
    - CString.v: the string helpers [bns_util.c] ([util/strntok.c]);
    - BnsCsv.v: the line reader that all programs share; BnsHash.v: [bns_hash.c],
      on the reader and the hash table, BnsPrint.v: its [print_table];
      WeaponHandle.v: the reader and the icon table of [weapon_handle.c], byte by byte;
      BnsPrograms.v: the six programs;
    - MysqlCsv.v: [mysql/mysql_csv_inster.c], a program of the same kind; ReadFile.v:
      [mysql/read_file.c]; MysqlSamples.v: [mysql_select.c], [mysql_insert.c];
    - RegexGrep.v: [regex/regexp.c]; FileCopy.v: [file/cp_test.c].

    Concurrent and event-driven programs:
    - ThreadPool.v: [threadpool/threadpool.c], threads as state machines over a
      shared pool that holds the queue of CStackQueue.v;
    - MongoPool.v: [mongo/client_pool.c], threads that share a pool of clients;
    - ProcessPool.v, ProcessChild.v: [processpool/processpool.h], parent and child;
    - LineServer.v: [libevent/lowlevel_libevent_server.c]; EchoServer.v:
      [server_echo.c]; HelloServer.v: [server_one.c], [client_one.c];
    - Listen.v: how the servers of [libevent], [epoll] and [pthread] set up their
      listening sockets;
    - ChatServer.v, ChatClient.v: [pthread/chat_server.c], [chat_client.c];
    - Epoll.v: the kernel's table of events; on it EpollServer.v and EpollClient.v
      ([epoll/epollserver.cpp], [epollclient.cpp]), EpollSystem.v
      (the two together), EpollModes.v ([epoll/diff_LT_ET.c]), EpollOneshot.v ([epoll/test_epolloneshot.c]) and
      CurlEpoll.v ([libcurl/curl_epoll.c]).

    Messaging:
    - Kvmsg.v: key-value messages, [zeromq/clone/kvsimple.c]; Clone.v: the servers
      and clients of [zeromq/clone] that exchange them;
    - Czmq.v: what the programs use of czmq; Mdp.v: [zeromq/MDP/mdp.h]; MdBroker.v
      and MdShutdown.v (its end),
      MdWorker.v, MdClient.v, MdClient2.v: broker, worker and clients of
      [zeromq/MDP]; MdSystem.v: client, broker and worker together; Tripping.v:
      [tripping.c];
    - the pirates of [zeromq/reliable]: SpQueue.v, SpWorker.v (simple), PpQueue.v,
      PpWorker.v (paranoid), LazyPirate.v (lazy: client and server together);
    - Zhelpers.v: [zeromq/zhelpers.h]; on it ZmqSamples.v: [weather_update] and
      [taskvent.c]; AsyncServer.v: [zeromq/async/async_server.c].

    Text.v has numbers in texts, what the programs use of [sprintf] and [atoi].

    This file has what they share: outcomes, the state-and-fault monad [M] with its
    weakest precondition [wp], [assert], 32-bit [int], the store, and lemmas on
    lists.

    ** How code is modelled

    A C function is a function in [M S]: it returns a value and a state, or a
    [fault] (NULL or dangling dereference, access out of bounds, signed overflow,
    division by zero, use of an indeterminate value, failed [assert]), so that a
    theorem [wp c Q s] says in particular that [c] has no undefined behaviour.
    The contents of memory that was never written are not modelled: reading them is a
    fault, except in WeaponHandle.v, where they are a parameter.
    Structs are records, pointers are addresses into a store, [int] is [Z] with a
    check of its range, [size_t] and [uint64_t] wrap where the code can reach the end of
    their range.  [malloc] follows
    an oracle: any call may return NULL.  A [destroy] callback is a log of its
    arguments.  What a program sends or prints is a log too.

    A loop is a fixpoint on its data where it has a bound; where it follows pointers
    it has fuel, and the theorems say that an amount computed from the state (the
    length of the list, the size of the tree, the number of children) is enough.
    Loops that wait for the outside world ([epoll_wait], [zmq_poll], libevent's
    dispatch) run over a list of events: what the calls return, in any order and
    number the theorem's hypotheses allow.  Threads are lists of actions that say
    who moves next; accesses are sequentially consistent.

    Code that is not in the repository is a class of operations with a class of
    laws, each with a concrete instance: libmongoc's pool ([Mongoc]), libzmq ([Zmq], [ZmqLaws]), czmq ([Zhash],
    [ZhashItems], [Czmq], [Sockets]), libevent's buffers ([Bufferevent]), the
    operating system ([Os]), the handlers of
    the process pool ([Handler]), POSIX regular expressions (a parameter of
    BnsPrograms.v and RegexGrep.v), clocks (functions from the number of the call).
    What libcurl does in a call, and what [random] returns, are part of the events of a
    run.  The capacity of the links of Tripping.v, and the time its tests take, are
    parameters.

    Three readings of the sources: [sprintf] onto its own argument is read as a
    move of the text (in WeaponHandle.v, as a copy from front to back); the files [_structs/bistree.c], [_structs/traverse.c],
    [zeromq/clone/clonesrv2.c], [zeromq/reliable/ppqueue.c], [ppworker.c] and
    [processpool/processpool.h] do not compile, and
    are read with the slips corrected that their model's file lists; output for
    debugging is left out, except where [printf] may be given a buffer without a NUL: what
    it reads is recorded, [None] when it runs past what was written (LineServer.v,
    EpollOneshot.v), or is a fault (EpollServer.v).  Line 29 of ppqueue.c is modelled as it is written and
    as it is meant.  [float] has 24 significant bits and products of floats are
    rounded to it.

    ** What is shown

    - The hash table, the AVL tree, the stack and the queue return, over any
      sequence of operations and allocation failures, what a finite map, a
      dictionary, a LIFO and a FIFO sequence return (but removing a key of the AVL tree
      twice succeeds twice); every operation of list, binary
      tree and AVL tree is correct on every branch, frees what it must and nothing
      else, and terminates; a search in the AVL tree is logarithmic; sorting is
      correct and stable; the traversals list the data in their order.
    - A negative hash value indexes the table out of bounds.
    - Splitting a joined text gives its parts; the string helpers equal their
      reference definitions; a line of a table is taken apart into its fields; every
      complete line enters the lookup tables, and a line with a key that is there ends
      them; [weapon_info] prints the wanted rows.  Byte by byte, whatever [malloc] has in
      its blocks, the reader and the icon table do the same on every line with a newline;
      how the round after the last one ends depends on what is left in its block.
    - No interleaving of the thread pool faults, as long as memory lasts, but for the join
      of a thread that could not be created; workers are taken in order and once each, and
      while one is queued some thread that was created can move; but [threadpool_destroy]
      can hang.
    - The threads that share a pool of database clients all end, each having given its
      client back, also when there are fewer clients than threads.
    - The parent of the process pool is a round-robin queue of its living children;
      a child serves a connection only while it has it; neither uses a closed
      descriptor.
    - The line server loses no complete line and sends nothing else, but forgets a
      byte of its buffer, and prints more than it has received; the chat server counts its clients right, but takes the
      wrong one out of its table.
    - The epoll client and server take turns on every connection, and wait for the one
      whose turn it is; together they never stop and never drop a user, however their
      bytes are cut, and no byte is lost; level- and edge-triggered reading print the same; a
      connection has at most one worker under EPOLLONESHOT, but the one-shot server
      accepts a single client.
    - The database program sends one statement per line, and reads past the end of the
      string after the last.
    - A message arrives as it was sent; a sequence number is read back right exactly
      when its third byte is zero; a clone client ends with the table of the server,
      for fewer than 2^24 updates.
    - A Majordomo broker whose peers obey the protocol never faults, keeps its tables
      consistent and leaves no request beside a waiting worker, and two messages of
      one that does not bring it down at any time; the worker refines its protocol machine; the
      client retries as often as it says; in a session of the three every request is
      answered with the work done for it.  The pirate queue serves its workers in the
      order they became ready, one request for each of their messages.
    - The paranoid queue faults at the first worker it hears from; with line 29 as it is
      meant it keeps exactly the workers it has heard from in time, once each; its worker
      answers, beats, and reconnects with a delay that doubles; a lazy client gets its
      answers in order, asks again when the server is too slow, and gives up after three
      tries.
    - [randof] can be one more than its comment says, and then [s_set_id] overflows its
      buffer; strings and dumps of messages can be read back; the weather client prints
      the average of what its filter selects.
    - A client of the asynchronous server sees only answers to its own requests, at most
      four to each; the round-trip benchmark ends in every interleaving when the links
      are large enough, unless the clock stands still in a test, and can block when they
      are not.
    - A server listens on the address and port it is meant to when no call fails, and
      ends otherwise.
    - The curl driver watches exactly what libcurl wants watched; the echo server sends
      back what it gets; the chat client sends its lines, but floods the server at the
      end of its input.

    ** Not modelled

    Samples whose content is the calls of a library and not logic of their own: the
    other program for mongo, those for msgpack and the embedded interpreters, [http_post.c],
    [hello_world] and [version] of zeromq; [s_set_id] and the like for Windows; the test
    programs; files that are empty; shell scripts and configuration.  Copies of modelled
    code are not modelled again ([app/bns/list.c], the [_kv] functions of
    [_structs/chtbl.c], [regex/regexp_filter.c], [util]).  Within the modelled programs: setting up
    zeromq sockets and contexts, debugging output, [kvmsg_test] and the example
    [threadpool_main.c]. *)

From stdpp Require Import prelude gmap strings list fin_maps.
From Stdlib Require Import ZArith Lia.

#[global] Open Scope Z_scope.

Declare Scope c_scope.
Delimit Scope c_scope with c.

Create HintDb clib.

(** ** Pointers, faults and outcomes *)

(** An address; [NULL] is [None]. *)
Abbreviation loc := positive.
Abbreviation ptr := (option positive).
Notation NULL := (@None positive).

(** What the C abstract machine leaves undefined, or what an [assert] stops. *)
Inductive fault :=
| NullDeref        (** a NULL pointer is dereferenced *)
| Dangling         (** a pointer to memory that is not allocated is dereferenced or freed *)
| SignedOverflow   (** arithmetic on [int] leaves its range *)
| OutOfBounds      (** an array is indexed outside its bounds *)
| DivByZero
| Uninitialised    (** an indeterminate value is read *)
| AssertFailed.

#[global] Instance fault_eq_dec : EqDecision fault.
Proof. solve_decision. Defined.

(** The result of running a piece of C: a value, a fault, or the model's fuel
    ran out (the loop has not ended within the given number of rounds). *)
Inductive outcome (A : Type) :=
| Ok (a : A)
| Err (f : fault)
| NoFuel.
Arguments Ok {A} a.
Arguments Err {A} f.
Arguments NoFuel {A}.

#[global] Instance outcome_bind : MBind outcome := fun A B k c =>
  match c with Ok a => k a | Err f => Err f | NoFuel => NoFuel end.

(** ** The state-and-fault monad *)

Definition M (S A : Type) : Type := S -> outcome (A * S).

#[global] Instance M_ret S : MRet (M S) := fun A a s => Ok (a, s).
#[global] Instance M_bind S : MBind (M S) := fun A B k c s =>
  match c s with
  | Ok (a, s') => k a s'
  | Err f => Err f
  | NoFuel => NoFuel
  end.

Definition get {S} : M S S := fun s => Ok (s, s).
Definition put {S} (s : S) : M S unit := fun _ => Ok (tt, s).
Definition modify {S} (f : S -> S) : M S unit := fun s => Ok (tt, f s).
Definition throw {S A} (f : fault) : M S A := fun _ => Err f.
Definition no_fuel {S A} : M S A := fun _ => NoFuel.

(** [wp c Q s]: run from [s], [c] returns normally, and its value and final
    state satisfy [Q].  Total correctness: a fault or a loop that does not end
    within its fuel falsifies it. *)
Definition wp {S A} (c : M S A) (Q : A -> S -> Prop) (s : S) : Prop :=
  match c s with
  | Ok (a, s') => Q a s'
  | Err _ | NoFuel => False
  end.

Section wp.
Context {S : Type}.

Lemma wp_ret {A} (a : A) Q (s : S) : Q a s -> wp (mret a) Q s.
Proof. done. Qed.

Lemma wp_bind {A B} (c : M S A) (k : A -> M S B) Q (s : S) :
  wp c (fun a => wp (k a) Q) s -> wp (c ≫= k) Q s.
Proof. unfold wp, mbind, M_bind. by destruct (c s) as [[]| |]. Qed.

Lemma wp_mono {A} (c : M S A) Q Q' (s : S) :
  wp c Q s -> (forall a s', Q a s' -> Q' a s') -> wp c Q' s.
Proof. unfold wp. destruct (c s) as [[]| |]; auto. Qed.

Lemma wp_and {A} (c : M S A) (P Q : A -> S -> Prop) (s : S) :
  wp c P s -> wp c Q s -> wp c (fun a t => P a t /\ Q a t) s.
Proof. unfold wp. by destruct (c s) as [[]| |]. Qed.

Lemma wp_inv {A} (c : M S A) Q (s : S) :
  wp c Q s -> exists a s', c s = Ok (a, s') /\ Q a s'.
Proof. unfold wp. destruct (c s) as [[]| |]; naive_solver. Qed.

(** Running a bind whose first part is known. *)
Lemma bind_ok {A B} (c : M S A) (k : A -> M S B) (s : S) a s' :
  c s = Ok (a, s') -> (c ≫= k) s = k a s'.
Proof. unfold mbind, M_bind. by intros ->. Qed.

Lemma wp_intro {A} (c : M S A) (Q : A -> S -> Prop) (s : S) a s' :
  c s = Ok (a, s') -> Q a s' -> wp c Q s.
Proof. unfold wp. by intros ->. Qed.

End wp.

#[export] Hint Resolve wp_ret : clib.

(** One step through a monadic body. *)
Ltac wp_step :=
  lazymatch goal with
  | |- wp (mret _) _ _ => apply wp_ret
  | |- wp (_ ≫= _) _ _ => apply wp_bind
  end.

(** Apply the specification [H] of the call at the head of the goal and
    continue with its postcondition. *)
Ltac wp_apply H := eapply wp_mono; [eapply H | cbn beta].

(** ** [assert] *)

Definition assert {S} (b : bool) : M S unit := if b then mret tt else throw AssertFailed.

Lemma wp_assert {S} (b : bool) Q (s : S) : b = true -> Q tt s -> wp (assert b) Q s.
Proof. by intros -> HQ. Qed.

(** ** [int]: 32-bit two's complement, overflow undefined *)

Definition INT_MAX : Z := 2147483647.
Definition INT_MIN : Z := -2147483648.

Definition int_of {S} (z : Z) : M S Z :=
  if (INT_MIN <=? z) && (z <=? INT_MAX) then mret z else throw SignedOverflow.

Lemma wp_int_of {S} z Q (s : S) :
  INT_MIN <= z <= INT_MAX -> Q z s -> wp (int_of z) Q s.
Proof.
  intros [? ?] ?. unfold int_of.
  rewrite (proj2 (Z.leb_le _ _)), (proj2 (Z.leb_le _ _)) by done. done.
Qed.

(** ** A typed store: allocated cells, the allocator's answers, a trace

    [cells] is what [malloc] has handed out and [free] has not taken back.
    [oracle] says, for the coming calls of [malloc], which of them fail
    ([false]); past its end every call succeeds, so every finite pattern of
    failures is a value of it.  [trace] is the log of the calls of the user's
    [destroy] callback, in order. *)
Record store (C E : Type) := Store {
  cells : gmap loc C;
  oracle : list bool;
  trace : list E;
}.
Arguments Store {C E}.
Arguments cells {C E}.
Arguments oracle {C E}.
Arguments trace {C E}.

Section store.
Context {C E : Type}.
Implicit Types (m : store C E) (h : gmap loc C) (p : ptr) (l : loc).

(** Whether the next call of [malloc] succeeds. *)
Definition may_alloc m : bool := default true (head (oracle m)).

(** [malloc] of one cell followed by the initialisation of its members. *)
Definition malloc (c : C) : M (store C E) ptr := fun m =>
  if may_alloc m then
    let l := fresh (dom (cells m)) in
    Ok (Some l, Store (<[l := c]> (cells m)) (tail (oracle m)) (trace m))
  else Ok (NULL, Store (cells m) (tail (oracle m)) (trace m)).

(** [malloc] of an array that is kept by its one owner and not in [cells]:
    only whether the allocation succeeds.  A negative element count becomes a
    [size_t] no allocator can serve. *)
Definition malloc_array (n : Z) : M (store C E) bool := fun m =>
  Ok ((0 <=? n) && may_alloc m, Store (cells m) (tail (oracle m)) (trace m)).

(** [free]: NULL is ignored, memory that is not allocated is a fault. *)
Definition free p : M (store C E) unit := fun m =>
  match p with
  | None => Ok (tt, m)
  | Some l =>
      match cells m !! l with
      | Some _ => Ok (tt, Store (delete l (cells m)) (oracle m) (trace m))
      | None => Err Dangling
      end
  end.

(** [*p] *)
Definition load p : M (store C E) C := fun m =>
  match p with
  | None => Err NullDeref
  | Some l => match cells m !! l with Some c => Ok (c, m) | None => Err Dangling end
  end.

(** [p->field = v], as an update [f] of the cell. *)
Definition update p (f : C -> C) : M (store C E) unit := fun m =>
  match p with
  | None => Err NullDeref
  | Some l =>
      match cells m !! l with
      | Some c => Ok (tt, Store (<[l := f c]> (cells m)) (oracle m) (trace m))
      | None => Err Dangling
      end
  end.

(** Reading the state of the store. *)
Definition gets {A} (f : store C E -> A) : M (store C E) A := fun m => Ok (f m, m).

(** A call of the user's [destroy] callback. *)
Definition call_destroy (e : E) : M (store C E) unit := fun m =>
  Ok (tt, Store (cells m) (oracle m) (trace m ++ [e])).

(** Fuel for a walk along pointers: one more than the allocated cells. *)
Definition walk_fuel m : nat := S (size (cells m)).

Lemma wp_malloc c Q m :
  (may_alloc m = true ->
   forall l, cells m !! l = None ->
   Q (Some l) (Store (<[l := c]> (cells m)) (tail (oracle m)) (trace m))) ->
  (may_alloc m = false -> Q NULL (Store (cells m) (tail (oracle m)) (trace m))) ->
  wp (malloc c) Q m.
Proof.
  intros H1 H2. unfold wp, malloc. destruct (may_alloc m); [|by apply H2].
  apply H1; [done|]. apply not_elem_of_dom, is_fresh.
Qed.

Lemma wp_free l c Q m :
  cells m !! l = Some c ->
  Q tt (Store (delete l (cells m)) (oracle m) (trace m)) ->
  wp (free (Some l)) Q m.
Proof. intros Hl ?. unfold wp, free. by rewrite Hl. Qed.

Lemma wp_load l c Q m :
  cells m !! l = Some c -> Q c m -> wp (load (Some l)) Q m.
Proof. intros Hl ?. unfold wp, load. by rewrite Hl. Qed.

Lemma wp_update l c f Q m :
  cells m !! l = Some c ->
  Q tt (Store (<[l := f c]> (cells m)) (oracle m) (trace m)) ->
  wp (update (Some l) f) Q m.
Proof. intros Hl ?. unfold wp, update. by rewrite Hl. Qed.

(** Distinct allocated cells are fewer than the fuel. *)
Lemma allocated_lt_walk_fuel (ls : list loc) m :
  NoDup ls -> (forall l, l ∈ ls -> is_Some (cells m !! l)) ->
  (length ls < walk_fuel m)%nat.
Proof.
  intros Hnd Hal. unfold walk_fuel. apply Nat.lt_succ_r.
  rewrite <- size_dom, <- (size_list_to_set (C := gset loc)) by done.
  apply subseteq_size. intros l Hl%elem_of_list_to_set. by apply elem_of_dom, Hal.
Qed.

Lemma store_eta m : Store (cells m) (oracle m) (trace m) = m.
Proof. by destruct m. Qed.

(** [h'] differs from [h] at most on the addresses [ls]. *)
Definition only_on (ls : list loc) (h h' : gmap loc C) : Prop :=
  forall l, l ∉ ls -> h' !! l = h !! l.

Lemma only_on_refl ls h : only_on ls h h.
Proof. by intros l ?. Qed.

Lemma only_on_trans ls h1 h2 h3 :
  only_on ls h1 h2 -> only_on ls h2 h3 -> only_on ls h1 h3.
Proof. intros H1 H2 l ?. by rewrite H2, H1. Qed.

Lemma only_on_weaken ls ls' h h' :
  ls ⊆ ls' -> only_on ls h h' -> only_on ls' h h'.
Proof. intros Hs H l ?. apply H. set_solver. Qed.

Lemma only_on_insert ls h l c : l ∈ ls -> only_on ls h (<[l := c]> h).
Proof. intros ? k ?. rewrite lookup_insert_ne; set_solver. Qed.

Lemma only_on_delete ls h l : l ∈ ls -> only_on ls h (delete l h).
Proof. intros ? k ?. rewrite lookup_delete_ne; set_solver. Qed.

End store.

#[export] Hint Resolve only_on_refl only_on_insert only_on_delete : clib.

(** ** Function pointers, and C's [%] on [int] *)

(** A call through a function pointer. *)
Definition fn {S F} (f : option F) : M S F :=
  match f with Some f => mret f | None => throw NullDeref end.

(** Truncated towards zero. *)
Definition int_rem {S} (a b : Z) : M S Z :=
  if b =? 0 then throw DivByZero
  else if (a =? INT_MIN) && (b =? -1) then throw SignedOverflow
  else mret (Z.rem a b).

Lemma fn_some {S F} (f : option F) g (s : S) : f = Some g -> fn f s = Ok (g, s).
Proof. by intros ->. Qed.

Lemma wp_int_rem {S} a b Q (s : S) :
  0 < b -> Q (Z.rem a b) s -> wp (int_rem a b) Q s.
Proof.
  intros Hb HQ. unfold int_rem.
  destruct (Z.eqb_spec b 0); [lia|]. destruct (Z.eqb_spec b (-1)); [lia|].
  by rewrite andb_false_r.
Qed.

(** ** Executions of a list of operations *)

Section run.
Context {S Op R : Type} (exec : Op -> M S R).

(** Run operations one after the other and collect their results. *)
Fixpoint run (ops : list Op) : M S (list R) :=
  match ops with
  | [] => mret []
  | o :: ops' => r ← exec o; rs ← run ops'; mret (r :: rs)
  end.

End run.

(** ** C strings in byte arrays *)

(** The bytes before the first NUL. *)
Fixpoint cstr (bs : list Z) : list Z :=
  match bs with
  | [] => []
  | b :: bs => if b =? 0 then [] else b :: cstr bs
  end.

(** ** Lists *)

Lemma filter_ext_in {X} (P Q : X -> Prop) `{!forall x, Decision (P x), !forall x, Decision (Q x)} (xs : list X) :
  (forall x, x ∈ xs -> P x <-> Q x) -> filter P xs = filter Q xs.
Proof.
  induction xs as [|x xs IH]; intros Hpq; [done|]. rewrite !filter_cons.
  assert (P x <-> Q x) by (apply Hpq; set_solver). rewrite IH by set_solver.
  destruct (decide (P x)), (decide (Q x)); tauto.
Qed.

(** ** Comparison callbacks *)

(** What the code relies on of the [compare] callback: a total preorder in the
    style of [strcmp]. *)
Class CmpLaws {D : Type} (cmp : D -> D -> Z) : Prop := {
  cmp_opp x y : Z.sgn (cmp y x) = - Z.sgn (cmp x y);
  cmp_trans x y z : cmp x y < 0 -> cmp y z < 0 -> cmp x z < 0;
  cmp_eq x y z : cmp x y = 0 -> Z.sgn (cmp x z) = Z.sgn (cmp y z);
}.

Section cmp.
Context {D : Type} {cmp : D -> D -> Z} `{!CmpLaws cmp}.
Implicit Types (x y z : D).

(** Consequences of the laws, in the form the proofs use. *)
Lemma cmp_lt_gt x y : cmp x y < 0 <-> cmp y x > 0.
Proof. pose proof (cmp_opp x y). destruct (cmp x y), (cmp y x); simpl in *; lia. Qed.

Lemma cmp_eq_sym x y : cmp x y = 0 <-> cmp y x = 0.
Proof. pose proof (cmp_opp x y). destruct (cmp x y), (cmp y x); simpl in *; lia. Qed.

Lemma cmp_refl x : cmp x x = 0.
Proof. pose proof (cmp_opp x x). destruct (cmp x x); simpl in *; lia. Qed.

Lemma cmp_eq_lt x y z : cmp x y = 0 -> cmp y z < 0 -> cmp x z < 0.
Proof. intros H ?. pose proof (cmp_eq x y z H). destruct (cmp x z), (cmp y z); simpl in *; lia. Qed.

Lemma cmp_lt_eq x y z : cmp x y < 0 -> cmp y z = 0 -> cmp x z < 0.
Proof.
  intros H1%cmp_lt_gt H2%cmp_eq_sym. apply cmp_lt_gt. pose proof (cmp_eq z y x H2).
  destruct (cmp z x), (cmp y x); simpl in *; lia.
Qed.

Lemma cmp_eq_eq x y z : cmp x y = 0 -> (cmp x z = 0 <-> cmp y z = 0).
Proof. intros H. pose proof (cmp_eq x y z H). destruct (cmp x z), (cmp y z); simpl in *; lia. Qed.

End cmp.
