(* ===== verification/Text.v ===== *)
(** * Numbers in texts: what the programs use of [sprintf], [atoi] and [sscanf]

    Texts are lists of bytes.  [%d], [%0wd] and [%0wX] are printed, [%d] is read. *)

From stdpp Require Import prelude list.
From Stdlib Require Import ZArith Lia.
From S2P Require Import Prelude.

Section digits.
Context (b : Z) (Hb : 2 <= b).

(** The digits of [z >= 0] in base [b], the first one most significant. *)
Fixpoint digits_fuel (fuel : nat) (z : Z) : list Z :=
  match fuel with
  | O => []
  | S fuel => if z <? b then [z] else digits_fuel fuel (z / b) ++ [z mod b]
  end.

Definition digits (z : Z) : list Z := digits_fuel (S (Z.to_nat (Z.log2 z))) z.

(** The number they stand for. *)
Definition number (ds : list Z) : Z := foldl (fun acc d => acc * b + d) 0 ds.

Lemma number_snoc ds d : number (ds ++ [d]) = number ds * b + d.
Proof. unfold number. by rewrite foldl_app. Qed.

Lemma digits_fuel_ok fuel : forall z, 0 <= z < 2 ^ Z.of_nat fuel ->
  number (digits_fuel fuel z) = z /\ Forall (fun d => 0 <= d < b) (digits_fuel fuel z) /\
  (fuel <> 0%nat -> digits_fuel fuel z <> []).
Proof using Hb.
  induction fuel as [|fuel IH]; intros z Hz; [simpl in *; split; [unfold number; simpl; lia|done]|]. simpl.
  rewrite Nat2Z.inj_succ, Z.pow_succ_r in Hz by lia. destruct (Z.ltb_spec z b).
  - split; [unfold number; simpl; lia|]. split; [|done]. constructor; [lia|constructor].
  - destruct (IH (z / b)) as (H1 & H2 & H3).
    { split; [apply Z.div_pos; lia|]. apply Z.div_lt_upper_bound; [lia|]. nia. }
    pose proof (Z.mod_pos_bound z b). rewrite number_snoc, H1. split; [pose proof (Z.div_mod z b); lia|].
    split; [apply Forall_app; split; [done|]; constructor; [lia|constructor]|]. intros _. by destruct (digits_fuel fuel (z / b)).
Qed.

Lemma log2_fuel z : 0 <= z -> 0 <= z < 2 ^ Z.of_nat (S (Z.to_nat (Z.log2 z))).
Proof.
  intros Hz. split; [done|]. rewrite Nat2Z.inj_succ, Z2Nat.id by apply Z.log2_nonneg. destruct (decide (z = 0)) as [->|]; [done|].
  apply Z.log2_spec. lia.
Qed.

Lemma number_digits z : 0 <= z -> number (digits z) = z.
Proof using Hb. intros Hz. apply digits_fuel_ok, log2_fuel, Hz. Qed.

Lemma digits_range z : 0 <= z -> Forall (fun d => 0 <= d < b) (digits z).
Proof using Hb. intros Hz. apply digits_fuel_ok, log2_fuel, Hz. Qed.

Lemma digits_not_nil z : 0 <= z -> digits z <> [].
Proof using Hb. intros Hz. by apply digits_fuel_ok; [apply log2_fuel, Hz|]. Qed.

(** How many there are. *)
Lemma length_digits_fuel fuel : forall z n, 0 <= z < b ^ Z.of_nat n -> (0 < n)%nat -> (length (digits_fuel fuel z) <= n)%nat.
Proof using Hb.
  induction fuel as [|fuel IH]; intros z n Hz Hn; simpl; [lia|]. destruct (Z.ltb_spec z b); simpl; [lia|].
  rewrite length_app. simpl. destruct n as [|[|n]]; [lia|rewrite Z.pow_1_r in Hz; lia|].
  rewrite Nat2Z.inj_succ, Z.pow_succ_r in Hz by lia.
  pose proof (IH (z / b) (S n) ltac:(split; [apply Z.div_pos; lia|apply Z.div_lt_upper_bound; lia]) ltac:(lia)). lia.
Qed.

Lemma length_digits z n : 0 <= z < b ^ Z.of_nat n -> (0 < n)%nat -> (length (digits z) <= n)%nat.
Proof using Hb. apply length_digits_fuel. Qed.

(** As many as it takes. *)
Lemma number_lt ds : Forall (fun d => 0 <= d < b) ds -> 0 <= number ds < b ^ Z.of_nat (length ds).
Proof using Hb.
  induction ds as [|d ds IH] using rev_ind; intros HF; [unfold number; simpl; lia|].
  apply Forall_app in HF as [HF Hd]. apply Forall_cons in Hd as [Hd _]. specialize (IH HF).
  rewrite number_snoc, length_app, Nat.add_comm. cbn [length Nat.add]. rewrite Nat2Z.inj_succ, Z.pow_succ_r by lia. nia.
Qed.

(** Leading zeros up to [w] digits. *)
Definition pad (w : nat) (ds : list Z) : list Z := replicate (w - length ds) 0 ++ ds.

Lemma number_pad w ds : number (pad w ds) = number ds.
Proof.
  unfold pad, number. rewrite foldl_app. f_equal. induction (w - length ds)%nat as [|n IH]; [done|]. simpl. exact IH.
Qed.

Lemma pad_range w ds : Forall (fun d => 0 <= d < b) ds -> Forall (fun d => 0 <= d < b) (pad w ds).
Proof using Hb. intros HF. apply Forall_app. split; [|done]. apply Forall_replicate. lia. Qed.

Lemma length_pad w ds : length (pad w ds) = (w `max` length ds)%nat.
Proof. unfold pad. rewrite length_app, length_replicate. lia. Qed.

End digits.

(** The character of a digit: 0-9, A-F. *)
Definition digit_char (d : Z) : Z := if d <? 10 then 48 + d else 55 + d.

Lemma digit_char_inj d e : 0 <= d < 16 -> 0 <= e < 16 -> digit_char d = digit_char e -> d = e.
Proof. unfold digit_char. intros. destruct (Z.ltb_spec d 10), (Z.ltb_spec e 10); lia. Qed.

Definition MINUS : Z := 45.
Definition SPACE : Z := 32.
Definition NEWLINE : Z := 10.

(** [%0wd], with [w] from 0 for [%d] *)
Definition fmt_d (w : nat) (z : Z) : list Z :=
  if z <? 0 then MINUS :: (digit_char <$> pad (w - 1) (digits 10 (- z))) else digit_char <$> pad w (digits 10 z).

(** [%0wX] *)
Definition fmt_X (w : nat) (z : Z) : list Z := digit_char <$> pad w (digits 16 z).

Lemma length_fmt_X w z : 0 <= z < 16 ^ Z.of_nat w -> (0 < w)%nat -> length (fmt_X w z) = w.
Proof.
  intros Hz Hw. unfold fmt_X. rewrite length_fmap, length_pad. pose proof (length_digits 16 ltac:(lia) z w Hz Hw). lia.
Qed.

Lemma length_fmt_d w z n :
  - 10 ^ Z.of_nat n < z < 10 ^ Z.of_nat n -> (0 < n)%nat -> (w <= n)%nat -> (length (fmt_d w z) <= n + if (z <? 0)%Z then 1 else 0)%nat.
Proof.
  intros Hz Hn Hw. unfold fmt_d. destruct (Z.ltb_spec z 0).
  - pose proof (length_digits 10 ltac:(lia) (- z) n ltac:(lia) Hn). simpl. rewrite length_fmap, length_pad. lia.
  - pose proof (length_digits 10 ltac:(lia) z n ltac:(lia) Hn). simpl. rewrite length_fmap, length_pad. lia.
Qed.

(** ** Reading *)

Definition is_digit (c : Z) : bool := (48 <=? c) && (c <=? 57).
Definition is_space (c : Z) : bool := (c =? 32) || ((9 <=? c) && (c <=? 13)).

(** The digits at the front, and the rest. *)
Fixpoint scan_digits (acc : Z) (s : list Z) : Z * list Z :=
  match s with
  | c :: s' => if is_digit c then scan_digits (acc * 10 + (c - 48)) s' else (acc, s)
  | [] => (acc, [])
  end.

Fixpoint skip_space (s : list Z) : list Z :=
  match s with c :: s' => if is_space c then skip_space s' else s | [] => [] end.

Definition starts_with_digit (s : list Z) : bool := match s with c :: _ => is_digit c | [] => false end.

Definition scan_unsigned (neg : bool) (s : list Z) : option (Z * list Z) :=
  if starts_with_digit s then let '(z, rest) := scan_digits 0 s in Some (if neg then - z else z, rest) else None.

(** [%d] of [sscanf]: white space, a sign, digits; [None] when there are none. *)
Definition scan_int (s : list Z) : option (Z * list Z) :=
  match skip_space s with
  | c :: s' => if c =? MINUS then scan_unsigned true s' else if c =? 43 then scan_unsigned false s' else scan_unsigned false (c :: s')
  | [] => None
  end.

Definition atoi_value (s : list Z) : Z := match scan_int s with Some (z, _) => z | None => 0 end.

(** A value out of range is undefined. *)
Definition atoi {S} (s : list Z) : M S Z := int_of (atoi_value s).

Lemma is_digit_char d : 0 <= d < 10 -> digit_char d = 48 + d /\ is_digit (digit_char d) = true.
Proof.
  intros Hd. unfold digit_char, is_digit. rewrite (proj2 (Z.ltb_lt _ _)) by lia. split; [done|].
  rewrite (proj2 (Z.leb_le _ _)), (proj2 (Z.leb_le _ _)) by lia. done.
Qed.

Lemma scan_digits_ok ds : forall acc rest,
  Forall (fun d => 0 <= d < 10) ds -> starts_with_digit rest = false ->
  scan_digits acc ((digit_char <$> ds) ++ rest) = (foldl (fun acc d => acc * 10 + d) acc ds, rest).
Proof.
  induction ds as [|d ds IH]; intros acc rest HF Hr; simpl.
  - destruct rest as [|c rest]; [done|]. simpl in *. by rewrite Hr.
  - apply Forall_cons in HF as [Hd HF]. destruct (is_digit_char d Hd) as [E ->]. rewrite E.
    replace (48 + d - 48) with d by lia. by apply IH.
Qed.

(** Reading a number that was printed. *)
Lemma scan_fmt_d w z rest : starts_with_digit rest = false -> scan_int (fmt_d w z ++ rest) = Some (z, rest).
Proof.
  intros Hr. assert (Hds : forall w z, 0 <= z -> exists d ds, pad w (digits 10 z) = d :: ds /\ Forall (fun d => 0 <= d < 10) (d :: ds) /\
    foldl (fun acc d => acc * 10 + d) 0 (d :: ds) = z).
  { intros w' z' Hz. pose proof (pad_range 10 ltac:(lia) w' _ (digits_range 10 ltac:(lia) z' Hz)) as H1.
    pose proof (number_pad 10 w' (digits 10 z')) as H2. rewrite (number_digits 10 ltac:(lia) z' Hz) in H2.
    destruct (pad w' (digits 10 z')) as [|d ds] eqn:E; [|by exists d, ds].
    unfold pad in E. apply app_eq_nil in E as [_ E]. by destruct (digits_not_nil 10 ltac:(lia) z' Hz). }
  assert (Hrun : forall d ds neg, Forall (fun d => 0 <= d < 10) (d :: ds) ->
    scan_unsigned neg ((digit_char <$> d :: ds) ++ rest)
    = Some (if neg then - foldl (fun acc d => acc * 10 + d) 0 (d :: ds) else foldl (fun acc d => acc * 10 + d) 0 (d :: ds), rest)).
  { intros d ds neg HF. unfold scan_unsigned. rewrite scan_digits_ok by done. apply Forall_cons in HF as [Hd _]. simpl. by rewrite (proj2 (is_digit_char d Hd)). }
  unfold scan_int, fmt_d. destruct (Z.ltb_spec z 0).
  - destruct (Hds (w - 1)%nat (- z) ltac:(lia)) as (d & ds & -> & HF & Hv).
    change (scan_unsigned true ((digit_char <$> d :: ds) ++ rest) = Some (z, rest)).
    rewrite (Hrun d ds true HF), Hv. do 2 f_equal. lia.
  - destruct (Hds w z ltac:(lia)) as (d & ds & -> & HF & Hv). pose proof HF as [Hd _]%Forall_cons.
    destruct (is_digit_char d Hd) as [E _].
    assert (Hsk : skip_space ((digit_char <$> d :: ds) ++ rest) = (digit_char <$> d :: ds) ++ rest).
    { simpl. unfold is_space. rewrite E, (proj2 (Z.eqb_neq _ _)) by lia. rewrite (proj2 (Z.leb_gt (48 + d) 13)) by lia. by rewrite andb_false_r. }
    rewrite Hsk. change ((digit_char <$> d :: ds) ++ rest) with (digit_char d :: (digit_char <$> ds) ++ rest). cbv iota.
    rewrite E. unfold MINUS. rewrite (proj2 (Z.eqb_neq (48 + d) 45)), (proj2 (Z.eqb_neq (48 + d) 43)) by lia.
    rewrite <- E. change (scan_unsigned false ((digit_char <$> d :: ds) ++ rest) = Some (z, rest)). by rewrite (Hrun d ds false HF), Hv.
Qed.

Lemma atoi_fmt_d w z : atoi_value (fmt_d w z) = z.
Proof. unfold atoi_value. pose proof (scan_fmt_d w z [] eq_refl) as H. rewrite app_nil_r in H. by rewrite H. Qed.

Lemma fmt_d_inj w z z' : fmt_d w z = fmt_d w z' -> z = z'.
Proof. intros H. by rewrite <- (atoi_fmt_d w z), H, atoi_fmt_d. Qed.

(** No NUL, no newline. *)
Lemma fmt_d_chars w z : Forall (fun c => 45 <= c <= 57) (fmt_d w z).
Proof.
  assert (H : forall w z, 0 <= z -> Forall (fun c => 45 <= c <= 57) (digit_char <$> pad w (digits 10 z))).
  { intros w' z' Hz. apply Forall_fmap. eapply Forall_impl; [apply (pad_range 10 ltac:(lia) w' _ (digits_range 10 ltac:(lia) z' Hz))|].
    intros d Hd. simpl in *. destruct (is_digit_char d Hd) as [-> _]. lia. }
  unfold fmt_d. destruct (Z.ltb_spec z 0); [|apply H; lia]. constructor; [unfold MINUS; lia|apply H; lia].
Qed.

(** ** What [%s] prints *)

(** Of a buffer that holds [bs] and behind it nothing that is known: the characters before the
    first NUL.  [None]: there is none, and [printf] reads on, into bytes that were never
    written or past the end of the buffer. *)
Fixpoint printed_text (bs : list Z) : option (list Z) :=
  match bs with
  | [] => None
  | c :: bs => if c =? 0 then Some [] else t ← printed_text bs; Some (c :: t)
  end.

Lemma printed_text_None bs : printed_text bs = None <-> 0 ∉ bs.
Proof.
  induction bs as [|c bs IH]; simpl; [split; [intros _; apply not_elem_of_nil|done]|].
  rewrite not_elem_of_cons. destruct (Z.eqb_spec c 0) as [->|Hc]; [naive_solver|].
  rewrite <- IH. destruct (printed_text bs); simpl; naive_solver.
Qed.
