(* ===== verification/CList.v ===== *)
(** * The singly linked list of [src/lib/_structs/list.c]

    [ListElmt], [List], the operations over a store of elements, the
    representation predicate [is_list] that relates a [List] to the sequence it
    holds, and the specification of every operation on every branch. *)

From stdpp Require Import prelude gmap list.
From Stdlib Require Import ZArith Lia.
From S2P Require Import Prelude.

(** ** Data: list.h *)

Record ListElmt (D : Type) := Elmt {
  e_data : D;
  e_next : ptr;
}.
Arguments Elmt {D}.
Arguments e_data {D}.
Arguments e_next {D}.

(** [destroy] is only ever called or compared with NULL: [true] is a non-NULL
    callback, and its calls are recorded in the store's trace. *)
Record List (D : Type) := MkList {
  l_size : Z;
  l_match : option (D -> D -> Z);
  l_destroy : bool;
  l_head : ptr;
  l_tail : ptr;
}.
Arguments MkList {D}.
Arguments l_size {D}.
Arguments l_match {D}.
Arguments l_destroy {D}.
Arguments l_head {D}.
Arguments l_tail {D}.

Definition lmem (D : Type) : Type := store (ListElmt D) D.

Section ops.
Context {D : Type}.
Implicit Types (L : List D) (e : ListElmt D).

(** Assignments to one member. *)
Definition set_size (z : Z) L := MkList z (l_match L) (l_destroy L) (l_head L) (l_tail L).
Definition set_head (p : ptr) L := MkList (l_size L) (l_match L) (l_destroy L) p (l_tail L).
Definition set_tail (p : ptr) L := MkList (l_size L) (l_match L) (l_destroy L) (l_head L) p.
Definition set_next (p : ptr) e := Elmt (e_data e) p.

(** [list_init]: [match] keeps what it held. *)
Definition list_init (list : List D) (destroy : bool) : List D :=
  MkList 0 (l_match list) destroy NULL NULL.

(** [memset(list, 0, sizeof(List))] *)
Definition list_zero : List D := MkList 0 None false NULL NULL.

Definition list_ins_next (list : List D) (element : ptr) (data : D)
  : M (lmem D) (Z * List D) :=
  new_element ← malloc (Elmt data NULL);
  match new_element with
  | None => mret (-1, list)
  | Some _ =>
      list ←
        match element with
        | None =>
            let list := if l_size list =? 0 then set_tail new_element list else list in
            _ ← update new_element (set_next (l_head list));
            mret (set_head new_element list)
        | Some _ =>
            el ← load element;
            let list :=
              match e_next el with
              | None => set_tail new_element list
              | Some _ => list
              end in
            _ ← update new_element (set_next (e_next el));
            _ ← update element (set_next new_element);
            mret list
        end;
      sz ← int_of (l_size list + 1);
      mret (0, set_size sz list)
  end.

(** The second component is what is stored through [data], if anything is. *)
Definition list_rem_next (list : List D) (element : ptr)
  : M (lmem D) (Z * option D * List D) :=
  if l_size list =? 0 then mret (-1, None, list)
  else
    match element with
    | None =>
        hd ← load (l_head list);
        let old_element := l_head list in
        let list := set_head (e_next hd) list in
        let list := if l_size list =? 1 then set_tail NULL list else list in
        _ ← free old_element;
        sz ← int_of (l_size list - 1);
        mret (0, Some (e_data hd), set_size sz list)
    | Some _ =>
        el ← load element;
        match e_next el with
        | None => mret (-1, None, list)
        | Some _ =>
            nx ← load (e_next el);
            let old_element := e_next el in
            _ ← update element (set_next (e_next nx));
            let list :=
              match e_next nx with
              | None => set_tail element list
              | Some _ => list
              end in
            _ ← free old_element;
            sz ← int_of (l_size list - 1);
            mret (0, Some (e_data nx), set_size sz list)
        end
    end.

(** The loop of [list_destroy]; each round that removes an element decreases
    [size], so [size] rounds are enough. *)
Fixpoint list_destroy_loop (fuel : nat) (list : List D) : M (lmem D) (List D) :=
  if l_size list >? 0 then
    match fuel with
    | O => no_fuel
    | S fuel =>
        '(r, d, list) ← list_rem_next list NULL;
        _ ← match d with
            | Some d =>
                if (r =? 0) && l_destroy list then call_destroy d else mret tt
            | None => mret tt
            end;
        list_destroy_loop fuel list
    end
  else mret list.

Definition list_destroy (list : List D) : M (lmem D) (List D) :=
  _ ← list_destroy_loop (Z.to_nat (l_size list)) list;
  mret list_zero.

Definition list_is_head (list : List D) (element : ptr) : Z :=
  if decide (element = l_head list) then 1 else 0.

Definition list_is_tail (element : ptr) : M (lmem D) Z :=
  el ← load element; mret (if decide (e_next el = NULL) then 1 else 0).

End ops.

(** ** Representation *)

Section rep.
Context {D : Type}.
Implicit Types (L : List D) (h : gmap loc (ListElmt D)) (ls : list loc) (xs : list D).

(** From [p], following [next], the cells [ls] hold the data [xs] and lead to [q]. *)
Fixpoint lseg h (p : ptr) ls xs (q : ptr) : Prop :=
  match ls, xs with
  | [], [] => p = q
  | l :: ls, x :: xs =>
      p = Some l /\ exists nx, h !! l = Some (Elmt x nx) /\ lseg h nx ls xs q
  | _, _ => False
  end.

(** The list object [L] holds the sequence [xs] in the cells [ls]. *)
Record is_list h L ls xs : Prop := {
  il_chain : lseg h (l_head L) ls xs NULL;
  il_nodup : NoDup ls;
  il_tail : l_tail L = last ls;
  il_size : l_size L = Z.of_nat (length xs);
}.

Lemma lseg_length h p ls xs q : lseg h p ls xs q -> length ls = length xs.
Proof.
  revert p xs. induction ls as [|l ls IH]; intros p [|x xs]; simpl; try done.
  intros (_ & nx & _ & ?). f_equal. by eapply IH.
Qed.

Lemma lseg_app h p ls1 ls2 xs1 xs2 q :
  length ls1 = length xs1 ->
  lseg h p (ls1 ++ ls2) (xs1 ++ xs2) q <->
  exists r, lseg h p ls1 xs1 r /\ lseg h r ls2 xs2 q.
Proof.
  revert p xs1. induction ls1 as [|l ls1 IH]; intros p [|x xs1] Hlen; simplify_eq/=.
  - naive_solver.
  - setoid_rewrite IH; [|lia]. naive_solver.
Qed.

Lemma lseg_frame h h' p ls xs q :
  (forall l, l ∈ ls -> h' !! l = h !! l) -> lseg h p ls xs q -> lseg h' p ls xs q.
Proof.
  revert p xs. induction ls as [|l ls IH]; intros p [|x xs] Hf; simpl; try done.
  intros (-> & nx & Hl & Hr). split; [done|]. exists nx. split.
  - rewrite Hf by set_solver. done.
  - eapply IH; [|done]. set_solver.
Qed.

Lemma lseg_insert h p ls xs q l c :
  l ∉ ls -> lseg h p ls xs q -> lseg (<[l := c]> h) p ls xs q.
Proof. intros ?. apply lseg_frame. intros k ?. rewrite lookup_insert_ne; set_solver. Qed.

Lemma lseg_delete h p ls xs q l :
  l ∉ ls -> lseg h p ls xs q -> lseg (delete l h) p ls xs q.
Proof. intros ?. apply lseg_frame. intros k ?. rewrite lookup_delete_ne; set_solver. Qed.

(** Every cell of a segment is allocated. *)
Lemma lseg_lookup h p ls xs q l :
  lseg h p ls xs q -> l ∈ ls -> is_Some (h !! l).
Proof.
  revert p xs. induction ls as [|k ls IH]; intros p [|x xs]; simpl; try done.
  - set_solver.
  - intros (_ & nx & Hk & Hr) [->|Hl]%elem_of_cons; eauto.
Qed.

Lemma lseg_fresh h p ls xs q l : lseg h p ls xs q -> h !! l = None -> l ∉ ls.
Proof. intros Hs Hl Hin. destruct (lseg_lookup _ _ _ _ _ _ Hs Hin). congruence. Qed.

(** The head pointer of a chain tells whether it is empty. *)
Lemma lseg_null h ls xs : lseg h NULL ls xs NULL -> ls = [] /\ xs = [].
Proof. by destruct ls, xs; simpl; naive_solver. Qed.

(** [is_list] only looks at the cells [ls]. *)
Lemma is_list_frame h h' L ls xs :
  (forall l, l ∈ ls -> h' !! l = h !! l) -> is_list h L ls xs -> is_list h' L ls xs.
Proof. intros Hf []. split; try done. by eapply lseg_frame. Qed.

Lemma is_list_only_on h h' L ls ks xs :
  only_on ks h h' -> ls ## ks -> is_list h L ls xs -> is_list h' L ls xs.
Proof. intros Ho Hd. apply is_list_frame. intros l ?. apply Ho. set_solver. Qed.

Lemma is_list_length h L ls xs : is_list h L ls xs -> length ls = length xs.
Proof. intros []. by eapply lseg_length. Qed.

Lemma is_list_fresh h L ls xs l : is_list h L ls xs -> h !! l = None -> l ∉ ls.
Proof. intros []. by eapply lseg_fresh. Qed.

Lemma is_list_init h L b : is_list h (list_init L b) [] [].
Proof. split; simpl; try done. constructor. Qed.

End rep.

#[export] Hint Resolve lseg_insert lseg_delete is_list_init : clib.

(** ** Specifications *)

Section spec.
Context {D : Type}.
Implicit Types (L : List D) (m : lmem D) (ls : list loc) (xs : list D).

(** The callbacks of [L] are those of [L']. *)
Definition same_fns L L' : Prop :=
  l_match L' = l_match L /\ l_destroy L' = l_destroy L.

(** What [list_ins_next] leaves when the element goes between [ls1]/[xs1] and
    [ls2]/[xs2]: on success a new cell is linked in and nothing outside the
    list changes; when [malloc] fails nothing changes at all. *)
Definition ins_post m L ls1 ls2 xs1 xs2 (d : D) (r : Z * List D) (m' : lmem D) : Prop :=
  oracle m' = tail (oracle m) /\ trace m' = trace m /\ same_fns L r.2 /\
  if may_alloc m then
    r.1 = 0 /\ exists l, cells m !! l = None /\
      is_list (cells m') r.2 (ls1 ++ l :: ls2) (xs1 ++ d :: xs2) /\
      only_on (l :: ls1) (cells m) (cells m')
  else r = (-1, L) /\ cells m' = cells m.

(** Relinking at the end of the prefix [ls1 ++ [k]]. *)
Lemma lseg_link h p ls1 k ls2 xs1 y xs2 l d nx :
  length ls1 = length xs1 ->
  NoDup ((ls1 ++ [k]) ++ ls2) -> l ∉ (ls1 ++ [k]) ++ ls2 ->
  lseg h p (ls1 ++ [k]) (xs1 ++ [y]) nx -> lseg h nx ls2 xs2 NULL ->
  lseg (<[k := Elmt y (Some l)]> (<[l := Elmt d nx]> h))
    p ((ls1 ++ [k]) ++ l :: ls2) ((xs1 ++ [y]) ++ d :: xs2) NULL.
Proof.
  intros Hlen Hnd Hl H1 H2.
  apply lseg_app in H1 as (r & H1 & -> & nx' & Hk & Heq); [|done]. simpl in Heq; subst nx'.
  apply NoDup_app in Hnd as (Hnd1 & Hd & _). apply NoDup_app in Hnd1 as (_ & Hd1 & _).
  apply lseg_app; [rewrite !length_app; simpl; lia|].
  exists (Some l). split.
  - apply lseg_app; [done|]. exists (Some k). split.
    + apply lseg_insert; [set_solver|]. apply lseg_insert; [set_solver|]. done.
    + simpl. split; [done|]. exists (Some l). by rewrite lookup_insert_eq.
  - simpl. split; [done|]. exists nx. split.
    + rewrite lookup_insert_ne by set_solver. by rewrite lookup_insert_eq.
    + apply lseg_insert; [set_solver|]. apply lseg_insert; [set_solver|]. done.
Qed.

Lemma last_insert_tail (ls1 ls2 : list loc) l :
  last (ls1 ++ l :: ls2) = if decide (ls2 = []) then Some l else last (ls1 ++ ls2).
Proof.
  case_decide as H; [by rewrite H, last_snoc|].
  destruct ls2 as [|k ls2 _] using rev_ind; [done|].
  by rewrite app_comm_cons, !app_assoc, !last_snoc.
Qed.

Lemma nodup_insert_mid {A} (ls1 ls2 : list A) l :
  NoDup (ls1 ++ ls2) -> l ∉ ls1 ++ ls2 -> NoDup (ls1 ++ l :: ls2).
Proof. intros ??. rewrite <- Permutation_middle. by constructor. Qed.

Lemma list_ins_next_head_spec L ls xs d m :
  is_list (cells m) L ls xs -> Z.of_nat (length xs) < INT_MAX ->
  wp (list_ins_next L NULL d) (ins_post m L [] ls [] xs d) m.
Proof.
  intros Hl Hsz. pose proof Hl as [Hc Hnd Ht Hs]. unfold list_ins_next. wp_step.
  apply wp_malloc.
  - intros Ha l Hfr. wp_step. wp_step.
    eapply wp_update; [apply lookup_insert_eq|]. wp_step. wp_step.
    assert (l ∉ ls) by (by eapply is_list_fresh).
    apply wp_int_of.
    { unfold INT_MIN, INT_MAX in *. destruct (l_size L =? 0); simpl; lia. }
    apply wp_ret. unfold ins_post; simpl. rewrite Ha.
    split_and!; try done; [by destruct (l_size L =? 0)|].
    exists l. rewrite insert_insert_eq. split_and!; [done| |by auto using only_on_insert with set_solver].
    split; simpl.
    + split; [done|]. exists (l_head L). rewrite lookup_insert_eq. split.
      * by destruct (l_size L =? 0).
      * by apply lseg_insert.
    + by constructor.
    + apply lseg_length in Hc. destruct ls as [|k ls].
      * assert (Hz : l_size L = 0) by (rewrite Hs; simpl in *; lia). by rewrite Hz.
      * destruct (Z.eqb_spec (l_size L) 0) as [?|_]; [simpl in *; lia|].
        by rewrite last_cons_cons.
    + destruct (l_size L =? 0); simpl; lia.
  - intros Ha. apply wp_ret. unfold ins_post. by rewrite Ha.
Qed.

Lemma list_ins_next_mid_spec L ls1 k ls2 xs1 y xs2 d m :
  is_list (cells m) L ((ls1 ++ [k]) ++ ls2) ((xs1 ++ [y]) ++ xs2) ->
  length ls1 = length xs1 ->
  Z.of_nat (length ((xs1 ++ [y]) ++ xs2)) < INT_MAX ->
  wp (list_ins_next L (Some k) d) (ins_post m L (ls1 ++ [k]) ls2 (xs1 ++ [y]) xs2 d) m.
Proof.
  intros Hl Hlen Hsz. pose proof Hl as [Hc Hnd Ht Hs]. unfold list_ins_next. wp_step.
  apply wp_malloc.
  - intros Ha l Hfr. wp_step. wp_step.
    assert (Hnew : l ∉ (ls1 ++ [k]) ++ ls2) by (by eapply is_list_fresh).
    apply lseg_app in Hc as (nx & H1 & H2); [|rewrite !length_app; simpl; lia].
    pose proof H1 as (r & H1a & -> & nx' & Hk & Heq)%lseg_app; [|done].
    simpl in Heq; subst nx'.
    eapply wp_load; [simpl; rewrite lookup_insert_ne by set_solver; done|]. wp_step.
    eapply wp_update; [apply lookup_insert_eq|]. simpl. wp_step.
    eapply wp_update.
    { simpl. rewrite !lookup_insert_ne by set_solver. done. }
    simpl. wp_step. wp_step.
    apply wp_int_of; [unfold INT_MIN, INT_MAX in *; destruct nx; simpl; lia|].
    apply wp_ret. unfold ins_post; simpl. rewrite Ha.
    split_and!; try done; [by destruct nx|].
    exists l. rewrite insert_insert_eq. unfold set_next; simpl.
    split_and!; [done| |].
    + split; simpl.
      * destruct nx; simpl; by apply lseg_link.
      * by apply nodup_insert_mid.
      * rewrite last_insert_tail. destruct nx.
        -- rewrite decide_False; [by simpl|]. by intros ->; destruct xs2.
        -- apply lseg_null in H2 as [-> _]. by rewrite decide_True.
      * destruct nx; simpl; rewrite Hs, !length_app; simpl; lia.
    + eapply only_on_trans; apply only_on_insert; set_solver.
  - intros Ha. apply wp_ret. unfold ins_post. by rewrite Ha.
Qed.

(** [list_ins_next] after the prefix [ls1] (NULL when the prefix is empty). *)
Lemma list_ins_next_spec L ls1 ls2 xs1 xs2 d m :
  is_list (cells m) L (ls1 ++ ls2) (xs1 ++ xs2) ->
  length ls1 = length xs1 ->
  Z.of_nat (length (xs1 ++ xs2)) < INT_MAX ->
  wp (list_ins_next L (last ls1) d) (ins_post m L ls1 ls2 xs1 xs2 d) m.
Proof.
  destruct ls1 as [|k ls1 _] using rev_ind; intros Hl Hlen Hsz.
  - destruct xs1; [|done]. by apply list_ins_next_head_spec.
  - rewrite last_snoc. destruct xs1 as [|y xs1 _] using rev_ind.
    + rewrite length_app in Hlen. simpl in Hlen. lia.
    + rewrite !length_app in Hlen. simpl in Hlen.
      apply list_ins_next_mid_spec; [done|lia|done].
Qed.

(** What [list_rem_next] leaves when it takes out [l]/[x] from between
    [ls1]/[xs1] and [ls2]/[xs2]: the datum is handed over, the cell is freed. *)
Definition rem_post m L ls1 l ls2 xs1 (x : D) xs2
    (r : Z * option D * List D) (m' : lmem D) : Prop :=
  oracle m' = oracle m /\ trace m' = trace m /\ same_fns L r.2 /\
  r.1 = (0, Some x) /\ cells m' !! l = None /\
  is_list (cells m') r.2 (ls1 ++ ls2) (xs1 ++ xs2) /\
  only_on (l :: ls1) (cells m) (cells m').

(** Nothing is removed, nothing changes. *)
Definition rem_none m L (r : Z * option D * List D) (m' : lmem D) : Prop :=
  r = (-1, None, L) /\ m' = m.

Lemma list_rem_next_empty_spec L p m :
  l_size L = 0 -> wp (list_rem_next L p) (rem_none m L) m.
Proof. intros Hs. unfold list_rem_next. by rewrite Hs. Qed.

Lemma list_rem_next_head_spec L l ls x xs m :
  is_list (cells m) L (l :: ls) (x :: xs) -> Z.of_nat (length (x :: xs)) <= INT_MAX ->
  wp (list_rem_next L NULL) (rem_post m L [] l ls [] x xs) m.
Proof.
  intros [Hc Hnd Ht Hs] Hsz. unfold list_rem_next.
  simpl in Hc. destruct Hc as (Hh & nx & Hl & Hc).
  apply NoDup_cons in Hnd as [Hnl Hnd].
  simpl length in *. destruct (Z.eqb_spec (l_size L) 0); [lia|].
  rewrite Hh. wp_step. eapply wp_load; [done|]. wp_step.
  eapply wp_free; [done|]. wp_step.
  apply wp_int_of; [unfold INT_MIN, INT_MAX in *; simpl; destruct (l_size L =? 1); simpl; lia|].
  apply wp_ret. unfold rem_post; simpl.
  split_and!; try done; [by destruct (l_size L =? 1)|by rewrite lookup_delete_eq| |].
  - pose proof (lseg_length _ _ _ _ _ Hc) as Hlen.
    split; simpl.
    + destruct (l_size L =? 1); simpl; by apply lseg_delete.
    + done.
    + destruct ls as [|k ls]; destruct (Z.eqb_spec (l_size L) 1); simpl in *; (done || lia).
    + destruct (l_size L =? 1); simpl; lia.
  - apply only_on_delete; set_solver.
Qed.

(** Unlinking the cell after the prefix [ls1 ++ [k]]. *)
Lemma lseg_unlink h p ls1 k l ls2 xs1 y xs2 nx :
  length ls1 = length xs1 ->
  NoDup ((ls1 ++ [k]) ++ l :: ls2) ->
  lseg h p (ls1 ++ [k]) (xs1 ++ [y]) (Some l) -> lseg h nx ls2 xs2 NULL ->
  lseg (delete l (<[k := Elmt y nx]> h)) p ((ls1 ++ [k]) ++ ls2) ((xs1 ++ [y]) ++ xs2) NULL.
Proof.
  intros Hlen Hnd H1 H2.
  apply lseg_app in H1 as (r & H1 & -> & nx' & Hk & Heq); [|done]. simpl in Heq; subst nx'.
  apply NoDup_app in Hnd as (Hnd1 & Hd & Hnd2). apply NoDup_cons in Hnd2 as [? ?].
  apply NoDup_app in Hnd1 as (_ & Hd1 & _).
  assert (l <> k) by (specialize (Hd k); set_solver).
  apply lseg_delete; [set_solver|].
  apply lseg_app; [rewrite !length_app; simpl; lia|].
  exists nx. split.
  - apply lseg_app; [done|]. exists (Some k). split.
    + apply lseg_insert; [set_solver|]. done.
    + simpl. split; [done|]. exists nx. by rewrite lookup_insert_eq.
  - apply lseg_insert; [set_solver|]. done.
Qed.

Lemma list_rem_next_mid_spec L ls1 k l ls2 xs1 y x xs2 m :
  is_list (cells m) L ((ls1 ++ [k]) ++ l :: ls2) ((xs1 ++ [y]) ++ x :: xs2) ->
  length ls1 = length xs1 ->
  Z.of_nat (length ((xs1 ++ [y]) ++ x :: xs2)) <= INT_MAX ->
  wp (list_rem_next L (Some k))
     (rem_post m L (ls1 ++ [k]) l ls2 (xs1 ++ [y]) x xs2) m.
Proof.
  intros [Hc Hnd Ht Hs] Hlen Hsz. unfold list_rem_next.
  rewrite !length_app in *. simpl length in *.
  destruct (Z.eqb_spec (l_size L) 0); [lia|].
  apply lseg_app in Hc as (nx & H1 & -> & nx2 & Hl & H2); [|rewrite !length_app; simpl; lia].
  pose proof H1 as (r & H1a & -> & nx' & Hk & Heq)%lseg_app; [|done]. simpl in Heq; subst nx'.
  assert (Hlk : l <> k).
  { apply NoDup_app in Hnd as (_ & Hd & _). specialize (Hd k). set_solver. }
  wp_step. eapply wp_load; [done|]. simpl. wp_step. eapply wp_load; [done|]. wp_step.
  eapply wp_update; [done|]. wp_step.
  eapply wp_free; [simpl; by rewrite lookup_insert_ne|]. wp_step. simpl.
  apply wp_int_of; [unfold INT_MIN, INT_MAX in *; destruct nx2; simpl; lia|].
  apply wp_ret. unfold rem_post, set_next; simpl.
  split_and!; try done; [by destruct nx2|by rewrite lookup_delete_eq| |].
  - split; simpl.
    + destruct nx2; simpl; by eapply lseg_unlink.
    + apply NoDup_app in Hnd as (? & ? & [??]%NoDup_cons).
      apply NoDup_app; split_and!; set_solver.
    + destruct nx2.
      * rewrite Ht, last_insert_tail, decide_False; [done|]. by intros ->; destruct xs2.
      * apply lseg_null in H2 as [-> _]. by rewrite app_nil_r, last_snoc.
    + destruct nx2; simpl; rewrite !length_app in *; simpl; lia.
  - eapply only_on_trans; [apply only_on_insert|apply only_on_delete]; set_solver.
Qed.

(** [list_rem_next] after the prefix [ls1], when an element follows. *)
Lemma list_rem_next_spec L ls1 l ls2 xs1 x xs2 m :
  is_list (cells m) L (ls1 ++ l :: ls2) (xs1 ++ x :: xs2) ->
  length ls1 = length xs1 ->
  Z.of_nat (length (xs1 ++ x :: xs2)) <= INT_MAX ->
  wp (list_rem_next L (last ls1)) (rem_post m L ls1 l ls2 xs1 x xs2) m.
Proof.
  destruct ls1 as [|k ls1 _] using rev_ind; intros Hl Hlen Hsz.
  - destruct xs1; [|done]. by apply list_rem_next_head_spec.
  - rewrite last_snoc. destruct xs1 as [|y xs1 _] using rev_ind.
    + rewrite length_app in Hlen. simpl in Hlen. lia.
    + rewrite !length_app in Hlen. simpl in Hlen.
      apply list_rem_next_mid_spec; [done|lia|done].
Qed.

(** Asking for the element after the last one, or after NULL in an empty list. *)
Lemma list_rem_next_none_spec L ls xs m :
  is_list (cells m) L ls xs ->
  wp (list_rem_next L (last ls)) (rem_none m L) m.
Proof.
  intros [Hc Hnd Ht Hs].
  pose proof (lseg_length _ _ _ _ _ Hc) as Hlen.
  destruct ls as [|k ls _] using rev_ind.
  { apply list_rem_next_empty_spec. destruct xs; [done|simpl in Hlen; lia]. }
  destruct xs as [|y xs _] using rev_ind.
  { rewrite length_app in Hlen. simpl in Hlen. lia. }
  rewrite !length_app in Hlen. simpl in Hlen.
  apply lseg_app in Hc as (r & H1 & -> & nx' & Hk & Heq); [|lia]. simpl in Heq; subst nx'.
  rewrite last_snoc. unfold list_rem_next. rewrite length_app in Hs. simpl in Hs.
  destruct (Z.eqb_spec (l_size L) 0); [lia|].
  wp_step. by eapply wp_load.
Qed.

(** [list_destroy] frees every cell and hands every datum to [destroy], in
    list order; it never stops half-way. *)
Definition destroy_post m L ls xs (r : List D) (m' : lmem D) : Prop :=
  r = list_zero /\ oracle m' = oracle m /\
  trace m' = trace m ++ (if l_destroy L then xs else []) /\
  (forall l, l ∈ ls -> cells m' !! l = None) /\
  only_on ls (cells m) (cells m').

Lemma list_destroy_loop_spec n L ls xs m :
  is_list (cells m) L ls xs -> n = length xs -> Z.of_nat n <= INT_MAX ->
  wp (list_destroy_loop n L)
     (fun _ m' => destroy_post m L ls xs list_zero m') m.
Proof.
  revert L ls xs m. induction n as [|n IH]; intros L ls xs m Hl Hn Hsz.
  - pose proof (is_list_length _ _ _ _ Hl). destruct Hl as [Hc _ _ Hs].
    destruct xs, ls; try done. simpl. rewrite Hs. simpl. apply wp_ret.
    unfold destroy_post. split_and!; try done.
    + destruct (l_destroy L); by rewrite app_nil_r.
    + set_solver.
  - pose proof (is_list_length _ _ _ _ Hl) as Hlen.
    destruct xs as [|x xs]; [done|]. destruct ls as [|l ls]; [done|].
    simpl in Hn. simplify_eq. simpl.
    rewrite (proj2 (Z.gtb_lt _ _)); [|rewrite (il_size _ _ _ _ Hl); simpl; lia].
    wp_step. eapply wp_mono; [eapply list_rem_next_head_spec; [done|simpl length; lia]|].
    intros [[r d] L'] m1 (Ho & Htr & [_ Hd] & Hr & Hfree & Hl' & Hon). simplify_eq/=.
    wp_step.
    set (m2 := Store (cells m1) (oracle m1)
                 (trace m1 ++ (if l_destroy L then [x] else []))).
    eapply wp_mono with (Q := fun _ m' => m' = m2).
    { rewrite Hd. unfold m2. destruct (l_destroy L); [done|].
      apply wp_ret. by rewrite app_nil_r, store_eta. }
    intros _ ? ->. eapply wp_mono; [eapply (IH L' ls xs m2); [done|done|lia]|].
    intros _ m' (_ & Ho' & Htr' & Hf' & Hon'). unfold m2 in *; simpl in *.
    pose proof (il_nodup _ _ _ _ Hl) as [Hnl _]%NoDup_cons.
    split_and!; [done|congruence| | |].
    + rewrite Htr', Htr, Hd. destruct (l_destroy L); by rewrite <- app_assoc.
    + intros k [->|Hk]%elem_of_cons; [|by apply Hf'].
      rewrite Hon' by done. done.
    + eapply only_on_trans; [|eapply only_on_weaken; [|done]]; [|set_solver].
      eapply only_on_weaken; [|done]; set_solver.
Qed.

Lemma list_destroy_spec L ls xs m :
  is_list (cells m) L ls xs -> Z.of_nat (length xs) <= INT_MAX ->
  wp (list_destroy L) (destroy_post m L ls xs) m.
Proof.
  intros Hl Hsz. unfold list_destroy. wp_step.
  eapply wp_mono; [eapply list_destroy_loop_spec; [done| |]|].
  - rewrite (il_size _ _ _ _ Hl). lia.
  - rewrite (il_size _ _ _ _ Hl). lia.
  - intros a m' (_ & ? & ? & ? & ?). apply wp_ret. by split_and!.
Qed.

End spec.

(** ** A list object is a sequence *)

(** The pointer a caller passes to work after the first [i] elements: NULL for
    [i = 0], the [i]-th element otherwise. *)
Definition elem_at (ls : list loc) (i : nat) : ptr := last (take i ls).

Section props.
Context {D : Type}.
Implicit Types (L : List D) (m : lmem D) (ls : list loc) (xs : list D).

Lemma is_list_split h L ls xs i :
  is_list h L ls xs ->
  is_list h L (take i ls ++ drop i ls) (take i xs ++ drop i xs) /\
  length (take i ls) = length (take i xs).
Proof.
  intros Hl. rewrite !take_drop, !length_take, (is_list_length _ _ _ _ Hl). done.
Qed.

(** A segment is determined by its cells, its data and its end. *)
Lemma lseg_det h h' p p' ls xs q :
  lseg h p ls xs q -> lseg h' p' ls xs q ->
  p = p' /\ forall l, l ∈ ls -> h !! l = h' !! l.
Proof.
  revert p p' xs. induction ls as [|k ls IH]; intros p p' [|x xs]; simpl; try done.
  - intros -> ->. set_solver.
  - intros (-> & n1 & Hk1 & H1) (-> & n2 & Hk2 & H2).
    destruct (IH _ _ _ H1 H2) as [-> Hl]. split; [done|].
    intros l [->|?]%elem_of_cons; [congruence|auto].
Qed.

Lemma is_list_det h h' L L' ls xs :
  is_list h L ls xs -> is_list h' L' ls xs -> same_fns L L' ->
  L' = L /\ forall l, l ∈ ls -> h !! l = h' !! l.
Proof.
  intros [Hc _ Ht Hs] [Hc' _ Ht' Hs'] [??].
  destruct (lseg_det _ _ _ _ _ _ _ Hc Hc') as [??].
  destruct L, L'; simpl in *. split; [|done]. f_equal; congruence.
Qed.

Lemma list_ins_next_at L ls xs i d m :
  is_list (cells m) L ls xs -> Z.of_nat (length xs) < INT_MAX ->
  wp (list_ins_next L (elem_at ls i) d)
     (ins_post m L (take i ls) (drop i ls) (take i xs) (drop i xs) d) m.
Proof.
  intros Hl Hsz. destruct (is_list_split _ _ _ _ i Hl).
  apply list_ins_next_spec; [done|done|by rewrite take_drop].
Qed.

Lemma list_rem_next_at L ls xs i l x m :
  is_list (cells m) L ls xs -> ls !! i = Some l -> xs !! i = Some x ->
  Z.of_nat (length xs) <= INT_MAX ->
  wp (list_rem_next L (elem_at ls i))
     (rem_post m L (take i ls) l (drop (S i) ls) (take i xs) x (drop (S i) xs)) m.
Proof.
  intros Hl Hli Hxi Hsz. destruct (is_list_split _ _ _ _ i Hl) as [Hl' Hlen].
  rewrite (drop_S ls l i Hli), (drop_S xs x i Hxi) in Hl'.
  apply list_rem_next_spec; [done|done|].
  rewrite <- (drop_S xs x i Hxi). by rewrite take_drop.
Qed.

(** C24: [list_ins_next] after the first [i] elements of a list that holds [xs]
    returns 0 and leaves a list that holds [xs] with [d] inserted at position
    [i], head, tail and size included; only the new cell and the cells before
    the insertion point are written, and the callbacks are kept. *)
Theorem list_ins_next_correct L ls xs i d m :
  is_list (cells m) L ls xs -> (i <= length xs)%nat ->
  Z.of_nat (length xs) < INT_MAX -> may_alloc m = true ->
  exists L' m' l,
    list_ins_next L (elem_at ls i) d m = Ok ((0, L'), m') /\
    cells m !! l = None /\
    is_list (cells m') L' (take i ls ++ l :: drop i ls) (take i xs ++ d :: drop i xs) /\
    only_on (l :: take i ls) (cells m) (cells m') /\
    same_fns L L' /\ trace m' = trace m.
Proof.
  intros Hl Hi Hsz Ha.
  destruct (wp_inv _ _ _ (list_ins_next_at L ls xs i d m Hl Hsz))
    as ([r L'] & m' & Hrun & Hpost).
  unfold ins_post in Hpost. rewrite Ha in Hpost.
  destruct Hpost as (_ & Htr & Hf & Hr & l & ? & ? & ?). simpl in *. subst r.
  exists L', m', l. by split_and!.
Qed.

(** When [malloc] fails, [list_ins_next] returns -1 and neither the list
    object nor any cell changes. *)
Lemma list_ins_next_no_memory L ls xs i d m :
  is_list (cells m) L ls xs -> Z.of_nat (length xs) < INT_MAX ->
  may_alloc m = false ->
  list_ins_next L (elem_at ls i) d m
    = Ok ((-1, L), Store (cells m) (tail (oracle m)) (trace m)).
Proof.
  intros Hl Hsz Ha.
  destruct (wp_inv _ _ _ (list_ins_next_at L ls xs i d m Hl Hsz))
    as (r & m' & Hrun & Hpost).
  unfold ins_post in Hpost. rewrite Ha in Hpost.
  destruct Hpost as (<- & <- & _ & -> & <-). by rewrite store_eta.
Qed.

(** C25: [list_rem_next] after the first [i] elements hands over the datum at
    position [i], frees its cell and leaves a list that holds the rest, in
    order; asked past the end, or on an empty list, it returns -1 and changes
    nothing. *)
Theorem list_rem_next_correct L ls xs i m :
  is_list (cells m) L ls xs -> (i <= length xs)%nat ->
  Z.of_nat (length xs) <= INT_MAX ->
  match xs !! i with
  | Some x =>
      exists L' m' l,
        list_rem_next L (elem_at ls i) m = Ok ((0, Some x, L'), m') /\
        ls !! i = Some l /\ cells m' !! l = None /\
        is_list (cells m') L' (take i ls ++ drop (S i) ls) (take i xs ++ drop (S i) xs) /\
        only_on (l :: take i ls) (cells m) (cells m') /\
        same_fns L L' /\ trace m' = trace m
  | None => list_rem_next L (elem_at ls i) m = Ok ((-1, None, L), m)
  end.
Proof.
  intros Hl Hi Hsz. pose proof (is_list_length _ _ _ _ Hl) as Hlen.
  destruct (xs !! i) as [x|] eqn:Hx.
  - destruct (lookup_lt_is_Some_2 ls i) as [l Hli].
    { rewrite Hlen. by eapply lookup_lt_Some. }
    destruct (wp_inv _ _ _ (list_rem_next_at L ls xs i l x m Hl Hli Hx Hsz))
      as ([[r o] L'] & m' & Hrun & _ & Htr & Hf & Hr & ? & ? & ?).
    simpl in *. simplify_eq. exists L', m', l. by split_and!.
  - apply lookup_ge_None in Hx. unfold elem_at. rewrite take_ge by lia.
    destruct (wp_inv _ _ _ (list_rem_next_none_spec L ls xs m Hl))
      as (r & m' & Hrun & -> & ->). done.
Qed.

(** Inserting at any position and removing there again gives back the
    datum, the very same list object and the very same cells. *)
Theorem list_ins_rem_roundtrip L ls xs i d m :
  is_list (cells m) L ls xs -> (i <= length xs)%nat ->
  Z.of_nat (length xs) < INT_MAX -> may_alloc m = true ->
  exists L1 m1 m2,
    list_ins_next L (elem_at ls i) d m = Ok ((0, L1), m1) /\
    list_rem_next L1 (elem_at ls i) m1 = Ok ((0, Some d, L), m2) /\
    cells m2 = cells m.
Proof.
  intros Hl Hi Hsz Ha. pose proof (is_list_length _ _ _ _ Hl) as Hlen.
  destruct (wp_inv _ _ _ (list_ins_next_at L ls xs i d m Hl Hsz))
    as ([r L1] & m1 & Hins & Hpost).
  unfold ins_post in Hpost. rewrite Ha in Hpost.
  destruct Hpost as (_ & _ & Hf1 & Hr & l & Hfr & Hl1 & Hon1). simpl in *. subst r.
  destruct (is_list_split _ _ _ _ i Hl) as [_ Hlen2].
  assert (Hlen1 : Z.of_nat (length (take i xs ++ d :: drop i xs)) <= INT_MAX).
  { rewrite length_app. simpl. rewrite length_drop, length_take. lia. }
  destruct (wp_inv _ _ _ (list_rem_next_spec L1 _ l _ _ d _ m1 Hl1 Hlen2 Hlen1))
    as ([[r o] L2] & m2 & Hrem & _ & _ & Hf2 & Hr & Hfree & Hl2 & Hon2).
  rewrite !take_drop in Hl2. simpl in *. simplify_eq.
  destruct (is_list_det _ _ _ _ _ _ Hl Hl2) as [-> Hcells].
  { destruct Hf1, Hf2. split; congruence. }
  exists L1, m1, m2. split_and!; [done|done|].
  apply map_eq. intros k. destruct (decide (k ∈ ls)) as [?|Hk]; [by rewrite Hcells|].
  destruct (decide (k = l)) as [->|?]; [by rewrite Hfree|].
  assert (k ∉ l :: take i ls).
  { rewrite not_elem_of_cons. split; [done|].
    intros ?%(subseteq_take i ls). done. }
  by rewrite Hon2, Hon1.
Qed.

(** [list_destroy] ends, frees every cell of the list and no other, calls
    [destroy] (when it is not NULL) once per datum in list order, and leaves a
    zeroed list object. *)
Theorem list_destroy_correct L ls xs m :
  is_list (cells m) L ls xs -> Z.of_nat (length xs) <= INT_MAX ->
  exists m',
    list_destroy L m = Ok (list_zero, m') /\
    (forall l, cells m' !! l = if decide (l ∈ ls) then None else cells m !! l) /\
    trace m' = trace m ++ (if l_destroy L then xs else []).
Proof.
  intros Hl Hsz.
  destruct (wp_inv _ _ _ (list_destroy_spec L ls xs m Hl Hsz))
    as (r & m' & Hrun & -> & _ & Htr & Hfree & Hon).
  exists m'. split_and!; [done| |done].
  intros l. case_decide; [by apply Hfree|by apply Hon].
Qed.

End props.

(** ** Witnesses: a concrete two-element list *)

Definition ex_cells : gmap loc (ListElmt Z) :=
  {[ 7%positive := Elmt 10 (Some 3%positive); 3%positive := Elmt 20 NULL ]}.
Definition ex_mem : lmem Z := Store ex_cells [] [].
Definition ex_mem_oom : lmem Z := Store ex_cells [false] [].
Definition ex_list : List Z := MkList 2 None true (Some 7%positive) (Some 3%positive).

Lemma ex_is_list : is_list ex_cells ex_list [7%positive; 3%positive] [10; 20].
Proof.
  split; [|by apply (bool_decide_unpack _); vm_compute|done|done].
  split; [done|]. eexists. split; [reflexivity|].
  split; [done|]. eexists. split; [reflexivity|]. done.
Qed.

Lemma list_ins_next_correct_witness :
  exists L' m' l,
    list_ins_next ex_list (Some 7%positive) 15 ex_mem = Ok ((0, L'), m') /\
    cells ex_mem !! l = None /\
    is_list (cells m') L' ([7%positive] ++ l :: [3%positive]) ([10] ++ 15 :: [20]) /\
    only_on [l; 7%positive] (cells ex_mem) (cells m') /\
    same_fns ex_list L' /\ trace m' = [].
Proof.
  apply (list_ins_next_correct ex_list [7%positive; 3%positive] [10; 20] 1 15 ex_mem ex_is_list);
    [simpl; lia|reflexivity|reflexivity].
Defined.

Lemma list_rem_next_correct_witness :
  (exists L' m' l,
    list_rem_next ex_list (Some 7%positive) ex_mem = Ok ((0, Some 20, L'), m') /\
    [7%positive; 3%positive] !! 1%nat = Some l /\ cells m' !! l = None /\
    is_list (cells m') L' ([7%positive] ++ []) ([10] ++ []) /\
    only_on [l; 7%positive] (cells ex_mem) (cells m') /\
    same_fns ex_list L' /\ trace m' = []) /\
  list_rem_next ex_list (Some 3%positive) ex_mem = Ok ((-1, None, ex_list), ex_mem).
Proof.
  split.
  - apply (list_rem_next_correct ex_list [7%positive; 3%positive] [10; 20] 1 ex_mem ex_is_list);
      [simpl; lia|vm_compute; discriminate].
  - apply (list_rem_next_correct ex_list [7%positive; 3%positive] [10; 20] 2 ex_mem ex_is_list);
      [simpl; lia|vm_compute; discriminate].
Defined.

Lemma list_ins_rem_roundtrip_witness :
  exists L1 m1 m2,
    list_ins_next ex_list NULL 15 ex_mem = Ok ((0, L1), m1) /\
    list_rem_next L1 NULL m1 = Ok ((0, Some 15, ex_list), m2) /\
    cells m2 = ex_cells.
Proof.
  apply (list_ins_rem_roundtrip ex_list [7%positive; 3%positive] [10; 20] 0 15 ex_mem ex_is_list);
    [simpl; lia|reflexivity|reflexivity].
Defined.

Lemma list_destroy_correct_witness :
  exists m',
    list_destroy ex_list ex_mem = Ok (list_zero, m') /\
    (forall l, cells m' !! l
       = if decide (l ∈ [7%positive; 3%positive]) then None else ex_cells !! l) /\
    trace m' = [10; 20].
Proof.
  apply (list_destroy_correct ex_list [7%positive; 3%positive] [10; 20] ex_mem ex_is_list).
  vm_compute; discriminate.
Defined.
