(* ===== verification/CStackQueue.v ===== *)
(** * The stack and the queue over the linked list

    [src/lib/_structs/stack.c] and [src/lib/threadpool/queue.c]
    ([src/lib/_structs/queue.c] is the same text, but its [list.h] lacks the
    macro [list_tail] it uses).  The class [Discipline] states what such a
    container promises to its clients; the refinement theorem over sequences of
    operations is proved against the class, and the two programs are its
    instances. *)

From stdpp Require Import prelude gmap list.
From Stdlib Require Import ZArith Lia.
From S2P Require Import Prelude CList.

(** ** The programs *)

Section ops.
Context {D : Type}.

Definition stack_push (stack : List D) (data : D) : M (lmem D) (Z * List D) :=
  list_ins_next stack NULL data.

Definition stack_pop (stack : List D) : M (lmem D) (Z * option D * List D) :=
  list_rem_next stack NULL.

(** The value is NULL or the datum at the head. *)
Definition stack_peek (stack : List D) : M (lmem D) (option D) :=
  match l_head stack with
  | None => mret None
  | Some _ => hd ← load (l_head stack); mret (Some (e_data hd))
  end.

Definition queue_enqueue (queue : List D) (data : D) : M (lmem D) (Z * List D) :=
  list_ins_next queue (l_tail queue) data.

Definition queue_dequeue (queue : List D) : M (lmem D) (Z * option D * List D) :=
  list_rem_next queue NULL.

Definition queue_peek (queue : List D) : M (lmem D) (option D) :=
  match l_head queue with
  | None => mret None
  | Some _ => hd ← load (l_head queue); mret (Some (e_data hd))
  end.

End ops.

(** ** The contract *)

(** Removing from the front of the sequence. *)
Definition take_front {D} (xs : list D) : (Z * option D) * list D :=
  match xs with
  | [] => ((-1, None), [])
  | x :: xs => ((0, Some x), xs)
  end.

(** A container over a list object: where a new datum goes ([place]), and that
    [put] and [take] implement it for every list object. *)
Class Discipline (D : Type) := {
  put : List D -> D -> M (lmem D) (Z * List D);
  take1 : List D -> M (lmem D) (Z * option D * List D);
  place : list D -> D -> list D;
  place_length xs d : length (place xs d) = S (length xs);
  put_ok L ls xs d m :
    is_list (cells m) L ls xs -> Z.of_nat (length xs) < INT_MAX ->
    wp (put L d) (fun r m' =>
      oracle m' = tail (oracle m) /\
      if may_alloc m
      then r.1 = 0 /\ exists ls', is_list (cells m') r.2 ls' (place xs d)
      else r.1 = -1 /\ is_list (cells m') r.2 ls xs) m;
  take_ok L ls xs m :
    is_list (cells m) L ls xs -> Z.of_nat (length xs) <= INT_MAX ->
    wp (take1 L) (fun r m' =>
      oracle m' = oracle m /\
      r.1 = (take_front xs).1 /\
      exists ls', is_list (cells m') r.2 ls' (take_front xs).2) m;
}.

Section instances.
Context {D : Type}.

Lemma rem_head_take_front (L : List D) ls xs m :
  is_list (cells m) L ls xs -> Z.of_nat (length xs) <= INT_MAX ->
  wp (list_rem_next L NULL) (fun r m' =>
    oracle m' = oracle m /\ r.1 = (take_front xs).1 /\
    exists ls', is_list (cells m') r.2 ls' (take_front xs).2) m.
Proof.
  intros Hl Hsz. pose proof (is_list_length _ _ _ _ Hl).
  destruct xs as [|x xs], ls as [|l ls]; try done.
  - eapply wp_mono; [apply list_rem_next_empty_spec; by destruct Hl|].
    intros r m' [-> ->]. eauto.
  - eapply wp_mono; [by eapply list_rem_next_head_spec|].
    intros r m' (? & ? & ? & ? & ? & ? & ?). eauto.
Qed.

Program Definition stack_discipline : Discipline D := {|
  put := stack_push;
  take1 := stack_pop;
  place xs d := d :: xs;
|}.
Next Obligation. done. Qed.
Next Obligation.
  intros L ls xs d m Hl Hsz.
  eapply wp_mono; [by apply (list_ins_next_spec L [] ls [] xs)|].
  intros [r L'] m' (? & ? & ? & H). split; [done|]. destruct (may_alloc m); simpl in *.
  - destruct H as (? & l & ? & ? & ?). eauto.
  - destruct H as [? ->]. simplify_eq. done.
Qed.
Next Obligation. intros. by eapply rem_head_take_front. Qed.

Program Definition queue_discipline : Discipline D := {|
  put := queue_enqueue;
  take1 := queue_dequeue;
  place xs d := xs ++ [d];
|}.
Next Obligation. intros; simpl. rewrite length_app. simpl. lia. Qed.
Next Obligation.
  intros L ls xs d m Hl Hsz. unfold queue_enqueue.
  pose proof (is_list_length _ _ _ _ Hl).
  rewrite (il_tail _ _ _ _ Hl).
  eapply wp_mono; [eapply (list_ins_next_spec L ls [] xs []); by rewrite ?app_nil_r|].
  intros [r L'] m' (? & ? & ? & H'). split; [done|]. destruct (may_alloc m); simpl in *.
  - destruct H' as (? & l & ? & ? & ?). eauto.
  - destruct H' as [? ->]. simplify_eq. done.
Qed.
Next Obligation. intros. by eapply rem_head_take_front. Qed.

End instances.

(** ** Sequences of operations *)

Inductive op (D : Type) := Put (d : D) | Take.
Arguments Put {D}.
Arguments Take {D}.

(** The abstract container: a sequence, and the allocator's answers. *)
Definition abs_step {D} (pl : list D -> D -> list D) (o : op D) (s : list D * list bool)
  : (Z * option D) * (list D * list bool) :=
  match o with
  | Put d =>
      if default true (head s.2) then ((0, None), (pl s.1 d, tail s.2))
      else ((-1, None), (s.1, tail s.2))
  | Take => ((take_front s.1).1, ((take_front s.1).2, s.2))
  end.

Fixpoint abs_run {D} (pl : list D -> D -> list D) (os : list (op D)) (s : list D * list bool)
  : list (Z * option D) * (list D * list bool) :=
  match os with
  | [] => ([], s)
  | o :: os =>
      let '(r, s) := abs_step pl o s in
      let '(rs, s) := abs_run pl os s in (r :: rs, s)
  end.

Section run.
Context {D : Type}.

(** One operation on the container, the list object being part of the state. *)
Definition exec `{Discipline D} (o : op D) : M (List D * lmem D) (Z * option D) :=
  fun '(L, m) =>
    match o with
    | Put d =>
        match put L d m with
        | Ok ((r, L'), m') => Ok ((r, None), (L', m'))
        | Err f => Err f
        | NoFuel => NoFuel
        end
    | Take =>
        match take1 L m with
        | Ok ((r, d, L'), m') => Ok ((r, d), (L', m'))
        | Err f => Err f
        | NoFuel => NoFuel
        end
    end.

(** The simulation relation. *)
Definition sim (c : List D * lmem D) (a : list D * list bool) : Prop :=
  (exists ls, is_list (cells c.2) c.1 ls a.1) /\ oracle c.2 = a.2.

Lemma exec_sim `{Discipline D} o c a :
  sim c a -> Z.of_nat (length a.1) < INT_MAX ->
  wp (exec o) (fun r c' => r = (abs_step place o a).1 /\ sim c' (abs_step place o a).2) c.
Proof.
  destruct c as [L m], a as [xs or]. intros [[ls Hl] Ho] Hsz. simpl in *. subst or.
  unfold wp, exec. destruct o as [d|].
  - destruct (wp_inv _ _ _ (put_ok L ls xs d m Hl Hsz)) as ([r L'] & m' & -> & Hor & Hp).
    simpl in *. unfold may_alloc in Hp. destruct (default true (head (oracle m))); simpl.
    + destruct Hp as (-> & ls' & ?). split; [done|]. split; eauto.
    + destruct Hp as [-> ?]. split; [done|]. split; eauto.
  - destruct (wp_inv _ _ _ (take_ok L ls xs m Hl ltac:(lia)))
      as ([[r od] L'] & m' & -> & Hor & Hr & ls' & ?).
    simpl in *. split; [done|]. split; simpl; eauto.
Qed.

Lemma abs_step_length `{Discipline D} o (a : list D * list bool) :
  (length (abs_step place o a).2.1 <= S (length a.1))%nat.
Proof.
  destruct o as [d|]; simpl.
  - destruct (default true (head a.2)); simpl; [rewrite place_length; lia|lia].
  - destruct a as [[|x xs] ?]; simpl; lia.
Qed.

(** Any sequence of operations gives the results of the abstract container. *)
Lemma run_sim `{Discipline D} os c a :
  sim c a -> Z.of_nat (length a.1 + length os) <= INT_MAX ->
  wp (run exec os)
     (fun rs c' => rs = (abs_run place os a).1 /\ sim c' (abs_run place os a).2) c.
Proof.
  revert c a. induction os as [|o os IH]; intros c a Hs Hlen; simpl.
  { by apply wp_ret. }
  simpl in Hlen. wp_step. eapply wp_mono; [apply exec_sim; [done|lia]|].
  intros r c1 [-> Hs1]. pose proof (abs_step_length o a).
  destruct (abs_step place o a) as [r a1]. simpl in *. wp_step.
  eapply wp_mono; [apply (IH c1 a1); [done|lia]|].
  intros rs c2 [-> Hs2]. apply wp_ret.
  by destruct (abs_run place os a1).
Qed.

(** Any sequence of [stack_push] and [stack_pop] on a fresh stack, with any
    pattern of [malloc] failures, returns what a LIFO sequence returns, and the
    final list object holds the final sequence. *)
Theorem stack_refines (L0 : List D) b m (os : list (op D)) :
  Z.of_nat (length os) <= INT_MAX ->
  let '(rs, (xs, or)) := abs_run (fun xs d => d :: xs) os ([], oracle m) in
  exists L' m' ls,
    run (exec (H := stack_discipline)) os (list_init L0 b, m) = Ok (rs, (L', m')) /\
    is_list (cells m') L' ls xs /\ oracle m' = or.
Proof.
  intros Hlen.
  destruct (wp_inv _ _ _ (run_sim (H := stack_discipline) os (list_init L0 b, m) ([], oracle m)
    ltac:(split; [exists []; apply is_list_init|done]) Hlen)) as (rs & [L' m'] & Hrun & -> & Hs).
  simpl in Hs. destruct (abs_run _ os _) as [rs [xs or]]. destruct Hs as [[ls ?] ?].
  simpl in *. eauto 10.
Qed.

(** C26: any sequence of [queue_enqueue] and [queue_dequeue] on a fresh queue,
    with any pattern of [malloc] failures, returns what a FIFO sequence
    returns, and the final list object holds the final sequence. *)
Theorem queue_refines (L0 : List D) b m (os : list (op D)) :
  Z.of_nat (length os) <= INT_MAX ->
  let '(rs, (xs, or)) := abs_run (fun xs d => xs ++ [d]) os ([], oracle m) in
  exists L' m' ls,
    run (exec (H := queue_discipline)) os (list_init L0 b, m) = Ok (rs, (L', m')) /\
    is_list (cells m') L' ls xs /\ oracle m' = or.
Proof.
  intros Hlen.
  destruct (wp_inv _ _ _ (run_sim (H := queue_discipline) os (list_init L0 b, m) ([], oracle m)
    ltac:(split; [exists []; apply is_list_init|done]) Hlen)) as (rs & [L' m'] & Hrun & -> & Hs).
  simpl in Hs. destruct (abs_run _ os _) as [rs [xs or]]. destruct Hs as [[ls ?] ?].
  simpl in *. eauto 10.
Qed.

(** Peeking shows the head of the sequence and changes nothing. *)
Lemma queue_peek_spec (L : List D) ls xs m :
  is_list (cells m) L ls xs -> queue_peek L m = Ok (head xs, m).
Proof.
  intros [Hc _ _ _]. unfold queue_peek.
  destruct ls as [|l ls], xs as [|x xs]; simpl in Hc; try done; [by rewrite Hc|].
  destruct Hc as (-> & nx & Hl & _). unfold mbind, M_bind, load. by rewrite Hl.
Qed.

End run.

Lemma stack_refines_witness :
  exists L' m' ls,
    run (exec (H := stack_discipline)) [Put 1; Put 2; Put 3; Take; Take]
      (list_init list_zero false, Store ∅ [true; false] [])
    = Ok ([(0, None); (-1, None); (0, None); (0, Some 3); (0, Some 1)], (L', m')) /\
    is_list (cells m') L' ls [] /\ oracle m' = [].
Proof.
  apply (stack_refines list_zero false (Store ∅ [true; false] [])
           [Put 1; Put 2; Put 3; Take; Take]).
  vm_compute; discriminate.
Defined.

Lemma queue_refines_witness :
  exists L' m' ls,
    run (exec (H := queue_discipline)) [Put 1; Put 2; Take; Put 3; Take]
      (list_init list_zero false, Store ∅ [] [])
    = Ok ([(0, None); (0, None); (0, Some 1); (0, None); (0, Some 2)], (L', m')) /\
    is_list (cells m') L' ls [3] /\ oracle m' = [].
Proof.
  apply (queue_refines list_zero false (Store ∅ [] []) [Put 1; Put 2; Take; Put 3; Take]).
  vm_compute; discriminate.
Defined.
