(* ===== verification/CHashTable.v ===== *)
(** * The chained hash table of [src/lib/_structs/chtbl.c]

    The operations over a table of [List] objects that share one store, the
    class [Hashing] that states what the table needs from the [h] and [match]
    its client passes, and the refinement of every operation to a finite map. *)

From stdpp Require Import prelude gmap list fin_maps strings.
From Stdlib Require Import ZArith Lia.
From S2P Require Import Prelude CList.

(** ** Data: chtbl.h, and [SweetListKv] of list.h *)

(** Function pointers and the table pointer may be NULL ([None]); [destroy] is
    modelled as in [List]. *)
Record CHTbl (K D : Type) := MkCHTbl {
  t_buckets : Z;
  t_h : option (K -> Z);
  t_match : option (D -> D -> Z);
  t_destroy : bool;
  t_size : Z;
  t_table : option (list (List D));
}.
Arguments MkCHTbl {K D}.
Arguments t_buckets {K D}.
Arguments t_h {K D}.
Arguments t_match {K D}.
Arguments t_destroy {K D}.
Arguments t_size {K D}.
Arguments t_table {K D}.

(** [value] is [None] while the pointer is indeterminate. *)
Record SweetListKv := Kv {
  kv_key : string;
  kv_value : option string;
}.

#[global] Instance SweetListKv_eq_dec : EqDecision SweetListKv.
Proof. solve_decision. Defined.

Section core.
Context {K D : Type}.
Implicit Types (htbl : CHTbl K D).

Definition set_t_size (z : Z) htbl :=
  MkCHTbl (t_buckets htbl) (t_h htbl) (t_match htbl) (t_destroy htbl) z (t_table htbl).
Definition set_table (t : option (list (List D))) htbl :=
  MkCHTbl (t_buckets htbl) (t_h htbl) (t_match htbl) (t_destroy htbl) (t_size htbl) t.

(** [memset(htbl, 0, sizeof(CHTbl))] *)
Definition chtbl_zero : CHTbl K D := MkCHTbl 0 None None false 0 None.

(** [htbl->table[i]] as a value and as the target of an assignment. *)
Definition table_get htbl (i : Z) : M (lmem D) (List D) :=
  match t_table htbl with
  | None => throw NullDeref
  | Some tab =>
      if i <? 0 then throw OutOfBounds
      else match tab !! Z.to_nat i with Some L => mret L | None => throw OutOfBounds end
  end.

Definition table_set htbl (i : Z) (L : List D) : CHTbl K D :=
  set_table ((fun tab => <[Z.to_nat i := L]> tab) <$> t_table htbl) htbl.

(** The [for] loop of the lookups: the datum of the first element that
    [match]es, [None] when the end of the bucket is reached. *)
Fixpoint lookup_loop (fuel : nat) (mt : D -> Z) (element : ptr) : M (lmem D) (option D) :=
  match element with
  | None => mret None
  | Some _ =>
      match fuel with
      | O => no_fuel
      | S fuel =>
          el ← load element;
          if mt (e_data el) =? 0 then lookup_loop fuel mt (e_next el)
          else mret (Some (e_data el))
      end
  end.

(** The [for] loop of the removals: [prev] at the first element that
    [match]es. *)
Fixpoint remove_loop (fuel : nat) (mt : D -> Z) (prev element : ptr)
  : M (lmem D) (option ptr) :=
  match element with
  | None => mret None
  | Some _ =>
      match fuel with
      | O => no_fuel
      | S fuel =>
          el ← load element;
          if mt (e_data el) =? 0 then remove_loop fuel mt element (e_next el)
          else mret (Some prev)
      end
  end.

(** [chtbl_init] and [chtbl_init_kv] have the same body.  [junk] is what the
    fresh table's [List] objects hold. *)
Definition init_body htbl (junk : List D) (buckets : Z) (h : option (K -> Z))
    (mt : option (D -> D -> Z)) (destroy : bool) : M (lmem D) (Z * CHTbl K D) :=
  ok ← malloc_array buckets;
  if ok : bool then
    let table :=
      (fun L => list_init L destroy) <$> replicate (Z.to_nat buckets) junk in
    mret (0, MkCHTbl buckets h mt destroy 0 (Some table))
  else mret (-1, set_table None htbl).

(** The bodies the plain and the [_kv] operations share: [key] is the argument
    of [h], [data] that of [match]. *)
Definition bucket_of htbl (key : K) : M (lmem D) Z :=
  h ← fn (t_h htbl); int_rem (h key) (t_buckets htbl).

(** The second component is what [*data] becomes, if it is assigned. *)
Definition lookup_body htbl (key : K) (data : D) : M (lmem D) (Z * option D) :=
  bucket ← bucket_of htbl key;
  L ← table_get htbl bucket;
  mt ← fn (t_match htbl);
  fuel ← gets walk_fuel;
  o ← lookup_loop fuel (mt data) (l_head L);
  match o with
  | Some d => mret (0, Some d)
  | None => mret (-1, None)
  end.

Definition insert_body htbl (key : K) (data : D) : M (lmem D) (Z * CHTbl K D) :=
  '(r, _) ← lookup_body htbl key data;
  if r =? 0 then mret (1, htbl)
  else
    bucket ← bucket_of htbl key;
    L ← table_get htbl bucket;
    '(retval, L) ← list_ins_next L NULL data;
    let htbl := table_set htbl bucket L in
    if retval =? 0 then
      sz ← int_of (t_size htbl + 1);
      mret (retval, set_t_size sz htbl)
    else mret (retval, htbl).

Definition remove_body htbl (key : K) (data : D) : M (lmem D) (Z * option D * CHTbl K D) :=
  bucket ← bucket_of htbl key;
  L ← table_get htbl bucket;
  mt ← fn (t_match htbl);
  fuel ← gets walk_fuel;
  o ← remove_loop fuel (mt data) NULL (l_head L);
  match o with
  | None => mret (-1, None, htbl)
  | Some prev =>
      '(r, d, L) ← list_rem_next L prev;
      let htbl := table_set htbl bucket L in
      if r =? 0 then
        sz ← int_of (t_size htbl - 1);
        mret (0, d, set_t_size sz htbl)
      else mret (-1, d, htbl)
  end.

(** [for (i = 0; i < htbl->buckets; i++) list_destroy(&htbl->table[i])] *)
Fixpoint destroy_loop (fuel : nat) (i : Z) htbl : M (lmem D) (CHTbl K D) :=
  if i <? t_buckets htbl then
    match fuel with
    | O => no_fuel
    | S fuel =>
        L ← table_get htbl i;
        L ← list_destroy L;
        destroy_loop fuel (i + 1) (table_set htbl i L)
    end
  else mret htbl.

Definition chtbl_destroy htbl : M (lmem D) (CHTbl K D) :=
  _ ← destroy_loop (Z.to_nat (t_buckets htbl)) 0 htbl;
  mret chtbl_zero.

End core.

(** ** The operations of chtbl.c *)

Section ops.
Context {D : Type}.

Definition chtbl_init (htbl : CHTbl D D) (junk : List D) (buckets : Z)
    (h : option (D -> Z)) (mt : option (D -> D -> Z)) (destroy : bool)
  : M (lmem D) (Z * CHTbl D D) :=
  init_body htbl junk buckets h mt destroy.

Definition chtbl_lookup (htbl : CHTbl D D) (data : D) : M (lmem D) (Z * option D) :=
  lookup_body htbl data data.

Definition chtbl_insert (htbl : CHTbl D D) (data : D) : M (lmem D) (Z * CHTbl D D) :=
  insert_body htbl data data.

Definition chtbl_remove (htbl : CHTbl D D) (data : D)
  : M (lmem D) (Z * option D * CHTbl D D) :=
  remove_body htbl data data.

End ops.

Definition chtbl_init_kv (htbl : CHTbl string SweetListKv) (junk : List SweetListKv)
    (buckets : Z) (h : option (string -> Z))
    (mt : option (SweetListKv -> SweetListKv -> Z)) (destroy : bool)
  : M (lmem SweetListKv) (Z * CHTbl string SweetListKv) :=
  init_body htbl junk buckets h mt destroy.

Definition chtbl_lookup_kv (htbl : CHTbl string SweetListKv) (data : SweetListKv)
  : M (lmem SweetListKv) (Z * option SweetListKv) :=
  lookup_body htbl (kv_key data) data.

Definition chtbl_insert_kv (htbl : CHTbl string SweetListKv) (data : SweetListKv)
  : M (lmem SweetListKv) (Z * CHTbl string SweetListKv) :=
  insert_body htbl (kv_key data) data.

Definition chtbl_remove_kv (htbl : CHTbl string SweetListKv) (data : SweetListKv)
  : M (lmem SweetListKv) (Z * option SweetListKv * CHTbl string SweetListKv) :=
  remove_body htbl (kv_key data) data.

(** The stored entry, or the caller's own [*data] when there is none. *)
Definition chtbl_find_kv (htbl : CHTbl string SweetListKv) (data : SweetListKv)
  : M (lmem SweetListKv) SweetListKv :=
  bucket ← bucket_of htbl (kv_key data);
  L ← table_get htbl bucket;
  mt ← fn (t_match htbl);
  fuel ← gets walk_fuel;
  o ← lookup_loop fuel (mt data) (l_head L);
  mret (default data o).

(** ** What the table needs from its client *)

(** [h] and [match] as the client passes them, the key [Q] they identify a
    datum by, and what makes them fit together: [h] only depends on the key,
    is not negative, and [match] holds exactly of data with the same key. *)
Class Hashing (K D Q : Type) := {
  arg_of : D -> K;
  key_of : D -> Q;
  h_fn : K -> Z;
  match_fn : D -> D -> Z;
  h_key : Q -> Z;
  h_fn_key d : h_fn (arg_of d) = h_key (key_of d);
  h_key_nonneg q : 0 <= h_key q;
  match_key x y : match_fn x y <> 0 <-> key_of x = key_of y;
}.

(** ** Representation *)

Section rep.
Context {K D Q : Type} `{HQ : Hashing K D Q} `{Countable Q}.
Implicit Types (hp : gmap loc (ListElmt D)) (T : CHTbl K D)
  (reps : list (list loc * list D)) (mp : gmap Q D).

(** The index of the bucket of a key, for [n] buckets. *)
Definition bucket_ix (n : nat) (q : Q) : nat := Z.to_nat (Z.rem (h_key q) (Z.of_nat n)).

(** All data of the table, bucket after bucket. *)
Definition elems reps : list D := concat (reps.*2).

(** The lists of the buckets are well formed and share no cell; every datum is
    in the bucket of its key. *)
Record buckets_ok hp (destroy : bool) (tab : list (List D)) reps : Prop := {
  bo_length : length tab = length reps;
  bo_list i L r : tab !! i = Some L -> reps !! i = Some r ->
    is_list hp L r.1 r.2 /\ l_destroy L = destroy;
  bo_disj i j r s : reps !! i = Some r -> reps !! j = Some s -> i <> j -> r.1 ## s.1;
  bo_home i r d : reps !! i = Some r -> d ∈ r.2 -> bucket_ix (length tab) (key_of d) = i;
}.

(** The table [T] represents the finite map [mp]. *)
Record is_table hp T reps mp : Prop := {
  it_h : t_h T = Some h_fn;
  it_match : t_match T = Some match_fn;
  it_table : exists tab, t_table T = Some tab /\ (0 < length tab)%nat /\
    t_buckets T = Z.of_nat (length tab) /\ buckets_ok hp (t_destroy T) tab reps;
  it_size : t_size T = Z.of_nat (length (elems reps));
  it_keys : NoDup (key_of <$> elems reps);
  it_map : mp = list_to_map ((fun d => (key_of d, d)) <$> elems reps);
}.

Lemma elems_insert reps i ls xs ls' xs' :
  reps !! i = Some (ls, xs) ->
  elems (<[i := (ls', xs')]> reps) ++ xs ≡ₚ elems reps ++ xs'.
Proof.
  intros Hi. unfold elems.
  rewrite <- (take_drop_middle reps i _ Hi) at 2.
  rewrite insert_take_drop by (by eapply lookup_lt_Some).
  rewrite !fmap_app, !concat_app. simpl. solve_Permutation.
Qed.

Lemma bucket_length reps i ls xs :
  reps !! i = Some (ls, xs) -> (length xs <= length (elems reps))%nat.
Proof.
  intros Hr. apply submseteq_length. unfold elems.
  rewrite <- (take_drop_middle reps i _ Hr), fmap_app, concat_app. simpl.
  apply submseteq_inserts_l, submseteq_inserts_r. done.
Qed.

Lemma elem_of_elems reps d :
  d ∈ elems reps <-> exists i r, reps !! i = Some r /\ d ∈ r.2.
Proof.
  unfold elems. rewrite list_elem_of_In, in_concat. split.
  - intros (xs & Hxs & Hd). apply list_elem_of_In, list_elem_of_fmap in Hxs as (r & -> & Hr).
    apply list_elem_of_lookup in Hr as [i Hi]. exists i, r. by rewrite list_elem_of_In.
  - intros (i & r & Hi & Hd). exists r.2. split; [|by apply list_elem_of_In].
    apply list_elem_of_In, list_elem_of_fmap. exists r. split; [done|].
    by eapply list_elem_of_lookup_2.
Qed.

(** Lookups of the represented map. *)
Lemma is_table_lookup hp T reps mp q d :
  is_table hp T reps mp -> mp !! q = Some d <-> d ∈ elems reps /\ key_of d = q.
Proof.
  intros []. subst mp. rewrite <- elem_of_list_to_map.
  - rewrite list_elem_of_fmap. naive_solver.
  - by rewrite <- list_fmap_compose.
Qed.

Lemma is_table_lookup_None hp T reps mp q :
  is_table hp T reps mp -> mp !! q = None <-> forall d, d ∈ elems reps -> key_of d <> q.
Proof.
  intros Ht. rewrite eq_None_not_Some. unfold is_Some.
  setoid_rewrite (is_table_lookup _ _ _ _ _ _ Ht). naive_solver.
Qed.

(** What a walk along one bucket finds. *)
Lemma lookup_loop_spec mt p ls xs (m : lmem D) fuel :
  lseg (cells m) p ls xs NULL -> (length ls < fuel)%nat ->
  lookup_loop fuel mt p m = Ok (List.find (fun x => negb (mt x =? 0)) xs, m).
Proof.
  revert p ls xs. induction fuel as [|fuel IH]; intros p ls xs Hs Hf; [lia|].
  destruct ls as [|l ls], xs as [|x xs]; simpl in Hs; try done; [by subst p|].
  destruct Hs as (-> & nx & Hl & Hs). simpl. unfold mbind, M_bind, load. rewrite Hl. simpl.
  destruct (mt x =? 0); simpl; [|done]. apply (IH _ ls); [done|simpl in Hf; lia].
Qed.

(** [List.find] with its position. *)
Lemma find_split {A} (f : A -> bool) xs x :
  List.find f xs = Some x ->
  exists xs1 xs2, xs = xs1 ++ x :: xs2 /\ f x = true /\ Forall (fun y => f y = false) xs1.
Proof.
  induction xs as [|y xs IH]; simpl; [done|]. destruct (f y) eqn:Hy.
  - intros [= ->]. by exists [], xs.
  - intros (xs1 & xs2 & -> & ? & ?)%IH. exists (y :: xs1), xs2. by repeat constructor.
Qed.

Lemma remove_loop_spec mt prev p ls1 ls2 xs1 x xs2 (m : lmem D) fuel :
  lseg (cells m) p (ls1 ++ ls2) (xs1 ++ x :: xs2) NULL ->
  length ls1 = length xs1 -> (length (ls1 ++ ls2) < fuel)%nat ->
  mt x <> 0 -> Forall (fun y => mt y = 0) xs1 ->
  remove_loop fuel mt prev p m
    = Ok (Some (if decide (ls1 = []) then prev else last ls1), m).
Proof.
  revert prev p ls1 xs1. induction fuel as [|fuel IH]; intros prev p ls1 xs1 Hs Hlen Hf Hx Hxs; [lia|].
  destruct ls1 as [|l ls1], xs1 as [|y xs1]; simpl in Hlen; try done.
  - destruct ls2 as [|l ls2]; [done|]. destruct Hs as (-> & nx & Hl & Hs). simpl.
    unfold mbind, M_bind, load. rewrite Hl. simpl. by rewrite (proj2 (Z.eqb_neq _ _)).
  - apply Forall_cons in Hxs as [Hy Hxs]. destruct Hs as (-> & nx & Hl & Hs). simpl.
    unfold mbind, M_bind, load. rewrite Hl. simpl. rewrite Hy. simpl.
    rewrite (IH _ _ ls1 xs1); [|done|lia|simpl in Hf; lia|done|done].
    case_decide as E; [by rewrite E|]. by destruct ls1.
Qed.

Lemma remove_loop_none mt prev p ls xs (m : lmem D) fuel :
  lseg (cells m) p ls xs NULL -> (length ls < fuel)%nat ->
  Forall (fun y => mt y = 0) xs ->
  remove_loop fuel mt prev p m = Ok (None, m).
Proof.
  revert prev p ls xs. induction fuel as [|fuel IH]; intros prev p ls xs Hs Hf Hxs; [lia|].
  destruct ls as [|l ls], xs as [|y xs]; simpl in Hs; try done; [by subst p|].
  apply Forall_cons in Hxs as [Hy Hxs]. destruct Hs as (-> & nx & Hl & Hs). simpl.
  unfold mbind, M_bind, load. rewrite Hl. simpl. rewrite Hy. simpl.
  apply (IH _ _ ls xs); [done|simpl in Hf; lia|done].
Qed.

(** The fuel of a walk is enough for any list in the store. *)
Lemma walk_fuel_enough (L : List D) ls xs (m : lmem D) :
  is_list (cells m) L ls xs -> (length ls < walk_fuel m)%nat.
Proof.
  intros [Hc Hnd _ _]. apply allocated_lt_walk_fuel; [done|].
  intros l Hl. by eapply lseg_lookup.
Qed.

(** The bucket a datum hashes to. *)
Lemma bucket_at hp T reps mp d :
  is_table hp T reps mp ->
  exists tab i L ls xs,
    t_table T = Some tab /\ tab !! i = Some L /\ reps !! i = Some (ls, xs) /\
    is_list hp L ls xs /\ l_destroy L = t_destroy T /\
    bucket_ix (length tab) (key_of d) = i /\
    (forall m, bucket_of T (arg_of d) m = Ok (Z.of_nat i, m)) /\
    (forall m, table_get T (Z.of_nat i) m = Ok (L, m)) /\
    (forall x, x ∈ elems reps -> key_of x = key_of d -> x ∈ xs).
Proof.
  intros [Hh Hm (tab & Htab & Hpos & Hb & Hbo) _ _ _].
  assert (Hix : 0 <= Z.rem (h_key (key_of d)) (Z.of_nat (length tab)) < Z.of_nat (length tab)).
  { apply Z.rem_bound_pos; [apply h_key_nonneg|lia]. }
  set (i := bucket_ix (length tab) (key_of d)).
  assert (Hi : (i < length tab)%nat) by (unfold i, bucket_ix; lia).
  destruct (lookup_lt_is_Some_2 tab i Hi) as [L HL].
  destruct (lookup_lt_is_Some_2 reps i) as [[ls xs] Hr].
  { rewrite <- (bo_length _ _ _ _ Hbo). done. }
  destruct (bo_list _ _ _ _ Hbo i L _ HL Hr) as [Hl Hd].
  exists tab, i, L, ls, xs. split_and!; try done.
  - intros m. unfold bucket_of, fn, int_rem. rewrite Hh, Hb. unfold mbind, M_bind. simpl.
    destruct (Z.eqb_spec (Z.of_nat (length tab)) 0); [lia|].
    destruct (Z.eqb_spec (Z.of_nat (length tab)) (-1)); [lia|].
    rewrite andb_false_r, h_fn_key. unfold i, bucket_ix. rewrite Z2Nat.id; [done|lia].
  - intros m. unfold table_get. rewrite Htab.
    destruct (Z.ltb_spec (Z.of_nat i) 0); [lia|]. by rewrite Nat2Z.id, HL.
  - intros x (j & r & Hj & Hx)%elem_of_elems Hk.
    pose proof (bo_home _ _ _ _ Hbo j r x Hj Hx) as Hij. rewrite Hk in Hij.
    fold i in Hij. subst j. by simplify_eq.
Qed.

(** Searching the bucket of [d] is looking its key up in the map. *)
Lemma find_in_bucket hp T reps mp d i ls xs :
  is_table hp T reps mp -> reps !! i = Some (ls, xs) ->
  (forall x, x ∈ elems reps -> key_of x = key_of d -> x ∈ xs) ->
  List.find (fun x => negb (match_fn d x =? 0)) xs = mp !! key_of d.
Proof.
  intros Ht Hi Hin. destruct (List.find _ xs) as [x|] eqn:Hf; symmetry.
  - apply List.find_some in Hf as [Hx Hm].
    apply negb_true_iff, Z.eqb_neq, match_key in Hm.
    apply (is_table_lookup _ _ _ _ _ _ Ht). split; [|done].
    apply elem_of_elems. exists i, (ls, xs). by rewrite list_elem_of_In.
  - apply (is_table_lookup_None _ _ _ _ _ Ht). intros x Hx Hk.
    pose proof (Hin x Hx Hk) as Hx'%list_elem_of_In.
    pose proof (List.find_none _ _ Hf x Hx') as Hn.
    apply negb_false_iff, Z.eqb_eq in Hn. symmetry in Hk.
    by apply match_key in Hk.
Qed.

Lemma lookup_body_spec T reps mp d (m : lmem D) :
  is_table (cells m) T reps mp ->
  lookup_body T (arg_of d) d m
    = Ok (match mp !! key_of d with Some x => (0, Some x) | None => (-1, None) end, m).
Proof.
  intros Ht. destruct (bucket_at _ _ _ _ d Ht)
    as (tab & i & L & ls & xs & Htab & HL & Hr & Hl & Hd & _ & Hb & Hg & Hin).
  unfold lookup_body.
  erewrite bind_ok by apply Hb. erewrite bind_ok by apply Hg.
  erewrite bind_ok by (apply fn_some, Ht). erewrite bind_ok by reflexivity.
  erewrite bind_ok.
  2: { apply (lookup_loop_spec _ _ ls xs); [apply Hl|by eapply walk_fuel_enough]. }
  erewrite find_in_bucket by done. by destruct (mp !! key_of d).
Qed.

(** Replacing one bucket, when the store changes only in its cells and in
    memory that was not allocated. *)
Lemma buckets_ok_set hp hp' b tab reps i L L' ls xs ls' xs' ks :
  buckets_ok hp b tab reps -> tab !! i = Some L -> reps !! i = Some (ls, xs) ->
  is_list hp' L' ls' xs' -> l_destroy L' = b ->
  only_on ks hp hp' ->
  (forall k, k ∈ ks -> k ∈ ls \/ hp !! k = None) ->
  (forall k, k ∈ ls' -> k ∈ ls \/ hp !! k = None) ->
  (forall d, d ∈ xs' -> bucket_ix (length tab) (key_of d) = i) ->
  buckets_ok hp' b (<[i := L']> tab) (<[i := (ls', xs')]> reps).
Proof.
  intros [Hlen Hlist Hdisj Hhome] HL Hr Hl' Hd Hon Hks Hls Hx.
  pose proof (lookup_lt_Some _ _ _ HL). pose proof (lookup_lt_Some _ _ _ Hr).
  (* cells of another bucket are not in [ls] and are allocated *)
  assert (Hother : forall j r k, reps !! j = Some r -> j <> i -> k ∈ r.1 ->
            ~ (k ∈ ls \/ hp !! k = None)).
  { intros j r k Hj Hne Hk [Hin|Hnone].
    - exact (Hdisj j i _ _ Hj Hr Hne k Hk Hin).
    - destruct (lookup_lt_is_Some_2 tab j) as [Lj HLj].
      { rewrite Hlen. by eapply lookup_lt_Some. }
      destruct (Hlist j Lj r HLj Hj) as [Hj' _].
      by destruct (is_list_fresh _ _ _ _ _ Hj' Hnone). }
  split.
  - by rewrite !length_insert.
  - intros j Lj r. rewrite !list_lookup_insert_Some.
    intros [(-> & -> & _)|[Hne HLj]] [(? & <- & _)|[Hne' Hj]]; try done.
    destruct (Hlist j Lj r HLj Hj) as [Hj' ?]. split; [|done].
    eapply is_list_only_on; [done| |done].
    intros k Hk Hk'. by apply (Hother j r k Hj ltac:(done) Hk), Hks.
  - intros j1 j2 r s. rewrite !list_lookup_insert_Some.
    intros [(<- & <- & _)|[Hne1 Hj1]] [(<- & <- & _)|[Hne2 Hj2]] Hne; try done.
    + intros k Hk1 Hk2. apply (Hother j2 s k Hj2 ltac:(done) Hk2). auto.
    + intros k Hk1 Hk2. apply (Hother j1 r k Hj1 ltac:(done) Hk1). auto.
    + eauto.
  - intros j r d. rewrite length_insert, list_lookup_insert_Some.
    intros [(<- & <- & _)|[Hne Hj]] Hin; [by apply Hx|by eapply Hhome].
Qed.

Definition kvs (xs : list D) : list (Q * D) := (fun d => (key_of d, d)) <$> xs.

Lemma is_table_set hp hp' T reps mp tab i L L' ls xs ls' xs' ks xs2 :
  is_table hp T reps mp -> t_table T = Some tab ->
  tab !! i = Some L -> reps !! i = Some (ls, xs) ->
  is_list hp' L' ls' xs' -> l_destroy L' = t_destroy T ->
  only_on ks hp hp' ->
  (forall k, k ∈ ks -> k ∈ ls \/ hp !! k = None) ->
  (forall k, k ∈ ls' -> k ∈ ls \/ hp !! k = None) ->
  (forall d, d ∈ xs' -> bucket_ix (length tab) (key_of d) = i) ->
  elems (<[i := (ls', xs')]> reps) ≡ₚ xs2 -> NoDup (key_of <$> xs2) ->
  is_table hp' (set_t_size (Z.of_nat (length xs2)) (table_set T (Z.of_nat i) L'))
    (<[i := (ls', xs')]> reps) (list_to_map (kvs xs2)).
Proof.
  intros [Hh Hm (tab' & Htab' & Hpos & Hb & Hbo) _ _ _] Htab HL Hr Hl' Hd Hon Hks Hls Hx Hp Hnd.
  rewrite Htab in Htab'. simplify_eq.
  split; simpl; try done.
  - exists (<[i := L']> tab'). rewrite Htab. simpl. rewrite Nat2Z.id, length_insert.
    split_and!; try done. by eapply buckets_ok_set.
  - by rewrite Hp.
  - by rewrite Hp.
  - unfold kvs. apply list_to_map_proper; [|by rewrite Hp].
    by rewrite <- list_fmap_compose.
Qed.

(** In a represented table a bucket only holds data that hash to it. *)
Lemma is_table_home hp T reps mp tab i r d :
  is_table hp T reps mp -> t_table T = Some tab -> reps !! i = Some r -> d ∈ r.2 ->
  bucket_ix (length tab) (key_of d) = i.
Proof.
  intros [_ _ (tab' & Htab' & _ & _ & Hbo) _ _ _] Htab. simplify_eq. apply Hbo.
Qed.

(** The result of an insertion. *)
Definition insert_post (m : lmem D) T reps mp d (r : Z * CHTbl K D) (m' : lmem D) : Prop :=
  trace m' = trace m /\
  match mp !! key_of d with
  | Some _ => r = (1, T) /\ m' = m
  | None =>
      oracle m' = tail (oracle m) /\
      if may_alloc m then
        r.1 = 0 /\ exists reps', is_table (cells m') r.2 reps' (<[key_of d := d]> mp) /\
          elems reps' ≡ₚ d :: elems reps /\ t_destroy r.2 = t_destroy T
      else r = (-1, T) /\ cells m' = cells m
  end.

Lemma table_set_id T tab i L :
  t_table T = Some tab -> tab !! i = Some L -> table_set T (Z.of_nat i) L = T.
Proof.
  intros Htab HL. unfold table_set, set_table. destruct T; simpl in *. subst.
  simpl. by rewrite Nat2Z.id, list_insert_id.
Qed.

Lemma insert_body_spec T reps mp d (m : lmem D) :
  is_table (cells m) T reps mp -> Z.of_nat (length (elems reps)) < INT_MAX ->
  wp (insert_body T (arg_of d) d) (insert_post m T reps mp d) m.
Proof.
  intros Ht Hsz. destruct (bucket_at _ _ _ _ d Ht)
    as (tab & i & L & ls & xs & Htab & HL & Hr & Hl & Hd & Hix & Hb & Hg & Hin).
  unfold insert_body, insert_post. wp_step.
  eapply wp_intro; [by eapply lookup_body_spec|].
  destruct (mp !! key_of d) as [x|] eqn:Hlk; simpl; [done|].
  wp_step. eapply wp_intro; [apply Hb|]. wp_step. eapply wp_intro; [apply Hg|]. wp_step.
  pose proof (bucket_length _ _ _ _ Hr).
  eapply wp_mono; [apply list_ins_next_head_spec; [done|lia]|].
  intros [r L'] m' (Hor & Htr & [Hmt Hde] & Hpost). simpl in *.
  destruct (may_alloc m) eqn:Ha.
  - destruct Hpost as (-> & l & Hfr & Hl' & Hon). simpl.
    wp_step. apply wp_int_of.
    { rewrite (it_size _ _ _ _ Ht). unfold INT_MIN, INT_MAX in *. lia. }
    apply wp_ret. split_and!; [done|done|done|].
    set (reps' := <[i := (l :: ls, d :: xs)]> reps).
    assert (Hp : elems reps' ≡ₚ d :: elems reps).
    { pose proof (elems_insert reps i ls xs (l :: ls) (d :: xs) Hr) as Hp.
      fold reps' in Hp. apply (Permutation_app_inv_r xs). rewrite Hp. simpl. by rewrite Permutation_middle. }
    exists reps'. split_and!; [|done|done].
    pose proof (is_table_lookup_None _ _ _ _ (key_of d) Ht) as Hnone. rewrite Hlk in Hnone.
    replace (<[key_of d := d]> mp) with (list_to_map (kvs (d :: elems reps)) : gmap Q D).
    2: { rewrite (it_map _ _ _ _ Ht). done. }
    replace (t_size T + 1) with (Z.of_nat (length (d :: elems reps))).
    2: { rewrite (it_size _ _ _ _ Ht). simpl. lia. }
    eapply (is_table_set _ _ _ _ _ tab i L); try done.
    + congruence.
    + set_solver.
    + set_solver.
    + intros x [->|Hx]%elem_of_cons; [done|]. by eapply is_table_home.
    + rewrite fmap_cons. constructor; [|apply Ht].
      intros (x & Hk & Hx)%list_elem_of_fmap. by apply (proj1 Hnone eq_refl x).
  - destruct Hpost as [[= -> ->] Hc]. simpl. apply wp_ret.
    by rewrite (table_set_id T tab).
Qed.

(** The result of a removal. *)
Definition remove_post (m : lmem D) T reps mp d (r : Z * option D * CHTbl K D) (m' : lmem D)
  : Prop :=
  trace m' = trace m /\ oracle m' = oracle m /\
  match mp !! key_of d with
  | None => r = (-1, None, T) /\ m' = m
  | Some x =>
      r.1 = (0, Some x) /\ t_destroy r.2 = t_destroy T /\
      exists reps', is_table (cells m') r.2 reps' (delete (key_of d) mp) /\
        elems reps ≡ₚ x :: elems reps'
  end.

Lemma elems_remove reps i ls ls1 ls2 xs1 x xs2 :
  reps !! i = Some (ls, xs1 ++ x :: xs2) ->
  elems reps ≡ₚ x :: elems (<[i := (ls1 ++ ls2, xs1 ++ xs2)]> reps).
Proof.
  intros Hr. pose proof (elems_insert reps i _ _ (ls1 ++ ls2) (xs1 ++ xs2) Hr) as Hp.
  apply (Permutation_app_inv_r (xs1 ++ xs2)). rewrite <- Hp.
  rewrite <- Permutation_middle. simpl. by rewrite <- Permutation_middle.
Qed.

Lemma kvs_remove (xs ys : list D) x q :
  xs ≡ₚ x :: ys -> NoDup (key_of <$> xs) -> key_of x = q ->
  NoDup (key_of <$> ys) /\
  (list_to_map (kvs ys) : gmap Q D) = delete q (list_to_map (kvs xs)).
Proof.
  intros Hp Hnd <-. rewrite Hp in Hnd. simpl in Hnd.
  apply NoDup_cons in Hnd as [Hni Hnd]. split; [done|].
  rewrite (list_to_map_proper (kvs xs) (kvs (x :: ys))).
  - simpl. rewrite delete_insert_id; [done|].
    apply not_elem_of_list_to_map_1. unfold kvs. by rewrite <- list_fmap_compose.
  - unfold kvs. rewrite <- list_fmap_compose, Hp. by apply NoDup_cons.
  - unfold kvs. by rewrite Hp.
Qed.

Lemma remove_body_spec T reps mp d (m : lmem D) :
  is_table (cells m) T reps mp -> Z.of_nat (length (elems reps)) <= INT_MAX ->
  wp (remove_body T (arg_of d) d) (remove_post m T reps mp d) m.
Proof.
  intros Ht Hsz. destruct (bucket_at _ _ _ _ d Ht)
    as (tab & i & L & ls & xs & Htab & HL & Hr & Hl & Hd & Hix & Hb & Hg & Hin).
  pose proof (find_in_bucket _ _ _ _ _ _ _ _ Ht Hr Hin) as Hfind.
  pose proof (walk_fuel_enough L ls xs m Hl) as Hfuel.
  unfold remove_body, remove_post.
  wp_step. eapply wp_intro; [apply Hb|]. wp_step. eapply wp_intro; [apply Hg|].
  wp_step. eapply wp_intro; [apply fn_some, Ht|]. wp_step. eapply wp_intro; [reflexivity|].
  destruct (mp !! key_of d) as [x|] eqn:Hlk; wp_step.
  - apply find_split in Hfind as (xs1 & xs2 & -> & Hmx%negb_true_iff%Z.eqb_neq & Hxs1).
    pose proof (is_list_length _ _ _ _ Hl) as Hlen. rewrite length_app in Hlen. simpl in Hlen.
    pose proof (bucket_length _ _ _ _ Hr) as Hbl.
    destruct (lookup_lt_is_Some_2 ls (length xs1)) as [l Hli]; [lia|].
    pose proof (take_drop_middle ls _ _ Hli) as Hls.
    set (ls1 := take (length xs1) ls) in *. set (ls2 := drop (S (length xs1)) ls) in *.
    assert (Hlen1 : length ls1 = length xs1) by (unfold ls1; rewrite length_take; lia).
    clearbody ls1 ls2. subst ls.
    eapply wp_intro.
    { eapply (remove_loop_spec _ _ _ ls1 (l :: ls2) xs1 x xs2); [apply Hl|done|done|done|].
      eapply Forall_impl; [apply Hxs1|]. intros y Hy%negb_false_iff%Z.eqb_eq. done. }
    replace (if decide (ls1 = []) then NULL else last ls1) with (last ls1)
      by (by case_decide; subst).
    wp_step. eapply wp_mono; [apply list_rem_next_spec; [done|done|lia]|].
    intros [[r o] L'] m' (Hor & Htr & [_ Hde] & Hro & Hfree & Hl' & Hon). simpl in *.
    simplify_eq. simpl. wp_step. apply wp_int_of.
    { rewrite (it_size _ _ _ _ Ht). unfold INT_MIN, INT_MAX in *. lia. }
    apply wp_ret. split_and!; [done|done|done|done|].
    pose proof (elems_remove reps _ _ ls1 ls2 xs1 x xs2 Hr) as Hp.
    eexists. split; [|exact Hp].
    apply (is_table_lookup _ _ _ _ _ _ Ht) in Hlk as [_ Hkx].
    destruct (kvs_remove _ _ _ _ Hp (it_keys _ _ _ _ Ht) Hkx) as [Hnd Hmap].
    rewrite (it_map _ _ _ _ Ht). fold (kvs (elems reps)). rewrite <- Hmap.
    pose proof (Permutation_length Hp) as Hpl. simpl in Hpl.
    replace (t_size T - 1) with (Z.of_nat (length
      (elems (<[bucket_ix (length tab) (key_of d):=(ls1 ++ ls2, xs1 ++ xs2)]> reps)))).
    2: { rewrite (it_size _ _ _ _ Ht). lia. }
    eapply (is_table_set _ _ _ _ _ tab _ L); try done.
    + congruence.
    + set_solver.
    + set_solver.
    + intros y Hy. eapply is_table_home; [done|done|done|]. set_solver.
  - eapply wp_intro.
    { eapply remove_loop_none; [apply Hl|done|].
      apply Forall_forall. intros y Hy%list_elem_of_In.
      pose proof (List.find_none _ _ Hfind y Hy) as Hn. by apply negb_false_iff, Z.eqb_eq in Hn. }
    by apply wp_ret.
Qed.

Lemma elems_empty n : elems (replicate n ([], [])) = ([] : list D).
Proof. unfold elems. rewrite fmap_replicate. simpl. by induction n. Qed.

(** A fresh table represents the empty map. *)
Lemma init_body_spec T0 junk n b (m : lmem D) :
  0 < n -> may_alloc m = true ->
  exists T m', init_body T0 junk n (Some h_fn) (Some match_fn) b m = Ok ((0, T), m') /\
    is_table (cells m') T (replicate (Z.to_nat n) ([], [])) ∅ /\
    t_destroy T = b /\ cells m' = cells m /\ trace m' = trace m /\ oracle m' = tail (oracle m).
Proof.
  intros Hn Ha. unfold init_body, malloc_array, mbind, M_bind. simpl. rewrite Ha.
  rewrite (proj2 (Z.leb_le 0 n)) by lia. simpl.
  pose proof (elems_empty (Z.to_nat n)) as He.
  eexists _, _. split; [reflexivity|]. split_and!; try done.
  split; simpl; try done.
  - eexists. split; [done|]. rewrite length_fmap, length_replicate.
    split_and!; [lia|lia|]. split.
    + by rewrite length_fmap, !length_replicate.
    + intros i L r. rewrite list_lookup_fmap, fmap_Some.
      intros (L0 & _ & ->) [-> _]%lookup_replicate. split; [apply is_list_init|done].
    + intros i j r s [-> _]%lookup_replicate [-> _]%lookup_replicate _. set_solver.
    + intros i r d [-> _]%lookup_replicate. set_solver.
  - by rewrite He.
  - rewrite He. constructor.
  - by rewrite He.
Qed.

(** The cells of all buckets. *)
Definition cells_of reps : list loc := concat (reps.*1).

(** What destroying the buckets [reps] does to the store. *)
Definition destroyed (m : lmem D) (b : bool) reps (m' : lmem D) : Prop :=
  trace m' = trace m ++ (if b then elems reps else []) /\
  (forall l, l ∈ cells_of reps -> cells m' !! l = None) /\
  only_on (cells_of reps) (cells m) (cells m').

Lemma elem_of_cells_of reps l :
  l ∈ cells_of reps <-> exists i r, reps !! i = Some r /\ l ∈ r.1.
Proof.
  unfold cells_of. rewrite list_elem_of_In, in_concat. split.
  - intros (xs & Hxs & Hd). apply list_elem_of_In, list_elem_of_fmap in Hxs as (r & -> & Hr).
    apply list_elem_of_lookup in Hr as [i Hi]. exists i, r. by rewrite list_elem_of_In.
  - intros (i & r & Hi & Hd). exists r.1. split; [|by apply list_elem_of_In].
    apply list_elem_of_In, list_elem_of_fmap. exists r. split; [done|].
    by eapply list_elem_of_lookup_2.
Qed.

(** The buckets from [k] on are intact. *)
Record intact hp (b : bool) (k : nat) (tab : list (List D)) reps : Prop := {
  in_length : length tab = length reps;
  in_list i L r : (k <= i)%nat -> tab !! i = Some L -> reps !! i = Some r ->
    is_list hp L r.1 r.2 /\ l_destroy L = b /\ Z.of_nat (length r.2) <= INT_MAX;
  in_disj i j r s : (k <= i)%nat -> (k <= j)%nat -> reps !! i = Some r -> reps !! j = Some s ->
    i <> j -> r.1 ## s.1;
}.

Lemma intact_step hp hp' b k tab reps r L' :
  intact hp b k tab reps -> reps !! k = Some r -> only_on r.1 hp hp' ->
  intact hp' b (S k) (<[k := L']> tab) reps.
Proof.
  intros [Hlen Hli Hdi] Hr Hon. split.
  - by rewrite length_insert.
  - intros i L s Hi. rewrite list_lookup_insert_ne by lia. intros HL Hs.
    destruct (Hli i L s ltac:(lia) HL Hs) as (? & ? & ?). split_and!; try done.
    eapply is_list_only_on; [done| |done]. eapply (Hdi i k); eauto; lia.
  - intros i j r1 s Hi Hj. apply Hdi; lia.
Qed.

Lemma destroyed_step (m m1 m' : lmem D) (b : bool) k reps (r : list loc * list D) :
  reps !! k = Some r ->
  trace m1 = trace m ++ (if b then r.2 else []) ->
  (forall l, l ∈ r.1 -> cells m1 !! l = None) -> only_on r.1 (cells m) (cells m1) ->
  (forall s i, (k < i)%nat -> reps !! i = Some s -> s.1 ## r.1) ->
  destroyed m1 b (drop (S k) reps) m' -> destroyed m b (drop k reps) m'.
Proof.
  intros Hr Htr Hf Hon Hdi (Htr' & Hf' & Hon'). unfold destroyed.
  rewrite (drop_S _ _ _ Hr). unfold cells_of, elems in *. simpl. split_and!.
  - rewrite Htr', Htr. destruct b; [by rewrite <- app_assoc|by rewrite !app_nil_r].
  - intros l [Hl|Hl]%elem_of_app; [|by apply Hf'].
    rewrite Hon'; [by apply Hf|]. intros Hl'%elem_of_cells_of.
    destruct Hl' as (i & s & Hi & Hs). rewrite lookup_drop in Hi.
    apply (Hdi s (S k + i)%nat ltac:(lia) Hi l); done.
  - eapply only_on_trans; (eapply only_on_weaken; [|done]); set_solver.
Qed.

Lemma destroy_loop_spec n k b (tab : list (List D)) T reps (m : lmem D) :
  t_table T = Some tab -> t_buckets T = Z.of_nat (length tab) ->
  intact (cells m) b k tab reps -> (k + n = length tab)%nat ->
  wp (destroy_loop n (Z.of_nat k) T) (fun _ m' => destroyed m b (drop k reps) m') m.
Proof.
  revert k tab T m. induction n as [|n IH]; intros k tab T m Htab Hb Hin Hk; simpl; rewrite Hb.
  - destruct (Z.ltb_spec (Z.of_nat k) (Z.of_nat (length tab))); [lia|]. apply wp_ret.
    rewrite drop_ge by (rewrite <- (in_length _ _ _ _ _ Hin); lia).
    split_and!; try done; [by destruct b; rewrite app_nil_r|set_solver].
  - destruct (Z.ltb_spec (Z.of_nat k) (Z.of_nat (length tab))); [|lia].
    destruct (lookup_lt_is_Some_2 tab k) as [L HL]; [lia|].
    destruct (lookup_lt_is_Some_2 reps k) as [r Hr]; [rewrite <- (in_length _ _ _ _ _ Hin); lia|].
    destruct (in_list _ _ _ _ _ Hin k L r ltac:(lia) HL Hr) as (Hl & Hd & Hsz).
    wp_step. eapply wp_intro.
    { unfold table_get. rewrite Htab. destruct (Z.ltb_spec (Z.of_nat k) 0); [lia|].
      by rewrite Nat2Z.id, HL. }
    wp_step. eapply wp_mono; [by apply list_destroy_spec|].
    intros L' m1 (-> & _ & Htr & Hf & Hon). rewrite Hd in Htr.
    replace (Z.of_nat k + 1) with (Z.of_nat (S k)) by lia.
    eapply wp_mono; [apply (IH _ (<[k := list_zero]> tab))|].
    + unfold table_set. simpl. by rewrite Htab, Nat2Z.id.
    + simpl. by rewrite length_insert.
    + by eapply intact_step.
    + rewrite length_insert. lia.
    + intros ? m' Hde. eapply destroyed_step; try done.
      intros s i Hi Hs. eapply (in_disj _ _ _ _ _ Hin i k); eauto; lia.
Qed.

Lemma chtbl_destroy_spec T reps mp (m : lmem D) :
  is_table (cells m) T reps mp -> Z.of_nat (length (elems reps)) <= INT_MAX ->
  wp (chtbl_destroy T) (fun r m' => r = chtbl_zero /\ destroyed m (t_destroy T) reps m') m.
Proof.
  intros [_ _ (tab & Htab & Hpos & Hb & Hbo) _ _ _] Hsz. unfold chtbl_destroy.
  wp_step. eapply wp_mono; [apply (destroy_loop_spec _ 0 (t_destroy T) tab)|].
  - done.
  - done.
  - destruct Hbo as [Hlen Hlist Hdisj _]. split; [done| |by eauto].
    intros i L [ls xs] _ HL Hr. destruct (Hlist i L _ HL Hr). split_and!; try done.
    pose proof (bucket_length _ _ _ _ Hr). simpl. lia.
  - rewrite Hb. lia.
  - intros ? m' Hd. by apply wp_ret.
Qed.

End rep.

(** ** Sequences of operations *)

Inductive tblop (D : Type) := Insert (d : D) | Remove (d : D) | Lookup (d : D).
Arguments Insert {D}.
Arguments Remove {D}.
Arguments Lookup {D}.

(** Threading the table object through the state. *)
Definition on_table {T S A} (c : T -> M S (A * T)) : M (T * S) A := fun '(t, s) =>
  match c t s with
  | Ok ((a, t'), s') => Ok (a, (t', s'))
  | Err f => Err f
  | NoFuel => NoFuel
  end.

Lemma wp_on_table {T S A} (c : T -> M S (A * T)) Q t s :
  wp (c t) (fun r s' => Q r.1 (r.2, s')) s -> wp (on_table c) Q (t, s).
Proof. unfold wp, on_table. by destruct (c t s) as [[[]]| |]. Qed.

Section exec.
Context {D : Type}.

(** The results: the returned [int] and what [*data] is assigned. *)
Definition exec_chtbl (o : tblop D) : M (CHTbl D D * lmem D) (Z * option D) :=
  on_table (fun T =>
    match o with
    | Insert d => '(r, T) ← chtbl_insert T d; mret ((r, None), T)
    | Remove d => chtbl_remove T d
    | Lookup d => r ← chtbl_lookup T d; mret (r, T)
    end).

End exec.

Definition exec_kv (o : tblop SweetListKv)
  : M (CHTbl string SweetListKv * lmem SweetListKv) (Z * option SweetListKv) :=
  on_table (fun T =>
    match o with
    | Insert d => '(r, T) ← chtbl_insert_kv T d; mret ((r, None), T)
    | Remove d => chtbl_remove_kv T d
    | Lookup d => r ← chtbl_lookup_kv T d; mret (r, T)
    end).

Section abs.
Context {D Q : Type} `{Countable Q} (key : D -> Q).

(** The abstract table: a finite map from keys to data, and the allocator's
    answers. *)
Definition abs_tbl (o : tblop D) (s : gmap Q D * list bool)
  : (Z * option D) * (gmap Q D * list bool) :=
  let '(mp, or) := s in
  match o with
  | Insert d =>
      match mp !! key d with
      | Some _ => ((1, None), (mp, or))
      | None =>
          if default true (head or) then ((0, None), (<[key d := d]> mp, tail or))
          else ((-1, None), (mp, tail or))
      end
  | Remove d =>
      match mp !! key d with
      | Some x => ((0, Some x), (delete (key d) mp, or))
      | None => ((-1, None), (mp, or))
      end
  | Lookup d =>
      match mp !! key d with
      | Some x => ((0, Some x), (mp, or))
      | None => ((-1, None), (mp, or))
      end
  end.

Fixpoint abs_tbl_run (os : list (tblop D)) (s : gmap Q D * list bool)
  : list (Z * option D) * (gmap Q D * list bool) :=
  match os with
  | [] => ([], s)
  | o :: os =>
      let '(r, s) := abs_tbl o s in
      let '(rs, s) := abs_tbl_run os s in (r :: rs, s)
  end.

End abs.

Section refine.
Context {K D Q : Type} `{HQ : Hashing K D Q} `{Countable Q}.

(** The operation both tables run, at the argument [h] is called with. *)
Definition exec_body (o : tblop D) : M (CHTbl K D * lmem D) (Z * option D) :=
  on_table (fun T =>
    match o with
    | Insert d => '(r, T) ← insert_body T (arg_of d) d; mret ((r, None), T)
    | Remove d => remove_body T (arg_of d) d
    | Lookup d => r ← lookup_body T (arg_of d) d; mret (r, T)
    end).

(** The simulation relation; [n] bounds the number of stored data. *)
Definition tbl_sim (n : nat) (c : CHTbl K D * lmem D) (a : gmap Q D * list bool) : Prop :=
  oracle c.2 = a.2 /\ exists reps, is_table (cells c.2) c.1 reps a.1 /\
    (length (elems reps) <= n)%nat.

Lemma exec_body_sim n o c a :
  tbl_sim n c a -> Z.of_nat n < INT_MAX ->
  wp (exec_body o) (fun r c' => r = (abs_tbl key_of o a).1 /\
    tbl_sim (S n) c' (abs_tbl key_of o a).2) c.
Proof.
  destruct c as [T m], a as [mp or]. intros (Hor & reps & Ht & Hn) Hsz. simpl in *.
  subst or. apply wp_on_table. destruct o as [d|d|d].
  - wp_step. eapply wp_mono; [apply insert_body_spec; [done|lia]|].
    intros [r T'] m' (Htr & Hpost). apply wp_ret. simpl in *.
    destruct (mp !! key_of d) as [x|].
    + destruct Hpost as [[= -> ->] ->]. split; [done|]. split; [done|]. exists reps. split; [done|lia].
    + destruct Hpost as [Hor Hpost]. unfold may_alloc in Hpost.
      destruct (default true (head (oracle m))).
      * destruct Hpost as (-> & reps' & ? & Hp & _). split; [done|]. split; [done|].
        exists reps'. apply Permutation_length in Hp. simpl in *. split; [done|lia].
      * destruct Hpost as [[= -> ->] Hc]. split; [done|]. split; [done|].
        exists reps. simpl. rewrite Hc. split; [done|lia].
  - eapply wp_mono; [apply remove_body_spec; [done|lia]|].
    intros [[r x] T'] m' (Htr & Hor & Hpost). simpl in *.
    destruct (mp !! key_of d) as [y|].
    + destruct Hpost as (? & _ & reps' & ? & Hp). simplify_eq. split; [done|]. split; [done|].
      exists reps'. apply Permutation_length in Hp. simpl in *. split; [done|lia].
    + destruct Hpost as [[= -> -> ->] ->]. split; [done|]. split; [done|].
      exists reps. split; [done|lia].
  - wp_step. eapply wp_intro; [by eapply lookup_body_spec|]. apply wp_ret. simpl.
    destruct (mp !! key_of d); (split; [done|]; split; [done|]; exists reps; split; [done|lia]).
Qed.

Lemma exec_body_run n os c a :
  tbl_sim n c a -> Z.of_nat (n + length os) <= INT_MAX ->
  wp (run exec_body os) (fun rs c' => rs = (abs_tbl_run key_of os a).1 /\
    tbl_sim (n + length os) c' (abs_tbl_run key_of os a).2) c.
Proof.
  revert n c a. induction os as [|o os IH]; intros n c a Hs Hlen; simpl in *.
  { apply wp_ret. by rewrite Nat.add_0_r. }
  wp_step. eapply wp_mono; [apply exec_body_sim; [done|lia]|].
  intros r c1 [-> Hs1]. destruct (abs_tbl key_of o a) as [r a1]. simpl in *. wp_step.
  eapply wp_mono; [apply (IH (S n) c1 a1); [done|lia]|].
  intros rs c2 [-> Hs2]. apply wp_ret. rewrite Nat.add_succ_r.
  by destruct (abs_tbl_run key_of os a1).
Qed.

(** From the creation of the table on. *)
Lemma table_life T0 junk n b os (m : lmem D) :
  0 < n -> may_alloc m = true -> Z.of_nat (length os) <= INT_MAX ->
  let '(rs, (mp, or)) := abs_tbl_run key_of os (∅, tail (oracle m)) in
  exists T m1 T' m' reps,
    init_body T0 junk n (Some h_fn) (Some match_fn) b m = Ok ((0, T), m1) /\
    run exec_body os (T, m1) = Ok (rs, (T', m')) /\
    is_table (cells m') T' reps mp /\ oracle m' = or.
Proof.
  intros Hn Ha Hlen.
  destruct (init_body_spec T0 junk n b m Hn Ha) as (T & m1 & Hinit & Ht & _ & _ & _ & Hor).
  assert (Hs : tbl_sim 0 (T, m1) (∅, tail (oracle m))).
  { split; [done|]. eexists. split; [done|]. by rewrite elems_empty. }
  destruct (wp_inv _ _ _ (exec_body_run 0 os _ _ Hs Hlen)) as (rs & [T' m'] & Hrun & -> & Hs').
  destruct (abs_tbl_run key_of os _) as [rs [mp or]]. destruct Hs' as (? & reps & ? & _).
  simpl in *. eauto 10.
Qed.

End refine.

(** ** The two instances of [Hashing] *)

(** [chtbl_insert] and friends: [h] and [match] both take the datum. *)
Definition plain_hashing {D Q} (key : D -> Q) (hq : Q -> Z) (h : D -> Z) (mt : D -> D -> Z)
    (Hh : forall d, h d = hq (key d)) (Hn : forall q, 0 <= hq q)
    (Hm : forall x y, mt x y <> 0 <-> key x = key y) : Hashing D D Q := {|
  arg_of := fun d => d; key_of := key; h_fn := h; match_fn := mt; h_key := hq;
  h_fn_key := Hh; h_key_nonneg := Hn; match_key := Hm;
|}.

(** The [_kv] operations: [h] takes the key. *)
Definition kv_hashing (h : string -> Z) (mt : SweetListKv -> SweetListKv -> Z)
    (Hn : forall k, 0 <= h k)
    (Hm : forall x y, mt x y <> 0 <-> kv_key x = kv_key y)
  : Hashing string SweetListKv string := {|
  arg_of := kv_key; key_of := kv_key; h_fn := h; match_fn := mt; h_key := h;
  h_fn_key := fun _ => eq_refl; h_key_nonneg := Hn; match_key := Hm;
|}.

(** ** Properties *)

(** C1: created with at least one bucket, a non-negative hash and a [match]
    that compares keys, the [_kv] table behaves as a finite map from keys to
    entries over any sequence of insertions, removals and lookups and any
    pattern of [malloc] failures: a second insertion of a key is refused with
    1, a removal hands over the stored entry, an absent key gives -1. *)
Theorem chtbl_kv_refines (h : string -> Z) (mt : SweetListKv -> SweetListKv -> Z)
    (Hn : forall k, 0 <= h k)
    (Hm : forall x y, mt x y <> 0 <-> kv_key x = kv_key y)
    T0 junk n b os (m : lmem SweetListKv) :
  0 < n -> may_alloc m = true -> Z.of_nat (length os) <= INT_MAX ->
  let '(rs, (mp, or)) := abs_tbl_run kv_key os (∅, tail (oracle m)) in
  exists T m1 T' m' reps,
    chtbl_init_kv T0 junk n (Some h) (Some mt) b m = Ok ((0, T), m1) /\
    run exec_kv os (T, m1) = Ok (rs, (T', m')) /\
    is_table (HQ := kv_hashing h mt Hn Hm) (cells m') T' reps mp /\ oracle m' = or.
Proof. exact (table_life (HQ := kv_hashing h mt Hn Hm) T0 junk n b os m). Qed.

(** The same for [chtbl_insert], [chtbl_remove] and [chtbl_lookup], where
    [h] and [match] both take the datum and identify it by a key. *)
Theorem chtbl_refines {D Q} `{Countable Q} (key : D -> Q) (hq : Q -> Z)
    (h : D -> Z) (mt : D -> D -> Z)
    (Hh : forall d, h d = hq (key d)) (Hn : forall q, 0 <= hq q)
    (Hm : forall x y, mt x y <> 0 <-> key x = key y)
    T0 junk n b os (m : lmem D) :
  0 < n -> may_alloc m = true -> Z.of_nat (length os) <= INT_MAX ->
  let '(rs, (mp, or)) := abs_tbl_run key os (∅, tail (oracle m)) in
  exists T m1 T' m' reps,
    chtbl_init T0 junk n (Some h) (Some mt) b m = Ok ((0, T), m1) /\
    run exec_chtbl os (T, m1) = Ok (rs, (T', m')) /\
    is_table (HQ := plain_hashing key hq h mt Hh Hn Hm) (cells m') T' reps mp /\
    oracle m' = or.
Proof. exact (table_life (HQ := plain_hashing key hq h mt Hh Hn Hm) T0 junk n b os m). Qed.

Section kv_props.
Context (h : string -> Z) (mt : SweetListKv -> SweetListKv -> Z).
Context (Hn : forall k, 0 <= h k).
Context (Hm : forall x y, mt x y <> 0 <-> kv_key x = kv_key y).

Lemma chtbl_find_kv_spec T reps mp d (m : lmem SweetListKv) :
  is_table (HQ := kv_hashing h mt Hn Hm) (cells m) T reps mp ->
  chtbl_find_kv T d m = Ok (default d (mp !! kv_key d), m).
Proof.
  intros Ht. destruct (bucket_at (HQ := kv_hashing h mt Hn Hm) _ _ _ _ d Ht)
    as (tab & i & L & ls & xs & Htab & HL & Hr & Hl & Hd & _ & Hb & Hg & Hin).
  unfold chtbl_find_kv.
  erewrite bind_ok by apply Hb. erewrite bind_ok by apply Hg.
  erewrite bind_ok by (apply fn_some, Ht). erewrite bind_ok by reflexivity.
  erewrite bind_ok.
  2: { apply (lookup_loop_spec _ _ ls xs); [apply Hl|by eapply walk_fuel_enough]. }
  by rewrite (find_in_bucket (HQ := kv_hashing h mt Hn Hm) _ _ _ _ _ _ _ _ Ht Hr Hin).
Qed.

(** [chtbl_find_kv] returns the entry stored under the key of [*data], or
    [*data] itself when the key is absent, and changes nothing. *)
Theorem chtbl_find_kv_correct T reps mp d (m : lmem SweetListKv) :
  is_table (HQ := kv_hashing h mt Hn Hm) (cells m) T reps mp ->
  chtbl_find_kv T d m
    = Ok (match mp !! kv_key d with Some e => e | None => d end, m).
Proof. intros Ht. by rewrite (chtbl_find_kv_spec T reps mp d m Ht). Qed.

(** [chtbl_destroy] ends, frees every cell of every bucket and no other,
    hands every stored entry to [destroy] exactly once (when it is not NULL),
    and leaves a zeroed table object. *)
Theorem chtbl_destroy_correct T reps mp (m : lmem SweetListKv) :
  is_table (HQ := kv_hashing h mt Hn Hm) (cells m) T reps mp ->
  Z.of_nat (size mp) <= INT_MAX ->
  exists m', chtbl_destroy T m = Ok (chtbl_zero, m') /\
    (forall l, cells m' !! l = if decide (l ∈ cells_of reps) then None else cells m !! l) /\
    exists ds, trace m' = trace m ++ ds /\
      ds ≡ₚ (if t_destroy T then snd <$> map_to_list mp else []).
Proof.
  intros Ht Hsz.
  assert (Hmp : map_to_list mp ≡ₚ kvs (HQ := kv_hashing h mt Hn Hm) (elems reps)).
  { rewrite (it_map (HQ := kv_hashing h mt Hn Hm) _ _ _ _ Ht).
    rewrite map_to_list_to_map; [done|].
    rewrite <- list_fmap_compose. apply (it_keys _ _ _ _ Ht). }
  assert (Hlen : length (elems reps) = size mp).
  { rewrite <- length_map_to_list, Hmp. unfold kvs. by rewrite length_fmap. }
  destruct (wp_inv _ _ _ (chtbl_destroy_spec (HQ := kv_hashing h mt Hn Hm) T reps mp m Ht
    ltac:(lia))) as (r & m' & Hrun & -> & Htr & Hfree & Hon).
  exists m'. split_and!; [done| |].
  - intros l. case_decide; [by apply Hfree|by apply Hon].
  - eexists. split; [done|]. destruct (t_destroy T); [|done].
    rewrite Hmp. unfold kvs. by rewrite <- list_fmap_compose, list_fmap_id.
Qed.

End kv_props.

(** The table trusts its hash: a negative hash value that [buckets] does
    not divide gives a negative bucket, and every operation then indexes the
    table out of bounds. *)
Theorem chtbl_negative_hash {K D} (T : CHTbl K D) tab h key data (m : lmem D) :
  t_h T = Some h -> t_table T = Some tab -> 0 < t_buckets T ->
  Z.rem (h key) (t_buckets T) < 0 ->
  lookup_body T key data m = Err OutOfBounds /\
  insert_body T key data m = Err OutOfBounds /\
  remove_body T key data m = Err OutOfBounds.
Proof.
  intros Hh Htab Hb Hneg.
  assert (Hbk : bucket_of T key m = Ok (Z.rem (h key) (t_buckets T), m)).
  { unfold bucket_of. erewrite bind_ok by (by apply fn_some). unfold int_rem.
    destruct (Z.eqb_spec (t_buckets T) 0); [lia|].
    destruct (Z.eqb_spec (t_buckets T) (-1)); [lia|]. by rewrite andb_false_r. }
  assert (Hg : table_get T (Z.rem (h key) (t_buckets T)) m = Err OutOfBounds).
  { unfold table_get. rewrite Htab.
    destruct (Z.ltb_spec (Z.rem (h key) (t_buckets T)) 0); [done|lia]. }
  assert (Hl : lookup_body T key data m = Err OutOfBounds).
  { unfold lookup_body. erewrite bind_ok by apply Hbk.
    unfold mbind at 1, M_bind at 1. by rewrite Hg. }
  split_and!; [done| |].
  - unfold insert_body, mbind at 1, M_bind at 1. by rewrite Hl.
  - unfold remove_body. erewrite bind_ok by apply Hbk.
    unfold mbind at 1, M_bind at 1. by rewrite Hg.
Qed.

(** ** Witnesses: four buckets, the hash is the length of the key *)

Definition ex_hash (k : string) : Z := Z.of_nat (String.length k).
Definition ex_match (x y : SweetListKv) : Z :=
  if decide (kv_key x = kv_key y) then 1 else 0.

Lemma ex_hash_nonneg k : 0 <= ex_hash k.
Proof. unfold ex_hash. lia. Qed.

Lemma ex_match_key x y : ex_match x y <> 0 <-> kv_key x = kv_key y.
Proof. unfold ex_match. case_decide; naive_solver. Qed.

Definition ex_junk : List SweetListKv := MkList 99 None false (Some 5%positive) NULL.
Definition ex_kv_mem : lmem SweetListKv := Store ∅ [] [].
Definition ex_ops : list (tblop SweetListKv) :=
  [Insert (Kv "icon" (Some "a.png")); Insert (Kv "gems" None);
   Insert (Kv "icon" (Some "b.png")); Lookup (Kv "icon" None);
   Remove (Kv "gems" None); Lookup (Kv "gems" None)].

Lemma chtbl_kv_refines_witness :
  exists T m1 T' m' reps,
    chtbl_init_kv chtbl_zero ex_junk 4 (Some ex_hash) (Some ex_match) true ex_kv_mem
      = Ok ((0, T), m1) /\
    run exec_kv ex_ops (T, m1)
      = Ok ([(0, None); (0, None); (1, None); (0, Some (Kv "icon" (Some "a.png")));
             (0, Some (Kv "gems" None)); (-1, None)], (T', m')) /\
    is_table (HQ := kv_hashing ex_hash ex_match ex_hash_nonneg ex_match_key) (cells m') T' reps
      (abs_tbl_run kv_key ex_ops (∅, [])).2.1 /\ oracle m' = [].
Proof.
  apply (chtbl_kv_refines ex_hash ex_match ex_hash_nonneg ex_match_key
           chtbl_zero ex_junk 4 true ex_ops ex_kv_mem);
    [reflexivity|reflexivity|vm_compute; discriminate].
Defined.

(** The table of [hash_table.c]: characters, hashed modulo 11. *)
Definition ex_char_hash (c : Z) : Z := Z.abs c.
Definition ex_char_match (x y : Z) : Z := if x =? y then 1 else 0.

Lemma ex_char_match_key x y : ex_char_match x y <> 0 <-> x = y.
Proof. unfold ex_char_match. destruct (Z.eqb_spec x y); naive_solver. Qed.

Definition ex_char_ops : list (tblop Z) :=
  [Insert 70; Insert 76; Insert 70; Remove 70; Lookup 70].

Lemma chtbl_refines_witness :
  exists T m1 T' m' reps,
    chtbl_init chtbl_zero list_zero 11 (Some ex_char_hash) (Some ex_char_match) true
      (Store ∅ [true; true; false] []) = Ok ((0, T), m1) /\
    run exec_chtbl ex_char_ops (T, m1)
      = Ok ([(0, None); (-1, None); (1, None); (0, Some 70); (-1, None)], (T', m')) /\
    is_table (HQ := plain_hashing (fun c => c) ex_char_hash ex_char_hash ex_char_match
                      (fun _ => eq_refl) Z.abs_nonneg ex_char_match_key)
      (cells m') T' reps
      (abs_tbl_run (fun c => c) ex_char_ops (∅, [true; false])).2.1 /\ oracle m' = [].
Proof.
  exact (chtbl_refines (fun c => c) ex_char_hash ex_char_hash ex_char_match
           (fun _ => eq_refl) Z.abs_nonneg ex_char_match_key
           chtbl_zero list_zero 11 true ex_char_ops (Store ∅ [true; true; false] [])
           eq_refl eq_refl ltac:(vm_compute; discriminate)).
Defined.

(** The table the next witnesses start from: one entry in bucket 0 of 4. *)
Definition ex_entry : SweetListKv := Kv "icon" (Some "a.png").
Definition ex_bucket : List SweetListKv := MkList 1 None true (Some 9%positive) (Some 9%positive).
Definition ex_empty_bucket : List SweetListKv := MkList 0 None true NULL NULL.
Definition ex_table : CHTbl string SweetListKv :=
  MkCHTbl 4 (Some ex_hash) (Some ex_match) true 1
    (Some [ex_bucket; ex_empty_bucket; ex_empty_bucket; ex_empty_bucket]).
Definition ex_table_mem : lmem SweetListKv := Store {[ 9%positive := Elmt ex_entry NULL ]} [] [].
Definition ex_reps : list (list loc * list SweetListKv) :=
  [([9%positive], [ex_entry]); ([], []); ([], []); ([], [])].

Lemma ex_is_table :
  is_table (HQ := kv_hashing ex_hash ex_match ex_hash_nonneg ex_match_key)
    (cells ex_table_mem) ex_table ex_reps {[ "icon" := ex_entry ]}.
Proof.
  split; try done; [|by apply (bool_decide_unpack _); vm_compute].
  eexists. split; [done|]. split_and!; [simpl; lia|done|]. split; [done|..].
  - intros i L r HL Hr.
    do 4 (destruct i as [|i]; [simpl in *; simplify_eq; split; [|done];
      split; [by repeat (split || eexists)|by apply (bool_decide_unpack _); vm_compute|done|done]|]).
    done.
  - intros i j r s Hi Hj Hne.
    do 4 (destruct i as [|i]; [do 4 (destruct j as [|j]; [by simpl in *; simplify_eq; set_solver|]); done|]).
    done.
  - intros i r d Hi Hd.
    do 4 (destruct i as [|i]; [simpl in *; simplify_eq; set_solver|]). done.
Qed.

Lemma chtbl_find_kv_correct_witness :
  chtbl_find_kv ex_table (Kv "icon" None) ex_table_mem = Ok (ex_entry, ex_table_mem) /\
  chtbl_find_kv ex_table (Kv "gem" None) ex_table_mem = Ok (Kv "gem" None, ex_table_mem).
Proof.
  split.
  - apply (chtbl_find_kv_correct ex_hash ex_match ex_hash_nonneg ex_match_key
             ex_table ex_reps {[ "icon" := ex_entry ]} (Kv "icon" None) ex_table_mem ex_is_table).
  - apply (chtbl_find_kv_correct ex_hash ex_match ex_hash_nonneg ex_match_key
             ex_table ex_reps {[ "icon" := ex_entry ]} (Kv "gem" None) ex_table_mem ex_is_table).
Defined.

Lemma chtbl_destroy_correct_witness :
  exists m', chtbl_destroy ex_table ex_table_mem = Ok (chtbl_zero, m') /\
    (forall l, cells m' !! l
       = if decide (l ∈ [9%positive]) then None else cells ex_table_mem !! l) /\
    exists ds, trace m' = ds /\ ds ≡ₚ [ex_entry].
Proof.
  apply (chtbl_destroy_correct ex_hash ex_match ex_hash_nonneg ex_match_key
           ex_table ex_reps {[ "icon" := ex_entry ]} ex_table_mem ex_is_table).
  vm_compute; discriminate.
Defined.

Lemma chtbl_negative_hash_witness :
  let T := MkCHTbl 11 (Some (fun c : Z => Z.rem c 11)) None true 0
             (Some (replicate 11 list_zero)) in
  lookup_body T (-61) (-61) (Store ∅ [] []) = Err OutOfBounds /\
  insert_body T (-61) (-61) (Store ∅ [] []) = Err OutOfBounds /\
  remove_body T (-61) (-61) (Store ∅ [] []) = Err OutOfBounds.
Proof.
  apply (chtbl_negative_hash
           (MkCHTbl 11 (Some (fun c : Z => Z.rem c 11)) None true 0
             (Some (replicate 11 list_zero)))
           (replicate 11 list_zero) (fun c => Z.rem c 11) (-61) (-61) (Store ∅ [] []));
    reflexivity.
Defined.
