(* ===== verification/CBiTree.v ===== *)
(** * The binary tree of [src/lib/_structs/bitree.c]

    Nodes in a store, a [BiTreeNode **position] as a designation of the member
    it points to, the operations, the representation predicate [is_bitree] and
    the specification of every operation against trees. *)

From stdpp Require Import prelude gmap list fin_maps.
From Stdlib Require Import ZArith Lia.
From S2P Require Import Prelude.

(** ** Data: bitree.h *)

Record BiTreeNode (D : Type) := Node {
  n_data : D;
  n_left : ptr;
  n_right : ptr;
}.
Arguments Node {D}.
Arguments n_data {D}.
Arguments n_left {D}.
Arguments n_right {D}.

(** [destroy] as in [List]: [true] is a non-NULL callback. *)
Record BiTree (D : Type) := MkBiTree {
  b_size : Z;
  b_compare : option (D -> D -> Z);
  b_destroy : bool;
  b_root : ptr;
}.
Arguments MkBiTree {D}.
Arguments b_size {D}.
Arguments b_compare {D}.
Arguments b_destroy {D}.
Arguments b_root {D}.

(** What a [BiTreeNode **] points to: the root member of the tree object, or
    the left ([false]) or right ([true]) member of a node. *)
Inductive position := AtRoot | AtChild (side : bool) (node : ptr).

Section ops.
Context {D E X : Type}.
Implicit Types (tree : BiTree X) (nd : BiTreeNode D).

Definition set_b_size (z : Z) tree :=
  MkBiTree z (b_compare tree) (b_destroy tree) (b_root tree).
Definition set_root (p : ptr) tree :=
  MkBiTree (b_size tree) (b_compare tree) (b_destroy tree) p.

(** [bitree_left] / [bitree_right], and assignments through them. *)
Definition child (side : bool) nd : ptr := if side then n_right nd else n_left nd.
Definition set_child_ptr (side : bool) (p : ptr) nd : BiTreeNode D :=
  if side then Node (n_data nd) (n_left nd) p else Node (n_data nd) p (n_right nd).

(** [*position] and [*position = p] *)
Definition read_pos tree (pos : position) : M (store (BiTreeNode D) E) ptr :=
  match pos with
  | AtRoot => mret (b_root tree)
  | AtChild side node => nd ← load node; mret (child side nd)
  end.
Definition write_pos tree (pos : position) (p : ptr)
  : M (store (BiTreeNode D) E) (BiTree X) :=
  match pos with
  | AtRoot => mret (set_root p tree)
  | AtChild side node => _ ← update node (set_child_ptr side p); mret tree
  end.

Definition bitree_init tree (destroy : bool) : BiTree X :=
  MkBiTree 0 (b_compare tree) destroy NULL.

(** [memset(tree, 0, sizeof(BiTree))] *)
Definition bitree_zero : BiTree X := MkBiTree 0 None false NULL.

(** [bitree_ins_left] ([side = false]) and [bitree_ins_right] ([side = true])
    are the same text up to the child. *)
Definition ins_child (side : bool) tree (node : ptr) (data : D)
  : M (store (BiTreeNode D) E) (Z * BiTree X) :=
  let insert_at pos :=
    new_node ← malloc (Node data NULL NULL);
    match new_node with
    | None => mret (-1, tree)
    | Some _ =>
        tree ← write_pos tree pos new_node;
        sz ← int_of (b_size tree + 1);
        mret (0, set_b_size sz tree)
    end in
  match node with
  | None => if b_size tree >? 0 then mret (-1, tree) else insert_at AtRoot
  | Some _ =>
      nd ← load node;
      match child side nd with
      | Some _ => mret (-1, tree)
      | None => insert_at (AtChild side node)
      end
  end.

Definition bitree_ins_left := ins_child false.
Definition bitree_ins_right := ins_child true.

End ops.

(** [&tree->root] for a NULL node, [&node->left] or [&node->right] otherwise *)
Definition position_of (side : bool) (node : ptr) : position :=
  match node with None => AtRoot | Some _ => AtChild side node end.

Section rem.
Context {D : Type}.
Implicit Types (tree : BiTree D).

(** [bitree_rem_left] ([side = false]) and [bitree_rem_right] ([side = true]),
    which call each other. *)
Fixpoint rem_child (fuel : nat) (side : bool) tree (node : ptr)
  : M (store (BiTreeNode D) D) (BiTree D) :=
  if b_size tree =? 0 then mret tree
  else
    let pos := position_of side node in
    p ← read_pos tree pos;
    match p with
    | None => mret tree
    | Some _ =>
        match fuel with
        | O => no_fuel
        | S fuel =>
            tree ← rem_child fuel false tree p;
            p ← read_pos tree pos;
            tree ← rem_child fuel true tree p;
            p ← read_pos tree pos;
            nd ← load p;
            _ ← (if b_destroy tree then call_destroy (n_data nd) else mret tt);
            _ ← free p;
            tree ← write_pos tree pos NULL;
            sz ← int_of (b_size tree - 1);
            mret (set_b_size sz tree)
        end
    end.

Definition bitree_rem_left tree (node : ptr) : M (store (BiTreeNode D) D) (BiTree D) :=
  fuel ← gets walk_fuel; rem_child fuel false tree node.

Definition bitree_rem_right tree (node : ptr) : M (store (BiTreeNode D) D) (BiTree D) :=
  fuel ← gets walk_fuel; rem_child fuel true tree node.

Definition bitree_destroy tree : M (store (BiTreeNode D) D) (BiTree D) :=
  _ ← bitree_rem_left tree NULL; mret bitree_zero.

(** The result is the returned [int] and the three tree objects. *)
Definition bitree_merge (merge left right : BiTree D) (data : D)
  : M (store (BiTreeNode D) D) (Z * (BiTree D * BiTree D * BiTree D)) :=
  let merge := bitree_init merge (b_destroy left) in
  '(r, merge) ← bitree_ins_left merge NULL data;
  if r =? 0 then
    _ ← update (b_root merge) (set_child_ptr false (b_root left));
    _ ← update (b_root merge) (set_child_ptr true (b_root right));
    s ← int_of (b_size merge + b_size left);
    sz ← int_of (s + b_size right);
    mret (0, (set_b_size sz merge,
              set_b_size 0 (set_root NULL left), set_b_size 0 (set_root NULL right)))
  else
    merge ← bitree_destroy merge;
    mret (-1, (merge, left, right)).

End rem.

(** ** Representation *)

(** Trees with the address of every node. *)
Inductive tree (D : Type) := Lf | Nd (l : tree D) (k : loc) (d : D) (r : tree D).
Arguments Lf {D}.
Arguments Nd {D}.

Section trees.
Context {D : Type}.
Implicit Types (t s : tree D).

Fixpoint locs t : list loc :=
  match t with Lf => [] | Nd l k _ r => k :: locs l ++ locs r end.

Fixpoint tsize t : nat :=
  match t with Lf => 0 | Nd l _ _ r => S (tsize l + tsize r) end.

Fixpoint postorder_of t : list D :=
  match t with Lf => [] | Nd l _ d r => postorder_of l ++ postorder_of r ++ [d] end.
Fixpoint preorder_of t : list D :=
  match t with Lf => [] | Nd l _ d r => d :: preorder_of l ++ preorder_of r end.
Fixpoint inorder_of t : list D :=
  match t with Lf => [] | Nd l _ d r => inorder_of l ++ d :: inorder_of r end.

(** The child of the node at [k], and the tree with that child replaced. *)
Fixpoint child_of (side : bool) (k : loc) t : option (tree D) :=
  match t with
  | Lf => None
  | Nd l j d r =>
      if decide (j = k) then Some (if side then r else l)
      else match child_of side k l with
           | Some c => Some c
           | None => child_of side k r
           end
  end.

Fixpoint set_child (side : bool) (k : loc) s t : tree D :=
  match t with
  | Lf => Lf
  | Nd l j d r =>
      if decide (j = k) then (if side then Nd l j d s else Nd s j d r)
      else Nd (set_child side k s l) j d (set_child side k s r)
  end.

Lemma length_locs t : length (locs t) = tsize t.
Proof. induction t as [|l IHl k d r IHr]; simpl; [done|]. rewrite length_app. lia. Qed.

Lemma child_of_Some side k t c : child_of side k t = Some c -> k ∈ locs t.
Proof.
  induction t as [|l IHl j d r IHr]; simpl; [done|]. case_decide as E; [subst; set_solver|].
  destruct (child_of side k l); set_solver.
Qed.

Lemma child_of_is_Some side k t : k ∈ locs t -> is_Some (child_of side k t).
Proof.
  induction t as [|l IHl j d r IHr]; simpl; [set_solver|]. case_decide as E; [eauto|].
  intros [->|[Hl|Hr]%elem_of_app]%elem_of_cons; [done| |].
  - destruct (IHl Hl) as [c ->]. eauto.
  - destruct (child_of side k l); eauto.
Qed.

Lemma child_of_locs side k t c : child_of side k t = Some c -> locs c ⊆ locs t.
Proof.
  induction t as [|l IHl j d r IHr]; simpl; [done|]. case_decide as E.
  - intros [= <-]. destruct side; set_solver.
  - destruct (child_of side k l) as [c'|]; [intros [= ->]|]; set_solver.
Qed.

Lemma child_of_nodup side k t c :
  NoDup (locs t) -> child_of side k t = Some c -> NoDup (locs c) /\ k ∉ locs c.
Proof.
  induction t as [|l IHl j d r IHr]; simpl; [done|].
  intros [Hj (Hndl & Hd & Hndr)%NoDup_app]%NoDup_cons. case_decide as E.
  - intros [= <-]. subst. destruct side; split; set_solver.
  - destruct (child_of side k l); [intros [= ->]|]; eauto.
Qed.

Lemma set_child_id side k s t : k ∉ locs t -> set_child side k s t = t.
Proof.
  induction t as [|l IHl j d r IHr]; simpl; [done|]. intros Hk.
  rewrite decide_False by set_solver. rewrite IHl, IHr; set_solver.
Qed.

(** The addresses of a tree, up to order, when one child is replaced. *)
Lemma set_child_locs side k s t c :
  NoDup (locs t) -> child_of side k t = Some c ->
  locs (set_child side k s t) ++ locs c ≡ₚ locs t ++ locs s.
Proof.
  induction t as [|l IHl j d r IHr]; simpl; [done|].
  intros [Hj (Hndl & Hd & Hndr)%NoDup_app]%NoDup_cons. case_decide as E.
  - intros [= <-]. destruct side; simpl; solve_Permutation.
  - destruct (child_of side k l) as [c'|] eqn:Hc.
    + intros [= ->]. simpl. pose proof (child_of_Some _ _ _ _ Hc).
      rewrite (set_child_id side k s r) by (intros ?; naive_solver).
      pose proof (IHl Hndl eq_refl) as Hp.
      trans (j :: (locs (set_child side k s l) ++ locs c) ++ locs r); [solve_Permutation|].
      rewrite Hp. solve_Permutation.
    + intros Hr. simpl. pose proof (child_of_Some _ _ _ _ Hr).
      rewrite (set_child_id side k s l).
      2: { intros Hin. destruct (child_of_is_Some side _ _ Hin). congruence. }
      pose proof (IHr Hndr Hr) as Hp.
      trans (j :: locs l ++ (locs (set_child side k s r) ++ locs c)); [solve_Permutation|].
      rewrite Hp. solve_Permutation.
Qed.

End trees.

Section rep.
Context {D : Type}.
Implicit Types (t s : tree D) (h : gmap loc (BiTreeNode D)).

Fixpoint tree_at h (p : ptr) t : Prop :=
  match t with
  | Lf => p = NULL
  | Nd l k d r =>
      p = Some k /\ exists pl pr, h !! k = Some (Node d pl pr) /\
        tree_at h pl l /\ tree_at h pr r
  end.

(** The tree object [T] holds [t]. *)
Record is_bitree {X} h (T : BiTree X) t : Prop := {
  bt_root : tree_at h (b_root T) t;
  bt_nodup : NoDup (locs t);
  bt_size : b_size T = Z.of_nat (tsize t);
}.

Lemma tree_at_frame h h' p t :
  (forall l, l ∈ locs t -> h' !! l = h !! l) -> tree_at h p t -> tree_at h' p t.
Proof.
  revert p. induction t as [|l IHl k d r IHr]; intros p Hf; simpl; [done|].
  intros (-> & pl & pr & Hk & Hl & Hr). split; [done|]. exists pl, pr. split_and!.
  - rewrite Hf by (simpl; set_solver). done.
  - apply IHl; [|done]. intros ??. apply Hf. simpl. set_solver.
  - apply IHr; [|done]. intros ??. apply Hf. simpl. set_solver.
Qed.

Lemma tree_at_only_on h h' p t ks :
  only_on ks h h' -> locs t ## ks -> tree_at h p t -> tree_at h' p t.
Proof. intros Ho Hd. apply tree_at_frame. intros l ?. apply Ho. set_solver. Qed.

Lemma tree_at_alloc h p t k : tree_at h p t -> k ∈ locs t -> is_Some (h !! k).
Proof.
  revert p. induction t as [|l IHl j d r IHr]; intros p; simpl; [set_solver|].
  intros (_ & pl & pr & Hk & Hl & Hr) [->|[?|?]%elem_of_app]%elem_of_cons; eauto.
Qed.

Lemma tree_at_fresh h p t k : tree_at h p t -> h !! k = None -> k ∉ locs t.
Proof. intros Ht Hk Hin. destruct (tree_at_alloc _ _ _ _ Ht Hin). congruence. Qed.

Lemma tree_at_NULL h t : tree_at h NULL t -> t = Lf.
Proof. destruct t; [done|]. by intros [? _]. Qed.

(** The node at [k] and its child. *)
Lemma tree_at_child side h p t k c :
  tree_at h p t -> child_of side k t = Some c ->
  exists nd, h !! k = Some nd /\ tree_at h (child side nd) c.
Proof.
  revert p. induction t as [|l IHl j d r IHr]; intros p; simpl; [done|].
  intros (_ & pl & pr & Hk & Hl & Hr). case_decide as E.
  - intros [= <-]. subst j. eexists. split; [done|]. by destruct side.
  - destruct (child_of side k l); [intros [= ->]|]; eauto.
Qed.

(** Replacing the child of the node at [k]. *)
Lemma tree_at_set_child side h h' p t k c s nd ps :
  tree_at h p t -> NoDup (locs t) -> child_of side k t = Some c ->
  h !! k = Some nd -> h' !! k = Some (set_child_ptr side ps nd) ->
  tree_at h' ps s ->
  (forall j, j ∈ locs t -> j <> k -> j ∉ locs c -> h' !! j = h !! j) ->
  tree_at h' p (set_child side k s t).
Proof.
  revert p. induction t as [|l IHl j d r IHr]; intros p; simpl; [done|].
  intros (-> & pl & pr & Hj & Hl & Hr) [Hnj (Hndl & Hd & Hndr)%NoDup_app]%NoDup_cons.
  case_decide as E.
  - intros [= <-] Hk Hk' Hs Hf. subst j. rewrite Hj in Hk. injection Hk as <-.
    destruct side; simpl in *; (split; [done|]); eexists _, _; (split; [done|]); split; try done.
    + eapply tree_at_frame; [|done]. intros i Hi.
      apply Hf; [set_solver|set_solver|by apply Hd].
    + eapply tree_at_frame; [|done]. intros i Hi.
      apply Hf; [set_solver|set_solver|]. intros Hi'. by apply (Hd i).
  - intros Hc Hk Hk' Hs Hf.
    destruct (child_of side k l) as [c'|] eqn:Hcl.
    + injection Hc as ->. pose proof (child_of_locs _ _ _ _ Hcl) as Hsub.
      pose proof (child_of_Some _ _ _ _ Hcl) as Hkl.
      split; [done|]. exists pl, pr. split_and!.
      * rewrite Hf; [done|set_solver|done|set_solver].
      * apply IHl; try done. intros i ???. apply Hf; [set_solver|done|done].
      * rewrite set_child_id by (intros ?; by apply (Hd k)).
        eapply tree_at_frame; [|done]. intros i Hi.
        apply Hf; [set_solver| |]; [by intros ->; apply (Hd k)|].
        intros Hi'. by apply (Hd i); [apply Hsub|].
    + pose proof (child_of_locs _ _ _ _ Hc) as Hsub.
      pose proof (child_of_Some _ _ _ _ Hc) as Hkr.
      split; [done|]. exists pl, pr. split_and!.
      * rewrite Hf; [done|set_solver|done|set_solver].
      * rewrite set_child_id by (intros ?; by apply (Hd k)).
        eapply tree_at_frame; [|done]. intros i Hi.
        apply Hf; [set_solver| |]; [by intros ->; apply (Hd k)|].
        intros Hi'. by apply (Hd i); [|apply Hsub].
      * apply IHr; try done. intros i ???. apply Hf; [set_solver|done|done].
Qed.

End rep.

(** ** Specifications *)

Section pos.
Context {D E X : Type}.
Implicit Types (T : BiTree X) (m : store (BiTreeNode D) E).

(** The member that [position_of side node] designates holds [p]. *)
Definition pos_holds (h : gmap loc (BiTreeNode D)) T (side : bool) (node p : ptr) : Prop :=
  match node with
  | None => b_root T = p
  | Some k => exists nd, h !! k = Some nd /\ child side nd = p
  end.

Lemma wp_read_pos T side node p Q m :
  pos_holds (cells m) T side node p -> Q p m ->
  wp (read_pos T (position_of side node)) Q m.
Proof.
  destruct node as [k|]; simpl; [|by intros <-].
  intros (nd & Hk & <-) HQ. wp_step. by eapply wp_load.
Qed.

Lemma pos_holds_frame h h' T T' side node p :
  b_root T' = b_root T -> (forall k, node = Some k -> h' !! k = h !! k) ->
  pos_holds h T side node p -> pos_holds h' T' side node p.
Proof.
  destruct node as [k|]; simpl; intros Hr Hf; [|congruence].
  intros (nd & Hk & Hc). exists nd. by rewrite (Hf k eq_refl).
Qed.

End pos.

Section spec.
Context {D : Type}.
Implicit Types (T : BiTree D) (m : store (BiTreeNode D) D) (t c : tree D).

(** What removing the subtree [c] below [node] leaves. *)
Record rem_post (side : bool) (node : ptr) c m T T' (m' : store (BiTreeNode D) D) : Prop := {
  rp_oracle : oracle m' = oracle m;
  rp_trace : trace m' = trace m ++ (if b_destroy T then postorder_of c else []);
  rp_size : b_size T' = b_size T - Z.of_nat (tsize c);
  rp_destroy : b_destroy T' = b_destroy T;
  rp_freed : forall l, l ∈ locs c -> cells m' !! l = None;
  rp_frame : only_on (option_list node ++ locs c) (cells m) (cells m');
  rp_cleared :
    match node with
    | None => b_root T' = NULL
    | Some k =>
        b_root T' = b_root T /\
        forall nd, cells m !! k = Some nd -> cells m' !! k = Some (set_child_ptr side NULL nd)
    end;
}.

Lemma set_child_ptr_same side (nd : BiTreeNode D) p :
  child side nd = p -> set_child_ptr side p nd = nd.
Proof. destruct nd, side; simpl; by intros <-. Qed.

Lemma rem_post_Lf side node m T :
  pos_holds (cells m) T side node NULL -> rem_post side node Lf m T T m.
Proof.
  intros Hp. split; simpl; try done; [by destruct (b_destroy T); rewrite app_nil_r|lia| |].
  - set_solver.
  - destruct node as [k|]; simpl in *; [|done]. split; [done|].
    intros nd Hk. destruct Hp as (nd' & Hk' & Hc). simplify_eq.
    by rewrite (set_child_ptr_same _ _ _ Hc).
Qed.

(** The end of a call, once both subtrees of the node at [k] are gone. *)
Lemma rem_child_node side node k d T m :
  pos_holds (cells m) T side node (Some k) ->
  cells m !! k = Some (Node d NULL NULL) -> node <> Some k ->
  INT_MIN < b_size T <= INT_MAX ->
  wp (nd ← load (Some k);
      _ ← (if b_destroy T then call_destroy (n_data nd) else mret tt);
      _ ← free (Some k);
      T ← write_pos T (position_of side node) NULL;
      sz ← int_of (b_size T - 1);
      mret (set_b_size sz T))
     (rem_post side node (Nd Lf k d Lf) m T) m.
Proof.
  intros Hp Hk Hne Hsz. wp_step. eapply wp_load; [done|]. cbn [n_data].
  wp_step. set (m1 := Store (cells m) (oracle m) (trace m ++ (if b_destroy T then [d] else []))).
  eapply wp_mono with (Q := fun _ m' => m' = m1).
  { unfold m1. destruct (b_destroy T); [done|]. apply wp_ret. by rewrite app_nil_r, store_eta. }
  intros _ ? ->. wp_step. eapply wp_free; [done|]. unfold m1; simpl.
  destruct node as [j|]; simpl in Hp |- *.
  - destruct Hp as (nd & Hj & Hc). repeat wp_step.
    assert (j <> k) by congruence.
    eapply wp_update; [simpl; by rewrite lookup_delete_ne|]. repeat wp_step.
    apply wp_int_of; [lia|]. wp_step. split; simpl; try done.
    + intros l Hl. assert (l = k) as -> by set_solver. by rewrite lookup_insert_ne, lookup_delete_eq.
    + eapply only_on_trans; [apply only_on_delete|apply only_on_insert]; set_solver.
    + split; [done|]. intros nd' Hj'. simplify_eq. by rewrite lookup_insert_eq.
  - repeat wp_step. apply wp_int_of; [simpl; lia|]. wp_step. split; simpl; try done.
    + intros l Hl. assert (l = k) as -> by set_solver. by rewrite lookup_delete_eq.
    + apply only_on_delete. set_solver.
Qed.

(** The two recursive calls and the end of the call, in one postcondition. *)
Lemma rem_post_seq side node l k d r pl pr T0 T1 T2 T3 m0 m1 m2 m3 :
  rem_post false (Some k) l m0 T0 T1 m1 ->
  rem_post true (Some k) r m1 T1 T2 m2 ->
  rem_post side node (Nd Lf k d Lf) m2 T2 T3 m3 ->
  cells m0 !! k = Some (Node d pl pr) ->
  NoDup (k :: locs l ++ locs r) ->
  (forall j, node = Some j -> j ∉ k :: locs l ++ locs r) ->
  rem_post side node (Nd l k d r) m0 T0 T3 m3.
Proof.
  intros [Ho1 Ht1 Hs1 Hd1 Hf1 Hfr1 [Hr1 Hc1]] [Ho2 Ht2 Hs2 Hd2 Hf2 Hfr2 [Hr2 Hc2]]
    [Ho3 Ht3 Hs3 Hd3 Hf3 Hfr3 Hc3] Hk [Hkn (Hndl & Hdj & Hndr)%NoDup_app]%NoDup_cons Hnode.
  simpl in *. split; simpl.
  - congruence.
  - rewrite Ht3, Ht2, Ht1, Hd2, Hd1. destruct (b_destroy T0); by rewrite <-!app_assoc, ?app_nil_r.
  - lia.
  - congruence.
  - assert (Hkeep : forall j, j ∈ locs l ++ locs r -> cells m3 !! j = cells m2 !! j).
    { intros j Hj. apply Hfr3. intros [Hn|Hjk]%elem_of_app; [|set_solver].
      destruct node as [i|]; [|set_solver]. apply (Hnode i eq_refl). set_solver. }
    intros j [->|[Hj|Hj]%elem_of_app]%elem_of_cons; [apply Hf3; set_solver| |].
    + rewrite Hkeep, Hfr2 by set_solver. by apply Hf1.
    + rewrite Hkeep by set_solver. by apply Hf2.
  - eapply only_on_trans; [eapply only_on_weaken; [|done]; set_solver|].
    eapply only_on_trans; [eapply only_on_weaken; [|done]; set_solver|].
    eapply only_on_weaken; [|done]; set_solver.
  - destruct node as [j|]; [|done]. destruct Hc3 as [Hr3 Hc3]. split; [congruence|].
    specialize (Hnode j eq_refl). intros nd Hj. apply Hc3.
    rewrite Hfr2, Hfr1 by set_solver. done.
Qed.

Lemma rem_child_spec c : forall fuel side node p T m,
  pos_holds (cells m) T side node p -> tree_at (cells m) p c -> NoDup (locs c) ->
  (forall j, node = Some j -> j ∉ locs c) ->
  Z.of_nat (tsize c) <= b_size T <= INT_MAX -> (tsize c <= fuel)%nat ->
  wp (rem_child fuel side T node) (rem_post side node c m T) m.
Proof.
  induction c as [|l IHl k d r IHr]; intros fuel side node p T m Hp Ht Hnd Hn Hsz Hfu;
    simpl in Ht.
  - subst p. destruct fuel; cbn [rem_child];
      (destruct (Z.eqb_spec (b_size T) 0); [apply wp_ret; by apply rem_post_Lf|]);
      (wp_step; eapply wp_read_pos; [done|]; by apply wp_ret, rem_post_Lf).
  - destruct Ht as (-> & pl & pr & Hk & Htl & Htr). simpl in Hsz, Hfu, Hnd, Hn.
    destruct fuel as [|fuel]; [lia|]. cbn [rem_child].
    destruct (Z.eqb_spec (b_size T) 0); [lia|].
    pose proof Hnd as [Hkn (Hndl & Hdj & Hndr)%NoDup_app]%NoDup_cons.
    wp_step; eapply wp_read_pos; [done|]. cbn beta iota.
    wp_step. eapply wp_mono; [eapply (IHl fuel false (Some k) pl T m); try done; try lia|].
    { simpl. eauto. }
    { intros j [= <-]. set_solver. }
    intros T1 m1 H1. pose proof H1 as [_ _ Hs1 Hd1 _ Hfr1 [Hr1 Hc1]]. simpl in Hfr1.
    wp_step. eapply wp_read_pos.
    { eapply pos_holds_frame; [done| |done]. intros j Hj. apply Hfr1.
      specialize (Hn j Hj). set_solver. }
    wp_step. eapply wp_mono; [eapply (IHr fuel true (Some k) pr T1 m1); try done; try lia|].
    { simpl. eexists. split; [by apply Hc1|done]. }
    { eapply tree_at_only_on; [done| |done]. intros j Hj [->|?]%elem_of_cons; set_solver. }
    { intros j [= <-]. set_solver. }
    intros T2 m2 H2. pose proof H2 as [_ _ Hs2 Hd2 _ Hfr2 [Hr2 Hc2]]. simpl in Hfr2.
    assert (Hp2 : pos_holds (cells m2) T2 side node (Some k)).
    { eapply pos_holds_frame; [|intros j Hj|done]; [congruence|].
      specialize (Hn j Hj). rewrite Hfr2, Hfr1 by set_solver. done. }
    wp_step. eapply wp_read_pos; [done|].
    eapply wp_mono; [eapply (rem_child_node _ _ _ d); try done; try lia|].
    { erewrite Hc2 by (by apply Hc1). done. }
    { intros ->. set_solver. }
    { unfold INT_MIN. lia. }
    intros T3 m3 H3. by eapply rem_post_seq.
Qed.

(** A subtree is named by the node above it; NULL names the whole tree. *)
Definition slot (side : bool) (node : ptr) t : option (tree D) :=
  match node with None => Some t | Some k => child_of side k t end.
Definition plug (side : bool) (node : ptr) (s t : tree D) : tree D :=
  match node with None => s | Some k => set_child side k s t end.

Lemma slot_facts side node t c h T :
  is_bitree h T t -> slot side node t = Some c ->
  exists p, pos_holds h T side node p /\ tree_at h p c /\ NoDup (locs c) /\
    locs c ⊆ locs t /\ forall j, node = Some j -> j ∉ locs c.
Proof.
  intros [Ht Hnd Hsz]. destruct node as [k|]; simpl.
  - intros Hc. destruct (tree_at_child _ _ _ _ _ _ Ht Hc) as (nd & Hk & Hcat).
    destruct (child_of_nodup _ _ _ _ Hnd Hc). pose proof (child_of_locs _ _ _ _ Hc).
    exists (child side nd). split_and!; eauto. by intros j [= <-].
  - intros [= ->]. exists (b_root T). split_and!; done.
Qed.

Lemma plug_locs side node t c s :
  NoDup (locs t) -> slot side node t = Some c ->
  locs (plug side node s t) ++ locs c ≡ₚ locs t ++ locs s.
Proof.
  destruct node as [k|]; simpl; [apply set_child_locs|].
  intros _ [= ->]. apply Permutation_app_comm.
Qed.

Lemma plug_tsize side node t c s :
  NoDup (locs t) -> slot side node t = Some c ->
  (tsize (plug side node s t) + tsize c = tsize t + tsize s)%nat.
Proof.
  intros Hnd Hc. rewrite <- !length_locs, <- !length_app. by apply Permutation_length, plug_locs.
Qed.

Lemma plug_nodup side node t c s :
  NoDup (locs t) -> slot side node t = Some c ->
  NoDup (locs s) -> (forall l, l ∈ locs s -> l ∉ locs t) ->
  NoDup (locs (plug side node s t)).
Proof.
  intros Hnd Hc Hs Hd. eapply (NoDup_app _ (locs c)). rewrite (plug_locs _ _ _ _ _ Hnd Hc).
  apply NoDup_app. split_and!; [done| |done]. intros l ? ?. by eapply Hd.
Qed.

(** Replacing a subtree, when only the member above it and its cells change. *)
Lemma is_bitree_plug side node t c s h h' T T' ps :
  is_bitree h T t -> slot side node t = Some c ->
  tree_at h' ps s -> NoDup (locs s) -> (forall l, l ∈ locs s -> l ∉ locs t) ->
  (forall j, j ∈ locs t -> node <> Some j -> j ∉ locs c -> h' !! j = h !! j) ->
  match node with
  | None => b_root T' = ps
  | Some k => b_root T' = b_root T /\
      forall nd, h !! k = Some nd -> h' !! k = Some (set_child_ptr side ps nd)
  end ->
  b_size T' = b_size T - Z.of_nat (tsize c) + Z.of_nat (tsize s) ->
  is_bitree h' T' (plug side node s t).
Proof.
  intros [Ht Hnd Hsz] Hc Hs Hnds Hd Hf Hw Hsz'. split.
  - destruct node as [k|]; simpl in *; [|by subst ps].
    destruct Hw as [-> Hw]. destruct (tree_at_child _ _ _ _ _ _ Ht Hc) as (nd & Hk & _).
    eapply tree_at_set_child; eauto. intros j ???. apply Hf; congruence.
  - by eapply plug_nodup.
  - pose proof (plug_tsize _ _ _ _ s Hnd Hc). lia.
Qed.

(** [bitree_ins_left]/[bitree_ins_right] and [bitree_rem_left]/[bitree_rem_right]
    by side. *)
Definition bitree_ins (side : bool) : BiTree D -> ptr -> D -> M (store (BiTreeNode D) D) _ :=
  if side then bitree_ins_right else bitree_ins_left.
Definition bitree_rem (side : bool) : BiTree D -> ptr -> M (store (BiTreeNode D) D) _ :=
  if side then bitree_rem_right else bitree_rem_left.

(** The insertion proper, once the slot is known to be empty. *)
Lemma insert_at_spec side node t d T m :
  is_bitree (cells m) T t -> slot side node t = Some Lf -> b_size T < INT_MAX ->
  wp (new_node ← malloc (Node d NULL NULL);
      match new_node with
      | None => mret (-1, T)
      | Some _ =>
          T ← write_pos T (position_of side node) new_node;
          sz ← int_of (b_size T + 1);
          mret (0, set_b_size sz T)
      end)
     (fun '(r, T') m' =>
        oracle m' = tail (oracle m) /\ trace m' = trace m /\
        if may_alloc m then
          r = 0 /\ b_destroy T' = b_destroy T /\ exists l, cells m !! l = None /\
          is_bitree (cells m') T' (plug side node (Nd Lf l d Lf) t) /\
          only_on (l :: option_list node) (cells m) (cells m')
        else r = -1 /\ T' = T /\ cells m' = cells m) m.
Proof.
  intros HT Hs Hsz. pose proof HT as [Ht Hnd Hts].
  wp_step. apply wp_malloc; intros Ha; rewrite Ha; [|by apply wp_ret].
  intros l Hl. pose proof (tree_at_fresh _ _ _ _ Ht Hl) as Hfresh.
  destruct (slot_facts _ _ _ _ _ _ HT Hs) as (p & Hp & _ & _ & _ & _).
  assert (Hnew : NoDup (locs (Nd Lf l d Lf))) by (apply NoDup_singleton).
  assert (Hdis : forall j, j ∈ locs (Nd Lf l d Lf) -> j ∉ locs t) by (simpl; set_solver).
  destruct node as [k|]; simpl in Hp |- *; repeat wp_step.
  - destruct Hp as (nd & Hk & Hc). assert (k <> l) by congruence.
    eapply wp_update; [simpl; by rewrite lookup_insert_ne|]. repeat wp_step.
    apply wp_int_of; [unfold INT_MIN; lia|]. wp_step. split_and!; try done.
    exists l. split_and!; [done| |].
    + eapply (is_bitree_plug side (Some k) t Lf (Nd Lf l d Lf) _ _ T _ (Some l)); try done.
      * simpl. split; [done|]. exists NULL, NULL. rewrite lookup_insert_ne, lookup_insert_eq; done.
      * intros j ???; simpl. rewrite !lookup_insert_ne by congruence || set_solver. done.
      * split; [done|]. intros nd' ?. simplify_eq/=. by rewrite lookup_insert_eq.
      * simpl. lia.
    + simpl. eapply only_on_trans; apply only_on_insert; set_solver.
  - apply wp_int_of; [unfold INT_MIN; simpl; lia|]. wp_step. split_and!; try done.
    exists l. split_and!; [done| |apply only_on_insert; set_solver].
    eapply (is_bitree_plug side NULL t Lf (Nd Lf l d Lf) _ _ T _ (Some l)); try done.
    + simpl. split; [done|]. exists NULL, NULL. by rewrite lookup_insert_eq.
    + intros j ???; simpl. rewrite lookup_insert_ne by set_solver. done.
    + simpl. lia.
Qed.

(** [bitree_ins_left] and [bitree_ins_right] below [node] (at the root for
    NULL): where the slot is taken, -1 and nothing changes; where it is free, a
    fresh leaf with the datum is put there and nothing else moves; when [malloc]
    fails, -1 and nothing changes.  The result is again a well-formed tree with
    the right size. *)
Theorem bitree_ins_correct side node t c d T m :
  is_bitree (cells m) T t -> slot side node t = Some c -> b_size T < INT_MAX ->
  match c with
  | Nd _ _ _ _ => bitree_ins side T node d m = Ok ((-1, T), m)
  | Lf =>
      if may_alloc m then
        exists l T' m', bitree_ins side T node d m = Ok ((0, T'), m') /\
          cells m !! l = None /\
          is_bitree (cells m') T' (plug side node (Nd Lf l d Lf) t) /\
          only_on (l :: option_list node) (cells m) (cells m') /\
          b_destroy T' = b_destroy T /\ trace m' = trace m
      else bitree_ins side T node d m
             = Ok ((-1, T), Store (cells m) (tail (oracle m)) (trace m))
  end.
Proof.
  intros HT Hs Hsz. replace (bitree_ins side) with (@ins_child D D D side) by by destruct side.
  destruct c as [|l j e r].
  - pose proof (insert_at_spec side node t d T m HT Hs Hsz) as Hwp.
    assert (ins_child side T node d m = ltac:(lazymatch type of Hwp with wp ?c _ _ => exact (c m) end))
      as ->.
    { destruct node as [k|]; simpl in *.
      - destruct (tree_at_child _ _ _ _ _ _ (bt_root _ _ _ HT) Hs) as (nd & Hk & Hc).
        erewrite (bind_ok _ _ _ nd m); [|unfold load; by rewrite Hk]. by rewrite Hc.
      - simplify_eq. pose proof (bt_size _ _ _ HT) as Hz. simpl in Hz. by rewrite Hz. }
    apply wp_inv in Hwp as ([r T'] & m' & -> & Ho & Htr & Hpost).
    destruct (may_alloc m).
    + destruct Hpost as (-> & ? & l & ? & ? & ?). exists l, T', m'. by split_and!.
    + destruct Hpost as (-> & -> & <-). by rewrite <- Ho, <- Htr, store_eta.
  - destruct node as [k|]; simpl in *.
    + destruct (tree_at_child _ _ _ _ _ _ (bt_root _ _ _ HT) Hs) as (nd & Hk & Hc & _).
      erewrite (bind_ok _ _ _ nd m); [|unfold load; by rewrite Hk]. by rewrite Hc.
    + simplify_eq. rewrite (proj2 (Z.gtb_lt _ _)); [done|].
      rewrite (bt_size _ _ _ HT). simpl. lia.
Qed.

Lemma bitree_rem_spec side node t c T m :
  is_bitree (cells m) T t -> slot side node t = Some c -> b_size T <= INT_MAX ->
  wp (bitree_rem side T node) (rem_post side node c m T) m.
Proof.
  intros HT Hs Hsz. pose proof HT as [Ht Hnd Hts].
  destruct (slot_facts _ _ _ _ _ _ HT Hs) as (p & Hp & Hc & Hndc & Hsub & Hn).
  assert (Hfuel : (tsize c <= walk_fuel m)%nat).
  { rewrite <- length_locs. apply Nat.lt_le_incl, allocated_lt_walk_fuel; [done|].
    intros l ?. by eapply tree_at_alloc. }
  assert (Z.of_nat (tsize c) <= b_size T <= INT_MAX).
  { pose proof (plug_tsize _ _ _ _ Lf Hnd Hs). simpl in *. lia. }
  replace (bitree_rem side T node)
    with (gets walk_fuel ≫= fun fuel => rem_child fuel side T node) by by destruct side.
  wp_step. by eapply rem_child_spec.
Qed.

(** C35: [bitree_rem_left] and [bitree_rem_right] below [node] (the whole tree
    for NULL) return; the subtree there is gone from the tree and the rest is
    unchanged, every cell of the subtree is freed and no other cell is touched
    but the node above it, and [destroy] (when it is not NULL) is called once
    per datum, children before parents. *)
Theorem bitree_rem_correct side node t c T m :
  is_bitree (cells m) T t -> slot side node t = Some c -> b_size T <= INT_MAX ->
  exists T' m', bitree_rem side T node m = Ok (T', m') /\
    is_bitree (cells m') T' (plug side node Lf t) /\
    (forall l, l ∈ locs c -> cells m' !! l = None) /\
    only_on (option_list node ++ locs c) (cells m) (cells m') /\
    trace m' = trace m ++ (if b_destroy T then postorder_of c else []).
Proof.
  intros HT Hs Hsz.
  destruct (wp_inv _ _ _ (bitree_rem_spec side node t c T m HT Hs Hsz)) as (T' & m' & Hrun & []).
  exists T', m'. split_and!; try done.
  eapply (is_bitree_plug side node t c Lf); try done; simpl; [constructor|set_solver| |lia].
  intros j ???. apply rp_frame0. destruct node; set_solver.
Qed.

Lemma bitree_destroy_spec t T m :
  is_bitree (cells m) T t -> b_size T <= INT_MAX ->
  wp (bitree_destroy T) (fun T' m' => T' = bitree_zero /\
     (forall l, cells m' !! l = if decide (l ∈ locs t) then None else cells m !! l) /\
     oracle m' = oracle m /\
     trace m' = trace m ++ (if b_destroy T then postorder_of t else [])) m.
Proof.
  intros HT Hsz. unfold bitree_destroy. wp_step.
  eapply wp_mono; [exact (bitree_rem_spec false NULL t t T m HT eq_refl Hsz)|].
  intros T' m' []. apply wp_ret. split_and!; try done.
  intros l. case_decide; [by apply rp_freed0|by apply rp_frame0].
Qed.

(** [bitree_destroy] returns, frees every node of the tree and no other
    cell, hands every datum to [destroy] in postorder and zeroes the object. *)
Theorem bitree_destroy_correct t T m :
  is_bitree (cells m) T t -> b_size T <= INT_MAX ->
  exists m', bitree_destroy T m = Ok (bitree_zero, m') /\
    (forall l, cells m' !! l = if decide (l ∈ locs t) then None else cells m !! l) /\
    trace m' = trace m ++ (if b_destroy T then postorder_of t else []).
Proof.
  intros HT Hsz. destruct (wp_inv _ _ _ (bitree_destroy_spec t T m HT Hsz))
    as (T' & m' & Hrun & -> & ? & ? & ?). by exists m'.
Qed.

Lemma is_bitree_empty T (h : gmap loc (BiTreeNode D)) :
  b_root T = NULL -> b_size T = 0 -> is_bitree h T Lf.
Proof. split; [done|constructor|done]. Qed.

(** [bitree_merge], as a postcondition. *)
Definition merge_post (tl tr : tree D) (d : D) (TL TR : BiTree D) m
    (x : Z * (BiTree D * BiTree D * BiTree D)) (m' : store (BiTreeNode D) D) : Prop :=
  let '(r, (G', TL', TR')) := x in
  oracle m' = tail (oracle m) /\ trace m' = trace m /\
  if may_alloc m then
    r = 0 /\ b_destroy G' = b_destroy TL /\ exists l, cells m !! l = None /\
    is_bitree (cells m') G' (Nd tl l d tr) /\
    is_bitree (cells m') TL' Lf /\ is_bitree (cells m') TR' Lf /\
    only_on [l] (cells m) (cells m')
  else r = -1 /\ G' = bitree_zero /\ TL' = TL /\ TR' = TR /\ cells m' = cells m.

Lemma bitree_merge_spec tl tr d G TL TR m :
  is_bitree (cells m) TL tl -> is_bitree (cells m) TR tr ->
  (forall l, l ∈ locs tl -> l ∉ locs tr) -> 1 + b_size TL + b_size TR <= INT_MAX ->
  wp (bitree_merge G TL TR d) (merge_post tl tr d TL TR m) m.
Proof.
  intros [Htl Hndl Hsl] [Htr Hndr Hsr] Hd Hsz. unfold bitree_merge, bitree_ins_left, ins_child.
  simpl. repeat wp_step. unfold merge_post.
  apply wp_malloc; intros Ha; rewrite Ha; [|by repeat wp_step].
  intros l Hl. pose proof (tree_at_fresh _ _ _ _ Htl Hl) as Hfl.
  pose proof (tree_at_fresh _ _ _ _ Htr Hl) as Hfr.
  repeat wp_step. apply wp_int_of; [done|]. repeat (wp_step; cbn).
  do 2 (eapply wp_update; [apply lookup_insert_eq|]; simpl; repeat wp_step).
  apply wp_int_of; [unfold INT_MIN; lia|]. repeat wp_step.
  apply wp_int_of; [unfold INT_MIN; lia|]. repeat wp_step. split_and!; try done.
  exists l. split_and!; try done; [|by apply is_bitree_empty..|].
  - rewrite !insert_insert_eq. split; simpl; [| |lia].
    + split; [done|]. eexists _, _. split; [by rewrite lookup_insert_eq|].
      split; (eapply tree_at_only_on; [apply (only_on_insert [l]); set_solver| |done]);
        set_solver.
    + apply NoDup_cons. split; [set_solver|]. apply NoDup_app. by split_and!.
  - rewrite !insert_insert_eq. apply only_on_insert. set_solver.
Qed.

(** [bitree_merge] of two trees that share no node builds the tree with
    the datum at the root and the two trees as its children, of the summed size
    and with the left tree's [destroy], and leaves both arguments empty; when
    [malloc] fails it returns -1, with both arguments and every cell as before. *)
Theorem bitree_merge_correct tl tr d G TL TR m :
  is_bitree (cells m) TL tl -> is_bitree (cells m) TR tr ->
  (forall l, l ∈ locs tl -> l ∉ locs tr) -> 1 + b_size TL + b_size TR <= INT_MAX ->
  if may_alloc m then
    exists l G' TL' TR' m', bitree_merge G TL TR d m = Ok ((0, (G', TL', TR')), m') /\
      cells m !! l = None /\ b_destroy G' = b_destroy TL /\
      is_bitree (cells m') G' (Nd tl l d tr) /\
      is_bitree (cells m') TL' Lf /\ is_bitree (cells m') TR' Lf /\
      only_on [l] (cells m) (cells m') /\ trace m' = trace m
  else bitree_merge G TL TR d m
         = Ok ((-1, (bitree_zero, TL, TR)), Store (cells m) (tail (oracle m)) (trace m)).
Proof.
  intros HL HR Hd Hsz.
  destruct (wp_inv _ _ _ (bitree_merge_spec tl tr d G TL TR m HL HR Hd Hsz))
    as ([r [[G' TL'] TR']] & m' & -> & Ho & Ht & Hpost).
  destruct (may_alloc m).
  - destruct Hpost as (-> & ? & l & Hp). exists l, G', TL', TR', m'. naive_solver.
  - destruct Hpost as (-> & -> & -> & -> & <-). by rewrite <- Ho, <- Ht, store_eta.
Qed.

End spec.

(** ** Witnesses: a three-node tree *)

Definition ex_tree : tree Z := Nd (Nd Lf 4%positive 20 Lf) 2%positive 10 (Nd Lf 9%positive 30 Lf).
Definition ex_nodes : gmap loc (BiTreeNode Z) :=
  {[ 2%positive := Node 10 (Some 4%positive) (Some 9%positive);
     4%positive := Node 20 NULL NULL; 9%positive := Node 30 NULL NULL ]}.
Definition ex_bmem : store (BiTreeNode Z) Z := Store ex_nodes [] [].
Definition ex_bitree : BiTree Z := MkBiTree 3 None true (Some 2%positive).

Lemma ex_is_bitree : is_bitree ex_nodes ex_bitree ex_tree.
Proof.
  split; [|by apply (bool_decide_unpack _); vm_compute|done].
  split; [done|]. do 2 eexists. split; [reflexivity|].
  split; (split; [done|]); do 2 eexists; (split; [reflexivity|]); done.
Qed.

Lemma bitree_ins_correct_witness :
  bitree_ins true ex_bitree (Some 2%positive) 40 ex_bmem = Ok ((-1, ex_bitree), ex_bmem) /\
  exists l T' m', bitree_ins true ex_bitree (Some 4%positive) 40 ex_bmem = Ok ((0, T'), m') /\
    cells ex_bmem !! l = None /\
    is_bitree (cells m') T'
      (Nd (Nd Lf 4%positive 20 (Nd Lf l 40 Lf)) 2%positive 10 (Nd Lf 9%positive 30 Lf)) /\
    only_on (l :: option_list (Some 4%positive)) (cells ex_bmem) (cells m') /\
    b_destroy T' = true /\ trace m' = [].
Proof.
  split.
  - apply (bitree_ins_correct true (Some 2%positive) ex_tree (Nd Lf 9%positive 30 Lf) 40
             ex_bitree ex_bmem ex_is_bitree); reflexivity.
  - apply (bitree_ins_correct true (Some 4%positive) ex_tree Lf 40
             ex_bitree ex_bmem ex_is_bitree); reflexivity.
Defined.

Lemma bitree_rem_correct_witness :
  exists T' m', bitree_rem false ex_bitree (Some 2%positive) ex_bmem = Ok (T', m') /\
    is_bitree (cells m') T' (Nd Lf 2%positive 10 (Nd Lf 9%positive 30 Lf)) /\
    (forall l, l ∈ [4%positive] -> cells m' !! l = None) /\
    only_on [2%positive; 4%positive] (cells ex_bmem) (cells m') /\ trace m' = [20].
Proof.
  apply (bitree_rem_correct false (Some 2%positive) ex_tree (Nd Lf 4%positive 20 Lf)
           ex_bitree ex_bmem ex_is_bitree); [reflexivity|vm_compute; discriminate].
Defined.

Lemma bitree_destroy_correct_witness :
  exists m', bitree_destroy ex_bitree ex_bmem = Ok (bitree_zero, m') /\
    (forall l, cells m' !! l
       = if decide (l ∈ [2; 4; 9]%positive) then None else ex_nodes !! l) /\
    trace m' = [20; 30; 10].
Proof.
  apply (bitree_destroy_correct ex_tree ex_bitree ex_bmem ex_is_bitree).
  vm_compute; discriminate.
Defined.

Lemma bitree_merge_correct_witness :
  exists l G' TL' TR' m',
    bitree_merge bitree_zero ex_bitree bitree_zero 5 ex_bmem = Ok ((0, (G', TL', TR')), m') /\
    ex_nodes !! l = None /\ b_destroy G' = true /\
    is_bitree (cells m') G' (Nd ex_tree l 5 Lf) /\
    is_bitree (cells m') TL' Lf /\ is_bitree (cells m') TR' Lf /\
    only_on [l] ex_nodes (cells m') /\ trace m' = [].
Proof.
  apply (bitree_merge_correct ex_tree Lf 5 bitree_zero ex_bitree bitree_zero ex_bmem ex_is_bitree);
    [by apply is_bitree_empty|set_solver|vm_compute; discriminate].
Defined.
