(* ===== verification/CTraverse.v ===== *)
(** * The tree traversals of [src/lib/_structs/traverse.c]

    [preorder], [inorder] and [postorder] append the data of a tree to a list
    with [list_ins_next].  They only read the nodes, which are an argument; the
    store is the list's.  [bitree_lef] (traverse.c, line 27) is read as
    [bitree_left]. *)

From stdpp Require Import prelude gmap list.
From Stdlib Require Import ZArith Lia.
From S2P Require Import Prelude CList CBiTree.

Section traverse.
Context {D : Type}.
Implicit Types (nodes : gmap loc (BiTreeNode D)) (list : List D) (ds : list D).

(** A read of [*node]. *)
Definition node_at nodes (node : ptr) : M (lmem D) (BiTreeNode D) :=
  match node with
  | None => throw NullDeref
  | Some k => match nodes !! k with Some nd => mret nd | None => throw Dangling end
  end.

(** [if (!bitree_is_eob(node)) if (f(node, list) != 0) return -1;] and the
    statements [k] that follow. *)
Definition visit (f : ptr -> List D -> M (lmem D) (Z * List D)) (node : ptr) list
    (k : List D -> M (lmem D) (Z * List D)) : M (lmem D) (Z * List D) :=
  match node with
  | None => k list
  | Some _ =>
      '(r, list) ← f node list;
      if r =? 0 then k list else mret (-1, list)
  end.

(** [if (list_ins_next(list, list_tail(list), data) != 0) return -1;] *)
Definition append list (d : D) (k : List D -> M (lmem D) (Z * List D))
  : M (lmem D) (Z * List D) :=
  '(r, list) ← list_ins_next list (l_tail list) d;
  if r =? 0 then k list else mret (-1, list).

Fixpoint preorder (fuel : nat) nodes (node : ptr) list : M (lmem D) (Z * List D) :=
  match node, fuel with
  | None, _ => mret (0, list)
  | Some _, O => no_fuel
  | Some _, S fuel =>
      nd ← node_at nodes node;
      append list (n_data nd) (fun list =>
      visit (preorder fuel nodes) (n_left nd) list (fun list =>
      visit (preorder fuel nodes) (n_right nd) list (fun list =>
      mret (0, list))))
  end.

Fixpoint inorder (fuel : nat) nodes (node : ptr) list : M (lmem D) (Z * List D) :=
  match node, fuel with
  | None, _ => mret (0, list)
  | Some _, O => no_fuel
  | Some _, S fuel =>
      nd ← node_at nodes node;
      visit (inorder fuel nodes) (n_left nd) list (fun list =>
      append list (n_data nd) (fun list =>
      visit (inorder fuel nodes) (n_right nd) list (fun list =>
      mret (0, list))))
  end.

Fixpoint postorder (fuel : nat) nodes (node : ptr) list : M (lmem D) (Z * List D) :=
  match node, fuel with
  | None, _ => mret (0, list)
  | Some _, O => no_fuel
  | Some _, S fuel =>
      nd ← node_at nodes node;
      visit (postorder fuel nodes) (n_left nd) list (fun list =>
      visit (postorder fuel nodes) (n_right nd) list (fun list =>
      append list (n_data nd) (fun list =>
      mret (0, list))))
  end.

(** ** The reference: appending a sequence *)

Fixpoint append_all list ds : M (lmem D) (Z * List D) :=
  match ds with
  | [] => mret (0, list)
  | d :: ds => append list d (fun list => append_all list ds)
  end.

(** Two computations that agree on every store. *)
Definition same {S A} (c c' : M S A) : Prop := forall m, c m = c' m.

Lemma append_ext list d k k' :
  (forall l, same (k l) (k' l)) -> same (append list d k) (append list d k').
Proof.
  intros Hk m. unfold append, mbind, M_bind.
  destruct (list_ins_next list (l_tail list) d m) as [[[r l] m']| |]; [|done..].
  destruct (r =? 0); [apply Hk|done].
Qed.

Lemma append_all_then list xs ys :
  same ('(r, l) ← append_all list xs; if r =? 0 then append_all l ys else mret (-1, l))
       (append_all list (xs ++ ys)).
Proof.
  revert list. induction xs as [|d xs IH]; intros list m; [done|].
  cbn [append_all app]. unfold append, mbind, M_bind.
  destruct (list_ins_next list (l_tail list) d m) as [[[r l] m']| |]; [|done..].
  destruct (r =? 0) eqn:Hr; [|done]. rewrite <- (IH l m'). done.
Qed.

(** [visit] of a traversal that appends [xs], followed by appending [ys]. *)
Lemma visit_append f nodes p t xs ys list k :
  tree_at nodes p t -> (t = Lf -> xs = []) ->
  (forall l, same (f p l) (append_all l xs)) -> (forall l, same (k l) (append_all l ys)) ->
  same (visit f p list k) (append_all list (xs ++ ys)).
Proof.
  intros Ht Hx Hf Hk m. destruct t as [|l j d r]; simpl in Ht.
  - rewrite (Hx eq_refl). subst p. apply Hk.
  - destruct Ht as [-> _]. rewrite <- (append_all_then list xs ys m). unfold visit, mbind, M_bind.
    rewrite (Hf list m). destruct (append_all list xs m) as [[[r' l'] m']| |]; [|done..].
    destruct (r' =? 0); [apply Hk|done].
Qed.

End traverse.

(** ** Each traversal appends the tree's sequence *)

(** The three traversals, by name. *)
Inductive order := Pre | In | Post.

Section correct.
Context {D : Type}.
Implicit Types (nodes : gmap loc (BiTreeNode D)) (t : tree D).

Definition traverse (o : order) : nat -> gmap loc (BiTreeNode D) -> ptr -> List D -> M (lmem D) (Z * List D) :=
  match o with Pre => preorder | In => inorder | Post => postorder end.

Definition sequence (o : order) t : list D :=
  match o with Pre => preorder_of t | In => inorder_of t | Post => postorder_of t end.

(** The order in which a node and its subtrees are visited. *)
Lemma sequence_Nd o l k d r :
  sequence o (Nd l k d r) =
  match o with
  | Pre => [d] ++ sequence o l ++ sequence o r ++ []
  | In => sequence o l ++ [d] ++ sequence o r ++ []
  | Post => sequence o l ++ sequence o r ++ [d] ++ []
  end.
Proof. destruct o; simpl; by rewrite ?app_nil_r. Qed.

Lemma length_sequence o t : length (sequence o t) = tsize t.
Proof.
  induction t as [|l IHl k d r IHr]; [by destruct o|].
  rewrite sequence_Nd. destruct o; rewrite !length_app; simpl in *; lia.
Qed.

Lemma append_one (L : List D) d k ys :
  (forall l, same (k l) (append_all l ys)) -> same (append L d k) (append_all L ([d] ++ ys)).
Proof. intros Hk. by apply append_ext. Qed.

Lemma traverse_append o nodes t : forall fuel p L,
  tree_at nodes p t -> (tsize t <= fuel)%nat ->
  same (traverse o fuel nodes p L) (append_all L (sequence o t)).
Proof.
  induction t as [|l IHl k d r IHr]; intros fuel p L Ht Hfu m; simpl in Ht.
  { subst p. by destruct o, fuel. }
  destruct Ht as (-> & pl & pr & Hk & Hl & Hr). simpl in Hfu. destruct fuel as [|fuel]; [lia|].
  rewrite sequence_Nd.
  assert (forall l', same (traverse o fuel nodes pl l') (append_all l' (sequence o l))) as IHl'
    by (intros; apply IHl; [done|lia]).
  assert (forall l', same (traverse o fuel nodes pr l') (append_all l' (sequence o r))) as IHr'
    by (intros; apply IHr; [done|lia]).
  assert (forall t, t = Lf -> sequence o t = []) as Hnil by (intros ? ->; by destruct o).
  destruct o; cbn [traverse preorder inorder postorder node_at]; rewrite Hk;
    repeat first [ by intros ?
                 | apply append_one; intros ?
                 | eapply visit_append; [done|apply Hnil|done|intros ?] ].
Qed.

(** How many of the next [n] calls of [malloc] succeed before the first that
    fails. *)
Fixpoint granted (n : nat) (o : list bool) : nat :=
  match n with
  | O => O
  | S n => if default true (head o) then S (granted n (tail o)) else O
  end.

Lemma append_all_spec ds : forall (L : List D) ls xs m,
  is_list (cells m) L ls xs -> Z.of_nat (length xs + length ds) <= INT_MAX ->
  wp (append_all L ds) (fun '(r, L') m' =>
    let n := granted (length ds) (oracle m) in
    r = (if (n =? length ds)%nat then 0 else -1) /\ same_fns L L' /\ trace m' = trace m /\
    exists ls', (forall l, l ∈ ls' -> cells m !! l = None) /\
      is_list (cells m') L' (ls ++ ls') (xs ++ take n ds) /\
      only_on (ls ++ ls') (cells m) (cells m')) m.
Proof.
  induction ds as [|d ds IH]; intros L ls xs m HL Hsz.
  - apply wp_ret. split_and!; [done|done|done|]. exists []. rewrite !app_nil_r.
    split_and!; [set_solver|done|apply only_on_refl].
  - cbn [append_all granted length] in *. unfold append. wp_step.
    assert (l_tail L = elem_at ls (length xs)) as ->.
    { unfold elem_at. rewrite take_ge by (by rewrite (is_list_length _ _ _ _ HL)).
      apply HL. }
    eapply wp_mono; [apply (list_ins_next_at L ls xs); [done|lia]|].
    intros [r L1] m1. unfold ins_post, may_alloc.
    destruct (default true (head (oracle m))); cycle 1.
    { intros (_ & Ht & Hf & Hr & Hc). injection Hr as -> ->. apply wp_ret. split_and!; try done.
      exists []. rewrite !app_nil_r, Hc. split_and!; [set_solver|done|apply only_on_refl]. }
    intros (Ho & Ht & Hf & Hr1 & l & Hl & HL1 & Hon). simpl in *. subst r. simpl.
    rewrite !drop_ge, !take_ge in HL1 by (rewrite ?(is_list_length _ _ _ _ HL); lia).
    rewrite take_ge in Hon by (rewrite (is_list_length _ _ _ _ HL); lia).
    eapply wp_mono; [apply (IH L1 (ls ++ [l]) (xs ++ [d])); [done|rewrite length_app; simpl; lia]|].
    intros [r L2] m2. rewrite Ho. intros (Hr & Hf2 & Ht2 & ls' & Hfr & HL2 & Hon2).
    split_and!; [done| |congruence|].
    { destruct Hf, Hf2. split; congruence. }
    exists (l :: ls'). rewrite <- !app_assoc in HL2. rewrite <- app_assoc in Hon2.
    split_and!; [|done|].
    + intros j [->|Hj]%elem_of_cons; [done|]. rewrite <- (Hfr j Hj). symmetry. apply Hon.
      pose proof (il_nodup _ _ _ _ HL2) as Hnd. simpl in Hnd.
      apply NoDup_app in Hnd as (_ & Hd & [Hlj _]%NoDup_cons).
      intros [->|Hjl]%elem_of_cons; [done|]. apply (Hd j Hjl). set_solver.
    + eapply only_on_trans; [eapply only_on_weaken; [|done]|done]; set_solver.
Qed.

(** [preorder], [inorder] and [postorder] of a tree return (each node is
    visited within the fuel of the tree's size), append the tree's data to the
    list in the order of their name and return 0; when a [malloc] fails they
    return -1, and the list holds the data up to there.  The list stays
    well-formed and no cell that was allocated before, outside the list, is
    touched. *)
Theorem traverse_correct o nodes t p fuel L ls xs m :
  tree_at nodes p t -> (tsize t <= fuel)%nat ->
  is_list (cells m) L ls xs -> Z.of_nat (length xs + tsize t) <= INT_MAX ->
  let n := granted (tsize t) (oracle m) in
  exists L' ls' m',
    traverse o fuel nodes p L m = Ok ((if (n =? tsize t)%nat then 0 else -1, L'), m') /\
    is_list (cells m') L' (ls ++ ls') (xs ++ take n (sequence o t)) /\
    (forall l, l ∈ ls' -> cells m !! l = None) /\
    only_on (ls ++ ls') (cells m) (cells m') /\ trace m' = trace m.
Proof.
  intros Ht Hfu HL Hsz n. rewrite <- (length_sequence o t) in Hsz.
  destruct (wp_inv _ _ _ (append_all_spec (sequence o t) L ls xs m HL Hsz))
    as ([r L'] & m' & Hrun & -> & _ & Htr & ls' & Hfr & HL' & Hon).
  rewrite (length_sequence o t) in *. exists L', ls', m'.
  rewrite (traverse_append o nodes t fuel p L Ht Hfu m). by split_and!.
Qed.

End correct.

(** ** Witness *)

Lemma traverse_correct_witness :
  (exists L' ls' m',
    inorder 3 ex_nodes (Some 2%positive) ex_list ex_mem = Ok ((0, L'), m') /\
    is_list (cells m') L' ([7; 3]%positive ++ ls') [10; 20; 20; 10; 30] /\
    (forall l, l ∈ ls' -> cells ex_mem !! l = None) /\
    only_on ([7; 3]%positive ++ ls') (cells ex_mem) (cells m') /\ trace m' = []) /\
  (exists L' ls' m',
    postorder 3 ex_nodes (Some 2%positive) ex_list ex_mem_oom = Ok ((-1, L'), m') /\
    is_list (cells m') L' ([7; 3]%positive ++ ls') [10; 20] /\
    (forall l, l ∈ ls' -> cells ex_mem !! l = None) /\
    only_on ([7; 3]%positive ++ ls') (cells ex_mem) (cells m') /\ trace m' = []).
Proof.
  split.
  - apply (traverse_correct In ex_nodes ex_tree (Some 2%positive) 3 ex_list
             [7; 3]%positive [10; 20] ex_mem (bt_root _ _ _ ex_is_bitree));
      [reflexivity|exact ex_is_list|vm_compute; discriminate].
  - apply (traverse_correct Post ex_nodes ex_tree (Some 2%positive) 3 ex_list
             [7; 3]%positive [10; 20] ex_mem_oom (bt_root _ _ _ ex_is_bitree));
      [reflexivity|exact ex_is_list|vm_compute; discriminate].
Defined.
