(* ===== verification/CAvlTree.v ===== *)
(** * AVL trees as values: what [src/lib/_structs/bistree.c] computes

    The reference for the pointer code of [CAvl]: trees whose nodes carry the
    addresses of their two cells, rotation, insertion, search and lazy removal
    as functions, and the two invariants, balance and order. *)

From stdpp Require Import prelude list sorting.
From Stdlib Require Import ZArith Lia.
From S2P Require Import Prelude.

Definition AVL_LFT_HEAVY : Z := 1.
Definition AVL_BALANCED : Z := 0.
Definition AVL_RGT_HEAVY : Z := -1.

(** The factor of a node heavy on a side ([false]: left, [true]: right). *)
Definition heavy (side : bool) : Z := if side then AVL_RGT_HEAVY else AVL_LFT_HEAVY.

(** A node: the address of its [BiTreeNode], of its [AvlNode], the datum and
    the [hidden] mark. *)
Record tag (D : Type) := Tag { t_k : loc; t_v : loc; t_d : D; t_h : Z }.
Arguments Tag {D}.
Arguments t_k {D}.
Arguments t_v {D}.
Arguments t_d {D}.
Arguments t_h {D}.

Inductive avl (D : Type) := AL | AN (l : avl D) (n : tag D) (f : Z) (r : avl D).
Arguments AL {D}.
Arguments AN {D}.

Section avl.
Context {D : Type}.
Implicit Types (t x y l r : avl D) (n : tag D).

(** The node with [x] as its child on [side]. *)
Definition mk (side : bool) x n (f : Z) y : avl D :=
  if side then AN y n f x else AN x n f y.

(** The child on [side], and the rest. *)
Definition split (side : bool) t : option (avl D * tag D * Z * avl D) :=
  match t with
  | AL => None
  | AN l n f r => Some (if side then (r, n, f, l) else (l, n, f, r))
  end.

(** [rotate_left] ([side = false]) and [rotate_right] of the node [n] whose
    child on [side] is [x]. *)
Definition frot (side : bool) x n (f : Z) y : avl D :=
  match split side x with
  | None => mk side x n f y
  | Some (near, n1, f1, far) =>
      if f1 =? heavy side then mk side near n1 0 (mk side far n 0 y)
      else
        match split side far with
        | None => mk side x n f y
        | Some (g1, n2, f2, g2) =>
            let fn := if f2 =? heavy side then heavy (negb side)
                      else if (f2 =? 0) || (f2 =? heavy (negb side)) then 0 else f in
            let f1' := if f2 =? heavy (negb side) then heavy side
                       else if (f2 =? 0) || (f2 =? heavy side) then 0 else f1 in
            mk side (mk side near n1 f1' g1) n2 0 (mk side g2 n fn y)
        end
  end.

(** The rebalancing after an insertion below [n] on [side]; the number is
    [*balanced]. *)
Definition frebal (side : bool) x n (f : Z) y (b : Z) : avl D * Z :=
  if b =? 0 then
    if f =? heavy side then (frot side x n f y, 1)
    else if f =? 0 then (mk side x n (heavy side) y, b)
    else if f =? heavy (negb side) then (mk side x n 0 y, 1)
    else (mk side x n f y, b)
  else (mk side x n f y, b).

Context (cmp : D -> D -> Z).

(** Insertion of a datum with the two addresses of its cells; [None]: a visible
    node compares equal. *)
Fixpoint fins (new : tag D) t : option (avl D * Z) :=
  match t with
  | AL => Some (AN AL new 0 AL, 0)
  | AN l n f r =>
      let c := cmp (t_d new) (t_d n) in
      if c <? 0 then
        match fins new l with
        | Some (l', b) => Some (frebal false l' n f r b)
        | None => None
        end
      else if c >? 0 then
        match fins new r with
        | Some (r', b) => Some (frebal true r' n f l b)
        | None => None
        end
      else if t_h n =? 0 then None
      else Some (AN l (Tag (t_k n) (t_v n) (t_d new) 0) f r, 1)
  end.

(** The search of [lookup] and [hide]. *)
Fixpoint tfind (e : D) t : option (tag D) :=
  match t with
  | AL => None
  | AN l n f r =>
      let c := cmp e (t_d n) in
      if c <? 0 then tfind e l else if c >? 0 then tfind e r else Some n
  end.

Definition hidden_tag n : tag D := Tag (t_k n) (t_v n) (t_d n) 1.

Fixpoint fhide (e : D) t : avl D :=
  match t with
  | AL => AL
  | AN l n f r =>
      let c := cmp e (t_d n) in
      if c <? 0 then AN (fhide e l) n f r
      else if c >? 0 then AN l n f (fhide e r)
      else AN l (hidden_tag n) f r
  end.

(** ** Balance *)

Fixpoint height t : Z :=
  match t with AL => 0 | AN l _ _ r => 1 + Z.max (height l) (height r) end.

(** Every factor is the difference of the heights, and at most 1. *)
Fixpoint bal t : Prop :=
  match t with
  | AL => True
  | AN l _ f r => f = height l - height r /\ -1 <= f <= 1 /\ bal l /\ bal r
  end.

Definition root_factor t : Z := match t with AL => 0 | AN _ _ f _ => f end.

Fixpoint count t : Z := match t with AL => 0 | AN l _ _ r => 1 + count l + count r end.

Lemma height_nonneg t : 0 <= height t.
Proof. induction t; simpl; lia. Qed.

Lemma split_mk side t x n f y : split side t = Some (x, n, f, y) -> t = mk side x n f y.
Proof. destruct t, side; simpl; intros; by simplify_eq. Qed.

(** [bal] and [height] of a node, by side. *)
Lemma height_mk side x n f y : height (mk side x n f y) = 1 + Z.max (height x) (height y).
Proof. destruct side; simpl; lia. Qed.

Lemma bal_mk side x n f y :
  bal (mk side x n f y) <->
  f = heavy side * (height x - height y) /\ -1 <= f <= 1 /\ bal x /\ bal y.
Proof. destruct side; unfold heavy, AVL_RGT_HEAVY, AVL_LFT_HEAVY; simpl; intuition lia. Qed.

Lemma heavy_neg side : heavy (negb side) = - heavy side.
Proof. by destruct side. Qed.

Lemma heavy_cases side : heavy side = 1 \/ heavy side = -1.
Proof. destruct side; auto. Qed.

(** A rotation at a node whose [side] has become two higher restores the
    balance and the height before the insertion. *)
Lemma frot_bal side x n y :
  bal x -> bal y -> height x = height y + 2 -> root_factor x <> 0 ->
  bal (frot side x n (heavy side) y) /\ height (frot side x n (heavy side) y) = height x.
Proof.
  intros Hx Hy Hh Hrf. unfold frot. pose proof (height_nonneg y).
  destruct (split side x) as [[[[near n1] f1] far]|] eqn:Hsp; cycle 1.
  { destruct x; [simpl in *; lia|by destruct side]. }
  apply split_mk in Hsp as ->. rewrite height_mk in *. apply bal_mk in Hx as (Hf1 & Hr1 & Hn & Hfar).
  assert (f1 <> 0) by (by destruct side). pose proof (heavy_cases side) as Hc.
  destruct (Z.eqb_spec f1 (heavy side)) as [E|E].
  - rewrite !height_mk, !bal_mk, !height_mk. split; [|lia]. intuition (try lia; try nia).
  - destruct (split side far) as [[[[g1 n2] f2] g2]|] eqn:Hsp2.
    + apply split_mk in Hsp2 as ->. rewrite height_mk in *. apply bal_mk in Hfar as (Hf2 & Hr2 & Hg1 & Hg2).
      rewrite heavy_neg, !height_mk, !bal_mk, !height_mk.
      destruct Hc as [Hc|Hc]; rewrite Hc in *;
        assert (f2 = -1 \/ f2 = 0 \/ f2 = 1) as [-> | [-> | ->]] by lia; simpl;
        (split; [|lia]); intuition lia.
    + destruct far; [|by destruct side]. simpl in *. pose proof (height_nonneg near). nia.
Qed.

Lemma frebal_bal side x x' n f y b :
  bal (mk side x n f y) -> bal x' ->
  (b = 0 /\ height x' = height x + 1 /\ (x = AL \/ root_factor x' <> 0)) \/
  (b = 1 /\ height x' = height x) ->
  let '(t', b') := frebal side x' n f y b in
  bal t' /\
  ((b' = 0 /\ height t' = height (mk side x n f y) + 1 /\ root_factor t' <> 0) \/
   (b' = 1 /\ height t' = height (mk side x n f y))).
Proof.
  intros (Hf & Hr & Hx & Hy)%bal_mk Hx' Hb. pose proof (heavy_cases side) as Hc.
  pose proof (height_nonneg y). unfold frebal. rewrite heavy_neg.
  destruct Hb as [(-> & Hh & Hrf)|(-> & Hh)]; simpl.
  - destruct (Z.eqb_spec f (heavy side)) as [->|Ef].
    + assert (height x = height y + 1) by nia.
      destruct Hrf as [->|Hrf]; [simpl in *; lia|].
      destruct (frot_bal side x' n y) as [Hb Hh']; try done; [lia|].
      split; [done|]. right. rewrite Hh', height_mk. lia.
    + destruct (Z.eqb_spec f 0) as [->|E0].
      * rewrite !height_mk, bal_mk. split; [intuition nia|]. left.
        split_and!; [done|nia|]. destruct side; simpl; by destruct Hc.
      * assert (f = - heavy side) as -> by nia. rewrite Z.eqb_refl.
        rewrite !height_mk, bal_mk. split; [intuition nia|]. right. split; [done|nia].
  - rewrite !height_mk, bal_mk. split; [intuition nia|]. right. split; [done|lia].
Qed.

(** Insertion keeps the balance; [*balanced] stays 0 exactly when the tree
    grew. *)
Lemma fins_bal new t : forall t' b,
  bal t -> fins new t = Some (t', b) ->
  bal t' /\
  ((b = 0 /\ height t' = height t + 1 /\ (t = AL \/ root_factor t' <> 0)) \/
   (b = 1 /\ height t' = height t)).
Proof.
  induction t as [|l IHl n f r IHr]; intros t' b Hb; simpl.
  - intros [= <- <-]. simpl. split; [lia|]. left. auto.
  - destruct (Z.ltb_spec (cmp (t_d new) (t_d n)) 0).
    + destruct (fins new l) as [[l' b1]|]; [|done]. intros [= Heq].
      destruct (IHl l' b1 ltac:(apply Hb) eq_refl) as [Hl' Hh].
      pose proof (frebal_bal false l l' n f r b1 Hb Hl' Hh) as Hfr. rewrite Heq in Hfr.
      destruct Hfr as [? Hfr]. split; [done|]. simpl in Hfr. tauto.
    + destruct (cmp (t_d new) (t_d n) >? 0).
      * destruct (fins new r) as [[r' b1]|]; [|done]. intros [= Heq].
        destruct (IHr r' b1 ltac:(apply Hb) eq_refl) as [Hr' Hh].
        pose proof (frebal_bal true r r' n f l b1 Hb Hr' Hh) as Hfr. rewrite Heq in Hfr.
        destruct Hfr as [? Hfr]. split; [done|]. simpl in Hfr. tauto.
      * destruct (t_h n =? 0); [done|]. intros [= <- <-]. split; [done|]. by right.
Qed.

Lemma fhide_height e t : height (fhide e t) = height t.
Proof.
  induction t as [|l IHl n f r IHr]; simpl; [done|].
  destruct (cmp e (t_d n) <? 0), (cmp e (t_d n) >? 0); simpl; lia.
Qed.

Lemma fhide_bal e t : bal t -> bal (fhide e t).
Proof.
  induction t as [|l IHl n f r IHr]; simpl; [done|]. intros (? & ? & ? & ?).
  destruct (cmp e (t_d n) <? 0), (cmp e (t_d n) >? 0); simpl; rewrite ?fhide_height; auto.
Qed.

(** A balanced tree of height [h] has at least [2 ^ (h / 2) - 1] nodes. *)
Lemma bal_height t : bal t -> 2 ^ height t <= (count t + 1) * (count t + 1).
Proof.
  induction t as [|l IHl n f r IHr]; intros Hb; [simpl; lia|].
  destruct Hb as (Hf & Hfr & Hbl & Hbr). specialize (IHl Hbl). specialize (IHr Hbr).
  pose proof (height_nonneg l) as Hl0. pose proof (height_nonneg r) as Hr0.
  assert (Hcl : 0 <= count l) by (clear; induction l; simpl; lia).
  assert (Hcr : 0 <= count r) by (clear; induction r; simpl; lia).
  assert (Harith : forall A B X, 0 <= X -> 1 <= A -> 1 <= B -> 2 * X <= A * A -> X <= B * B ->
            4 * X <= (A + B) * (A + B)).
  { intros A B X ?????. assert (X <= A * B); [|nia].
    destruct (Z.le_gt_cases X (A * B)) as [?|Hlt]; [done|].
    assert ((A * B) * (A * B) < X * X) by nia.
    assert ((2 * X) * X <= (A * A) * (B * B)) by nia. nia. }
  assert (Hp : forall h, 0 <= h -> 2 ^ (1 + h) = 2 * 2 ^ h).
  { intros. rewrite Z.pow_add_r; lia. }
  cbn [height count]. rewrite Hp by lia.
  replace (1 + count l + count r + 1) with ((count l + 1) + (count r + 1)) by lia.
  pose proof (Z.pow_pos_nonneg 2 (height l) ltac:(lia) Hl0).
  pose proof (Z.pow_pos_nonneg 2 (height r) ltac:(lia) Hr0).
  assert (f = 1 \/ f = 0 \/ f = -1) as [-> | [-> | ->]] by lia.
  - rewrite Z.max_l by lia. replace (height l) with (1 + height r) in * by lia.
    rewrite Hp in * by lia. rewrite Z.mul_assoc. apply Harith; lia.
  - replace (height l) with (height r) in * by lia. rewrite Z.max_id. nia.
  - rewrite Z.max_r by lia. replace (height r) with (1 + height l) in * by lia.
    rewrite Hp in * by lia. rewrite Z.mul_assoc, (Z.add_comm (count l + 1)). apply Harith; lia.
Qed.

End avl.

(** ** Order *)

Section order.
Context {D : Type} (cmp : D -> D -> Z) `{!CmpLaws cmp}.
Implicit Types (t l r : avl D) (n : tag D) (s : list (tag D)) (e : D).

(** The nodes from left to right. *)
Fixpoint tags t : list (tag D) :=
  match t with AL => [] | AN l n _ r => tags l ++ n :: tags r end.

Definition before n1 n2 : Prop := cmp (t_d n1) (t_d n2) < 0.
Definition sorted s : Prop := StronglySorted before s.

(** Search, insertion and hiding in a sorted sequence. *)
Fixpoint lfind e s : option (tag D) :=
  match s with
  | [] => None
  | n :: s => if cmp e (t_d n) =? 0 then Some n else lfind e s
  end.

Definition revive (new n : tag D) : tag D := Tag (t_k n) (t_v n) (t_d new) 0.

Fixpoint linsert (new : tag D) s : list (tag D) :=
  match s with
  | [] => [new]
  | n :: s =>
      let c := cmp (t_d new) (t_d n) in
      if c <? 0 then new :: n :: s
      else if c >? 0 then n :: linsert new s else revive new n :: s
  end.

Definition lhide e s : list (tag D) :=
  map (fun n => if cmp e (t_d n) =? 0 then hidden_tag n else n) s.

Lemma lfind_app e s1 s2 :
  lfind e (s1 ++ s2) = match lfind e s1 with Some n => Some n | None => lfind e s2 end.
Proof. induction s1 as [|n s1 IH]; simpl; [done|]. by destruct (_ =? 0). Qed.

Lemma lfind_None e s : (forall n, n ∈ s -> cmp e (t_d n) <> 0) -> lfind e s = None.
Proof.
  induction s as [|n s IH]; simpl; [done|]. intros H.
  destruct (Z.eqb_spec (cmp e (t_d n)) 0) as [E|_]; [by destruct (H n); [set_solver|]|].
  apply IH. set_solver.
Qed.

Lemma lfind_Some e s n : lfind e s = Some n -> n ∈ s /\ cmp e (t_d n) = 0.
Proof.
  induction s as [|n' s IH]; simpl; [done|].
  destruct (Z.eqb_spec (cmp e (t_d n')) 0); [intros [= <-]; set_solver|].
  intros [??]%IH. set_solver.
Qed.

(** In a sorted sequence a datum below (above) a node is below (above) every
    node to its right (left). *)
Lemma sorted_node s1 n s2 e :
  sorted (s1 ++ n :: s2) ->
  (cmp e (t_d n) < 0 -> forall x, x ∈ n :: s2 -> cmp e (t_d x) < 0) /\
  (cmp e (t_d n) > 0 -> forall x, x ∈ s1 ++ [n] -> cmp e (t_d x) > 0) /\
  (cmp e (t_d n) = 0 -> (forall x, x ∈ s1 -> cmp e (t_d x) > 0) /\
                        (forall x, x ∈ s2 -> cmp e (t_d x) < 0)).
Proof using Type*.
  intros (H1 & H2 & [Hf H3]%StronglySorted_cons)%StronglySorted_app.
  rewrite Forall_forall in Hf. split_and!.
  - intros Hlt x [->|Hx]%elem_of_cons; [done|]. eapply cmp_trans; [done|by apply Hf].
  - intros Hgt x [Hx|Hx]%elem_of_app; [|by assert (x = n) as -> by set_solver].
    apply cmp_lt_gt. apply cmp_lt_gt in Hgt. eapply cmp_trans; [apply (H1 x n); set_solver|done].
  - intros Heq. split; intros x Hx.
    + apply cmp_lt_gt. apply cmp_eq_sym in Heq. eapply cmp_lt_eq; [apply (H1 x n); set_solver|done].
    + eapply cmp_eq_lt; [done|by apply Hf].
Qed.

Lemma sorted_parts s1 n s2 : sorted (s1 ++ n :: s2) -> sorted s1 /\ sorted s2.
Proof.
  intros (_ & ? & [_ ?]%StronglySorted_cons)%StronglySorted_app. done.
Qed.

Lemma tfind_lfind e t : sorted (tags t) -> tfind cmp e t = lfind e (tags t).
Proof using Type*.
  induction t as [|l IHl n f r IHr]; simpl; [done|]. intros Hs.
  destruct (sorted_parts _ _ _ Hs) as [Hl Hr].
  destruct (sorted_node _ _ _ e Hs) as (Hlt & Hgt & Heq). rewrite lfind_app.
  destruct (Z.ltb_spec (cmp e (t_d n)) 0) as [E|E].
  - rewrite IHl, (lfind_None e (n :: tags r)) by (try done; intros x Hx; specialize (Hlt E x Hx); lia).
    by destruct (lfind e (tags l)).
  - rewrite (lfind_None e (tags l)).
    + simpl. destruct (Z.gtb_spec (cmp e (t_d n)) 0), (Z.eqb_spec (cmp e (t_d n)) 0);
        try lia; auto.
    + intros x Hx. destruct (Z.eq_dec (cmp e (t_d n)) 0) as [E0|E0].
      * destruct (Heq E0) as [Hx' _]. specialize (Hx' x Hx). lia.
      * assert (x ∈ tags l ++ [n]) as Hx' by set_solver.
        specialize (Hgt ltac:(lia) x Hx'). lia.
Qed.

Lemma tags_mk side x n f y :
  tags (mk side x n f y) = if side then tags y ++ n :: tags x else tags x ++ n :: tags y.
Proof. by destruct side. Qed.

Lemma frot_tags side x n f y : tags (frot side x n f y) = tags (mk side x n f y).
Proof.
  unfold frot. destruct (split side x) as [[[[a n1] f1] b]|] eqn:H1; [|done].
  apply split_mk in H1 as ->. destruct (f1 =? heavy side).
  { rewrite !tags_mk. destruct side; by rewrite <- ?app_assoc. }
  destruct (split side b) as [[[[g1 n2] f2] g2]|] eqn:H2; [|done].
  apply split_mk in H2 as ->. rewrite !tags_mk.
  destruct side; by rewrite <- !app_assoc; simpl; rewrite <- ?app_assoc.
Qed.

Lemma frebal_tags side x n f y b : tags (frebal side x n f y b).1 = tags (mk side x n f y).
Proof.
  unfold frebal. destruct (b =? 0); [|done]. destruct (f =? heavy side); [apply frot_tags|].
  destruct (f =? 0); [by destruct side|]. destruct (f =? heavy (negb side)); by destruct side.
Qed.

Lemma linsert_right new s1 s2 :
  (forall x, x ∈ s1 -> cmp (t_d new) (t_d x) > 0) -> linsert new (s1 ++ s2) = s1 ++ linsert new s2.
Proof.
  induction s1 as [|n s1 IH]; simpl; [done|]. intros H. specialize (H n) as Hn.
  destruct (Z.ltb_spec (cmp (t_d new) (t_d n)) 0); [specialize (Hn ltac:(set_solver)); lia|].
  destruct (Z.gtb_spec (cmp (t_d new) (t_d n)) 0); [|specialize (Hn ltac:(set_solver)); lia].
  rewrite IH; [done|set_solver].
Qed.

Lemma linsert_left new s1 n s2 :
  cmp (t_d new) (t_d n) < 0 -> linsert new (s1 ++ n :: s2) = linsert new s1 ++ n :: s2.
Proof.
  intros H. induction s1 as [|n' s1 IH]; simpl.
  - by rewrite (proj2 (Z.ltb_lt _ _)).
  - destruct (_ <? 0); [done|]. destruct (_ >? 0); simpl; [|done]. by rewrite IH.
Qed.

Lemma fins_tags new t :
  sorted (tags t) ->
  match fins cmp new t with
  | None => exists n, lfind (t_d new) (tags t) = Some n /\ t_h n = 0
  | Some (t', _) =>
      (forall n, lfind (t_d new) (tags t) = Some n -> t_h n <> 0) /\
      tags t' = linsert new (tags t)
  end.
Proof using Type*.
  induction t as [|l IHl n f r IHr]; intros Hs; [done|]. cbn [fins].
  rewrite <- tfind_lfind by done. cbn [tfind].
  simpl in Hs. destruct (sorted_parts _ _ _ Hs) as [Hl Hr].
  destruct (sorted_node _ _ _ (t_d new) Hs) as (Hlt & Hgt & Heq).
  rewrite !tfind_lfind by done. specialize (IHl Hl). specialize (IHr Hr).
  destruct (Z.ltb_spec (cmp (t_d new) (t_d n)) 0).
  { destruct (fins cmp new l) as [[l' b]|]; [|done]. destruct IHl as [? Ht].
    destruct (frebal false l' n f r b) as [t' b'] eqn:Hf. split; [done|].
    change t' with (t', b').1. rewrite <- Hf, frebal_tags. simpl. by rewrite Ht, linsert_left. }
  destruct (Z.gtb_spec (cmp (t_d new) (t_d n)) 0) as [Eg|Eg].
  { destruct (fins cmp new r) as [[r' b]|]; [|done]. destruct IHr as [? Ht].
    destruct (frebal true r' n f l b) as [t' b'] eqn:Hf. split; [done|].
    change t' with (t', b').1. rewrite <- Hf, frebal_tags. simpl. rewrite Ht.
    rewrite (cons_middle n), (cons_middle n (tags l)), !app_assoc, linsert_right; [done|].
    apply Hgt. lia. }
  destruct (Z.eqb_spec (t_h n) 0); [eauto|]. split; [by intros ? [= <-]|].
  simpl. rewrite linsert_right; [|apply Heq; lia]. simpl.
  destruct (Z.ltb_spec (cmp (t_d new) (t_d n)) 0); [lia|].
  destruct (Z.gtb_spec (cmp (t_d new) (t_d n)) 0); [lia|]. done.
Qed.

Lemma linsert_elem new s x :
  x ∈ linsert new s -> x ∈ s \/ cmp (t_d new) (t_d x) = 0 /\ t_d x = t_d new.
Proof using Type*.
  induction s as [|n s IH]; simpl.
  - intros ?. assert (x = new) as -> by set_solver. right. split; [apply cmp_refl|done].
  - destruct (_ <? 0); [|destruct (_ >? 0)].
    + intros [->|?]%elem_of_cons; [right; split; [apply cmp_refl|done]|by left].
    + intros [->|H]%elem_of_cons; [left; set_solver|]. destruct (IH H); [left; set_solver|by right].
    + intros [->|?]%elem_of_cons; [right; split; [apply cmp_refl|done]|left; set_solver].
Qed.

Lemma linsert_sorted new s : sorted s -> sorted (linsert new s).
Proof using Type*.
  induction s as [|n s IH]; intros Hs; simpl; [by repeat constructor|].
  pose proof (sorted_node [] n s (t_d new) Hs) as (Hlt & _ & Heq).
  apply StronglySorted_cons in Hs as Hs'. destruct Hs' as [Hf Hss].
  destruct (Z.ltb_spec (cmp (t_d new) (t_d n)) 0).
  { constructor; [done|]. apply Forall_forall. intros x Hx. by apply Hlt. }
  destruct (Z.gtb_spec (cmp (t_d new) (t_d n)) 0).
  - constructor; [by apply IH|]. apply Forall_forall. intros x Hx.
    rewrite Forall_forall in Hf. destruct (linsert_elem _ _ _ Hx) as [?|[_ He]]; [by apply Hf|].
    unfold before. rewrite He. apply cmp_lt_gt. lia.
  - constructor; [done|]. apply Forall_forall. intros x Hx. apply Heq; [lia|done].
Qed.

(** What a search finds, seen from outside: the datum and whether it is hidden. *)
Definition seen (o : option (tag D)) : option (D * bool) :=
  match o with Some n => Some (t_d n, negb (t_h n =? 0)) | None => None end.

Lemma lfind_linsert new s e :
  sorted s -> t_h new = 0 ->
  seen (lfind e (linsert new s))
  = if cmp e (t_d new) =? 0 then Some (t_d new, false) else seen (lfind e s).
Proof using Type*.
  intros Hs Hh. induction s as [|n s IH]; simpl.
  { destruct (cmp e (t_d new) =? 0); simpl; [by rewrite Hh|done]. }
  apply StronglySorted_cons in Hs as Hs'. destruct Hs' as [_ Hss].
  destruct (Z.ltb_spec (cmp (t_d new) (t_d n)) 0).
  { simpl. destruct (cmp e (t_d new) =? 0); simpl; [by rewrite Hh|done]. }
  destruct (Z.gtb_spec (cmp (t_d new) (t_d n)) 0).
  - simpl. destruct (Z.eqb_spec (cmp e (t_d n)) 0) as [E|E]; [|by apply IH].
    destruct (Z.eqb_spec (cmp e (t_d new)) 0) as [E2|E2]; [|done].
    pose proof (proj1 (cmp_eq_eq e (t_d new) (t_d n) E2) E). lia.
  - simpl. assert (E0 : cmp (t_d new) (t_d n) = 0) by lia.
    destruct (Z.eqb_spec (cmp e (t_d new)) 0) as [E|E]; [done|].
    destruct (Z.eqb_spec (cmp e (t_d n)) 0) as [E2|E2]; [|done].
    destruct E. apply cmp_eq_sym in E2, E0. apply cmp_eq_sym. apply cmp_eq_sym in E0.
    apply (cmp_eq_eq (t_d new) (t_d n) e E0). done.
Qed.

Lemma tags_fhide e t : sorted (tags t) -> tags (fhide cmp e t) = lhide e (tags t).
Proof using Type*.
  assert (Hid : forall s, (forall x, x ∈ s -> cmp e (t_d x) <> 0) -> lhide e s = s).
  { induction s as [|x s IH]; simpl; [done|]. intros Hx.
    destruct (Z.eqb_spec (cmp e (t_d x)) 0) as [E|_]; [by destruct (Hx x ltac:(set_solver))|].
    rewrite IH; set_solver. }
  induction t as [|l IHl n f r IHr]; simpl; [done|]. intros Hs.
  destruct (sorted_parts _ _ _ Hs) as [Hl Hr].
  destruct (sorted_node _ _ _ e Hs) as (Hlt & Hgt & Heq). unfold lhide. rewrite map_app. fold (lhide e).
  destruct (Z.ltb_spec (cmp e (t_d n)) 0) as [E|E].
  { simpl. rewrite IHl by done. f_equal. symmetry. apply (Hid (n :: tags r)).
    intros x Hx. specialize (Hlt E x Hx). lia. }
  destruct (Z.gtb_spec (cmp e (t_d n)) 0) as [E2|E2]; simpl.
  - rewrite IHr by done. change (map _ (tags r)) with (lhide e (tags r)).
    change (map _ (tags l)) with (lhide e (tags l)). rewrite (Hid (tags l)).
    + destruct (Z.eqb_spec (cmp e (t_d n)) 0); [lia|done].
    + intros x Hx. assert (x ∈ tags l ++ [n]) as Hx' by set_solver.
      specialize (Hgt ltac:(lia) x Hx'). lia.
  - assert (E0 : cmp e (t_d n) = 0) by lia. rewrite E0. simpl. destruct (Heq E0) as [H1 H2].
    change (map _ (tags r)) with (lhide e (tags r)).
    change (map _ (tags l)) with (lhide e (tags l)).
    rewrite (Hid (tags l)), (Hid (tags r)); [done| |]; intros x Hx;
      [specialize (H2 x Hx)|specialize (H1 x Hx)]; lia.
Qed.

Lemma lhide_sorted e s : sorted s -> sorted (lhide e s).
Proof.
  intros Hs. induction Hs as [|n s Hs IH Hf]; simpl; constructor; [done|].
  rewrite Forall_forall in Hf. apply Forall_forall. intros x (y & -> & Hy)%list_elem_of_fmap.
  specialize (Hf y Hy). unfold before in *. by destruct (_ =? 0), (cmp e (t_d y) =? 0).
Qed.

Lemma lfind_lhide e e' s :
  seen (lfind e' (lhide e s))
  = match seen (lfind e' s) with
    | Some (d, h) => Some (d, if cmp e' e =? 0 then true else h)
    | None => None
    end.
Proof using Type*.
  induction s as [|n s IH]; simpl; [done|].
  destruct (Z.eqb_spec (cmp e (t_d n)) 0) as [E|E]; simpl;
    destruct (Z.eqb_spec (cmp e' (t_d n)) 0) as [E'|E']; try done; simpl;
    destruct (Z.eqb_spec (cmp e' e) 0) as [E2|E2]; try done.
  - destruct E2. apply cmp_eq_sym in E'. apply cmp_eq_sym. apply (cmp_eq_eq e (t_d n) e' E). done.
  - destruct E. apply (cmp_eq_eq e' e (t_d n) E2). done.
Qed.

End order.
