(* ===== verification/CAvl.v ===== *)
(** * The AVL tree of [src/lib/_structs/bistree.c]

    The pointer code: a [BiTree] whose nodes point to [AvlNode] cells, with
    rotations, insertion, lazy removal, search and destruction, related to the
    trees of [CAvlTree].

    The file does not compile as it stands; it is read with its slips
    corrected: [cpmval] as [cmpval], [val_data] as [avl_data],
    [bistree_ins_right] as [bitree_ins_right], [bitree_node] as [bitree_data],
    [&tree->right] in [destroy_right] as [&node->right], [NULL:] as [NULL;],
    [return -;] as [return -1;], and the second [else] of [lookup] as the
    [else] of the test of [hidden]. *)

From stdpp Require Import prelude gmap list fin_maps.
From Stdlib Require Import ZArith Lia.
From S2P Require Import Prelude CBiTree CAvlTree.

(** ** Data: bistree.h *)

Record AvlNode (D : Type) := MkAvl {
  a_data : D;
  a_hidden : Z;
  a_factor : Z;
}.
Arguments MkAvl {D}.
Arguments a_data {D}.
Arguments a_hidden {D}.
Arguments a_factor {D}.

(** [typedef BiTree BisTree]: the data of a node is a pointer to an
    [AvlNode]; [compare] and [destroy] work on the data inside. *)
Abbreviation BisTree := BiTree.

(** The two kinds of cells. *)
Record amem (D : Type) := AMem {
  nodes : store (BiTreeNode ptr) D;
  avls : gmap loc (AvlNode D);
}.
Arguments AMem {D}.
Arguments nodes {D}.
Arguments avls {D}.

Section ops.
Context {D : Type}.
Implicit Types (tree : BisTree D) (pos : position) (data : D).

(** Running a step of bitree.c. *)
Definition in_nodes {A} (c : M (store (BiTreeNode ptr) D) A) : M (amem D) A := fun m =>
  match c (nodes m) with
  | Ok (a, s) => Ok (a, AMem s (avls m))
  | Err f => Err f
  | NoFuel => NoFuel
  end.

(** [malloc(sizeof(AvlNode))] and the initialisation; it takes the next answer
    of the one allocator. *)
Definition malloc_avl (a : AvlNode D) : M (amem D) ptr := fun m =>
  let s := nodes m in
  let s' := Store (cells s) (tail (oracle s)) (trace s) in
  if may_alloc s then
    let v := fresh (dom (avls m)) in Ok (Some v, AMem s' (<[v := a]> (avls m)))
  else Ok (NULL, AMem s' (avls m)).

Definition load_avl (p : ptr) : M (amem D) (AvlNode D) := fun m =>
  match p with
  | None => Err NullDeref
  | Some v => match avls m !! v with Some a => Ok (a, m) | None => Err Dangling end
  end.

Definition update_avl (p : ptr) (f : AvlNode D -> AvlNode D) : M (amem D) unit := fun m =>
  match p with
  | None => Err NullDeref
  | Some v =>
      match avls m !! v with
      | Some a => Ok (tt, AMem (nodes m) (<[v := f a]> (avls m)))
      | None => Err Dangling
      end
  end.

Definition free_avl (p : ptr) : M (amem D) unit := fun m =>
  match p with
  | None => Ok (tt, m)
  | Some v =>
      match avls m !! v with
      | Some _ => Ok (tt, AMem (nodes m) (delete v (avls m)))
      | None => Err Dangling
      end
  end.

(** [(AvlNode * )bitree_data(node)], read and written. *)
Definition avl_of (node : ptr) : M (amem D) (AvlNode D) :=
  nd ← in_nodes (load node); load_avl (n_data nd).
Definition set_avl (node : ptr) (f : AvlNode D -> AvlNode D) : M (amem D) unit :=
  nd ← in_nodes (load node); update_avl (n_data nd) f.
Definition set_factor (node : ptr) (f : Z) : M (amem D) unit :=
  set_avl node (fun a => MkAvl (a_data a) (a_hidden a) f).

(** [bitree_left(node) = p] and [bitree_right(node) = p] *)
Definition link (side : bool) (node p : ptr) : M (amem D) unit :=
  in_nodes (update node (set_child_ptr side p)).

(** [rotate_left] ([side = false]) and [rotate_right] ([side = true]), mirror
    images of each other; [left] is the child on [side]. *)
Definition rotate (side : bool) tree pos : M (amem D) (BisTree D) :=
  node ← in_nodes (read_pos tree pos);
  nd ← in_nodes (load node);
  let left := child side nd in
  a ← avl_of left;
  ld ← in_nodes (load left);
  if a_factor a =? heavy side then
    _ ← link side node (child (negb side) ld);
    _ ← link (negb side) left node;
    _ ← set_factor node AVL_BALANCED;
    _ ← set_factor left AVL_BALANCED;
    in_nodes (write_pos tree pos left)
  else
    let grandchild := child (negb side) ld in
    gd ← in_nodes (load grandchild);
    _ ← link (negb side) left (child side gd);
    _ ← link side grandchild left;
    gd ← in_nodes (load grandchild);
    _ ← link side node (child (negb side) gd);
    _ ← link (negb side) grandchild node;
    g ← avl_of grandchild;
    _ ← (if a_factor g =? heavy side then
           _ ← set_factor node (heavy (negb side)); set_factor left AVL_BALANCED
         else if a_factor g =? AVL_BALANCED then
           _ ← set_factor node AVL_BALANCED; set_factor left AVL_BALANCED
         else if a_factor g =? heavy (negb side) then
           _ ← set_factor node AVL_BALANCED; set_factor left (heavy side)
         else mret tt);
    _ ← set_factor grandchild AVL_BALANCED;
    in_nodes (write_pos tree pos grandchild).

Definition rotate_left := rotate false.
Definition rotate_right := rotate true.

(** [if (!( *balanced)) switch (factor) ...] after an insertion on [side];
    the result is the returned 0, the tree object and [*balanced]. *)
Definition rebalance (side : bool) tree pos (node : ptr) (balanced : Z)
  : M (amem D) (Z * BisTree D * Z) :=
  if balanced =? 0 then
    a ← avl_of node;
    if a_factor a =? heavy side then
      tree ← (if side then rotate_right else rotate_left) tree pos;
      mret (0, tree, 1)
    else if a_factor a =? AVL_BALANCED then
      _ ← set_factor node (heavy side); mret (0, tree, balanced)
    else if a_factor a =? heavy (negb side) then
      _ ← set_factor node AVL_BALANCED; mret (0, tree, 1)
    else mret (0, tree, balanced)
  else mret (0, tree, balanced).

(** The branch of [insert] that goes to the child on [side] of [node], the node
    at [pos]; [insert] is the function itself.  The result is the returned [int],
    the tree object and [*balanced]. *)
Definition insert_below (insert : BisTree D -> position -> Z -> M (amem D) (Z * BisTree D * Z))
    (side : bool) tree pos (node : ptr) data (balanced : Z) : M (amem D) (Z * BisTree D * Z) :=
  nd ← in_nodes (load node);
  match child side nd with
  | None =>
      avl_data ← malloc_avl (MkAvl data 0 AVL_BALANCED);
      match avl_data with
      | None => mret (-1, tree, balanced)
      | Some _ =>
          '(r, tree') ← in_nodes ((if side then bitree_ins_right else bitree_ins_left)
                                    tree node avl_data);
          if r =? 0 then rebalance side tree' pos node 0
          else mret (-1, tree', balanced)
      end
  | Some _ =>
      '(retval, tree, balanced) ← insert tree (AtChild side node) balanced;
      if retval =? 0 then rebalance side tree pos node balanced
      else mret (retval, tree, balanced)
  end.

Fixpoint insert_ (fuel : nat) tree pos data (balanced : Z)
  : M (amem D) (Z * BisTree D * Z) :=
  match fuel with
  | O => no_fuel
  | S fuel =>
      node ← in_nodes (read_pos tree pos);
      match node with
      | None =>
          avl_data ← malloc_avl (MkAvl data 0 AVL_BALANCED);
          match avl_data with
          | None => mret (-1, tree, balanced)
          | Some _ =>
              '(r, tree) ← in_nodes (bitree_ins_left tree node avl_data);
              mret (r, tree, balanced)
          end
      | Some _ =>
          compare ← fn (b_compare tree);
          a ← avl_of node;
          let cmpval := compare data (a_data a) in
          let insert tree pos balanced := insert_ fuel tree pos data balanced in
          if cmpval <? 0 then insert_below insert false tree pos node data balanced
          else if cmpval >? 0 then insert_below insert true tree pos node data balanced
          else if a_hidden a =? 0 then mret (1, tree, balanced)
          else
            _ ← (if b_destroy tree then in_nodes (call_destroy (a_data a)) else mret tt);
            _ ← set_avl node (fun a => MkAvl data 0 (a_factor a));
            mret (0, tree, 1)
      end
  end.

Fixpoint hide (fuel : nat) tree (node : ptr) data : M (amem D) Z :=
  match node, fuel with
  | None, _ => mret (-1)
  | Some _, O => no_fuel
  | Some _, S fuel =>
      compare ← fn (b_compare tree);
      a ← avl_of node;
      let cmpval := compare data (a_data a) in
      nd ← in_nodes (load node);
      if cmpval <? 0 then hide fuel tree (n_left nd) data
      else if cmpval >? 0 then hide fuel tree (n_right nd) data
      else
        _ ← set_avl node (fun a => MkAvl (a_data a) 1 (a_factor a)); mret 0
  end.

(** The result is the returned [int] and [*data]. *)
Fixpoint lookup_ (fuel : nat) tree (node : ptr) data : M (amem D) (Z * D) :=
  match node, fuel with
  | None, _ => mret (-1, data)
  | Some _, O => no_fuel
  | Some _, S fuel =>
      compare ← fn (b_compare tree);
      a ← avl_of node;
      let cmpval := compare data (a_data a) in
      nd ← in_nodes (load node);
      if cmpval <? 0 then lookup_ fuel tree (n_left nd) data
      else if cmpval >? 0 then lookup_ fuel tree (n_right nd) data
      else if a_hidden a =? 0 then mret (0, a_data a)
      else mret (-1, data)
  end.

(** [destroy_left] ([side = false]) and [destroy_right] ([side = true]). *)
Fixpoint destroy_side (fuel : nat) (side : bool) tree (node : ptr) : M (amem D) (BisTree D) :=
  if b_size tree =? 0 then mret tree
  else
    let pos := position_of side node in
    p ← in_nodes (read_pos tree pos);
    match p with
    | None => mret tree
    | Some _ =>
        match fuel with
        | O => no_fuel
        | S fuel =>
            tree ← destroy_side fuel false tree p;
            p ← in_nodes (read_pos tree pos);
            tree ← destroy_side fuel true tree p;
            p ← in_nodes (read_pos tree pos);
            a ← avl_of p;
            _ ← (if b_destroy tree then in_nodes (call_destroy (a_data a)) else mret tt);
            nd ← in_nodes (load p);
            _ ← free_avl (n_data nd);
            _ ← in_nodes (free p);
            tree ← in_nodes (write_pos tree pos NULL);
            sz ← in_nodes (int_of (b_size tree - 1));
            mret (set_b_size sz tree)
        end
    end.

Definition destroy_left (fuel : nat) := destroy_side fuel false.
Definition destroy_right (fuel : nat) := destroy_side fuel true.

(** The recursions go down one node per call: the allocated nodes bound them. *)
Definition depth_fuel : M (amem D) nat := in_nodes (gets walk_fuel).

Definition bistree_init tree (compare : D -> D -> Z) (destroy : bool) : BisTree D :=
  let tree := bitree_init tree destroy in
  MkBiTree (b_size tree) (Some compare) (b_destroy tree) (b_root tree).

Definition bistree_destroy tree : M (amem D) (BisTree D) :=
  fuel ← depth_fuel; _ ← destroy_left fuel tree NULL; mret bitree_zero.

Definition bistree_insert tree data : M (amem D) (Z * BisTree D) :=
  fuel ← depth_fuel;
  '(r, tree, _) ← insert_ fuel tree AtRoot data 0;
  mret (r, tree).

Definition bistree_remove tree data : M (amem D) Z :=
  fuel ← depth_fuel; hide fuel tree (b_root tree) data.

Definition bistree_lookup tree data : M (amem D) (Z * D) :=
  fuel ← depth_fuel; lookup_ fuel tree (b_root tree) data.

End ops.

(** ** Representation *)

Section rep.
Context {D : Type}.
Implicit Types (t x y l r : avl D) (n : tag D) (h : gmap loc (BiTreeNode ptr))
  (a : gmap loc (AvlNode D)) (m : amem D) (T : BisTree D).

Definition ks t : list loc := t_k <$> tags t.
Definition vs t : list loc := t_v <$> tags t.

Fixpoint avl_at h a (p : ptr) t : Prop :=
  match t with
  | AL => p = NULL
  | AN l n f r =>
      p = Some (t_k n) /\ exists pl pr,
        h !! t_k n = Some (Node (Some (t_v n)) pl pr) /\
        a !! t_v n = Some (MkAvl (t_d n) (t_h n) f) /\
        avl_at h a pl l /\ avl_at h a pr r
  end.

Lemma ks_AN l n f r : ks (AN l n f r) = ks l ++ t_k n :: ks r.
Proof. unfold ks. simpl. by rewrite fmap_app. Qed.
Lemma vs_AN l n f r : vs (AN l n f r) = vs l ++ t_v n :: vs r.
Proof. unfold vs. simpl. by rewrite fmap_app. Qed.

Lemma avl_at_frame h h' a a' p t :
  (forall k, k ∈ ks t -> h' !! k = h !! k) -> (forall v, v ∈ vs t -> a' !! v = a !! v) ->
  avl_at h a p t -> avl_at h' a' p t.
Proof.
  revert p. induction t as [|l IHl n f r IHr]; intros p Hk Hv; simpl; [done|].
  rewrite ks_AN in Hk. rewrite vs_AN in Hv.
  intros (-> & pl & pr & Hn & Ha & Hl & Hr). split; [done|]. exists pl, pr. split_and!.
  - rewrite Hk by set_solver. done.
  - rewrite Hv by set_solver. done.
  - apply IHl; [| |done]; intros; [apply Hk|apply Hv]; set_solver.
  - apply IHr; [| |done]; intros; [apply Hk|apply Hv]; set_solver.
Qed.

Lemma avl_at_only_on h h' a a' p t ls lv :
  only_on ls h h' -> only_on lv a a' -> (forall k, k ∈ ks t -> k ∉ ls) ->
  (forall v, v ∈ vs t -> v ∉ lv) -> avl_at h a p t -> avl_at h' a' p t.
Proof. intros H1 H2 Hk Hv. apply avl_at_frame; intros; [apply H1|apply H2]; auto. Qed.

Lemma avl_at_alloc h a p t :
  avl_at h a p t ->
  (forall k, k ∈ ks t -> is_Some (h !! k)) /\ (forall v, v ∈ vs t -> is_Some (a !! v)).
Proof.
  revert p. induction t as [|l IHl n f r IHr]; intros p; [split; set_solver|].
  rewrite ks_AN, vs_AN. intros (_ & pl & pr & Hk & Hv & Hl & Hr).
  destruct (IHl _ Hl), (IHr _ Hr).
  split; intros ? [?|[->|?]%elem_of_cons]%elem_of_app; eauto.
Qed.

(** ** Rules for the primitives *)

Lemma wp_in_nodes {A} (c : M (store (BiTreeNode ptr) D) A) Q m :
  wp c (fun b s => Q b (AMem s (avls m))) (nodes m) -> wp (in_nodes c) Q m.
Proof. unfold wp, in_nodes. by destruct (c (nodes m)) as [[]| |]. Qed.

Lemma wp_load_avl v av Q m :
  avls m !! v = Some av -> Q av m -> wp (load_avl (Some v)) Q m.
Proof. intros Hv ?. unfold wp, load_avl. by rewrite Hv. Qed.

Lemma wp_update_avl v av f Q m :
  avls m !! v = Some av -> Q tt (AMem (nodes m) (<[v := f av]> (avls m))) ->
  wp (update_avl (Some v) f) Q m.
Proof. intros Hv ?. unfold wp, update_avl. by rewrite Hv. Qed.

Lemma wp_free_avl v av Q m :
  avls m !! v = Some av -> Q tt (AMem (nodes m) (delete v (avls m))) ->
  wp (free_avl (Some v)) Q m.
Proof. intros Hv ?. unfold wp, free_avl. by rewrite Hv. Qed.

Lemma wp_load_node k nd Q m :
  cells (nodes m) !! k = Some nd -> Q nd m -> wp (in_nodes (load (Some k))) Q m.
Proof. intros Hk HQ. apply wp_in_nodes. eapply wp_load; [done|]. by destruct m. Qed.

Lemma wp_link side k p nd Q m :
  cells (nodes m) !! k = Some nd ->
  Q tt (AMem (Store (<[k := set_child_ptr side p nd]> (cells (nodes m)))
               (oracle (nodes m)) (trace (nodes m))) (avls m)) ->
  wp (link side (Some k) p) Q m.
Proof. intros Hk HQ. apply wp_in_nodes. by eapply wp_update. Qed.

Lemma wp_avl_of k nd v av Q m :
  cells (nodes m) !! k = Some nd -> n_data nd = Some v -> avls m !! v = Some av ->
  Q av m -> wp (avl_of (Some k)) Q m.
Proof.
  intros Hk Hd Hv HQ. unfold avl_of. wp_step. eapply wp_load_node; [done|].
  rewrite Hd. by eapply wp_load_avl.
Qed.

Lemma wp_set_avl k nd v av f Q m :
  cells (nodes m) !! k = Some nd -> n_data nd = Some v -> avls m !! v = Some av ->
  Q tt (AMem (nodes m) (<[v := f av]> (avls m))) -> wp (set_avl (Some k) f) Q m.
Proof.
  intros Hk Hd Hv HQ. unfold set_avl. wp_step. eapply wp_load_node; [done|].
  rewrite Hd. by eapply wp_update_avl.
Qed.

Lemma wp_set_factor k nd v av f Q m :
  cells (nodes m) !! k = Some nd -> n_data nd = Some v -> avls m !! v = Some av ->
  Q tt (AMem (nodes m) (<[v := MkAvl (a_data av) (a_hidden av) f]> (avls m))) ->
  wp (set_factor (Some k) f) Q m.
Proof. intros ????. by eapply wp_set_avl. Qed.

(** ** Replacing the subtree at a position *)

(** The member [position_of sd above] was made to hold [p]. *)
Definition pos_written (sd : bool) (above p : ptr) h h' T T' : Prop :=
  match above with
  | None => b_root T' = p
  | Some j => b_root T' = b_root T /\
      forall nd, h !! j = Some nd -> h' !! j = Some (set_child_ptr sd p nd)
  end.

(** The step from [m], [T] to [m'], [T'] replaced the subtree [t] there by [t']. *)
Record replaced (sd : bool) (above : ptr) t t' m T T' (m' : amem D) : Prop := {
  rp_at : exists p', avl_at (cells (nodes m')) (avls m') p' t' /\
    pos_written sd above p' (cells (nodes m)) (cells (nodes m')) T T';
  rp_nodes : only_on (option_list above ++ ks t ++ ks t') (cells (nodes m)) (cells (nodes m'));
  rp_avls : only_on (vs t ++ vs t') (avls m) (avls m');
  rp_compare : b_compare T' = b_compare T;
  rp_destroyer : b_destroy T' = b_destroy T;
  rp_count : b_size T' = b_size T + count t' - count t;
}.

Lemma wp_write_pos sd above p p0 T Q m :
  pos_holds (cells (nodes m)) T sd above p0 ->
  (forall T' m', pos_written sd above p (cells (nodes m)) (cells (nodes m')) T T' ->
     only_on (option_list above) (cells (nodes m)) (cells (nodes m')) ->
     oracle (nodes m') = oracle (nodes m) -> trace (nodes m') = trace (nodes m) ->
     avls m' = avls m -> b_compare T' = b_compare T -> b_destroy T' = b_destroy T ->
     b_size T' = b_size T -> Q T' m') ->
  wp (in_nodes (write_pos T (position_of sd above) p)) Q m.
Proof.
  intros Hp HQ. apply wp_in_nodes. destruct above as [j|]; simpl in *.
  - destruct Hp as (nd & Hj & _). wp_step. eapply wp_update; [done|]. wp_step.
    apply HQ; try done; simpl.
    + split; [done|]. intros nd' ?. simplify_eq. by rewrite lookup_insert_eq.
    + apply only_on_insert. set_solver.
  - wp_step. by apply HQ.
Qed.

Lemma avl_at_mk side h a p x n f y :
  avl_at h a p (mk side x n f y) <->
  p = Some (t_k n) /\ exists nd,
    h !! t_k n = Some nd /\ n_data nd = Some (t_v n) /\
    a !! t_v n = Some (MkAvl (t_d n) (t_h n) f) /\
    avl_at h a (child side nd) x /\ avl_at h a (child (negb side) nd) y.
Proof.
  destruct side; simpl; split.
  - intros (-> & pl & pr & ? & ? & ? & ?). split; [done|]. eexists. by split_and!.
  - intros (-> & [v pl pr] & ? & ? & ? & ? & ?). simplify_eq/=. split; [done|]. exists pl, pr. by split_and!.
  - intros (-> & pl & pr & ? & ? & ? & ?). split; [done|]. eexists. by split_and!.
  - intros (-> & [v pl pr] & ? & ? & ? & ? & ?). simplify_eq/=. split; [done|]. exists pl, pr. by split_and!.
Qed.

Definition quiet m (m' : amem D) : Prop :=
  oracle (nodes m') = oracle (nodes m) /\ trace (nodes m') = trace (nodes m).

Lemma replaced_write sd above t t' p0 p' T m m1 :
  pos_holds (cells (nodes m)) T sd above p0 -> (forall j, above = Some j -> j ∉ ks t) ->
  tags t' = tags t -> count t' = count t ->
  avl_at (cells (nodes m1)) (avls m1) p' t' ->
  only_on (ks t) (cells (nodes m)) (cells (nodes m1)) -> only_on (vs t) (avls m) (avls m1) ->
  quiet m m1 ->
  wp (in_nodes (write_pos T (position_of sd above) p'))
     (fun T' m' => replaced sd above t t' m T T' m' /\ quiet m m') m1.
Proof.
  intros Hp Ha Htags Hcount Hat Hk Hv [Ho Ht].
  assert (Habove : forall j, above = Some j -> cells (nodes m1) !! j = cells (nodes m) !! j).
  { intros j Hj. apply Hk. by apply Ha. }
  eapply wp_write_pos; [eapply pos_holds_frame; [done|apply Habove|done]|].
  intros T' m' Hw Hon Ho' Ht' Hav Hc Hd Hs. split; [|split; congruence].
  assert (Hks : ks t' = ks t) by (unfold ks; by rewrite Htags).
  assert (Hvs : vs t' = vs t) by (unfold vs; by rewrite Htags).
  split; try done; [| | |lia].
  - exists p'. split.
    + eapply (avl_at_only_on _ _ _ _ _ _ _ []); [done|by rewrite Hav| |set_solver|done].
      rewrite Hks. intros k Hk'. destruct above as [j|]; [|set_solver].
      specialize (Ha j eq_refl). set_solver.
    + destruct above as [j|]; [|done]. destruct Hw as [Hr Hw]. split; [done|].
      intros nd Hj. apply Hw. by rewrite Habove.
  - rewrite Hks. eapply only_on_trans; (eapply only_on_weaken; [|done]); set_solver.
  - rewrite Hvs, Hav. eapply only_on_weaken; [|done]. set_solver.
Qed.

(** The same without a write: the node keeps its place. *)
Lemma replaced_keep sd above t t' k T m m1 :
  pos_holds (cells (nodes m)) T sd above (Some k) -> (forall j, above = Some j -> j ∉ ks t) ->
  tags t' = tags t -> count t' = count t ->
  avl_at (cells (nodes m1)) (avls m1) (Some k) t' ->
  only_on (ks t) (cells (nodes m)) (cells (nodes m1)) -> only_on (vs t) (avls m) (avls m1) ->
  replaced sd above t t' m T T m1.
Proof.
  intros Hp Ha Htags Hcount Hat Hk Hv.
  assert (Hks : ks t' = ks t) by (unfold ks; by rewrite Htags).
  assert (Hvs : vs t' = vs t) by (unfold vs; by rewrite Htags).
  split; try done; [| | |lia].
  - exists (Some k). split; [done|]. destruct above as [j|]; simpl in *; [|done].
    split; [done|]. intros nd Hj. rewrite Hk by (by apply Ha). rewrite Hj.
    destruct Hp as (nd' & Hj' & Hc). simplify_eq. by rewrite (set_child_ptr_same _ _ _ Hc).
  - rewrite Hks. eapply only_on_weaken; [|done]. set_solver.
  - rewrite Hvs. eapply only_on_weaken; [|done]. set_solver.
Qed.

End rep.

(** Reads through assignments to [left] and [right]. *)
Lemma n_data_set {D} s p (nd : BiTreeNode D) : n_data (set_child_ptr s p nd) = n_data nd.
Proof. by destruct s. Qed.
Lemma child_set {D} s p (nd : BiTreeNode D) : child s (set_child_ptr s p nd) = p.
Proof. by destruct s. Qed.
Lemma child_set_other {D} s p (nd : BiTreeNode D) :
  child s (set_child_ptr (negb s) p nd) = child s nd.
Proof. by destruct s. Qed.
Lemma child_set_negb {D} s p (nd : BiTreeNode D) :
  child (negb s) (set_child_ptr s p nd) = child (negb s) nd.
Proof. by destruct s. Qed.

(** Lookups through insertions, and through assignments to members. *)
Ltac lk :=
  simpl; repeat first [rewrite lookup_insert_eq | rewrite lookup_insert_ne by congruence];
  rewrite ?n_data_set, ?child_set, ?child_set_other, ?child_set_negb;
  first [done | eassumption | congruence].

Ltac avl_steps :=
  repeat first
    [ wp_step
    | eapply wp_load_node; [lk|]
    | eapply wp_avl_of; [lk|lk|lk|]
    | eapply wp_set_factor; [lk|lk|lk|]
    | eapply wp_link; [lk|] ].

(** [only_on ls] of a few insertions at addresses of [ls]. *)
Ltac only_on_tac :=
  repeat (eapply only_on_trans; [|apply only_on_insert; set_solver+]);
  apply only_on_refl.

Section rotations.
Context {D : Type}.
Implicit Types (t x y l r : avl D) (n : tag D) (m : amem D) (T : BisTree D).

Lemma nodup_perm (ls ls' : list loc) : ls ≡ₚ ls' -> NoDup ls -> NoDup ls'.
Proof. by intros ->. Qed.

Lemma count_mk side x n f y : count (mk side x n f y) = 1 + count x + count y.
Proof. destruct side; simpl; lia. Qed.

Lemma ks_mk side x n f y : ks (mk side x n f y) ≡ₚ t_k n :: ks x ++ ks y.
Proof. destruct side; simpl; rewrite ks_AN; solve_Permutation. Qed.

Lemma vs_mk side x n f y : vs (mk side x n f y) ≡ₚ t_v n :: vs x ++ vs y.
Proof. destruct side; simpl; rewrite vs_AN; solve_Permutation. Qed.

Lemma wp_read_node sd above p T Q m :
  pos_holds (cells (nodes m)) T sd above p -> Q p m ->
  wp (in_nodes (read_pos T (position_of sd above))) Q m.
Proof. intros Hp HQ. apply wp_in_nodes. eapply wp_read_pos; [done|]. by destruct m. Qed.

Lemma rotate_single sd above side near n1 far n f y T m :
  let t := mk side (mk side near n1 (heavy side) far) n f y in
  pos_holds (cells (nodes m)) T sd above (Some (t_k n)) ->
  (forall j, above = Some j -> j ∉ ks t) ->
  avl_at (cells (nodes m)) (avls m) (Some (t_k n)) t -> NoDup (ks t) -> NoDup (vs t) ->
  wp (rotate side T (position_of sd above))
     (fun T' m' => replaced sd above t (mk side near n1 0 (mk side far n 0 y)) m T T' m' /\
        quiet m m') m.
Proof.
  intros t Hp Ha Hat Hk Hv. unfold rotate. wp_step. eapply wp_read_node; [done|].
  pose proof Hat as Hat'. unfold t in Hat'.
  apply avl_at_mk in Hat' as (_ & nd & Hn & Hdn & Han & Hx & Hy).
  apply avl_at_mk in Hx as (Hc & nd1 & Hn1 & Hdn1 & Han1 & Hnear & Hfar).
  assert (Hk' : NoDup (t_k n :: t_k n1 :: ks near ++ ks far ++ ks y)).
  { unfold t in Hk. rewrite !ks_mk in Hk. eapply nodup_perm; [|exact Hk]. solve_Permutation. }
  assert (Hv' : NoDup (t_v n :: t_v n1 :: vs near ++ vs far ++ vs y)).
  { unfold t in Hv. rewrite !vs_mk in Hv. eapply nodup_perm; [|exact Hv]. solve_Permutation. }
  apply NoDup_cons in Hk' as [Hk1 [Hk2 _]%NoDup_cons].
  apply NoDup_cons in Hv' as [Hv1 [Hv2 _]%NoDup_cons].
  assert (t_k n <> t_k n1) by set_solver+Hk1.
  assert (t_v n <> t_v n1) by set_solver+Hv1.
  wp_step. eapply wp_load_node; [done|]. rewrite Hc. avl_steps. simpl.
  rewrite Z.eqb_refl. avl_steps.
  eapply replaced_write; try done; unfold t; cbn [nodes avls cells a_data a_hidden].
  - rewrite !tags_mk. destruct side; by rewrite <- ?app_assoc.
  - rewrite !count_mk. lia.
  - set (h' := <[t_k n1 := _]> _). set (a' := <[t_v n1 := _]> _).
    assert (Hfr : forall p z, avl_at (cells (nodes m)) (avls m) p z ->
              ks z ⊆ ks near ++ ks far ++ ks y -> vs z ⊆ vs near ++ vs far ++ vs y ->
              avl_at h' a' p z).
    { intros p z Hz Hks Hvs. eapply (avl_at_only_on _ _ _ _ _ _ [t_k n; t_k n1] [t_v n; t_v n1]);
        [only_on_tac|only_on_tac|set_solver+Hks Hk1 Hk2|set_solver+Hvs Hv1 Hv2|done]. }
    apply avl_at_mk. split; [done|]. exists (set_child_ptr (negb side) (Some (t_k n)) nd1).
    split_and!; [unfold h'; lk|lk|unfold a'; lk| |].
    { rewrite child_set_other. apply Hfr; [done|set_solver+..]. }
    rewrite child_set. apply avl_at_mk. split; [done|]. eexists.
    split_and!; [unfold h'; lk|lk|unfold a'; lk| |].
    { rewrite child_set. apply Hfr; [done|set_solver+..]. }
    rewrite child_set_negb. apply Hfr; [done|set_solver+..].
  - apply (only_on_weaken [t_k n; t_k n1]); [rewrite !ks_mk; set_solver+|only_on_tac].
  - apply (only_on_weaken [t_v n; t_v n1]); [rewrite !vs_mk; set_solver+|only_on_tac].
Qed.

(** The factors a double rotation leaves at the node and at its child. *)
Definition node_factor (side : bool) (f2 f : Z) : Z :=
  if f2 =? heavy side then heavy (negb side)
  else if (f2 =? 0) || (f2 =? heavy (negb side)) then 0 else f.
Definition child_factor (side : bool) (f2 f1 : Z) : Z :=
  if f2 =? heavy (negb side) then heavy side
  else if (f2 =? 0) || (f2 =? heavy side) then 0 else f1.

(** The [switch] of a double rotation. *)
Lemma wp_switch side k nd n k1 nd1 n1 f f1 f2 Q m :
  cells (nodes m) !! k = Some nd -> n_data nd = Some (t_v n) ->
  cells (nodes m) !! k1 = Some nd1 -> n_data nd1 = Some (t_v n1) ->
  avls m !! t_v n = Some (MkAvl (t_d n) (t_h n) f) ->
  avls m !! t_v n1 = Some (MkAvl (t_d n1) (t_h n1) f1) -> t_v n <> t_v n1 ->
  Q tt (AMem (nodes m) (<[t_v n1 := MkAvl (t_d n1) (t_h n1) (child_factor side f2 f1)]>
         (<[t_v n := MkAvl (t_d n) (t_h n) (node_factor side f2 f)]> (avls m)))) ->
  wp (if f2 =? heavy side then
        _ ← set_factor (Some k) (heavy (negb side)); set_factor (Some k1) AVL_BALANCED
      else if f2 =? AVL_BALANCED then
        _ ← set_factor (Some k) AVL_BALANCED; set_factor (Some k1) AVL_BALANCED
      else if f2 =? heavy (negb side) then
        _ ← set_factor (Some k) AVL_BALANCED; set_factor (Some k1) (heavy side)
      else mret tt) Q m.
Proof.
  intros Hk Hd Hk1 Hd1 Hv Hv1 Hne. unfold node_factor, child_factor, AVL_BALANCED.
  rewrite heavy_neg. pose proof (heavy_cases side).
  destruct (Z.eqb_spec f2 (heavy side)) as [->|E].
  { rewrite (proj2 (Z.eqb_neq (heavy side) (- heavy side))) by lia. rewrite orb_true_r.
    intros HQ. by avl_steps. }
  destruct (Z.eqb_spec f2 0) as [->|E0].
  { rewrite (proj2 (Z.eqb_neq 0 (- heavy side))) by lia. intros HQ. by avl_steps. }
  destruct (Z.eqb_spec f2 (- heavy side)); intros HQ; [by avl_steps|].
  apply wp_ret. simpl in HQ. rewrite !insert_id in HQ; [by destruct m|done|].
  by rewrite insert_id.
Qed.

Lemma rotate_double sd above side near n1 f1 g1 n2 f2 g2 n f y T m :
  let t := mk side (mk side near n1 f1 (mk side g1 n2 f2 g2)) n f y in
  f1 <> heavy side ->
  pos_holds (cells (nodes m)) T sd above (Some (t_k n)) ->
  (forall j, above = Some j -> j ∉ ks t) ->
  avl_at (cells (nodes m)) (avls m) (Some (t_k n)) t -> NoDup (ks t) -> NoDup (vs t) ->
  wp (rotate side T (position_of sd above))
     (fun T' m' => replaced sd above t
        (mk side (mk side near n1 (child_factor side f2 f1) g1) n2 0
                 (mk side g2 n (node_factor side f2 f) y)) m T T' m' /\
        quiet m m') m.
Proof.
  intros t Hf1 Hp Ha Hat Hk Hv. unfold rotate. wp_step. eapply wp_read_node; [done|].
  pose proof Hat as Hat'. unfold t in Hat'.
  apply avl_at_mk in Hat' as (_ & nd & Hn & Hdn & Han & Hx & Hy).
  apply avl_at_mk in Hx as (Hc & nd1 & Hn1 & Hdn1 & Han1 & Hnear & Hfar).
  apply avl_at_mk in Hfar as (Hc1 & nd2 & Hn2 & Hdn2 & Han2 & Hg1 & Hg2).
  assert (Hk' : NoDup (t_k n :: t_k n1 :: t_k n2 :: ks near ++ ks g1 ++ ks g2 ++ ks y)).
  { unfold t in Hk. rewrite !ks_mk in Hk. eapply nodup_perm; [|exact Hk]. solve_Permutation. }
  assert (Hv' : NoDup (t_v n :: t_v n1 :: t_v n2 :: vs near ++ vs g1 ++ vs g2 ++ vs y)).
  { unfold t in Hv. rewrite !vs_mk in Hv. eapply nodup_perm; [|exact Hv]. solve_Permutation. }
  apply NoDup_cons in Hk' as [Hk1 [Hk2 [Hk3 _]%NoDup_cons]%NoDup_cons].
  apply NoDup_cons in Hv' as [Hv1 [Hv2 [Hv3 _]%NoDup_cons]%NoDup_cons].
  assert (t_k n <> t_k n1 /\ t_k n <> t_k n2 /\ t_k n1 <> t_k n2) as (?&?&?) by set_solver+Hk1 Hk2.
  assert (t_v n <> t_v n1 /\ t_v n <> t_v n2 /\ t_v n1 <> t_v n2) as (?&?&?) by set_solver+Hv1 Hv2.
  wp_step. eapply wp_load_node; [done|]. rewrite Hc. avl_steps. simpl.
  rewrite (proj2 (Z.eqb_neq _ _) Hf1), Hc1. avl_steps. cbn [a_factor nodes avls cells].
  eapply wp_switch; [lk..|]. cbn [nodes avls cells].
  avl_steps.
  eapply replaced_write; try done; unfold t; cbn [nodes avls cells a_data a_hidden].
  - rewrite !tags_mk. destruct side; rewrite <- ?app_assoc; simpl; by rewrite <- ?app_assoc.
  - rewrite !count_mk. lia.
  - set (h' := <[t_k n2 := _]> _). set (a' := <[t_v n2 := _]> _).
    assert (Hfr : forall p z, avl_at (cells (nodes m)) (avls m) p z ->
              ks z ⊆ ks near ++ ks g1 ++ ks g2 ++ ks y -> vs z ⊆ vs near ++ vs g1 ++ vs g2 ++ vs y ->
              avl_at h' a' p z).
    { intros p z Hz Hks Hvs.
      eapply (avl_at_only_on _ _ _ _ _ _ [t_k n; t_k n1; t_k n2] [t_v n; t_v n1; t_v n2]);
        [only_on_tac|only_on_tac|set_solver+Hks Hk1 Hk2 Hk3|set_solver+Hvs Hv1 Hv2 Hv3|done]. }
    apply avl_at_mk. split; [done|]. eexists.
    split_and!; [unfold h'; lk|lk|unfold a'; lk| |].
    + rewrite child_set_other, child_set. apply avl_at_mk. split; [done|]. eexists.
      split_and!; [unfold h'; lk|lk|unfold a'; lk| |].
      * rewrite child_set_other. apply Hfr; [done|set_solver+..].
      * rewrite child_set. apply Hfr; [done|set_solver+..].
    + rewrite child_set. apply avl_at_mk. split; [done|]. eexists.
      split_and!; [unfold h'; lk|lk|unfold a'; lk| |].
      * rewrite child_set, ?child_set_negb. apply Hfr; [done|set_solver+..].
      * rewrite child_set_negb. apply Hfr; [done|set_solver+..].
  - apply (only_on_weaken [t_k n; t_k n1; t_k n2]); [rewrite !ks_mk; set_solver+|only_on_tac].
  - apply (only_on_weaken [t_v n; t_v n1; t_v n2]); [rewrite !vs_mk; set_solver+|only_on_tac].
Qed.

(** The shape a rotation needs: the child is there, and the grandchild when the
    rotation is double. *)
Definition rot_ok (side : bool) x : Prop :=
  exists near n1 f1 far, x = mk side near n1 f1 far /\
    (f1 = heavy side \/ exists g1 n2 f2 g2, far = mk side g1 n2 f2 g2).

Lemma split_of_mk side x n f y : split side (mk side x n f y) = Some (x, n, f, y).
Proof. by destruct side. Qed.

Lemma rotate_spec sd above side x n f y T m :
  let t := mk side x n f y in
  rot_ok side x ->
  pos_holds (cells (nodes m)) T sd above (Some (t_k n)) ->
  (forall j, above = Some j -> j ∉ ks t) ->
  avl_at (cells (nodes m)) (avls m) (Some (t_k n)) t -> NoDup (ks t) -> NoDup (vs t) ->
  wp (rotate side T (position_of sd above))
     (fun T' m' => replaced sd above t (frot side x n f y) m T T' m' /\ quiet m m') m.
Proof.
  intros t (near & n1 & f1 & far & -> & Hshape) Hp Ha Hat Hk Hv.
  unfold frot. rewrite split_of_mk. destruct (Z.eqb_spec f1 (heavy side)) as [->|Hf].
  - by apply rotate_single.
  - destruct Hshape as [?|(g1 & n2 & f2 & g2 & ->)]; [done|]. rewrite split_of_mk.
    by apply rotate_double.
Qed.

(** The trees insertion meets have that shape. *)
Lemma rot_ok_bal side x y :
  bal x -> height x = height y + 2 -> root_factor x <> 0 -> rot_ok side x.
Proof.
  intros Hb Hh Hr. pose proof (height_nonneg y).
  destruct (split side x) as [[[[near n1] f1] far]|] eqn:Hs; cycle 1.
  { destruct x; [simpl in *; lia|by destruct side]. }
  apply split_mk in Hs as ->. exists near, n1, f1, far. split; [done|].
  apply bal_mk in Hb as (Hf & Hrange & _ & _).
  assert (f1 <> 0) by (by destruct side). pose proof (heavy_cases side).
  destruct (Z.eq_dec f1 (heavy side)); [by left|right].
  destruct (split side far) as [[[[g1 n2] f2] g2]|] eqn:Hs2.
  - apply split_mk in Hs2 as ->. by exists g1, n2, f2, g2.
  - destruct far; [|by destruct side]. simpl in Hf. pose proof (height_nonneg near). nia.
Qed.

End rotations.

Lemma set_child_ptr_twice {X} s p q (nd : BiTreeNode X) :
  set_child_ptr s p (set_child_ptr s q nd) = set_child_ptr s p nd.
Proof. by destruct s. Qed.

(** ** Insertion *)

Section insertion.
Context {D : Type}.
Implicit Types (t x y l r : avl D) (n : tag D) (m : amem D) (T : BisTree D).

Lemma replaced_trans sd above t1 t2 t3 m T m1 T1 m2 T2 :
  replaced sd above t1 t2 m T T1 m1 -> replaced sd above t2 t3 m1 T1 T2 m2 ->
  ks t3 ≡ₚ ks t2 -> vs t3 ≡ₚ vs t2 -> replaced sd above t1 t3 m T T2 m2.
Proof.
  intros [(p1 & Hat1 & Hw1) Hk1 Hv1 Hc1 Hd1 Hs1] [(p2 & Hat2 & Hw2) Hk2 Hv2 Hc2 Hd2 Hs2] Hks Hvs.
  split; try congruence; [| | |lia].
  - exists p2. split; [done|]. destruct above as [j|]; simpl in *; [|done].
    destruct Hw1 as [Hr1 Hw1], Hw2 as [Hr2 Hw2]. split; [congruence|].
    intros nd Hj. rewrite (Hw2 _ (Hw1 _ Hj)). by rewrite set_child_ptr_twice.
  - eapply only_on_trans; (eapply only_on_weaken; [|done]); rewrite ?Hks; set_solver+.
  - eapply only_on_trans; (eapply only_on_weaken; [|done]); rewrite ?Hvs; set_solver+.
Qed.

Lemma count_length t : count t = Z.of_nat (length (ks t)).
Proof.
  induction t as [|l IHl n f r IHr]; [done|]. rewrite ks_AN, length_app. simpl. lia.
Qed.

(** A change of one node's factor. *)
Lemma set_factor_spec sd above side x n f f' y T Q m :
  let t := mk side x n f y in
  pos_holds (cells (nodes m)) T sd above (Some (t_k n)) ->
  (forall j, above = Some j -> j ∉ ks t) ->
  avl_at (cells (nodes m)) (avls m) (Some (t_k n)) t -> NoDup (vs t) ->
  (forall m', replaced sd above t (mk side x n f' y) m T T m' -> quiet m m' -> Q tt m') ->
  wp (set_factor (Some (t_k n)) f') Q m.
Proof.
  intros t Hp Ha Hat Hv HQ. pose proof Hat as (_ & nd & Hn & Hd & Hav & Hx & Hy)%avl_at_mk.
  unfold t in Hv. rewrite vs_mk in Hv. apply NoDup_cons in Hv as [Hv _].
  eapply wp_set_factor; [done|done|done|]. apply HQ; [|done].
  eapply replaced_keep; try done; unfold t; simpl.
  - by rewrite !tags_mk.
  - by rewrite !count_mk.
  - apply avl_at_mk. split; [done|]. exists nd. split_and!; [done|done|lk| |].
    + eapply avl_at_frame; [done| |exact Hx]. intros v ?. apply lookup_insert_ne. set_solver.
    + eapply avl_at_frame; [done| |exact Hy]. intros v ?. apply lookup_insert_ne. set_solver.
  - apply only_on_insert. rewrite vs_mk. set_solver+.
Qed.

Lemma rebalance_spec sd above side x n f y b T m :
  let t := mk side x n f y in
  (b = 0 -> f = heavy side -> rot_ok side x) ->
  pos_holds (cells (nodes m)) T sd above (Some (t_k n)) ->
  (forall j, above = Some j -> j ∉ ks t) ->
  avl_at (cells (nodes m)) (avls m) (Some (t_k n)) t -> NoDup (ks t) -> NoDup (vs t) ->
  wp (rebalance side T (position_of sd above) (Some (t_k n)) b)
     (fun '(r, T', b') m' => r = 0 /\ b' = (frebal side x n f y b).2 /\
        replaced sd above t (frebal side x n f y b).1 m T T' m' /\ quiet m m') m.
Proof.
  intros t Hrot Hp Ha Hat Hk Hv. unfold rebalance, frebal.
  pose proof Hat as (_ & nd & Hn & Hd & Hav & Hx & Hy)%avl_at_mk.
  destruct (Z.eqb_spec b 0) as [->|Hb]; cycle 1.
  { apply wp_ret. split_and!; [done|done| |done].
    eapply replaced_keep; try done; apply only_on_refl. }
  wp_step. eapply wp_avl_of; [done|done|done|]. cbn [a_factor].
  destruct (Z.eqb_spec f (heavy side)) as [Ef|Ef].
  { wp_step.
    replace ((if side then rotate_right else rotate_left) T (position_of sd above))
      with (rotate side T (position_of sd above)) by by destruct side.
    eapply wp_mono; [apply rotate_spec; [by apply Hrot|done..]|].
    intros T' m' [Hr Hq]. by apply wp_ret. }
  unfold AVL_BALANCED. destruct (Z.eqb_spec f 0); [|destruct (Z.eqb_spec f (heavy (negb side)))].
  - wp_step. by eapply set_factor_spec.
  - wp_step. by eapply set_factor_spec.
  - apply wp_ret. split_and!; [done|done| |done].
    eapply replaced_keep; try done; apply only_on_refl.
Qed.

(** [bitree_ins_left] or [bitree_ins_right] of a fresh [AvlNode] in an empty
    slot: the store [s] and the [AvlNode]s [av] it leaves. *)
Definition leaf_post sd above d T m0 v (z : Z * BisTree D)
    (s : store (BiTreeNode ptr) D) (av : gmap loc (AvlNode D)) : Prop :=
  trace s = trace (nodes m0) /\ oracle s = tail (tail (oracle (nodes m0))) /\
  if default true (head (tail (oracle (nodes m0)))) then
    z.1 = 0 /\ exists k, cells (nodes m0) !! k = None /\
      replaced sd above AL (AN AL (Tag k v d 0) 0 AL) m0 T z.2 (AMem s av)
  else z = (-1, T) /\ cells s = cells (nodes m0).

Lemma leaf_replaced sd above k v d T T' m0 h o tr :
  only_on (k :: option_list above) (cells (nodes m0)) h ->
  h !! k = Some (Node (Some v) NULL NULL) ->
  pos_written sd above (Some k) (cells (nodes m0)) h T T' ->
  b_compare T' = b_compare T -> b_destroy T' = b_destroy T -> b_size T' = b_size T + 1 ->
  replaced sd above AL (AN AL (Tag k v d 0) 0 AL) m0 T T'
    (AMem (Store h o tr) (<[v := MkAvl d 0 0]> (avls m0))).
Proof.
  intros Hon Hk Hw Hc Hd Hs. split; simpl; try done; [| | |lia].
  - exists (Some k). split; [|done]. split; [done|]. exists NULL, NULL.
    split_and!; [done|lk|done..].
  - unfold ks; simpl. eapply only_on_weaken; [|done]. set_solver+.
  - unfold vs; simpl. apply only_on_insert. set_solver+.
Qed.

Lemma ins_leaf_at sd above d T m0 v :
  pos_holds (cells (nodes m0)) T sd above NULL -> 0 <= b_size T < INT_MAX ->
  wp (new_node ← malloc (Node (Some v) NULL NULL);
      match new_node with
      | None => mret (-1, T)
      | Some _ =>
          tree ← write_pos T (position_of sd above) new_node;
          sz ← int_of (b_size tree + 1); mret (0, set_b_size sz tree)
      end)
     (fun z s => leaf_post sd above d T m0 v z s (<[v := MkAvl d 0 0]> (avls m0)))
     (Store (cells (nodes m0)) (tail (oracle (nodes m0))) (trace (nodes m0))).
Proof.
  intros Hp Hb. unfold leaf_post. wp_step. apply wp_malloc; unfold may_alloc; intros Ha;
    simpl in Ha; rewrite Ha; [|by apply wp_ret].
  intros k Hk. simpl in Hk |- *. destruct above as [j|]; simpl in Hp |- *.
  - destruct Hp as (nd & Hj & _). assert (j <> k) by congruence. repeat wp_step.
    eapply wp_update; [simpl; by rewrite lookup_insert_ne|]. repeat wp_step.
    apply wp_int_of; [unfold INT_MIN; lia|]. wp_step. split_and!; try done.
    exists k. split; [done|]. apply leaf_replaced; simpl; try done; [| |].
    + eapply only_on_trans; apply only_on_insert; set_solver+.
    + lk.
    + split; [done|]. intros nd' ?. simplify_eq. lk.
  - repeat wp_step. apply wp_int_of; [unfold INT_MIN; simpl; lia|]. wp_step. split_and!; try done.
    exists k. split; [done|]. apply leaf_replaced; simpl; try done; [|lk].
    apply only_on_insert; set_solver+.
Qed.

Lemma ins_leaf sd above d T m0 v :
  pos_holds (cells (nodes m0)) T sd above NULL ->
  (above = None -> b_size T = 0) -> 0 <= b_size T < INT_MAX ->
  wp (ins_child sd T above (Some v))
     (fun z s => leaf_post sd above d T m0 v z s (<[v := MkAvl d 0 0]> (avls m0)))
     (Store (cells (nodes m0)) (tail (oracle (nodes m0))) (trace (nodes m0))).
Proof.
  intros Hp Hsz Hb. pose proof (ins_leaf_at sd above d T m0 v Hp Hb) as Hins.
  unfold ins_child. destruct above as [j|]; simpl in Hp, Hins |- *.
  - destruct Hp as (nd & Hj & Hc). wp_step. eapply wp_load; [done|]. by rewrite Hc.
  - by rewrite (Hsz eq_refl).
Qed.

Lemma ks_tags t t' : tags t = tags t' -> ks t = ks t' /\ vs t = vs t'.
Proof. unfold ks, vs. by intros ->. Qed.

(** The addresses after an insertion. *)
Lemma fins_locs cmp new t : forall t' b,
  fins cmp new t = Some (t', b) ->
  match tfind cmp (t_d new) t with
  | None => ks t' ≡ₚ t_k new :: ks t /\ vs t' ≡ₚ t_v new :: vs t
  | Some _ => ks t' ≡ₚ ks t /\ vs t' ≡ₚ vs t
  end.
Proof.
  induction t as [|l IHl n f r IHr]; intros t' b; simpl; [by intros [= <- <-]|].
  destruct (cmp (t_d new) (t_d n) <? 0); [|destruct (cmp (t_d new) (t_d n) >? 0)].
  - destruct (fins cmp new l) as [[l' b1]|]; [|done]. intros [= Heq].
    specialize (IHl l' b1 eq_refl). pose proof (frebal_tags false l' n f r b1) as Ht.
    rewrite Heq in Ht. apply (ks_tags t') in Ht as [-> ->]. simpl. rewrite !ks_AN, !vs_AN.
    destruct (tfind cmp (t_d new) l); destruct IHl as [-> ->]; done.
  - destruct (fins cmp new r) as [[r' b1]|]; [|done]. intros [= Heq].
    specialize (IHr r' b1 eq_refl). pose proof (frebal_tags true r' n f l b1) as Ht.
    rewrite Heq in Ht. apply (ks_tags t') in Ht as [-> ->]. simpl. rewrite !ks_AN, !vs_AN.
    destruct (tfind cmp (t_d new) r); destruct IHr as [-> ->]; [done|].
    split; solve_Permutation.
  - destruct (t_h n =? 0); [done|]. intros [= <- <-]. by rewrite !ks_AN, !vs_AN.
Qed.

(** A replacement of a child is a replacement of the node. *)
Lemma replaced_lift sd above side x x' n f y m T T1 m1 :
  let t := mk side x n f y in
  replaced side (Some (t_k n)) x x' m T T1 m1 ->
  pos_holds (cells (nodes m)) T sd above (Some (t_k n)) ->
  (forall j, above = Some j -> (j ∉ ks t) /\ is_Some (cells (nodes m) !! j)) ->
  avl_at (cells (nodes m)) (avls m) (Some (t_k n)) t -> NoDup (ks t) -> NoDup (vs t) ->
  (forall k, k ∈ ks x' -> k ∈ ks x \/ cells (nodes m) !! k = None) ->
  (forall v, v ∈ vs x' -> v ∈ vs x \/ avls m !! v = None) ->
  avl_at (cells (nodes m1)) (avls m1) (Some (t_k n)) (mk side x' n f y) /\
  pos_holds (cells (nodes m1)) T1 sd above (Some (t_k n)) /\
  (forall j, above = Some j -> j ∉ ks (mk side x' n f y)) /\
  replaced sd above t (mk side x' n f y) m T T1 m1.
Proof.
  intros t [(p' & Hat' & [Hr Hw]) Hk Hv Hc Hd Hs] Hp Ha Hat Hnk Hnv Hfk Hfv.
  pose proof (avl_at_alloc _ _ _ _ Hat) as [Halk Halv].
  pose proof Hat as (_ & nd & Hn & Hdn & Han & Hx & Hy)%avl_at_mk.
  unfold t in *. setoid_rewrite ks_mk in Halk. setoid_rewrite vs_mk in Halv.
  rewrite ks_mk in Hnk. rewrite vs_mk in Hnv.
  apply NoDup_cons in Hnk as [Hnk1 (_ & Hnk2 & _)%NoDup_app].
  apply NoDup_cons in Hnv as [Hnv1 (_ & Hnv2 & _)%NoDup_app].
  assert (Hout : forall j, is_Some (cells (nodes m) !! j) -> j ∉ t_k n :: ks x -> j ∉ ks x').
  { intros j [? Hj] Hj2 Hj3. destruct (Hfk j Hj3); [set_solver|congruence]. }
  assert (Habove : forall j, above = Some j ->
    cells (nodes m1) !! j = cells (nodes m) !! j /\ j ∉ ks (mk side x' n f y)).
  { intros j Hj. destruct (Ha j Hj) as [Hjk Hal]. rewrite ks_mk in Hjk.
    assert (j ∉ ks x') by (apply Hout; [done|set_solver]).
    split; [apply Hk; set_solver|rewrite ks_mk; set_solver]. }
  assert (Hat1 : avl_at (cells (nodes m1)) (avls m1) (Some (t_k n)) (mk side x' n f y)).
  { apply avl_at_mk. split; [done|]. eexists. split_and!; [by apply Hw|lk| |lk|].
    - rewrite Hv; [done|]. intros [?|Hin]%elem_of_app; [set_solver|].
      destruct (Hfv _ Hin); [set_solver|congruence].
    - rewrite child_set_negb. eapply avl_at_only_on; [exact Hk|exact Hv| | |exact Hy].
      + intros k Hky. assert (k ∉ ks x') by (apply Hout; [apply Halk; set_solver|set_solver]).
        set_solver.
      + intros v Hvy [?|Hin]%elem_of_app; [set_solver|].
        destruct (Hfv _ Hin) as [?|Hnone]; [set_solver|].
        destruct (Halv v ltac:(set_solver)). congruence. }
  assert (Hp1 : pos_holds (cells (nodes m1)) T1 sd above (Some (t_k n))).
  { eapply pos_holds_frame; [done| |done]. intros j Hj. by apply Habove. }
  split_and!; [done|done|intros j Hj; by apply Habove|].
  split; try done.
  - exists (Some (t_k n)). split; [done|]. destruct above as [j|]; simpl in *; [|done].
    split; [done|]. intros nd' Hj. destruct (Habove j eq_refl) as [-> _]. rewrite Hj.
    destruct Hp as (nd'' & Hj'' & Hc''). simplify_eq. by rewrite (set_child_ptr_same _ _ _ Hc'').
  - eapply only_on_weaken; [|exact Hk]. rewrite !ks_mk. set_solver+.
  - eapply only_on_weaken; [|exact Hv]. rewrite !vs_mk. set_solver+.
  - rewrite !count_mk. lia.
Qed.

(** ** The specification of [insert] *)

Section spec.
Context (cmp : D -> D -> Z) (d : D).

(** The tree [t] was replaced by the result of the functional insertion. *)
Definition inserted sd above t m T (z : Z * BisTree D * Z) (m' : amem D) : Prop :=
  let '(r, T', b) := z in
  r = 0 /\ exists new t', t_d new = d /\ t_h new = 0 /\ fins cmp new t = Some (t', b) /\
    replaced sd above t t' m T T' m' /\
    (tfind cmp d t = None -> cells (nodes m) !! t_k new = None /\ avls m !! t_v new = None).

(** Every outcome of [insert]: found and visible, found and hidden, new, and
    no memory (the [AvlNode] is lost when only the second [malloc] fails). *)
Definition insert_post sd above t m T (z : Z * BisTree D * Z) (m' : amem D) : Prop :=
  match tfind cmp d t with
  | Some n =>
      if t_h n =? 0 then z.1 = (1, T) /\ m' = m
      else inserted sd above t m T z m' /\ oracle (nodes m') = oracle (nodes m) /\
        trace (nodes m') = trace (nodes m) ++ (if b_destroy T then [t_d n] else [])
  | None =>
      trace (nodes m') = trace (nodes m) /\
      if default true (head (oracle (nodes m))) && default true (head (tail (oracle (nodes m)))) then
        inserted sd above t m T z m' /\ oracle (nodes m') = tail (tail (oracle (nodes m)))
      else z.1 = (-1, T) /\ cells (nodes m') = cells (nodes m) /\
        forall v, is_Some (avls m !! v) -> avls m' !! v = avls m !! v
  end.

(** The state [insert] is called in. *)
Record insert_pre sd above t p m T : Prop := {
  ip_pos : pos_holds (cells (nodes m)) T sd above p;
  ip_above : forall j, above = Some j -> (j ∉ ks t) /\ is_Some (cells (nodes m) !! j);
  ip_at : avl_at (cells (nodes m)) (avls m) p t;
  ip_ks : NoDup (ks t);
  ip_vs : NoDup (vs t);
  ip_bal : bal t;
  ip_size : 0 <= b_size T < INT_MAX;
}.

Lemma insert_pre_child side x n f y sd above p m T :
  insert_pre sd above (mk side x n f y) p m T ->
  p = Some (t_k n) /\ exists nd, cells (nodes m) !! t_k n = Some nd /\
    n_data nd = Some (t_v n) /\ avls m !! t_v n = Some (MkAvl (t_d n) (t_h n) f) /\
    insert_pre side (Some (t_k n)) x (child side nd) m T.
Proof.
  intros [Hp Ha Hat Hk Hv Hb Hs].
  pose proof Hat as (-> & nd & Hn & Hdn & Han & Hx & Hy)%avl_at_mk. split; [done|].
  exists nd. rewrite ks_mk in Hk. rewrite vs_mk in Hv.
  apply NoDup_cons in Hk as [Hk1 (? & _ & _)%NoDup_app].
  apply NoDup_cons in Hv as [Hv1 (? & _ & _)%NoDup_app].
  split_and!; [done|done|done|]. split; try done.
  - by exists nd.
  - intros j [= <-]. split; [set_solver|by exists nd].
  - by apply bal_mk in Hb as (_ & _ & ? & _).
Qed.

(** The way back up: the child has been replaced, the node is rebalanced. *)
Lemma rebalance_up side x n f y sd above m T z m1 :
  let t := mk side x n f y in
  insert_pre sd above t (Some (t_k n)) m T ->
  tfind cmp d t = tfind cmp d x ->
  (forall new, t_d new = d -> fins cmp new t =
     match fins cmp new x with Some (x', b) => Some (frebal side x' n f y b) | None => None end) ->
  inserted side (Some (t_k n)) x m T z m1 ->
  wp (rebalance side z.1.2 (position_of sd above) (Some (t_k n)) z.2)
     (fun z' m' => inserted sd above t m T z' m' /\ quiet m1 m') m1.
Proof.
  intros t Hpre Hfind Hfins. destruct z as [[r T1] b].
  intros (_ & new & x' & Hd & Hh & Hfx & Hrep & Hfresh). simpl.
  pose proof Hpre as [Hp Ha Hat Hk Hv Hb Hs]. pose proof Hb as (Hf & Hrange & Hbx & Hby)%bal_mk.
  destruct (fins_bal cmp new x x' b Hbx Hfx) as [Hbx' Hheight].
  pose proof (fins_locs cmp new x x' b Hfx) as Hlocs. rewrite Hd in Hlocs.
  destruct (replaced_lift sd above side x x' n f y m T T1 m1) as (Hat1 & Hp1 & Ha1 & Hrep1); try done.
  { intros k Hin. destruct (tfind cmp d x); destruct Hlocs as [Hlk _]; rewrite Hlk in Hin; [by left|].
    apply elem_of_cons in Hin as [->|?]; [right; by apply Hfresh|by left]. }
  { intros v Hin. destruct (tfind cmp d x); destruct Hlocs as [_ Hlv]; rewrite Hlv in Hin; [by left|].
    apply elem_of_cons in Hin as [->|?]; [right; by apply Hfresh|by left]. }
  destruct (avl_at_alloc _ _ _ _ Hat) as [Halk Halv].
  assert (Hnd : NoDup (ks (mk side x' n f y)) /\ NoDup (vs (mk side x' n f y))).
  { unfold t in *. rewrite ks_mk, vs_mk in *. destruct (tfind cmp d x).
    - destruct Hlocs as [Hlk Hlv]. by rewrite Hlk, Hlv.
    - destruct Hlocs as [Hlk Hlv]. rewrite Hlk, Hlv. destruct (Hfresh eq_refl) as [Hk0 Hv0].
      split; (eapply nodup_perm; [apply Permutation_swap|]; apply NoDup_cons; split; [|done]).
      + intros Hin. rewrite <- (ks_mk side x n f y) in Hin. destruct (Halk _ Hin). congruence.
      + intros Hin. rewrite <- (vs_mk side x n f y) in Hin. destruct (Halv _ Hin). congruence. }
  destruct Hnd as [Hndk Hndv].
  eapply wp_mono; [apply (rebalance_spec sd above side x' n f y b T1 m1); try done|].
  { intros -> ->. destruct Hheight as [(_ & Hh1 & Hrf)|[? _]]; [|done].
    pose proof (heavy_cases side). pose proof (height_nonneg y).
    assert (height x = height y + 1) by nia.
    destruct Hrf as [->|Hrf]; [simpl in *; lia|]. apply (rot_ok_bal side x' y); [done|lia|done]. }
  intros [[r' T2] b'] m' (-> & -> & Hrep2 & Hq). split; [|done]. split; [done|].
  exists new, (frebal side x' n f y b).1. split_and!; [done|done| | |].
  - rewrite Hfins, Hfx by done. by destruct (frebal side x' n f y b).
  - pose proof (frebal_tags side x' n f y b) as [Hks Hvs]%ks_tags.
    eapply replaced_trans; [exact Hrep1|exact Hrep2|by rewrite Hks|by rewrite Hvs].
  - rewrite Hfind. done.
Qed.

Lemma wp_malloc_avl (av : AvlNode D) Q m :
  let s := Store (cells (nodes m)) (tail (oracle (nodes m))) (trace (nodes m)) in
  (default true (head (oracle (nodes m))) = true -> forall v, avls m !! v = None ->
     Q (Some v) (AMem s (<[v := av]> (avls m)))) ->
  (default true (head (oracle (nodes m))) = false -> Q NULL (AMem s (avls m))) ->
  wp (malloc_avl av) Q m.
Proof.
  intros s H1 H2. unfold wp, malloc_avl, may_alloc.
  destruct (default true (head (oracle (nodes m)))); [|by apply H2].
  apply H1; [done|]. apply not_elem_of_dom, is_fresh.
Qed.

(** What [insert] promises when the datum is not in the tree below. *)
Lemma insert_post_up sd above side x n f y m T z m' :
  tfind cmp d (mk side x n f y) = tfind cmp d x -> z.1.1 <> 0 ->
  insert_post side (Some (t_k n)) x m T z m' ->
  insert_post sd above (mk side x n f y) m T z m'.
Proof.
  intros Hfind Hr. unfold insert_post. rewrite Hfind. destruct z as [[r T'] b]. simpl in Hr.
  destruct (tfind cmp d x) as [n'|]; [destruct (t_h n' =? 0)|]; [done| |].
  - by intros [[? _] _].
  - destruct (_ && _); [|done]. by intros (_ & [? _] & _).
Qed.

Lemma insert_post_done sd above side x n f y m T z m1 z' m' :
  tfind cmp d (mk side x n f y) = tfind cmp d x -> z.1.1 = 0 ->
  insert_post side (Some (t_k n)) x m T z m1 ->
  inserted sd above (mk side x n f y) m T z' m' -> quiet m1 m' ->
  insert_post sd above (mk side x n f y) m T z' m'.
Proof.
  intros Hfind Hr. unfold insert_post. rewrite Hfind. destruct z as [[r T'] b]. simpl in Hr. subst r.
  intros Hpost Hins [Ho Ht]. destruct (tfind cmp d x) as [n'|]; [destruct (t_h n' =? 0)|].
  - by destruct Hpost as [[=] _].
  - destruct Hpost as (_ & ? & ?). split_and!; [done|congruence..].
  - destruct Hpost as [? Hpost]. split; [congruence|]. destruct (_ && _).
    + destruct Hpost as [_ ?]. split; [done|congruence].
    + by destruct Hpost as [[=] _].
Qed.

(** A new leaf, as an outcome of [insert]. *)
Lemma leaf_insert_post sd above T m v z s b :
  avls m !! v = None -> default true (head (oracle (nodes m))) = true ->
  leaf_post sd above d T m v z s (<[v := MkAvl d 0 0]> (avls m)) -> b = 0 ->
  insert_post sd above AL m T (z, b) (AMem s (<[v := MkAvl d 0 0]> (avls m))).
Proof.
  intros Hv Ho (Ht & Ho' & Hpost) ->. destruct z as [r T']. simpl in *. split; [done|].
  rewrite Ho. simpl. destruct (default true (head (tail (oracle (nodes m))))).
  - destruct Hpost as (-> & k & Hk & Hrep). split; [|done]. split; [done|].
    exists (Tag k v d 0), (AN AL (Tag k v d 0) 0 AL). by split_and!.
  - destruct Hpost as [[= -> ->] Hc]. split_and!; [done|done|]. simpl. intros v' [? Hv'].
    apply lookup_insert_ne. congruence.
Qed.

Lemma insert_below_spec insert side x n f y sd above m T :
  let t := mk side x n f y in
  insert_pre sd above t (Some (t_k n)) m T ->
  tfind cmp d t = tfind cmp d x ->
  (forall new, t_d new = d -> fins cmp new t =
     match fins cmp new x with Some (x', b) => Some (frebal side x' n f y b) | None => None end) ->
  (forall p, x <> AL -> insert_pre side (Some (t_k n)) x p m T ->
     wp (insert T (AtChild side (Some (t_k n))) 0) (insert_post side (Some (t_k n)) x m T) m) ->
  wp (insert_below insert side T (position_of sd above) (Some (t_k n)) d 0)
     (insert_post sd above t m T) m.
Proof.
  intros t Hpre Hfind Hfins IH. unfold insert_below.
  destruct (insert_pre_child _ _ _ _ _ _ _ _ _ _ Hpre) as (_ & nd & Hn & Hdn & Han & Hprex).
  wp_step. eapply wp_load_node; [done|].
  assert (Hup : forall z m1, insert_post side (Some (t_k n)) x m T z m1 -> z.1.1 = 0 ->
    wp (rebalance side z.1.2 (position_of sd above) (Some (t_k n)) z.2)
       (insert_post sd above t m T) m1).
  { intros z m1 Hpost Hr. eapply wp_mono.
    - apply (rebalance_up side x n f y sd above m T z m1); try done.
      unfold insert_post in Hpost. destruct z as [[r T1] b]. simpl in Hr. subst r.
      destruct (tfind cmp d x) as [n'|]; [destruct (t_h n' =? 0)|destruct (_ && _)].
      + by destruct Hpost as [[=] _].
      + apply Hpost.
      + apply Hpost.
      + by destruct Hpost as (_ & [=] & _).
    - intros z' m' [Hins Hq]. by eapply insert_post_done. }
  destruct (child side nd) as [kx|] eqn:Hchild.
  - wp_step. eapply wp_mono; [eapply IH; [|exact Hprex]|].
    { intros ->. by pose proof (ip_at _ _ _ _ _ _ Hprex). }
    intros [[r T1] b] m1 Hpost. destruct (Z.eqb_spec r 0) as [Er|Er].
    + exact (Hup (r, T1, b) m1 Hpost Er).
    + apply wp_ret. by eapply insert_post_up.
  - assert (x = AL) as ->.
    { pose proof (ip_at _ _ _ _ _ _ Hprex) as Hx. destruct x; [done|]. simpl in Hx. by destruct Hx. }
    wp_step. apply wp_malloc_avl; intros Ha.
    + intros v Hv. wp_step. apply wp_in_nodes.
      replace ((if side then bitree_ins_right else bitree_ins_left) T (Some (t_k n)) (Some v))
        with (@ins_child ptr D D side T (Some (t_k n)) (Some v)) by by destruct side.
      eapply wp_mono; [eapply (ins_leaf side (Some (t_k n)) d T m v); [apply Hprex|done|apply Hprex]|].
      intros [r T1] s Hleaf.
      pose proof (leaf_insert_post _ _ _ _ _ _ _ 0 Hv Ha Hleaf eq_refl) as Hpost.
      destruct (Z.eqb_spec r 0) as [Er|Er].
      * exact (Hup (r, T1, 0) _ Hpost Er).
      * assert (r = -1) as ->.
        { destruct Hleaf as (_ & _ & Hl).
          destruct (default true (head (tail (oracle (nodes m))))); [by destruct Hl|].
          by destruct Hl as [[= -> _] _]. }
        apply wp_ret. by eapply insert_post_up.
    + apply wp_ret. eapply insert_post_up; [done|done|]. split; [done|].
      by rewrite Ha.
Qed.

(** Taking over a hidden node. *)
Lemma revive_spec sd above l n f r m T :
  let t := AN l n f r in
  insert_pre sd above t (Some (t_k n)) m T ->
  cmp d (t_d n) = 0 -> t_h n <> 0 ->
  wp (_ ← (if b_destroy T then in_nodes (call_destroy (t_d n)) else mret tt);
      _ ← set_avl (Some (t_k n)) (fun a => MkAvl d 0 (a_factor a));
      mret (0, T, 1)) (insert_post sd above t m T) m.
Proof.
  intros t [Hp Ha Hat Hk Hv Hb Hs] Hc Hh. destruct Hat as (_ & pl & pr & Hn & Hav & Hl & Hr).
  wp_step. set (m1 := AMem (Store (cells (nodes m)) (oracle (nodes m))
             (trace (nodes m) ++ (if b_destroy T then [t_d n] else []))) (avls m)).
  eapply wp_mono with (Q := fun _ m' => m' = m1).
  { unfold m1. destruct (b_destroy T); [done|]. apply wp_ret. rewrite app_nil_r, store_eta.
    by destruct m. }
  intros _ ? ->. wp_step. eapply wp_set_avl; [exact Hn|reflexivity|exact Hav|]. apply wp_ret.
  unfold insert_post, t. cbn [tfind]. rewrite Hc. simpl.
  destruct (Z.eqb_spec (t_h n) 0); [done|]. split; [|done]. split; [done|].
  exists (Tag 1%positive 1%positive d 0), (AN l (Tag (t_k n) (t_v n) d 0) f r).
  split_and!; [done|done| | |by cbn [tfind]; rewrite Hc].
  { cbn [fins t_d]. rewrite Hc. simpl. by destruct (Z.eqb_spec (t_h n) 0). }
  unfold t in Hv; rewrite vs_AN in Hv. apply NoDup_app in Hv as (_ & Hv1 & [Hv2 _]%NoDup_cons).
  split; simpl; try apply only_on_refl; try done; try lia.
  - exists (Some (t_k n)). split.
    + split; [done|]. exists pl, pr. split_and!; [done|lk| |].
      * eapply avl_at_frame; [done| |exact Hl]. intros v Hin. apply lookup_insert_ne.
        intros <-. apply (Hv1 _ Hin). set_solver+.
      * eapply avl_at_frame; [done| |exact Hr]. intros v Hin. apply lookup_insert_ne. set_solver.
    + destruct above as [j|]; simpl in Hp |- *; [|done]. split; [done|].
      intros nd Hj. destruct Hp as (nd' & Hj' & Hcj). simplify_eq.
      by rewrite (set_child_ptr_same _ _ _ Hcj).
  - apply only_on_insert. rewrite vs_AN. set_solver+.
Qed.

Lemma insert_spec t : forall fuel sd above p m T,
  insert_pre sd above t p m T -> b_compare T = Some cmp ->
  (above = None -> b_size T = count t) -> (t = AL -> above = None) ->
  (length (ks t) < fuel)%nat ->
  wp (insert_ fuel T (position_of sd above) d 0) (insert_post sd above t m T) m.
Proof.
  induction t as [|l IHl n f r IHr]; intros fuel sd above p m T Hpre Hcmp Hroot Hal Hfuel;
    (destruct fuel as [|fuel]; [lia|]); cbn [insert_];
    (wp_step; eapply wp_read_node; [apply Hpre|]).
  - rewrite (Hal eq_refl) in *. pose proof (ip_at _ _ _ _ _ _ Hpre) as Hat. simpl in Hat. subst p.
    wp_step. apply wp_malloc_avl; intros Ha.
    + intros v Hv. wp_step. apply wp_in_nodes.
      eapply wp_mono; [eapply (ins_leaf sd None d T m v); [apply Hpre|auto|apply Hpre]|].
      intros z s Hleaf. pose proof (leaf_insert_post _ _ _ _ _ _ _ 0 Hv Ha Hleaf eq_refl).
      by destruct z.
    + apply wp_ret. split; [done|]. by rewrite Ha.
  - pose proof (ip_at _ _ _ _ _ _ Hpre) as (-> & pl & pr & Hn & Han & _). rewrite ks_AN, length_app in Hfuel.
    simpl in Hfuel. wp_step. rewrite Hcmp. apply wp_ret. wp_step.
    eapply wp_avl_of; [done|done|done|]. cbn [a_data a_hidden].
    assert (IH : forall x, x = l \/ x = r -> forall side p, x <> AL ->
      insert_pre side (Some (t_k n)) x p m T ->
      wp (insert_ fuel T (AtChild side (Some (t_k n))) d 0) (insert_post side (Some (t_k n)) x m T) m).
    { intros x [-> | ->] side p ? Hx; [eapply (IHl fuel side (Some (t_k n)))|eapply (IHr fuel side (Some (t_k n)))];
        try done; lia. }
    destruct (cmp d (t_d n) <? 0) eqn:Hlt; [|destruct (cmp d (t_d n) >? 0) eqn:Hgt].
    + apply (insert_below_spec _ false l n f r); [done|simpl; by rewrite Hlt| |].
      * intros new Hd. simpl. by rewrite Hd, Hlt.
      * intros p. apply IH. by left.
    + apply (insert_below_spec _ true r n f l); [done|simpl; by rewrite Hlt, Hgt| |].
      * intros new Hd. simpl. by rewrite Hd, Hlt, Hgt.
      * intros p. apply IH. by right.
    + assert (cmp d (t_d n) = 0).
      { apply Z.ltb_ge in Hlt. rewrite Z.gtb_ltb in Hgt. apply Z.ltb_ge in Hgt. lia. }
      destruct (Z.eqb_spec (t_h n) 0) as [E|E]; [|by apply revive_spec].
      apply wp_ret. unfold insert_post. cbn [tfind]. rewrite Hlt, Hgt, E. done.
Qed.

End spec.

End insertion.

(** ** Search, hiding and destruction *)

Section walks.
Context {D : Type} (cmp : D -> D -> Z).
Implicit Types (t x y l r : avl D) (n : tag D) (m : amem D) (T : BisTree D) (d : D).

(** What [lookup] answers: the returned [int] and [*data]. *)
Definition lookup_result (o : option (tag D)) d : Z * D :=
  match o with
  | Some n => if t_h n =? 0 then (0, t_d n) else (-1, d)
  | None => (-1, d)
  end.

Lemma lookup_spec d t : forall fuel p m T,
  avl_at (cells (nodes m)) (avls m) p t -> b_compare T = Some cmp ->
  height t <= Z.of_nat fuel ->
  wp (lookup_ fuel T p d) (fun z m' => z = lookup_result (tfind cmp d t) d /\ m' = m) m.
Proof.
  induction t as [|l IHl n f r IHr]; intros fuel p m T Hat Hc Hf.
  { simpl in Hat. subst p. by destruct fuel. }
  destruct Hat as (-> & pl & pr & Hn & Ha & Hl & Hr). simpl in Hf.
  destruct fuel as [|fuel]; [pose proof (height_nonneg l); lia|]. cbn [lookup_].
  rewrite Hc. wp_step. apply wp_ret. wp_step. eapply wp_avl_of; [done|done|done|].
  wp_step. eapply wp_load_node; [done|]. cbn [a_data a_hidden n_left n_right tfind].
  destruct (cmp d (t_d n) <? 0); [apply IHl; [done|done|lia]|].
  destruct (cmp d (t_d n) >? 0); [apply IHr; [done|done|lia]|].
  simpl. by destruct (t_h n =? 0).
Qed.

Lemma fhide_locs d t : ks (fhide cmp d t) = ks t /\ vs (fhide cmp d t) = vs t.
Proof.
  induction t as [|l [IHk IHv] n f r [IHk' IHv']]; [done|]. simpl.
  destruct (cmp d (t_d n) <? 0), (cmp d (t_d n) >? 0); rewrite !ks_AN, !vs_AN; split; done || congruence.
Qed.

Lemma hide_spec d t : forall fuel p m T,
  avl_at (cells (nodes m)) (avls m) p t -> NoDup (vs t) -> b_compare T = Some cmp ->
  height t <= Z.of_nat fuel ->
  wp (hide fuel T p d) (fun z m' => z = (match tfind cmp d t with Some _ => 0 | None => -1 end) /\
     nodes m' = nodes m /\ only_on (vs t) (avls m) (avls m') /\
     avl_at (cells (nodes m')) (avls m') p (fhide cmp d t)) m.
Proof.
  induction t as [|l IHl n f r IHr]; intros fuel p m T Hat Hv Hc Hf.
  { simpl in Hat. subst p. destruct fuel; apply wp_ret; by split_and!; try apply only_on_refl. }
  destruct Hat as (-> & pl & pr & Hn & Ha & Hl & Hr). simpl in Hf. rewrite vs_AN in *.
  apply NoDup_app in Hv as (Hvl & Hv1 & [Hv2 Hvr]%NoDup_cons).
  destruct fuel as [|fuel]; [pose proof (height_nonneg l); lia|]. cbn [hide].
  rewrite Hc. wp_step. apply wp_ret. wp_step. eapply wp_avl_of; [done|done|done|].
  wp_step. eapply wp_load_node; [done|]. cbn [a_data a_hidden n_left n_right tfind fhide].
  destruct (cmp d (t_d n) <? 0); [|destruct (cmp d (t_d n) >? 0)].
  - eapply wp_mono; [apply IHl; [done|done|done|lia]|].
    intros z m' (-> & Hno & Hon & Hat). rewrite Hno in *. split_and!; [done|done| |].
    + eapply only_on_weaken; [|done]. set_solver+.
    + split; [done|]. exists pl, pr. split_and!; [done| |done|].
      * rewrite Hon; [done|]. intros Hin. apply (Hv1 _ Hin). set_solver+.
      * eapply avl_at_frame; [done| |exact Hr]. intros v Hin. apply Hon.
        intros Hin'. apply (Hv1 _ Hin'). set_solver.
  - eapply wp_mono; [apply IHr; [done|done|done|lia]|].
    intros z m' (-> & Hno & Hon & Hat). rewrite Hno in *. split_and!; [done|done| |].
    + eapply only_on_weaken; [|done]. set_solver+.
    + split; [done|]. exists pl, pr. split_and!; [done| | |done].
      * rewrite Hon; done.
      * eapply avl_at_frame; [done| |exact Hl]. intros v Hin. apply Hon.
        intros Hin'. apply (Hv1 _ Hin). set_solver.
  - wp_step. eapply wp_set_avl; [done|done|done|]. apply wp_ret. split_and!; [done|done| |].
    + apply only_on_insert. set_solver+.
    + split; [done|]. exists pl, pr. split_and!; [done|lk| |].
      * eapply avl_at_frame; [done| |exact Hl]. intros v Hin. apply lookup_insert_ne.
        intros <-. apply (Hv1 _ Hin). set_solver+.
      * eapply avl_at_frame; [done| |exact Hr]. intros v Hin. apply lookup_insert_ne. set_solver.
Qed.

(** The data of all nodes, hidden or not, children before parents. *)
Fixpoint post_data t : list D :=
  match t with AL => [] | AN l n _ r => post_data l ++ post_data r ++ [t_d n] end.

(** What destroying the subtree [c] below [above] leaves. *)
Record destroyed (sd : bool) (above : ptr) (c : avl D) m T T' (m' : amem D) : Prop := {
  dp_oracle : oracle (nodes m') = oracle (nodes m);
  dp_trace : trace (nodes m') = trace (nodes m) ++ (if b_destroy T then post_data c else []);
  dp_size : b_size T' = b_size T - count c;
  dp_destroy : b_destroy T' = b_destroy T;
  dp_nodes : forall k, k ∈ ks c -> cells (nodes m') !! k = None;
  dp_avls : forall v, v ∈ vs c -> avls m' !! v = None;
  dp_frame : only_on (option_list above ++ ks c) (cells (nodes m)) (cells (nodes m'));
  dp_frame_avls : only_on (vs c) (avls m) (avls m');
  dp_cleared : pos_written sd above NULL (cells (nodes m)) (cells (nodes m')) T T';
}.

Lemma destroyed_AL sd above m T :
  pos_holds (cells (nodes m)) T sd above NULL -> destroyed sd above AL m T T m.
Proof.
  intros Hp. split; simpl; try apply only_on_refl; try (unfold ks, vs; simpl; set_solver+); try lia;
    try done.
  - by destruct (b_destroy T); rewrite app_nil_r.
  - destruct above as [k|]; simpl in *; [|done]. split; [done|].
    intros nd Hk. destruct Hp as (nd' & Hk' & Hc). simplify_eq.
    by rewrite (set_child_ptr_same _ _ _ Hc).
Qed.

(** The end of a call, once both subtrees of the node are gone. *)
Lemma destroy_node sd above n f T m :
  pos_holds (cells (nodes m)) T sd above (Some (t_k n)) ->
  cells (nodes m) !! t_k n = Some (Node (Some (t_v n)) NULL NULL) ->
  avls m !! t_v n = Some (MkAvl (t_d n) (t_h n) f) ->
  above <> Some (t_k n) -> INT_MIN < b_size T <= INT_MAX ->
  wp (a ← avl_of (Some (t_k n));
      _ ← (if b_destroy T then in_nodes (call_destroy (a_data a)) else mret tt);
      nd ← in_nodes (load (Some (t_k n)));
      _ ← free_avl (n_data nd);
      _ ← in_nodes (free (Some (t_k n)));
      tree ← in_nodes (write_pos T (position_of sd above) NULL);
      sz ← in_nodes (int_of (b_size tree - 1));
      mret (set_b_size sz tree))
     (destroyed sd above (AN AL n f AL) m T) m.
Proof.
  intros Hp Hk Hv Hne Hsz. wp_step. eapply wp_avl_of; [done|done|done|]. cbn [a_data].
  wp_step. set (m1 := AMem (Store (cells (nodes m)) (oracle (nodes m))
             (trace (nodes m) ++ (if b_destroy T then [t_d n] else []))) (avls m)).
  eapply wp_mono with (Q := fun _ m' => m' = m1).
  { unfold m1. destruct (b_destroy T); [done|]. apply wp_ret. rewrite app_nil_r, store_eta.
    by destruct m. }
  intros _ ? ->. wp_step. eapply wp_load_node; [exact Hk|]. cbn [n_data].
  wp_step. eapply wp_free_avl; [exact Hv|]. wp_step. apply wp_in_nodes. eapply wp_free; [exact Hk|].
  wp_step. unfold m1. cbn [nodes avls cells oracle trace].
  eapply (wp_write_pos sd above NULL (Some (t_k n))).
  { eapply pos_holds_frame; [done| |exact Hp]. intros j ->. simpl.
    rewrite lookup_delete_ne; congruence. }
  intros T' m' Hw Hon Ho Ht Hav Hc Hd Hs. simpl in *.
  wp_step. apply wp_in_nodes, wp_int_of; [lia|]. wp_step.
  split; cbn [nodes avls cells oracle trace]; unfold ks, vs; simpl; try done.
  - lia.
  - intros k Hin. assert (k = t_k n) as -> by set_solver. rewrite Hon.
    + apply lookup_delete_eq.
    + destruct above; set_solver.
  - intros v Hin. assert (v = t_v n) as -> by set_solver. rewrite Hav. apply lookup_delete_eq.
  - eapply only_on_trans; [apply (only_on_delete _ _ (t_k n)); set_solver+|].
    eapply only_on_weaken; [|exact Hon]. set_solver+.
  - rewrite Hav. apply only_on_delete. set_solver+.
  - destruct above as [j|]; simpl in *; [|done]. destruct Hw as [Hr Hw]. split; [done|].
    intros nd Hj. destruct m'; simpl in *. apply Hw. rewrite lookup_delete_ne; congruence.
Qed.

Lemma destroyed_seq sd above l n f r pl pr T0 T1 T2 T3 m0 m1 m2 m3 :
  destroyed false (Some (t_k n)) l m0 T0 T1 m1 ->
  destroyed true (Some (t_k n)) r m1 T1 T2 m2 ->
  destroyed sd above (AN AL n f AL) m2 T2 T3 m3 ->
  cells (nodes m0) !! t_k n = Some (Node (Some (t_v n)) pl pr) ->
  NoDup (ks (AN l n f r)) -> NoDup (vs (AN l n f r)) ->
  (forall j, above = Some j -> j ∉ ks (AN l n f r)) ->
  destroyed sd above (AN l n f r) m0 T0 T3 m3.
Proof.
  rewrite ks_AN, vs_AN.
  intros [Ho1 Ht1 Hs1 Hd1 Hk1 Hv1 Hf1 Hfv1 [Hr1 Hc1]] [Ho2 Ht2 Hs2 Hd2 Hk2 Hv2 Hf2 Hfv2 [Hr2 Hc2]]
    [Ho3 Ht3 Hs3 Hd3 Hk3 Hv3 Hf3 Hfv3 Hc3] Hk (Hndl & Hdj & [Hkn Hndr]%NoDup_cons)%NoDup_app
    (_ & Hdv & [Hvn _]%NoDup_cons)%NoDup_app Habove.
  change (ks (AN AL n f AL)) with [t_k n] in *. change (vs (AN AL n f AL)) with [t_v n] in *.
  assert (Hkeep : forall j, j ∈ ks l ++ ks r -> cells (nodes m3) !! j = cells (nodes m2) !! j).
  { intros j Hj. apply Hf3. intros [Hn|Hjk]%elem_of_app.
    - destruct above as [i|]; [|set_solver]. apply (Habove i eq_refl). set_solver.
    - assert (j = t_k n) as -> by set_solver. apply elem_of_app in Hj as [Hj|Hj]; [|done].
      apply (Hdj _ Hj). set_solver+. }
  simpl in *. split.
  - congruence.
  - rewrite Ht3, Ht2, Ht1, Hd2, Hd1. simpl.
    destruct (b_destroy T0); by rewrite <-!app_assoc, ?app_nil_r.
  - simpl. lia.
  - congruence.
  - rewrite ks_AN. intros j [Hj|[->|Hj]%elem_of_cons]%elem_of_app; [|apply Hk3; set_solver+|].
    + rewrite Hkeep by set_solver. rewrite Hf2; [by apply Hk1|]. specialize (Hdj j Hj).
      set_solver.
    + rewrite Hkeep by set_solver. by apply Hk2.
  - rewrite vs_AN. intros v [Hj|[->|Hj]%elem_of_cons]%elem_of_app; [|apply Hv3; set_solver+|].
    + specialize (Hdv v Hj). rewrite Hfv3, Hfv2 by set_solver. by apply Hv1.
    + rewrite Hfv3 by set_solver. by apply Hv2.
  - rewrite ks_AN. eapply only_on_trans; [|eapply only_on_trans];
      (eapply only_on_weaken; [|done]); set_solver+.
  - rewrite vs_AN. eapply only_on_trans; [|eapply only_on_trans];
      (eapply only_on_weaken; [|done]); set_solver+.
  - destruct above as [j|]; simpl in *; [|done]. destruct Hc3 as [Hr3 Hc3]. split; [congruence|].
    specialize (Habove j eq_refl). intros nd Hj. apply Hc3. rewrite Hf2, Hf1 by set_solver. done.
Qed.

Lemma destroy_spec c : forall fuel sd above p T m,
  pos_holds (cells (nodes m)) T sd above p -> avl_at (cells (nodes m)) (avls m) p c ->
  NoDup (ks c) -> NoDup (vs c) -> (forall j, above = Some j -> j ∉ ks c) ->
  count c <= b_size T <= INT_MAX -> height c <= Z.of_nat fuel ->
  wp (destroy_side fuel sd T above) (destroyed sd above c m T) m.
Proof.
  induction c as [|l IHl n f r IHr]; intros fuel sd above p T m Hp Ht Hk Hv Hn Hsz Hfu.
  - simpl in Ht. subst p. destruct fuel; cbn [destroy_side];
      (destruct (Z.eqb_spec (b_size T) 0); [apply wp_ret; by apply destroyed_AL|]);
      (wp_step; eapply wp_read_node; [done|]; by apply wp_ret, destroyed_AL).
  - destruct Ht as (-> & pl & pr & Hnd & Hav & Hl & Hr). simpl in Hsz, Hfu.
    pose proof (count_length l). pose proof (count_length r). pose proof (height_nonneg l).
    destruct fuel as [|fuel]; [lia|]. cbn [destroy_side].
    destruct (Z.eqb_spec (b_size T) 0); [lia|].
    pose proof Hk as Hk'. pose proof Hv as Hv'. pose proof Hn as Hn'.
    rewrite ks_AN in Hk', Hn'. rewrite vs_AN in Hv'.
    apply NoDup_app in Hk' as (Hkl & Hkd & [Hkn Hkr]%NoDup_cons).
    apply NoDup_app in Hv' as (Hvl & Hvd & [Hvn Hvr]%NoDup_cons).
    wp_step; eapply wp_read_node; [done|]. cbn beta iota.
    wp_step. eapply wp_mono; [eapply (IHl fuel false (Some (t_k n)) pl T m); try done; try lia|].
    { simpl. eauto. }
    { intros j [= <-] Hj. apply (Hkd _ Hj). set_solver+. }
    intros T1 m1 Hd1. pose proof Hd1 as [_ _ Hs1 _ _ _ Hfr1 Hfv1 [Hr1 Hc1]]. simpl in Hfr1.
    wp_step. eapply wp_read_node.
    { eapply pos_holds_frame; [done| |done]. intros j Hj. apply Hfr1.
      specialize (Hn' j Hj). set_solver. }
    wp_step. eapply wp_mono; [eapply (IHr fuel true (Some (t_k n)) pr T1 m1); try done; try lia|].
    { simpl. eexists. split; [by apply Hc1|done]. }
    { eapply avl_at_only_on; [exact Hfr1|exact Hfv1| | |exact Hr].
      - intros k Hin [->|Hin']%elem_of_cons; [done|]. apply (Hkd _ Hin'). set_solver.
      - intros v Hin Hin'. apply (Hvd _ Hin'). set_solver. }
    { by intros j [= <-]. }
    intros T2 m2 Hd2. pose proof Hd2 as [_ _ Hs2 _ _ _ Hfr2 Hfv2 [Hr2 Hc2]]. simpl in Hfr2.
    assert (Hp2 : pos_holds (cells (nodes m2)) T2 sd above (Some (t_k n))).
    { eapply pos_holds_frame; [|intros j Hj|done]; [congruence|].
      specialize (Hn' j Hj). rewrite Hfr2, Hfr1 by set_solver. done. }
    wp_step. eapply wp_read_node; [done|].
    eapply wp_mono; [eapply (destroy_node _ _ n f); try done; try (unfold INT_MIN; lia)|].
    { erewrite Hc2 by (by apply Hc1). done. }
    { rewrite Hfv2, Hfv1; [done| |done]. intros Hin. apply (Hvd _ Hin). set_solver+. }
    { intros ->. specialize (Hn' _ eq_refl). set_solver. }
    intros T3 m3 Hd3. by eapply destroyed_seq.
Qed.

End walks.

(** ** The interface *)

(** The tree object [T] in memory [m] is the AVL tree [t], ordered by [cmp]. *)
Record is_avl {D} (cmp : D -> D -> Z) (m : amem D) (T : BisTree D) (t : avl D) : Prop := {
  ia_at : avl_at (cells (nodes m)) (avls m) (b_root T) t;
  ia_ks : NoDup (ks t);
  ia_vs : NoDup (vs t);
  ia_bal : bal t;
  ia_sorted : sorted cmp (tags t);
  ia_size : b_size T = count t;
  ia_compare : b_compare T = Some cmp;
}.

Section interface.
Context {D : Type} (cmp : D -> D -> Z) `{!CmpLaws cmp}.
Implicit Types (t : avl D) (m : amem D) (T : BisTree D) (d e : D).

(** What the tree holds under a datum's key: the datum stored there, and
    whether it is hidden. *)
Definition entry t e : option (D * bool) := seen (tfind cmp e t).

Lemma height_count t : height t <= count t.
Proof.
  induction t as [|l IHl n f r IHr]; simpl; [done|].
  pose proof (height_nonneg l). pose proof (height_nonneg r). lia.
Qed.

Lemma depth_fuel_enough m T t :
  is_avl cmp m T t -> (length (ks t) < walk_fuel (nodes m))%nat.
Proof.
  intros Ht. apply allocated_lt_walk_fuel; [apply Ht|].
  apply (avl_at_alloc _ _ _ _ (ia_at _ _ _ _ Ht)).
Qed.

Lemma height_fuel m T t : is_avl cmp m T t -> height t <= Z.of_nat (walk_fuel (nodes m)).
Proof.
  intros Ht. pose proof (depth_fuel_enough m T t Ht). pose proof (height_count t).
  pose proof (count_length t). lia.
Qed.

Lemma wp_depth_fuel Q m : Q (walk_fuel (nodes m)) m -> wp depth_fuel Q m.
Proof. intros HQ. apply wp_in_nodes. by destruct m. Qed.

Lemma lookup_wp m T t d :
  is_avl cmp m T t ->
  wp (bistree_lookup T d) (fun z m' => z = lookup_result (tfind cmp d t) d /\ m' = m) m.
Proof.
  intros Ht. unfold bistree_lookup. wp_step. apply wp_depth_fuel.
  apply lookup_spec; [apply Ht|apply Ht|by eapply height_fuel].
Qed.

Lemma remove_wp m T t d :
  is_avl cmp m T t ->
  wp (bistree_remove T d) (fun z m' =>
    z = (match tfind cmp d t with Some _ => 0 | None => -1 end) /\ nodes m' = nodes m /\
    only_on (vs t) (avls m) (avls m') /\ is_avl cmp m' T (fhide cmp d t)) m.
Proof using Type*.
  intros Ht. pose proof Ht as [Hat Hk Hv Hb Hs Hsz Hc]. unfold bistree_remove. wp_step. apply wp_depth_fuel.
  eapply wp_mono; [apply (hide_spec cmp d t); [done|done|done|by eapply height_fuel]|].
  intros z m' (-> & Hn & Hon & Hat'). split_and!; [done|done|done|].
  destruct (fhide_locs cmp d t) as [Hks Hvs].
  split; rewrite ?Hks, ?Hvs; try done; [by apply fhide_bal| |].
  - rewrite tags_fhide by done. by apply lhide_sorted.
  - by rewrite Hsz, !count_length, Hks.
Qed.

(** The tree after a successful insertion. *)
Lemma inserted_is_avl m T t d T' b m' r :
  is_avl cmp m T t -> inserted cmp d false None t m T (r, T', b) m' ->
  r = 0 /\ b_destroy T' = b_destroy T /\ exists t', is_avl cmp m' T' t' /\
    (forall e, entry t' e = if cmp e d =? 0 then Some (d, false) else entry t e) /\
    count t' = count t + (match tfind cmp d t with Some _ => 0 | None => 1 end).
Proof using Type*.
  intros [Hat Hk Hv Hb Hs Hsz Hc] (-> & new & t' & Hd & Hh & Hf & Hrep & Hfresh).
  pose proof Hrep as [(p & Hat' & Hw) _ _ Hc' Hd' Hsz']. simpl in Hw.
  pose proof (fins_locs cmp new t t' b Hf) as Hlocs. rewrite Hd in Hlocs.
  pose proof (fins_tags cmp new t Hs) as Htags. rewrite Hf in Htags. destruct Htags as [_ Htags].
  destruct (fins_bal cmp new t t' b Hb Hf) as [Hb' _].
  destruct (avl_at_alloc _ _ _ _ Hat) as [Halk Halv].
  assert (Hs' : sorted cmp (tags t')) by (rewrite Htags; by apply linsert_sorted).
  split_and!; [done|done|]. exists t'. split_and!.
  - split; try done; [by rewrite Hw| | |lia|congruence].
    + destruct (tfind cmp d t); destruct Hlocs as [-> _]; [done|]. apply NoDup_cons.
      split; [|done]. intros [? Hin]%Halk. destruct (Hfresh eq_refl). congruence.
    + destruct (tfind cmp d t); destruct Hlocs as [_ ->]; [done|]. apply NoDup_cons.
      split; [|done]. intros [? Hin]%Halv. destruct (Hfresh eq_refl). congruence.
  - intros e. unfold entry. rewrite !tfind_lfind, Htags, lfind_linsert by done. by rewrite Hd.
  - rewrite !count_length. destruct (tfind cmp d t); destruct Hlocs as [-> _]; simpl; lia.
Qed.

Lemma insert_wp m T t d :
  is_avl cmp m T t -> b_size T < INT_MAX ->
  wp (bistree_insert T d) (fun '(r, T') m' =>
    exists b, insert_post cmp d false None t m T (r, T', b) m') m.
Proof using Type*.
  intros Ht Hlt. pose proof Ht as [Hat Hk Hv Hb Hs Hsz Hc]. unfold bistree_insert. wp_step.
  apply wp_depth_fuel. wp_step.
  eapply wp_mono; [apply (insert_spec cmp d t _ false None (b_root T)); try done|].
  - split; try done. rewrite Hsz, count_length in *. lia.
  - by eapply depth_fuel_enough.
  - intros [[r T'] b] m' Hpost. apply wp_ret. by exists b.
Qed.

(** A refused insertion may have allocated and freed, but the nodes of the tree are as
    they were. *)
Lemma refused_is_avl m T t m' :
  is_avl cmp m T t -> cells (nodes m') = cells (nodes m) ->
  (forall v, is_Some (avls m !! v) -> avls m' !! v = avls m !! v) -> is_avl cmp m' T t.
Proof.
  intros [Hat Hk Hv Hb Hs Hsz Hc] Hcells Hav. split; try done.
  eapply avl_at_frame; [by rewrite Hcells| |exact Hat]. intros v Hin. apply Hav.
  by apply (avl_at_alloc _ _ _ _ Hat).
Qed.

(** [bistree_insert] on every branch.  A visible equal datum: 1, nothing
    changes.  A hidden one: 0, the old datum is handed to [destroy] and the new
    one takes its place, visible.  None: 0 and the datum is in the tree, or, when
    one of the two [malloc]s fails, -1 and the tree is unchanged.  In every case
    the result is an AVL tree again (ordered, every factor the difference of the
    subtree heights and at most 1, size right), and no other entry changes. *)
Theorem bistree_insert_correct m T t d :
  is_avl cmp m T t -> b_size T < INT_MAX ->
  let inserted T' m' :=
    b_destroy T' = b_destroy T /\ exists t', is_avl cmp m' T' t' /\
    forall e, entry t' e = if cmp e d =? 0 then Some (d, false) else entry t e in
  match entry t d with
  | Some (_, false) => bistree_insert T d m = Ok ((1, T), m)
  | Some (old, true) =>
      exists T' m', bistree_insert T d m = Ok ((0, T'), m') /\ inserted T' m' /\
        trace (nodes m') = trace (nodes m) ++ (if b_destroy T then [old] else [])
  | None =>
      if default true (head (oracle (nodes m))) && default true (head (tail (oracle (nodes m)))) then
        exists T' m', bistree_insert T d m = Ok ((0, T'), m') /\ inserted T' m' /\
          trace (nodes m') = trace (nodes m)
      else exists m', bistree_insert T d m = Ok ((-1, T), m') /\ is_avl cmp m' T t /\
          trace (nodes m') = trace (nodes m)
  end.
Proof using Type*.
  intros Ht Hlt ins.
  destruct (wp_inv _ _ _ (insert_wp m T t d Ht Hlt)) as ([r T'] & m' & -> & b & Hpost).
  assert (Hins : inserted cmp d false None t m T (r, T', b) m' -> r = 0 /\ ins T' m').
  { intros Hi. destruct (inserted_is_avl _ _ _ _ _ _ _ _ Ht Hi) as (-> & Hd & t' & H1 & H2 & _).
    split; [done|]. split; [done|]. by exists t'. }
  unfold insert_post in Hpost. unfold entry. destruct (tfind cmp d t) as [n|]; simpl.
  - destruct (t_h n =? 0); simpl.
    + by destruct Hpost as [[= -> ->] ->].
    + destruct Hpost as (Hi & _ & Htr). destruct (Hins Hi) as [-> ?]. by exists T', m'.
  - destruct Hpost as [Htr Hpost]. destruct (_ && _).
    + destruct (Hins (proj1 Hpost)) as [-> ?]. by exists T', m'.
    + destruct Hpost as ([= -> ->] & Hcells & Hav). exists m'. split_and!; [done|by eapply refused_is_avl|done].
Qed.

(** [bistree_remove] hides the entry and returns 0 (also when it is hidden
    already), or returns -1 when there is none; the tree stays an AVL tree, no
    node is freed or moved, and no other entry changes. *)
Theorem bistree_remove_correct m T t d :
  is_avl cmp m T t ->
  exists m' t', bistree_remove T d m
      = Ok (match entry t d with Some _ => 0 | None => -1 end, m') /\
    is_avl cmp m' T t' /\ nodes m' = nodes m /\ ks t' = ks t /\
    forall e, entry t' e =
      match entry t e with
      | Some (x, h) => Some (x, if cmp e d =? 0 then true else h)
      | None => None
      end.
Proof using Type*.
  intros Ht. destruct (wp_inv _ _ _ (remove_wp m T t d Ht)) as (z & m' & -> & -> & Hn & _ & Ht').
  exists m', (fhide cmp d t). split_and!; [|done|done|by apply fhide_locs|].
  - unfold entry. by destruct (tfind cmp d t).
  - intros e. unfold entry. pose proof (ia_sorted _ _ _ _ Ht) as Hs.
    rewrite !tfind_lfind by (try done; apply Ht'). rewrite tags_fhide by done. by apply lfind_lhide.
Qed.

(** [bistree_lookup] returns 0 and hands over the stored datum exactly when
    a visible entry compares equal, and -1, leaving [*data], otherwise; nothing
    changes. *)
Theorem bistree_lookup_correct m T t d :
  is_avl cmp m T t ->
  bistree_lookup T d m
  = Ok (match entry t d with Some (x, false) => (0, x) | _ => (-1, d) end, m).
Proof.
  intros Ht. destruct (wp_inv _ _ _ (lookup_wp m T t d Ht)) as (z & m' & -> & -> & ->).
  unfold entry, lookup_result. destruct (tfind cmp d t) as [n|]; [|done]. simpl.
  by destruct (t_h n =? 0).
Qed.

(** In a tree of [n] nodes the search looks at no more than
    [2 * log2 (n + 1) + 1] nodes: with that much fuel [lookup] returns what it
    returns with any more. *)
Theorem bistree_lookup_logarithmic m T t d fuel :
  is_avl cmp m T t -> 2 * Z.log2 (b_size T + 1) + 1 <= Z.of_nat fuel ->
  lookup_ fuel T (b_root T) d m = bistree_lookup T d m.
Proof.
  intros Ht Hfuel. destruct (wp_inv _ _ _ (lookup_wp m T t d Ht)) as (z & m' & -> & -> & ->).
  assert (Hh : height t <= Z.of_nat fuel).
  { etrans; [|exact Hfuel]. rewrite (ia_size _ _ _ _ Ht).
    pose proof (bal_height t (ia_bal _ _ _ _ Ht)) as Hb. pose proof (count_length t).
    pose proof (height_nonneg t).
    assert (height t <= Z.log2 ((count t + 1) * (count t + 1))).
    { rewrite <- (Z.log2_pow2 (height t)) by done. by apply Z.log2_le_mono. }
    pose proof (Z.log2_mul_above (count t + 1) (count t + 1) ltac:(lia) ltac:(lia)). lia. }
  destruct (wp_inv _ _ _ (lookup_spec cmp d t fuel (b_root T) m T
    (ia_at _ _ _ _ Ht) (ia_compare _ _ _ _ Ht) Hh)) as (z & m' & -> & -> & ->). done.
Qed.

(** [bistree_destroy] returns, frees every node and every [AvlNode] of the
    tree and nothing else, hands every datum, hidden ones too, to [destroy] once
    and zeroes the object. *)
Theorem bistree_destroy_correct m T t :
  is_avl cmp m T t -> b_size T <= INT_MAX ->
  exists m', bistree_destroy T m = Ok (bitree_zero, m') /\
    (forall k, cells (nodes m') !! k = if decide (k ∈ ks t) then None else cells (nodes m) !! k) /\
    (forall v, avls m' !! v = if decide (v ∈ vs t) then None else avls m !! v) /\
    trace (nodes m') = trace (nodes m) ++ (if b_destroy T then post_data t else []).
Proof.
  intros Ht Hsz. pose proof Ht as [Hat Hk Hv Hb Hs Hsize Hc].
  assert (Hwp : wp (bistree_destroy T) (fun T' m' => T' = bitree_zero /\
    exists T1, destroyed false None t m T T1 m') m).
  { unfold bistree_destroy. wp_step. apply wp_depth_fuel. wp_step.
    eapply wp_mono; [eapply (destroy_spec t _ false None (b_root T)); try done|].
    - lia.
    - by eapply height_fuel.
    - intros T1 m1 Hd. apply wp_ret. split; [done|]. by exists T1. }
  destruct (wp_inv _ _ _ Hwp) as (T' & m' & -> & -> & T1 & []). exists m'. split_and!; try done.
  - intros k. case_decide; [by apply dp_nodes0|by apply dp_frame0].
  - intros v. case_decide; [by apply dp_avls0|by apply dp_frame_avls0].
Qed.

(** *** Sequences of operations *)

Inductive bop := BInsert (d : D) | BRemove (d : D) | BLookup (d : D).

(** One operation on the tree object and the memory. *)
Definition bexec (o : bop) : M (BisTree D * amem D) (Z * option D) := fun '(T, m) =>
  match o with
  | BInsert d =>
      match bistree_insert T d m with
      | Ok ((r, T'), m') => Ok ((r, None), (T', m'))
      | Err f => Err f
      | NoFuel => NoFuel
      end
  | BRemove d =>
      match bistree_remove T d m with
      | Ok (r, m') => Ok ((r, None), (T, m'))
      | Err f => Err f
      | NoFuel => NoFuel
      end
  | BLookup d =>
      match bistree_lookup T d m with
      | Ok ((r, x), m') => Ok ((r, Some x), (T, m'))
      | Err f => Err f
      | NoFuel => NoFuel
      end
  end.

(** The specification: a dictionary, which has a datum under some keys, and what its
    operations return.  An insertion can be refused, [dict_full]. *)
Definition dict : Type := D -> option D.

Inductive dict_step (s : dict) : bop -> Z * option D -> dict -> Prop :=
| dict_insert d : s d = None -> dict_step s (BInsert d) (0, None) (fun e => if cmp e d =? 0 then Some d else s e)
| dict_full d : s d = None -> dict_step s (BInsert d) (-1, None) s
| dict_again d x : s d = Some x -> dict_step s (BInsert d) (1, None) s
| dict_remove d x : s d = Some x -> dict_step s (BRemove d) (0, None) (fun e => if cmp e d =? 0 then None else s e)
| dict_absent d : s d = None -> dict_step s (BRemove d) (-1, None) s
| dict_find d x : s d = Some x -> dict_step s (BLookup d) (0, Some x) s
| dict_miss d : s d = None -> dict_step s (BLookup d) (-1, Some d) s.

Inductive dict_run : dict -> list bop -> list (Z * option D) -> dict -> Prop :=
| dict_end s : dict_run s [] [] s
| dict_cons s o r s1 ops rs s2 : dict_step s o r s1 -> dict_run s1 ops rs s2 -> dict_run s (o :: ops) (r :: rs) s2.

(** Line 334: where the code departs from it.  [gone]: the keys that were removed and have
    not been inserted since; removing such a key again returns 0, not -1. *)
Definition gone_after (gone : D -> bool) (o : bop) (r : Z * option D) : D -> bool :=
  match o with
  | BInsert d => fun e => if (cmp e d =? 0) && (r.1 =? 0) then false else gone e
  | BRemove d => fun e => if (cmp e d =? 0) && (r.1 =? 0) then true else gone e
  | BLookup _ => gone
  end.

Definition as_coded (gone : D -> bool) (o : bop) (r : Z * option D) : Z * option D :=
  match o with BRemove d => if gone d then (0, None) else r | _ => r end.

Fixpoint all_as_coded (gone : D -> bool) (ops : list bop) (rs : list (Z * option D)) : list (Z * option D) :=
  match ops, rs with
  | o :: ops, r :: rs => as_coded gone o r :: all_as_coded (gone_after gone o r) ops rs
  | _, _ => []
  end.

(** The insertion is not refused. *)
Definition accepted (o : bop) (r : Z * option D) : Prop := match o with BInsert _ => r.1 <> -1 | _ => True end.

(** What a tree stores, and what it hides. *)
Definition stored t e : option D := match entry t e with Some (x, false) => Some x | _ => None end.
Definition hides t e : bool := match entry t e with Some (_, true) => true | _ => false end.

Definition stands_for t (s : dict) (gone : D -> bool) : Prop :=
  forall e, stored t e = s e /\ hides t e = gone e.

Lemma entry_eq t e d : cmp e d = 0 -> entry t e = entry t d.
Proof using Type*.
  intros He. unfold entry. f_equal. induction t as [|l IHl n f r IHr]; [done|]. cbn [tfind]. pose proof (cmp_eq e d (t_d n) He) as Hs.
  rewrite IHl, IHr. destruct (Z.ltb_spec (cmp e (t_d n)) 0), (Z.ltb_spec (cmp d (t_d n)) 0), (Z.gtb_spec (cmp e (t_d n)) 0),
    (Z.gtb_spec (cmp d (t_d n)) 0); try done; lia.
Qed.

Lemma cmp_self d : cmp d d = 0.
Proof using Type*. pose proof (cmp_opp d d). lia. Qed.

(** One operation, whatever [malloc] answers. *)
Definition refines_step o m T t (s : dict) (gone : D -> bool) : Prop :=
  exists r s' T' m' t', dict_step s o r s' /\ bexec o (T, m) = Ok (as_coded gone o r, (T', m')) /\
    is_avl cmp m' T' t' /\ stands_for t' s' (gone_after gone o r) /\ b_size T' <= b_size T + 1 /\
    (oracle (nodes m) = [] -> oracle (nodes m') = [] /\ accepted o r).

Lemma insert_sim d m T t s gone :
  is_avl cmp m T t -> b_size T < INT_MAX -> stands_for t s gone -> refines_step (BInsert d) m T t s gone.
Proof using Type*.
  intros Ht Hlt Hst. destruct (Hst d) as [Hs Hg]. unfold stored, hides in Hs, Hg.
  destruct (wp_inv _ _ _ (insert_wp m T t d Ht Hlt)) as ([r T'] & m' & E & b & Hpost).
  assert (Hins : inserted cmp d false None t m T (r, T', b) m' -> s d = None ->
    (oracle (nodes m) = [] -> oracle (nodes m') = []) -> refines_step (BInsert d) m T t s gone).
  { intros Hi Hd Ho. destruct (inserted_is_avl _ _ _ _ _ _ _ _ Ht Hi) as (-> & _ & t' & Ht' & He & Hc).
    eexists (0, None), _, T', m', t'. split_and!; [by apply dict_insert|cbn [bexec]; by rewrite E|done| | |naive_solver].
    - intros e. unfold stored, hides. rewrite He. simpl. destruct (Hst e). destruct (cmp e d =? 0); [done|]. by split.
    - rewrite (ia_size _ _ _ _ Ht'), (ia_size _ _ _ _ Ht), Hc. destruct (tfind cmp d t); lia. }
  unfold insert_post in Hpost. unfold entry in Hs, Hg. destruct (tfind cmp d t) as [n|]; simpl in Hs, Hg.
  - destruct (t_h n =? 0); simpl in Hs, Hg.
    + destruct Hpost as [[= -> ->] ->]. eexists (1, None), s, T, m, t.
      split_and!; [by eapply dict_again|cbn [bexec]; by rewrite E|done| |lia|naive_solver]. intros e. simpl. rewrite andb_false_r. apply Hst.
    + destruct Hpost as (Hi & Ho & _). apply Hins; [done|done|]. by rewrite Ho.
  - destruct Hpost as [_ Hpost]. destruct (_ && _) eqn:Ea.
    + destruct Hpost as [Hi Ho]. apply Hins; [done|done|]. intros E0. by rewrite Ho, E0.
    + destruct Hpost as ([= -> ->] & Hcells & Hav). eexists (-1, None), s, T, m', t.
      split_and!; [by apply dict_full|cbn [bexec]; by rewrite E|by eapply refused_is_avl| |lia|].
      * intros e. simpl. rewrite andb_false_r. apply Hst.
      * intros E0. by rewrite E0 in Ea.
Qed.

Lemma remove_sim d m T t s gone :
  is_avl cmp m T t -> stands_for t s gone -> refines_step (BRemove d) m T t s gone.
Proof using Type*.
  intros Ht Hst. destruct (Hst d) as [Hs Hg]. unfold stored, hides in Hs, Hg.
  destruct (bistree_remove_correct m T t d Ht) as (m' & t' & E & Ht' & Hn & _ & He).
  assert (Hdone : forall r s', dict_step s (BRemove d) r s' ->
    as_coded gone (BRemove d) r = (match entry t d with Some _ => 0 | None => -1 end, None) ->
    stands_for t' s' (gone_after gone (BRemove d) r) -> refines_step (BRemove d) m T t s gone).
  { intros r s' Hd Hr Hst'. exists r, s', T, m', t'. split_and!; [done|cbn [bexec]; by rewrite E, Hr|done|done|lia|by rewrite Hn]. }
  assert (Hsame : forall e, cmp e d =? 0 = true -> entry t e = entry t d) by (intros e ?%Z.eqb_eq; by apply entry_eq).
  destruct (entry t d) as [[x []]|] eqn:Ed.
  - apply (Hdone (-1, None) s); [by apply dict_absent|simpl; by rewrite <- Hg|]. intros e. simpl. rewrite andb_false_r.
    destruct (Hst e) as [<- <-]. unfold stored, hides. rewrite He. destruct (cmp e d =? 0) eqn:Ec.
    + by rewrite (Hsame e Ec).
    + by destruct (entry t e) as [[]|].
  - eapply (Hdone (0, None)); [by eapply dict_remove|simpl; by rewrite <- Hg|]. intros e. simpl. rewrite andb_true_r.
    destruct (Hst e) as [<- <-]. unfold stored, hides. rewrite He. destruct (cmp e d =? 0) eqn:Ec.
    + by rewrite (Hsame e Ec).
    + by destruct (entry t e) as [[]|].
  - apply (Hdone (-1, None) s); [by apply dict_absent|simpl; by rewrite <- Hg|]. intros e. simpl. rewrite andb_false_r.
    destruct (Hst e) as [<- <-]. unfold stored, hides. rewrite He. destruct (cmp e d =? 0) eqn:Ec.
    + by rewrite (Hsame e Ec).
    + by destruct (entry t e) as [[]|].
Qed.

Lemma lookup_sim d m T t s gone :
  is_avl cmp m T t -> stands_for t s gone -> refines_step (BLookup d) m T t s gone.
Proof using Type*.
  intros Ht Hst. destruct (Hst d) as [Hs _]. unfold stored in Hs. pose proof (bistree_lookup_correct m T t d Ht) as E.
  destruct (entry t d) as [[x []]|].
  - exists (-1, Some d), s, T, m, t. split_and!; [by apply dict_miss|cbn [bexec]; by rewrite E|done|done|lia|done].
  - exists (0, Some x), s, T, m, t. split_and!; [by apply dict_find|cbn [bexec]; by rewrite E|done|done|lia|done].
  - exists (-1, Some d), s, T, m, t. split_and!; [by apply dict_miss|cbn [bexec]; by rewrite E|done|done|lia|done].
Qed.

Lemma bexec_sim o m T t s gone :
  is_avl cmp m T t -> b_size T < INT_MAX -> stands_for t s gone -> refines_step o m T t s gone.
Proof using Type*. intros. destruct o; [by apply insert_sim|by apply remove_sim|by apply lookup_sim]. Qed.

Lemma bistree_run_sim ops : forall m T t s gone,
  is_avl cmp m T t -> b_size T + Z.of_nat (length ops) <= INT_MAX -> stands_for t s gone ->
  exists rs s' T' m' t', dict_run s ops rs s' /\ run bexec ops (T, m) = Ok (all_as_coded gone ops rs, (T', m')) /\
    is_avl cmp m' T' t' /\ (forall e, stored t' e = s' e) /\ (oracle (nodes m) = [] -> Forall2 accepted ops rs).
Proof using Type*.
  induction ops as [|o ops IH]; intros m T t s gone Ht Hsz Hst.
  { exists [], s, T, m, t. split_and!; [apply dict_end|done|done|intros e; apply Hst|by constructor]. }
  simpl in Hsz. destruct (bexec_sim o m T t s gone Ht ltac:(lia) Hst) as (r & s1 & T1 & m1 & t1 & Hd & E & Ht1 & Hst1 & Hs1 & Ho).
  destruct (IH m1 T1 t1 s1 _ Ht1 ltac:(lia) Hst1) as (rs & s' & T' & m' & t' & Hrun & E' & Ht' & Hs' & Ho').
  exists (r :: rs), s', T', m', t'. split_and!; [by eapply dict_cons| |done|done|].
  - cbn [run]. by rewrite (bind_ok _ _ _ _ _ E), (bind_ok _ _ _ _ _ E').
  - intros E0. destruct (Ho E0) as [E1 Ha]. constructor; auto.
Qed.

Lemma bistree_init_avl m T destroy : is_avl cmp m (bistree_init T cmp destroy) AL.
Proof. split; try done; constructor. Qed.

(** C2: any sequence of [bistree_insert], [bistree_remove] and [bistree_lookup] on a new
    tree returns, step by step, what a dictionary returns, but for one case: removing a key
    again that was removed and has not been inserted since returns 0, not -1 (line 334).
    An insertion is refused with -1, and changes nothing, only when [malloc] fails.  The
    tree is an AVL tree at the end and stores what the dictionary stores. *)
Theorem bistree_refines ops T0 destroy m :
  Z.of_nat (length ops) <= INT_MAX ->
  exists rs s T' m' t', dict_run (fun _ => None) ops rs s /\
    run bexec ops (bistree_init T0 cmp destroy, m) = Ok (all_as_coded (fun _ => false) ops rs, (T', m')) /\
    is_avl cmp m' T' t' /\ (forall e, stored t' e = s e) /\
    (oracle (nodes m) = [] -> Forall2 accepted ops rs).
Proof using Type*. intros Hsz. by apply (bistree_run_sim ops m _ AL); [apply bistree_init_avl|..]. Qed.

(** C27: from its creation on, over any sequence of operations and whatever [malloc]
    answers, no operation faults and the tree is always an AVL tree: ordered, every factor
    the difference of the heights of the subtrees and at most 1, [size] the number of
    nodes.  So a search looks at no more than [2 * log2 (n + 1) + 1] nodes: with that much
    fuel [lookup] returns what it returns with any more. *)
Theorem bistree_stays_avl ops T0 destroy m :
  Z.of_nat (length ops) <= INT_MAX ->
  exists rs T' m' t', run bexec ops (bistree_init T0 cmp destroy, m) = Ok (rs, (T', m')) /\ is_avl cmp m' T' t' /\
    forall d fuel, 2 * Z.log2 (b_size T' + 1) + 1 <= Z.of_nat fuel -> lookup_ fuel T' (b_root T') d m' = bistree_lookup T' d m'.
Proof using Type*.
  intros Hsz. destruct (bistree_run_sim ops m _ AL (fun _ => None) (fun _ => false) (bistree_init_avl m T0 destroy) Hsz ltac:(done))
    as (rs & s & T' & m' & t' & _ & Hrun & Ht' & _). eexists _, T', m', t'. split_and!; [done|done|]. intros d fuel. by eapply bistree_lookup_logarithmic.
Qed.

End interface.

(** ** Witnesses: integers under subtraction *)

#[export] Instance sub_laws : CmpLaws Z.sub.
Proof.
  split.
  - intros x y. rewrite <- Z.sgn_opp. f_equal. lia.
  - lia.
  - intros x y z ?. f_equal. lia.
Qed.

Definition ex_avl : avl Z :=
  AN AL (Tag 3%positive 8%positive 10 0) (-1) (AN AL (Tag 5%positive 9%positive 20 1) 0 AL).
Definition ex_amem : amem Z :=
  AMem (Store {[ 3%positive := Node (Some 8%positive) NULL (Some 5%positive);
                 5%positive := Node (Some 9%positive) NULL NULL ]} [] [])
    {[ 8%positive := MkAvl 10 0 (-1); 9%positive := MkAvl 20 1 0 ]}.
Definition ex_bistree : BisTree Z := MkBiTree 2 (Some Z.sub) true (Some 3%positive).

Lemma ex_is_avl : is_avl Z.sub ex_amem ex_bistree ex_avl.
Proof.
  split; try done.
  - split; [done|]. do 2 eexists. split_and!; [reflexivity|reflexivity|done|].
    split; [done|]. do 2 eexists. by split_and!; [reflexivity|reflexivity|..].
  - by apply (bool_decide_unpack _); vm_compute.
  - by apply (bool_decide_unpack _); vm_compute.
  - repeat constructor.
Qed.

(** 30 goes below the hidden 20 and makes the root rotate. *)
Lemma bistree_insert_correct_witness :
  bistree_insert ex_bistree 10 ex_amem = Ok ((1, ex_bistree), ex_amem) /\
  (exists T' m', bistree_insert ex_bistree 20 ex_amem = Ok ((0, T'), m') /\
    (b_destroy T' = true /\ exists t', is_avl Z.sub m' T' t' /\
     forall e, entry Z.sub t' e = if Z.sub e 20 =? 0 then Some (20, false) else entry Z.sub ex_avl e) /\
    trace (nodes m') = [20]) /\
  (exists T' m', bistree_insert ex_bistree 30 ex_amem = Ok ((0, T'), m') /\
    (b_destroy T' = true /\ exists t', is_avl Z.sub m' T' t' /\
     forall e, entry Z.sub t' e = if Z.sub e 30 =? 0 then Some (30, false) else entry Z.sub ex_avl e) /\
    trace (nodes m') = []).
Proof.
  split; [|split].
  - apply (bistree_insert_correct Z.sub ex_amem ex_bistree ex_avl 10 ex_is_avl). reflexivity.
  - apply (bistree_insert_correct Z.sub ex_amem ex_bistree ex_avl 20 ex_is_avl). reflexivity.
  - apply (bistree_insert_correct Z.sub ex_amem ex_bistree ex_avl 30 ex_is_avl). reflexivity.
Defined.

Lemma bistree_remove_correct_witness :
  exists m' t', bistree_remove ex_bistree 10 ex_amem = Ok (0, m') /\
    is_avl Z.sub m' ex_bistree t' /\ nodes m' = nodes ex_amem /\ ks t' = ks ex_avl /\
    forall e, entry Z.sub t' e =
      match entry Z.sub ex_avl e with
      | Some (x, h) => Some (x, if Z.sub e 10 =? 0 then true else h)
      | None => None
      end.
Proof. apply (bistree_remove_correct Z.sub ex_amem ex_bistree ex_avl 10 ex_is_avl). Defined.

Lemma bistree_lookup_correct_witness :
  bistree_lookup ex_bistree 10 ex_amem = Ok ((0, 10), ex_amem) /\
  bistree_lookup ex_bistree 20 ex_amem = Ok ((-1, 20), ex_amem).
Proof.
  split.
  - apply (bistree_lookup_correct Z.sub ex_amem ex_bistree ex_avl 10 ex_is_avl).
  - apply (bistree_lookup_correct Z.sub ex_amem ex_bistree ex_avl 20 ex_is_avl).
Defined.

Lemma bistree_lookup_logarithmic_witness :
  lookup_ 3 ex_bistree (Some 3%positive) 20 ex_amem = bistree_lookup ex_bistree 20 ex_amem.
Proof.
  apply (bistree_lookup_logarithmic Z.sub ex_amem ex_bistree ex_avl 20 3 ex_is_avl).
  vm_compute. discriminate.
Defined.

Lemma bistree_destroy_correct_witness :
  exists m', bistree_destroy ex_bistree ex_amem = Ok (bitree_zero, m') /\
    (forall k, cells (nodes m') !! k
       = if decide (k ∈ ks ex_avl) then None else cells (nodes ex_amem) !! k) /\
    (forall v, avls m' !! v = if decide (v ∈ vs ex_avl) then None else avls ex_amem !! v) /\
    trace (nodes m') = [20; 10].
Proof.
  apply (bistree_destroy_correct Z.sub ex_amem ex_bistree ex_avl ex_is_avl).
  vm_compute. discriminate.
Defined.

(** 7 is removed twice and inserted again; 1 was never there. *)
Definition ex_ops : list (@bop Z) :=
  [BInsert 5; BInsert 7; BInsert 9; BInsert 7; BRemove 7; BRemove 7; BLookup 7; BInsert 7; BLookup 7; BRemove 1].

Lemma bistree_refines_witness :
  exists rs s T' m' t', dict_run Z.sub (fun _ => None) ex_ops rs s /\
    run bexec ex_ops (bistree_init bitree_zero Z.sub false, AMem (Store ∅ [] []) ∅)
    = Ok ([(0, None); (0, None); (0, None); (1, None); (0, None); (0, None); (-1, Some 7); (0, None);
           (0, Some 7); (-1, None)], (T', m')) /\
    is_avl Z.sub m' T' t' /\ (forall e, stored Z.sub t' e = s e) /\ Forall2 accepted ex_ops rs.
Proof.
  destruct (bistree_refines Z.sub ex_ops bitree_zero false (AMem (Store ∅ [] []) ∅)) as (rs & s & T' & m' & t' & Hd & E & Ht & Hs & Ha);
    [vm_compute; discriminate|].
  exists rs, s, T', m', t'. split; [exact Hd|]. split; [|split; [exact Ht|split; [exact Hs|by apply Ha]]].
  assert (Hrs : forall x, run bexec ex_ops (bistree_init bitree_zero Z.sub false, AMem (Store ∅ [] []) ∅) = Ok x ->
    x.1 = [(0, None); (0, None); (0, None); (1, None); (0, None); (0, None); (-1, Some 7); (0, None); (0, Some 7); (-1, None)])
    by (vm_compute; intros x Hx; injection Hx as <-; reflexivity).
  rewrite E. f_equal. f_equal. exact (Hrs _ E).
Defined.

(** The second [malloc] fails: the first insertion is refused, the tree stays in order. *)
Lemma bistree_stays_avl_witness :
  exists rs T' m' t', run bexec [BInsert 5; BInsert 7; BLookup 7]
      (bistree_init bitree_zero Z.sub false, AMem (Store ∅ [true; false] []) ∅) = Ok (rs, (T', m')) /\ is_avl Z.sub m' T' t' /\
    forall d fuel, 2 * Z.log2 (b_size T' + 1) + 1 <= Z.of_nat fuel -> lookup_ fuel T' (b_root T') d m' = bistree_lookup T' d m'.
Proof. apply (bistree_stays_avl Z.sub). vm_compute. discriminate. Defined.
