(* ===== verification/CSort.v ===== *)
(** * The insertion sort of [src/lib/sort/issort.c]

    The array is the state, as the list of its elements; an index counts
    elements, and the byte offset [index * esize] is computed in [int] at every
    access, as the code does. *)

From stdpp Require Import prelude list sorting.
From Stdlib Require Import ZArith Lia.
From S2P Require Import Prelude.

Section sort.
Context {A : Type}.
Implicit Types (a s : list A) (key : A) (esize : Z).

(** A read and a write of [a[i * esize]], [esize] bytes. *)
Definition arr_get esize (i : Z) : M (list A) A :=
  _ ← int_of (i * esize);
  a ← get;
  match (if 0 <=? i then a !! Z.to_nat i else None) with
  | Some x => mret x
  | None => throw OutOfBounds
  end.

Definition arr_set esize (i : Z) (x : A) : M (list A) unit :=
  _ ← int_of (i * esize);
  a ← get;
  if (0 <=? i) && (i <? Z.of_nat (length a)) then put (<[Z.to_nat i := x]> a)
  else throw OutOfBounds.

(** The inner [while]; [n] is [i + 1], and the result is [i + 1] where it ends. *)
Fixpoint issort_shift esize (compare : A -> A -> Z) key (n : nat) : M (list A) nat :=
  match n with
  | O => mret O
  | S i =>
      x ← arr_get esize (Z.of_nat i);
      if compare x key >? 0 then
        _ ← arr_set esize (Z.of_nat i + 1) x;
        issort_shift esize compare key i
      else mret n
  end.

(** The [for], with [rounds] rounds from [j]. *)
Fixpoint issort_loop esize (compare : A -> A -> Z) (rounds : nat) (j : Z) : M (list A) unit :=
  match rounds with
  | O => mret tt
  | S rounds =>
      key ← arr_get esize j;
      n ← issort_shift esize compare key (Z.to_nat j);
      _ ← arr_set esize (Z.of_nat n) key;
      issort_loop esize compare rounds (j + 1)
  end.

(** [mem]: whether the [malloc] of [key] succeeds. *)
Definition issort (mem : bool) (size esize : Z) (compare : A -> A -> Z) : M (list A) Z :=
  if mem then
    _ ← issort_loop esize compare (Z.to_nat (size - 1)) 1;
    mret 0
  else mret (-1).

(** ** Correctness *)

Lemma wp_arr_get esize i x Q a :
  0 <= i -> 0 <= esize -> Z.of_nat (length a) * esize <= INT_MAX ->
  a !! Z.to_nat i = Some x -> Q x a -> wp (arr_get esize i) Q a.
Proof.
  intros Hi He Hb Hx HQ. unfold arr_get. pose proof (lookup_lt_Some _ _ _ Hx).
  wp_step. apply wp_int_of; [unfold INT_MIN; nia|]. wp_step.
  unfold wp at 1, get. rewrite (proj2 (Z.leb_le 0 i) Hi), Hx. done.
Qed.

Lemma wp_arr_set esize i x Q a :
  0 <= i < Z.of_nat (length a) -> 0 <= esize -> Z.of_nat (length a) * esize <= INT_MAX ->
  Q tt (<[Z.to_nat i := x]> a) -> wp (arr_set esize i x) Q a.
Proof.
  intros Hi He Hb HQ. unfold arr_set.
  wp_step. apply wp_int_of; [unfold INT_MIN; nia|]. wp_step. unfold wp at 1, get.
  by rewrite (proj2 (Z.leb_le 0 i)), (proj2 (Z.ltb_lt i _)) by lia.
Qed.

Context (cmp : A -> A -> Z) `{!CmpLaws cmp}.

Definition le (x y : A) : Prop := cmp x y <= 0.

Lemma le_trans x y z : le x y -> le y z -> le x z.
Proof using Type*.
  unfold le. intros H1 H2.
  assert (cmp x y < 0 \/ cmp x y = 0) as [E|E] by lia;
    assert (cmp y z < 0 \/ cmp y z = 0) as [E2|E2] by lia.
  - pose proof (cmp_trans x y z E E2). lia.
  - pose proof (cmp_lt_eq x y z E E2). lia.
  - pose proof (cmp_eq_lt x y z E E2). lia.
  - pose proof (proj2 (cmp_eq_eq x y z E) E2). lia.
Qed.

Lemma list_filter_none (P : A -> Prop) `{!forall x, Decision (P x)} s :
  (forall x, x ∈ s -> ~ P x) -> filter P s = [].
Proof.
  induction s as [|y s IH]; intros Hn; [done|]. rewrite filter_cons_False by (apply Hn; set_solver).
  apply IH. set_solver.
Qed.

(** The elements that compare equal to [x], in order. *)
Definition ties (x : A) (s : list A) : list A := filter (fun y => cmp x y = 0) s.

(** [p] is [s] sorted: ordered, the same elements, ties in the same order. *)
Definition sorts (s p : list A) : Prop :=
  StronglySorted le p /\ p ≡ₚ s /\ forall x, ties x p = ties x s.

Lemma sorts_insert s p1 p2 key :
  sorts s (p1 ++ p2) -> Forall (fun x => cmp x key > 0) p2 ->
  (forall x, last p1 = Some x -> cmp x key <= 0) ->
  sorts (s ++ [key]) (p1 ++ key :: p2).
Proof using Type*.
  intros ((Ho & H1 & H2)%StronglySorted_app & Hp & Ht) Hf Hl.
  rewrite Forall_forall in Hf.
  assert (Hle1 : forall x, x ∈ p1 -> le x key).
  { destruct p1 as [|y p1 _] using rev_ind; [set_solver|]. specialize (Hl y).
    rewrite last_snoc in Hl. specialize (Hl eq_refl).
    apply StronglySorted_app in H1 as (Hy & _). intros x [Hx|Hx]%elem_of_app.
    - eapply le_trans; [apply (Hy x y); set_solver|done].
    - by assert (x = y) as -> by set_solver. }
  assert (Hle2 : forall x, x ∈ p2 -> cmp key x < 0).
  { intros x Hx. apply cmp_lt_gt. by apply Hf. }
  split_and!.
  - apply StronglySorted_app. split_and!; [|done|].
    + intros x y Hx [->|Hy]%elem_of_cons; [by apply Hle1|by apply Ho].
    + constructor; [done|]. apply Forall_forall. intros x Hx. unfold le. specialize (Hle2 x Hx). lia.
  - rewrite <- Hp. solve_Permutation.
  - intros x. specialize (Ht x). unfold ties in *. rewrite filter_app in Ht |- *.
    rewrite (filter_app _ s), <- Ht, filter_cons, filter_singleton by exact [].
    case_decide as E; [|by rewrite app_nil_r].
    assert (filter (fun y => cmp x y = 0) p2 = []) as ->; [|by rewrite app_nil_r].
    apply list_filter_none. intros y Hy Hxy. specialize (Hle2 y Hy).
    pose proof (proj1 (cmp_eq_eq x key y E) Hxy). lia.
Qed.

Context (esize : Z) (Hesize : 0 <= esize).

(** The inner loop on [s ++ hole :: rest]: the elements greater than the key
    move one place to the right, up to the first from the right that is not. *)
Lemma issort_shift_spec key s : forall hole rest,
  Z.of_nat (length (s ++ hole :: rest)) * esize <= INT_MAX ->
  wp (issort_shift esize cmp key (length s)) (fun n a' => exists s1 s2 hole',
    s = s1 ++ s2 /\ n = length s1 /\ a' = s1 ++ hole' :: s2 ++ rest /\
    Forall (fun x => cmp x key > 0) s2 /\
    (forall x, last s1 = Some x -> cmp x key <= 0)) (s ++ hole :: rest).
Proof using Hesize.
  induction s as [|y s IH] using rev_ind; intros hole rest Hb; simpl.
  { apply wp_ret. exists [], [], hole. by split_and!. }
  rewrite length_app. simpl. rewrite Nat.add_1_r. cbn [issort_shift].
  rewrite <- app_assoc in *. simpl in *.
  wp_step. eapply (wp_arr_get _ _ y); [lia|done|done| |].
  { rewrite Nat2Z.id, list_lookup_middle by done. done. }
  destruct (Z.gtb_spec (cmp y key) 0) as [Hgt|Hle].
  - wp_step. apply wp_arr_set; [|done|done|].
    { rewrite !length_app. simpl. lia. }
    replace (Z.to_nat (Z.of_nat (length s) + 1)) with (length s + 1)%nat by lia.
    rewrite insert_app_r. simpl.
    eapply wp_mono; [apply (IH y (y :: rest))|].
    { rewrite length_app in *. simpl in *. lia. }
    intros n a' (s1 & s2 & hole' & -> & -> & -> & Hf & Hl).
    exists s1, (s2 ++ [y]), hole'. rewrite <- !app_assoc. split_and!; try done.
    apply Forall_app. split; [done|]. repeat constructor. lia.
  - apply wp_ret. exists (s ++ [y]), [], hole. rewrite app_nil_r, length_app, <- app_assoc.
    simpl. split_and!; [done|lia|done|by constructor|].
    intros x. rewrite last_snoc. intros [= <-]. done.
Qed.

(** The outer loop on [p ++ r], where [p] is [s] sorted. *)
Lemma issort_loop_spec rounds : forall s p r,
  sorts s p -> (rounds <= length r)%nat ->
  Z.of_nat (length (p ++ r)) * esize <= INT_MAX ->
  wp (issort_loop esize cmp rounds (Z.of_nat (length p))) (fun _ a' => exists p',
    a' = p' ++ drop rounds r /\ sorts (s ++ take rounds r) p') (p ++ r).
Proof using Type*.
  induction rounds as [|rounds IH]; intros s p r Hs Hr Hb; cbn [issort_loop].
  { apply wp_ret. exists p. by rewrite take_0, drop_0, app_nil_r. }
  destruct r as [|key r]; [simpl in Hr; lia|]. simpl in Hr.
  wp_step. eapply (wp_arr_get _ _ key); [lia|done|done| |].
  { rewrite Nat2Z.id, list_lookup_middle by done. done. }
  rewrite Nat2Z.id. wp_step. eapply wp_mono; [by apply issort_shift_spec|].
  intros n a' (p1 & p2 & hole & -> & -> & -> & Hf & Hl).
  rewrite !length_app in *. simpl in *.
  wp_step. apply wp_arr_set; [rewrite !length_app; simpl; rewrite length_app; lia|done| |].
  { rewrite length_app. simpl. rewrite length_app. lia. }
  rewrite Nat2Z.id. rewrite insert_app_r_alt by done. rewrite Nat.sub_diag. simpl.
  pose proof (sorts_insert s p1 p2 key Hs Hf Hl) as Hs'.
  replace (Z.of_nat (length p1 + length p2) + 1) with (Z.of_nat (length (p1 ++ key :: p2)))
    by (rewrite length_app; simpl; lia).
  replace (p1 ++ key :: p2 ++ r) with ((p1 ++ key :: p2) ++ r) by (by rewrite <- app_assoc).
  eapply wp_mono; [apply (IH (s ++ [key])); [done|lia|rewrite !length_app; simpl; lia]|].
  intros _ a' (p' & -> & Hp'). exists p'. by rewrite <- app_assoc in Hp'.
Qed.

End sort.

(** C28: [issort] of the first [size] elements returns 0 and leaves them sorted:
    in order under [compare], the same elements, and elements that compare equal
    in their old order (the sort is stable); the elements after them, if any, are
    untouched.  When [malloc] fails it returns -1 and changes nothing. *)
Theorem issort_correct {A} (cmp : A -> A -> Z) `{!CmpLaws cmp} (mem : bool)
    (esize : Z) (a : list A) (n : nat) :
  0 <= esize -> Z.of_nat (length a) * esize <= INT_MAX -> (n <= length a)%nat ->
  if mem then
    exists p, issort mem (Z.of_nat n) esize cmp a = Ok (0, p ++ drop n a) /\
      StronglySorted (fun x y : A => cmp x y <= 0) p /\ p ≡ₚ take n a /\
      forall x, filter (fun y : A => cmp x y = 0) p = filter (fun y : A => cmp x y = 0) (take n a)
  else issort mem (Z.of_nat n) esize cmp a = Ok (-1, a).
Proof.
  intros He Hb Hn. destruct mem; [|done]. destruct n as [|n].
  { exists []. rewrite drop_0. by split_and!; [|constructor|..]. }
  destruct a as [|x a]; [simpl in Hn; lia|]. simpl in Hn.
  assert (Hs : sorts cmp [x] [x]) by (split_and!; [repeat constructor|done|done]).
  pose proof (issort_loop_spec cmp esize He n [x] [x] a Hs ltac:(lia) Hb) as Hwp.
  unfold issort. replace (Z.to_nat (Z.of_nat (S n) - 1)) with n by lia.
  destruct (wp_inv _ _ _ Hwp) as (u & a' & Hrun & p & -> & Ho & Hp & Ht).
  exists p. split_and!; [|done|done|done]. by rewrite (bind_ok _ _ _ _ _ Hrun).
Qed.

(** ** Witness: pairs sorted by their first component *)

Definition cmp_fst (x y : Z * Z) : Z := x.1 - y.1.

#[export] Instance cmp_fst_laws : CmpLaws cmp_fst.
Proof.
  unfold cmp_fst. split.
  - intros x y. rewrite <- Z.sgn_opp. f_equal. lia.
  - lia.
  - intros x y z ?. f_equal. lia.
Qed.

Lemma issort_correct_witness :
  exists p, issort true 4 8 cmp_fst [(3, 0); (1, 1); (3, 2); (1, 3); (0, 4)] = Ok (0, p ++ [(0, 4)]) /\
    StronglySorted (fun x y => cmp_fst x y <= 0) p /\ p ≡ₚ [(3, 0); (1, 1); (3, 2); (1, 3)] /\
    forall x, filter (fun y => cmp_fst x y = 0) p
            = filter (fun y => cmp_fst x y = 0) [(3, 0); (1, 1); (3, 2); (1, 3)].
Proof.
  apply (issort_correct cmp_fst true 8 [(3, 0); (1, 1); (3, 2); (1, 3); (0, 4)] 4);
    [lia|vm_compute; discriminate|simpl; lia].
Defined.
