(* ===== verification/CString.v ===== *)
(** * Strings and the string helpers of [src/lib/app/bns/bns_util.c]

    (also [src/lib/util/strntok.c], [str_tolower.c] and [str_delchar.c]: the
    same functions with a test program.)  A C string is the list of its
    characters before the terminating NUL; the helpers write their result into
    a static buffer of 1024 bytes. *)

From stdpp Require Import prelude list strings.
From Stdlib Require Import ZArith Lia Ascii.
From S2P Require Import Prelude.

Abbreviation text := (list ascii).

(** String literals as texts. *)
Definition lit (s : string) : text := String.list_ascii_of_string s.
Arguments lit s%_string.

Definition NUL : ascii := zero.

(** [s[k]] for [k] up to the length, where it is the terminating NUL. *)
Definition char_at (s : text) (k : nat) : ascii := nth k s NUL.

(** ** The C library's character functions, in the C locale *)

Definition code (c : ascii) : Z := Z.of_nat (nat_of_ascii c).

Definition tolower (c : ascii) : ascii :=
  if (65 <=? code c) && (code c <=? 90) then ascii_of_nat (nat_of_ascii c + 32) else c.

Definition isspace (c : ascii) : bool :=
  (code c =? 32) || ((9 <=? code c) && (code c <=? 13)).

Definition isdigit (c : ascii) : bool := (48 <=? code c) && (code c <=? 57).

(** ** The static buffers *)

Definition BUF : nat := 1024.

Section buffer.
Context {S : Type}.

(** [*p = c; p++] in a buffer that holds [res] so far. *)
Definition push (res : text) (c : ascii) : M S text :=
  if (length res <? BUF)%nat then mret (res ++ [c]) else throw OutOfBounds.

(** The buffer as a string: it needs room for its NUL. *)
Definition as_string (res : text) : M S text :=
  if (length res <? BUF)%nat then mret res else throw OutOfBounds.

Fixpoint tolower_loop (res s1 : text) : M S text :=
  match s1 with
  | [] => as_string res
  | c :: s1 => res ← push res (tolower c); tolower_loop res s1
  end.

Definition str_tolower (s1 : text) : M S text := tolower_loop [] s1.

Fixpoint delchar_loop (s2 : text) (res s1 : text) : M S text :=
  match s1 with
  | [] => as_string res
  | c :: s1 =>
      res ← (if decide (c = char_at s2 0) then mret res else push res c);
      delchar_loop s2 res s1
  end.

Definition str_delchar (s1 s2 : text) : M S text := delchar_loop s2 [] s1.

End buffer.

(** ** [strntok]; the state is the global [__strntok] *)

Fixpoint strntok_loop (s2 : text) (n i : Z) (res s1 : text) : M (option text) text :=
  match s1 with
  | [] => _ ← put None; as_string res
  | c :: s1' =>
      if i =? n then _ ← put (Some s1); as_string res
      else if bool_decide (c = char_at s2 0) || (i >? 0) then
        if i =? 0 then
          if negb (bool_decide (char_at s1' 0 = char_at s2 1)) && (n >? 1) then
            res ← push res c; strntok_loop s2 n (i - 1 + 1) res s1'
          else strntok_loop s2 n (i + 1) res s1'
        else strntok_loop s2 n (i + 1) res s1'
      else res ← push res c; strntok_loop s2 n i res s1'
  end.

Definition strntok (s1 : option text) (s2 : text) (n : Z) : M (option text) (option text) :=
  match s1 with
  | None => mret None
  | Some s1 => res ← strntok_loop s2 n 0 [] s1; mret (Some res)
  end.

(** The loop of the callers: [p = strntok(s, d, n)], then
    [p = strntok(__strntok, d, n)] as long as [p] is not NULL. *)
Fixpoint strntok_all (fuel : nat) (s1 : option text) (s2 : text) (n : Z)
  : M (option text) (list text) :=
  match fuel with
  | O => no_fuel
  | S fuel =>
      p ← strntok s1 s2 n;
      match p with
      | None => mret []
      | Some t =>
          rest ← get;
          ts ← strntok_all fuel rest s2 n;
          mret (t :: ts)
      end
  end.

(** ** Properties *)

Section props.
Context {S : Type}.
Implicit Types (res s t d : text).

Lemma push_ok res c (m : S) : (length res < BUF)%nat -> push res c m = Ok (res ++ [c], m).
Proof. intros. unfold push. by rewrite (proj2 (Nat.ltb_lt _ _)). Qed.

Lemma as_string_spec res (m : S) :
  as_string res m = if (length res <? BUF)%nat then Ok (res, m) else Err OutOfBounds.
Proof. unfold as_string. by destruct (_ <? _)%nat. Qed.

Lemma push_full res c (m : S) : (BUF <= length res)%nat -> push res c m = Err OutOfBounds.
Proof. intros. unfold push. by rewrite (proj2 (Nat.ltb_ge _ _)). Qed.

(** The loops write [f c] for the characters they keep, in order; they fault as
    soon as the buffer has no room. *)
Lemma tolower_loop_spec s : forall res (m : S),
  tolower_loop res s m =
  if (length (res ++ map tolower s) <? BUF)%nat then Ok (res ++ map tolower s, m) else Err OutOfBounds.
Proof.
  induction s as [|c s IH]; intros res m; simpl.
  { by rewrite app_nil_r, as_string_spec. }
  unfold mbind, M_bind. destruct (decide (length res < BUF)%nat) as [Hl|Hl].
  - rewrite push_ok by done. rewrite IH. by rewrite <- app_assoc.
  - rewrite push_full by lia. rewrite (proj2 (Nat.ltb_ge _ _)); [done|].
    rewrite length_app. simpl. lia.
Qed.

Lemma delchar_loop_spec s2 s : forall res (m : S),
  let out := res ++ filter (fun c => c <> char_at s2 0) s in
  delchar_loop s2 res s m = if (length out <? BUF)%nat then Ok (out, m) else Err OutOfBounds.
Proof.
  induction s as [|c s IH]; intros res m; cbn [delchar_loop]; cbv zeta.
  { by rewrite filter_nil, app_nil_r, as_string_spec. }
  destruct (decide (c = char_at s2 0)) as [E|E].
  - rewrite (bind_ok _ _ _ res m) by done. rewrite IH.
    rewrite filter_cons_False by naive_solver. done.
  - unfold mbind, M_bind. rewrite filter_cons_True by done.
    destruct (decide (length res < BUF)%nat) as [Hl|Hl].
    + rewrite push_ok by done. rewrite IH. by rewrite <- app_assoc.
    + rewrite push_full by lia. rewrite (proj2 (Nat.ltb_ge _ _)); [done|].
      rewrite length_app. simpl. lia.
Qed.

(** [str_tolower] and [str_delchar] compute the lower-case string and the
    string without the first character of [s2], exactly when the result fits
    the static buffer with its NUL; a longer result writes (or is read) past the
    buffer. *)
Theorem str_helpers_correct s s2 (m : S) :
  str_tolower s m = (if (length s <? BUF)%nat then Ok (map tolower s, m) else Err OutOfBounds) /\
  str_delchar s s2 m =
    (let out := filter (fun c => c <> char_at s2 0) s in
     if (length out <? BUF)%nat then Ok (out, m) else Err OutOfBounds).
Proof.
  unfold str_tolower, str_delchar. rewrite tolower_loop_spec, delchar_loop_spec. simpl.
  by rewrite length_map.
Qed.

End props.

(** ** [strntok] splits what a join joined *)

Section split.
Implicit Types (d p rest res : text).

(** A delimiter is recognised by its first two characters (its first, when it
    has one). *)
Definition matches_at d (s : text) : bool :=
  match s with
  | [] => false
  | c :: s' => bool_decide (c = char_at d 0) &&
      ((Z.of_nat (length d) <=? 1) || bool_decide (char_at s' 0 = char_at d 1))
  end.

(** No such match starts in [p] when the first character of [d] follows it. *)
Fixpoint clean d p : bool :=
  match p with
  | [] => true
  | c :: p' => negb (matches_at d (c :: p' ++ [char_at d 0])) && clean d p'
  end.

Fixpoint join d (ps : list text) : text :=
  match ps with
  | [] => []
  | [p] => p
  | p :: ps => p ++ d ++ join d ps
  end.

(** Reading the piece up to the delimiter, or to the end. *)
Lemma strntok_piece d p : forall res rest o,
  d <> [] -> NUL ∉ d -> clean d p = true -> (length res + length p < BUF)%nat ->
  (rest = [] \/ char_at rest 0 = char_at d 0) ->
  strntok_loop d (Z.of_nat (length d)) 0 res (p ++ rest) o
  = strntok_loop d (Z.of_nat (length d)) 0 (res ++ p) rest o.
Proof.
  induction p as [|c p IH]; intros res rest o Hd Hnul Hc Hl Hr; simpl app.
  { by rewrite app_nil_r. }
  simpl in Hc. apply andb_true_iff in Hc as [Hm Hc]. simpl in Hl.
  assert (Hd0 : Z.of_nat (length d) <> 0) by (destruct d; [done|simpl; lia]).
  assert (Hpush : (push res c ≫= fun res => strntok_loop d (Z.of_nat (length d)) 0 res (p ++ rest)) o
           = strntok_loop d (Z.of_nat (length d)) 0 (res ++ c :: p) rest o).
  { rewrite (bind_ok _ _ _ (res ++ [c]) o) by (apply push_ok; lia).
    rewrite IH; [by rewrite <- app_assoc|done|done|done|rewrite length_app; simpl; lia|done]. }
  cbn [strntok_loop]. rewrite (proj2 (Z.eqb_neq 0 _)) by lia.
  case_bool_decide as E; simpl; [|exact Hpush].
  simpl in Hm. apply negb_true_iff, orb_false_iff in Hm as [Hn Hne].
  apply Z.leb_gt in Hn. apply bool_decide_eq_false in Hne.
  rewrite bool_decide_eq_false_2, (proj2 (Z.gtb_lt _ _)); [exact Hpush|lia|].
  intros Heq. apply Hne. rewrite <- Heq. destruct p; [|done]. simpl.
  destruct Hr as [->|Hr]; [|by rewrite Hr]. exfalso. apply Hnul. unfold char_at in Heq. simpl in Heq.
  destruct d as [|d0 [|d1 d]]; [done|simpl in Hn; lia|]. simpl in Heq. subst d1. set_solver.
Qed.

(** Skipping what is left of the delimiter. *)
Lemma strntok_skip d n : forall i t rest res o,
  0 < i -> n = i + Z.of_nat (length t) ->
  strntok_loop d n i res (t ++ rest) o = strntok_loop d n n res rest o.
Proof.
  intros i t. revert i. induction t as [|c t IH]; intros i rest res o Hi Hn.
  { simpl in Hn. replace n with i by lia. done. }
  simpl length in Hn. cbn [strntok_loop app]. rewrite (proj2 (Z.eqb_neq i n)) by lia.
  rewrite (proj2 (Z.gtb_lt i 0)), orb_true_r, (proj2 (Z.eqb_neq i 0)) by lia.
  apply IH; lia.
Qed.

Lemma strntok_delim d rest res o :
  d <> [] -> 
  strntok_loop d (Z.of_nat (length d)) 0 res (d ++ rest) o
  = strntok_loop d (Z.of_nat (length d)) (Z.of_nat (length d)) res rest o.
Proof.
  destruct d as [|c d]; [done|]. intros _. cbn [strntok_loop app].
  rewrite (proj2 (Z.eqb_neq 0 _)) by (simpl; lia). rewrite bool_decide_eq_true_2 by done.
  cbn [orb]. rewrite Z.eqb_refl.
  assert (E : negb (bool_decide (char_at (d ++ rest) 0 = char_at (c :: d) 1)) &&
              (Z.of_nat (length (c :: d)) >? 1) = false).
  { destruct d as [|c2 d]; [by rewrite andb_false_r|]. simpl. by rewrite bool_decide_eq_true_2. }
  rewrite E. apply strntok_skip; simpl length; lia.
Qed.

(** One call on a piece followed by the delimiter and more, or by nothing more. *)
Lemma strntok_next d p rest o :
  d <> [] -> NUL ∉ d -> clean d p = true -> (length p < BUF)%nat -> rest <> [] ->
  strntok (Some (p ++ d ++ rest)) d (Z.of_nat (length d)) o = Ok (Some p, Some rest).
Proof.
  intros Hd Hnul Hc Hl Hr. unfold strntok. unfold mbind, M_bind.
  rewrite strntok_piece by (done || (right; by destruct d)). rewrite strntok_delim by done.
  destruct rest as [|r rest]; [done|]. simpl strntok_loop. rewrite Z.eqb_refl.
  unfold mbind, M_bind. simpl. by rewrite as_string_spec, (proj2 (Nat.ltb_lt _ _)).
Qed.

Lemma strntok_last d p tail o :
  d <> [] -> NUL ∉ d -> clean d p = true -> (length p < BUF)%nat -> tail = [] \/ tail = d ->
  strntok (Some (p ++ tail)) d (Z.of_nat (length d)) o = Ok (Some p, None).
Proof.
  intros Hd Hnul Hc Hl Ht. unfold strntok. unfold mbind, M_bind.
  rewrite strntok_piece by (done || (destruct Ht as [->|Ht]; [by left|right; by subst])).
  assert (Hend : forall i, strntok_loop d (Z.of_nat (length d)) i ([] ++ p) [] o = Ok (p, None)).
  { intros i. simpl. unfold mbind, M_bind. simpl. by rewrite as_string_spec, (proj2 (Nat.ltb_lt _ _)). }
  destruct Ht as [->|Ht]; [by rewrite Hend|]. subst tail.
  rewrite <- (app_nil_r d) at 3. rewrite strntok_delim by done. by rewrite Hend.
Qed.

Lemma join_nonempty d ps : ps <> [] -> last ps <> Some [] -> join d ps <> [].
Proof.
  induction ps as [|p [|q ps] IH]; intros H1 H2; [done|by simpl; intros ->|].
  cbn [join]. intros Hj. assert (join d (q :: ps) = []) as Hj'.
  { destruct p; [|done]. destruct d; [done|done]. }
  apply IH; [done|by rewrite last_cons_cons in H2|done].
Qed.

(** C38: the calling loop of [strntok] returns exactly the pieces a delimiter
    joined, in order, for any number of pieces, each of which fits the buffer and
    has no match of the delimiter in it; the last piece must not be empty, unless
    it is the only one (a trailing delimiter gives no empty piece). *)
Theorem strntok_join d ps o :
  d <> [] -> NUL ∉ d -> ps <> [] ->
  Forall (fun p => clean d p = true /\ (length p < BUF)%nat) ps ->
  (length ps = 1%nat \/ last ps <> Some []) ->
  strntok_all (S (length ps)) (Some (join d ps)) d (Z.of_nat (length d)) o = Ok (ps, None) /\
  (last ps <> Some [] ->
   strntok_all (S (length ps)) (Some (join d ps ++ d)) d (Z.of_nat (length d)) o = Ok (ps, None)).
Proof.
  intros Hd Hnul Hne HF Hlast.
  assert (Hgo : forall tail, tail = [] \/ tail = d -> (tail = [] \/ last ps <> Some []) ->
    strntok_all (S (length ps)) (Some (join d ps ++ tail)) d (Z.of_nat (length d)) o = Ok (ps, None)).
  2: { split; [rewrite <- (app_nil_r (join d ps)); apply Hgo; by left|].
       intros ?. apply Hgo; by right. }
  intros tail Ht Hlt. revert o Hlast Hlt.
  induction HF as [|p ps [Hc Hl] HF IH]; intros o Hlast Hlt; [done|].
  cbn [length strntok_all]. destruct ps as [|q ps].
  - rewrite (bind_ok _ _ _ _ _ (strntok_last d p tail o Hd Hnul Hc Hl Ht)). done.
  - destruct Hlast as [[=]|Hlast]. rewrite last_cons_cons in Hlast, Hlt.
    cbn [join]. rewrite <- !app_assoc.
    rewrite (bind_ok _ _ _ _ _ (strntok_next d p (join d (q :: ps) ++ tail) o Hd Hnul Hc Hl
               ltac:(intros [? _]%app_nil; by eapply (join_nonempty d (q :: ps))))).
    unfold mbind at 1, M_bind at 1, get. cbv beta iota.
    specialize (IH ltac:(done) (Some (join d (q :: ps) ++ tail)) (or_intror Hlast) Hlt).
    by rewrite (bind_ok _ _ _ _ _ IH).
Qed.

End split.

(** ** Witnesses *)

Lemma strntok_join_witness :
  strntok_all 4 (Some (lit "x<image><br/>ab<<br/>123")) (lit "<br/>") 5 None
    = Ok ([lit "x<image>"; lit "ab<"; lit "123"], None).
Proof.
  refine (proj1 (strntok_join (lit "<br/>") [lit "x<image>"; lit "ab<"; lit "123"] None _ _ _ _ _)).
  - discriminate.
  - apply (bool_decide_unpack _). vm_compute. exact I.
  - discriminate.
  - repeat constructor; vm_compute; lia.
  - right. discriminate.
Defined.
