(* ===== verification/BnsCsv.v ===== *)
(** * Reading a table of text lines: [my_csv] and the loops around it

    Every program under [src/lib/app/bns] reads a text file line by line with
    [while (!feof(fp)) fgets(...)] and takes each line apart with
    [while ( *ss != '\n') sprintf(ss, "%s", my_csv(ss, tmp))].  Streams,
    [my_csv] (weapon_info.c; the other programs have the same text) and that
    loop, with the handling of a field as a parameter.  The files are read as texts without
    NUL characters.

    The loop does not stop at the end of a text: on a line without a newline, as the last
    round of every run has it, it reads on in a block that [malloc] has returned, where
    this line has written nothing.  What the code does then depends on what is left there;
    on texts that is a fault, and nothing more is said of such runs.  WeaponHandle.v has the
    same routines byte by byte, over any contents of these blocks. *)

From stdpp Require Import prelude list strings.
From Stdlib Require Import ZArith Lia Ascii.
From S2P Require Import Prelude CString.

Definition NL : ascii := "010".
Definition TAB : ascii := "009".
Definition SPACE : ascii := " ".

(** ** [FILE], [fgets] and [feof] *)

(** What is left to read, and the end-of-file indicator. *)
Record FILE := MkFile { f_rest : text; f_eof : bool }.

Definition fopen (contents : text) : FILE := MkFile contents false.

(** At most [k] characters, up to and including the first newline; whether the
    end of the file was hit. *)
Fixpoint take_line (k : nat) (s : text) : text * text * bool :=
  match k with
  | O => ([], s, false)
  | S k =>
      match s with
      | [] => ([], [], true)
      | c :: s =>
          if decide (c = NL) then ([c], s, false)
          else let '(line, rest, e) := take_line k s in (c :: line, rest, e)
      end
  end.

(** [fgets(buf, size, fp)] into a buffer that was cleared before: at the end of
    the file the buffer stays empty. *)
Definition fgets (size : nat) (fp : FILE) : text * FILE :=
  let '(line, rest, e) := take_line (size - 1) (f_rest fp) in
  (line, MkFile rest (f_eof fp || e)).

(** ** [my_csv] *)

Section csv.
Context {S X : Type}.

(** Characters go to the cleared buffer [s2] of [cap] bytes, up to a newline or
    a white-space character other than the blank.  The result is [s2] and the
    pointer returned.  Reading past the terminating NUL is a fault: what is there is
    left over from before the text was moved, or from an earlier use of the block, or was
    never written. *)
Fixpoint my_csv (cap : nat) (s2 s1 : text) : M S (text * text) :=
  match s1 with
  | [] => throw Uninitialised
  | c :: s1' =>
      if decide (c = NL) then
        (if (length s2 <? cap)%nat then mret (s2, s1) else throw OutOfBounds)
      else if bool_decide (c = SPACE) || negb (isspace c) then
        if (length s2 <? cap)%nat then my_csv cap (s2 ++ [c]) s1' else throw OutOfBounds
      else if (length s2 <? cap)%nat then mret (s2, s1') else throw OutOfBounds
  end.

(** Whether the handling of a field has returned from the function. *)
Context (stop : X -> bool).

(** [while ( *ss != '\n') { ss = my_csv(ss, tmp); field(n, tmp); n++; }]; every
    round takes at least one character. *)
Fixpoint csv_loop (fuel : nat) (cap : nat) (field : Z -> text -> X -> M S X)
    (n : Z) (ss : text) (x : X) : M S X :=
  if decide (char_at ss 0 = NL) then mret x
  else
    match fuel with
    | O => no_fuel
    | Datatypes.S fuel =>
        '(tmp, ss) ← my_csv cap [] ss;
        x ← field n tmp x;
        if stop x then mret x else csv_loop fuel cap field (n + 1) ss x
    end.

Definition csv_row (cap : nat) (field : Z -> text -> X -> M S X) (ss : text) (x : X) : M S X :=
  csv_loop (Datatypes.S (length ss)) cap field 0 ss x.

(** ** A line of fields *)

(** A field that the separators do not cut. *)
Definition plain (f : text) : bool :=
  forallb (fun c => negb (bool_decide (c = NL)) && (bool_decide (c = SPACE) || negb (isspace c))) f.

Fixpoint tab_join (fs : list text) : text :=
  match fs with
  | [] => []
  | [f] => f
  | f :: fs => f ++ TAB :: tab_join fs
  end.

(** The fields handled one after the other. *)
Fixpoint each_field (field : Z -> text -> X -> M S X) (n : Z) (fs : list text) (x : X) : M S X :=
  match fs with
  | [] => mret x
  | f :: fs =>
      x ← field n f x;
      if stop x then mret x else each_field field (n + 1) fs x
  end.

Lemma my_csv_plain cap f : forall s2 rest m,
  plain f = true -> (length s2 + length f < cap)%nat ->
  my_csv cap s2 (f ++ rest) m = my_csv cap (s2 ++ f) rest m.
Proof.
  induction f as [|c f IH]; intros s2 rest m Hp Hl; [by rewrite app_nil_r|].
  simpl in Hp. apply andb_true_iff in Hp as [Hc Hp]. apply andb_true_iff in Hc as [Hn Hs].
  simpl in Hl. cbn [my_csv app]. rewrite decide_False.
  2: { intros ->. by rewrite bool_decide_eq_true_2 in Hn. }
  rewrite Hs, (proj2 (Nat.ltb_lt _ _)) by lia. rewrite IH; [by rewrite <- app_assoc|done|].
  rewrite length_app. simpl. lia.
Qed.

Lemma my_csv_field cap f rest m :
  plain f = true -> (length f < cap)%nat ->
  my_csv cap [] (f ++ NL :: rest) m = Ok ((f, NL :: rest), m) /\
  my_csv cap [] (f ++ TAB :: rest) m = Ok ((f, rest), m).
Proof.
  intros Hp Hl. rewrite !my_csv_plain by done. simpl. by rewrite (proj2 (Nat.ltb_lt _ _)).
Qed.

Lemma csv_loop_fields cap field fs : forall fuel n x m,
  Forall (fun f => plain f = true /\ (length f < cap)%nat) fs ->
  last fs <> Some [] -> (length fs < fuel)%nat ->
  csv_loop fuel cap field n (tab_join fs ++ [NL]) x m = each_field field n fs x m.
Proof.
  induction fs as [|f fs IH]; intros fuel n x m HF Hl Hfuel.
  { destruct fuel; [simpl in Hfuel; lia|]. done. }
  destruct fuel as [|fuel]; [simpl in Hfuel; lia|]. simpl in Hfuel.
  apply Forall_cons in HF as [[Hp Hlen] HF]. cbn [each_field].
  assert (Hhd : char_at f 0 <> NL \/ f = []).
  { destruct f as [|c f]; [by right|left]. unfold char_at. simpl in *.
    intros ->. by rewrite bool_decide_eq_true_2 in Hp. }
  destruct fs as [|g fs].
  - cbn [tab_join]. cbn [csv_loop]. rewrite decide_False.
    2: { destruct Hhd as [? | ->]; [by destruct f|done]. }
    destruct (my_csv_field cap f [] m Hp Hlen) as [H1 _].
    rewrite (bind_ok _ _ _ _ _ H1). unfold mbind at 1 2, M_bind at 1 2.
    destruct (field n f x m) as [[x' m']| |]; [|done..].
    destruct (stop x'); [done|]. by destruct fuel.
  - change (tab_join (f :: g :: fs)) with (f ++ TAB :: tab_join (g :: fs)).
    rewrite <- app_assoc. simpl app. cbn [csv_loop]. rewrite decide_False.
    2: { destruct Hhd as [? | ->]; [by destruct f|done]. }
    destruct (my_csv_field cap f (tab_join (g :: fs) ++ [NL]) m Hp Hlen) as [_ H1].
    rewrite (bind_ok _ _ _ _ _ H1). unfold mbind at 1 2, M_bind at 1 2.
    destruct (field n f x m) as [[x' m']| |]; [|done..].
    destruct (stop x'); [done|]. apply IH; [done|by rewrite last_cons_cons in Hl|lia].
Qed.

Lemma tab_join_length fs : last fs <> Some [] -> (length fs <= length (tab_join fs))%nat.
Proof.
  induction fs as [|f [|g fs] IH]; intros Hl; [done| |].
  - destruct f; [done|simpl; lia].
  - rewrite last_cons_cons in Hl. specialize (IH Hl).
    change (tab_join (f :: g :: fs)) with (f ++ TAB :: tab_join (g :: fs)).
    rewrite length_app. cbn [length] in *. lia.
Qed.

(** A line made of fields separated by tabs and ended by a newline is
    taken apart into exactly these fields: the field handler runs once per field,
    with its number, in order.  (The last field must not be empty: after a
    trailing tab the loop stops at the newline.) *)
Theorem csv_row_fields cap field fs x m :
  Forall (fun f => plain f = true /\ (length f < cap)%nat) fs -> last fs <> Some [] ->
  csv_row cap field (tab_join fs ++ [NL]) x m = each_field field 0 fs x m.
Proof.
  intros HF Hl. unfold csv_row. apply csv_loop_fields; [done|done|].
  pose proof (tab_join_length fs Hl). rewrite length_app. simpl. lia.
Qed.

(** Without a newline the loop does not end within the text, unless the function returns. *)
Lemma my_csv_no_newline cap s1 : forall s2 m r,
  NL ∉ s1 -> my_csv cap s2 s1 m = Ok r -> (NL ∉ r.1.2) /\ (length r.1.2 < length s1)%nat.
Proof.
  induction s1 as [|c s1 IH]; intros s2 m r Hn; simpl; [done|].
  rewrite decide_False by set_solver.
  destruct (_ || _); destruct (_ <? _)%nat; try done.
  - intros Hr. destruct (IH _ _ _ ltac:(set_solver) Hr). split; [done|lia].
  - intros [= <-]. simpl. split; [set_solver|lia].
Qed.

Lemma csv_loop_no_newline fuel cap field : forall n ss x m r,
  NL ∉ ss -> csv_loop fuel cap field n ss x m = Ok r -> stop r.1 = true.
Proof.
  induction fuel as [|fuel IH]; intros n ss x m r Hn; simpl.
  - by rewrite decide_False by (destruct ss; set_solver).
  - rewrite decide_False by (destruct ss; set_solver). unfold mbind, M_bind.
    destruct (my_csv cap [] ss m) as [[[tmp ss'] m']| |] eqn:Hc; [|done..].
    apply my_csv_no_newline in Hc as [Hn' _]; [|done]. simpl in Hn'.
    destruct (field n tmp x m') as [[x' m'']| |]; [|done..].
    destruct (stop x') eqn:Hs; [by intros [= <-]|by apply IH].
Qed.

(** On a line without a newline, whatever the fields are used for, unless the handling of a
    field returns from the function the loop reads on past the end of the string.  (The
    last round of [while (!feof(fp))] always has such a line.) *)
Theorem csv_row_no_newline cap field ss x m r :
  NL ∉ ss -> csv_row cap field ss x m = Ok r -> stop r.1 = true.
Proof. by apply csv_loop_no_newline. Qed.

End csv.

(** ** [fgets] and lines *)

Lemma take_line_line k l rest :
  NL ∉ l -> (length l < k)%nat -> take_line k (l ++ NL :: rest) = (l ++ [NL], rest, false).
Proof.
  revert k. induction l as [|c l IH]; intros k Hn Hk; (destruct k as [|k]; [simpl in Hk; lia|]); simpl.
  - done.
  - rewrite decide_False by set_solver. rewrite IH; [done|set_solver|simpl in Hk; lia].
Qed.

(** A line that hit the end of the file has no newline. *)
Lemma take_line_eof k s : (take_line k s).2 = true -> NL ∉ (take_line k s).1.1.
Proof.
  revert s. induction k as [|k IH]; intros s; simpl; [done|].
  destruct s as [|c s]; simpl; [set_solver|]. case_decide; simpl; [done|].
  specialize (IH s). destruct (take_line k s) as [[line rest] e]. simpl in *.
  intros He. specialize (IH He). set_solver.
Qed.

Lemma fgets_line size l rest e :
  NL ∉ l -> (length l + 1 < size)%nat ->
  fgets size (MkFile (l ++ NL :: rest) e) = (l ++ [NL], MkFile rest e).
Proof.
  intros Hn Hl. unfold fgets. simpl. rewrite take_line_line by (done || lia).
  by rewrite orb_false_r.
Qed.

Lemma fgets_eof size fp :
  f_eof fp = false -> f_eof (fgets size fp).2 = true -> NL ∉ (fgets size fp).1.
Proof.
  intros He. unfold fgets. pose proof (take_line_eof (size - 1) (f_rest fp)) as Ht.
  destruct (take_line _ _) as [[line rest] e]. simpl in *. rewrite He. done.
Qed.

(** ** Witnesses *)

Definition ex_collect (n : Z) (f : text) (x : list (Z * text)) : M unit (list (Z * text)) :=
  mret (x ++ [(n, f)]).
Definition ex_stop (x : list (Z * text)) : bool := bool_decide (length x = 2%nat).

Lemma csv_row_fields_witness :
  csv_row (fun _ => false) 10 ex_collect (tab_join [lit "8583"; []; lit "a b"] ++ [NL]) [] tt
  = Ok ([(0, lit "8583"); (1, []); (2, lit "a b")], tt).
Proof.
  refine (eq_trans (csv_row_fields (fun _ => false) 10 ex_collect [lit "8583"; []; lit "a b"] [] tt _ _) _).
  - repeat constructor; vm_compute; lia.
  - discriminate.
  - reflexivity.
Defined.

Lemma csv_row_no_newline_witness : ex_stop [(0, lit "a"); (1, lit "b")] = true.
Proof.
  apply (csv_row_no_newline ex_stop 10 ex_collect (lit "a" ++ TAB :: lit "b" ++ TAB :: lit "c") [] tt
           ([(0, lit "a"); (1, lit "b")], tt)).
  - apply (bool_decide_unpack _). vm_compute. exact I.
  - reflexivity.
Defined.
