(* ===== verification/BnsHash.v ===== *)
(** * The lookup tables of [src/lib/app/bns/bns_hash.c]

    [hashpjw], [match_sweet_list_kv], [create_icon_hash] and
    [create_setitem_hash]: tables filled from a text file, on top of the hash
    table of [CHashTable] and the line reader of [BnsCsv]. *)

From stdpp Require Import prelude gmap list strings.
From Stdlib Require Import ZArith Lia Ascii.
From S2P Require Import Prelude CList CHashTable CString BnsCsv.

Definition PRIME_TBLSIZ : Z := 1024.

(** ** [hashpjw], in 32-bit unsigned arithmetic *)

Definition u32 (z : Z) : Z := z mod 2 ^ 32.

(** [char] is signed. *)
Definition schar (c : ascii) : Z := if code c <? 128 then code c else code c - 256.

Fixpoint hashpjw_loop (val : Z) (s : text) : Z :=
  match s with
  | [] => val
  | c :: s =>
      let val := u32 (u32 (Z.shiftl val 4) + schar c) in
      let tmp := Z.land val 4026531840 (* 0xf0000000 *) in
      let val := if tmp =? 0 then val else Z.lxor (Z.lxor val (Z.shiftr tmp 24)) tmp in
      hashpjw_loop val s
  end.

Definition hashpjw (key : string) : Z := hashpjw_loop 0 (lit key) mod PRIME_TBLSIZ.

Definition match_sweet_list_kv (data1 data2 : SweetListKv) : Z :=
  if decide (kv_key data1 = kv_key data2) then 1 else 0.

Definition str (t : text) : string := String.string_of_list_ascii t.

(** ** Filling a table from a file *)

Abbreviation tmem := (lmem SweetListKv).
Abbreviation table := (CHTbl string SweetListKv).

(** An allocation whose result is used without a test. *)
Definition alloc : M tmem unit :=
  ok ← malloc_array 1; if ok : bool then mret tt else throw NullDeref.

(** [data->key] and [data->value] while the line is read. *)
Definition entry : Type := option text * option text.

(** [switch (n)] of [create_icon_hash] *)
Definition icon_field (n : Z) (tmp : text) (d : entry) : M tmem entry :=
  if n =? 0 then _ ← alloc; mret (Some tmp, d.2)
  else if n =? 2 then _ ← alloc; mret (d.1, Some tmp)
  else mret d.

(** The body of the loop of [create_setitem_hash]: only the first 1025 bytes of
    [tmp] were cleared, so a longer field is followed by indeterminate bytes. *)
Definition setitem_field (effect n : Z) (tmp : text) (d : entry) : M tmem entry :=
  let copy : M tmem unit :=
    if (length tmp <? 1025)%nat then alloc else throw Uninitialised in
  d ← (if n =? 0 then _ ← copy; mret (Some tmp, d.2) else mret d);
  if n =? effect then _ ← copy; mret (d.1, Some tmp) else mret d.

(** One round of [while (!feof(fpi))]: the returned [int] when it returns. *)
Definition hash_round (size : nat) (field : Z -> text -> entry -> M tmem entry)
    (htbl : table) (fp : FILE) : M tmem (option Z * table * FILE) :=
  let '(icon_line, fp) := fgets size fp in
  _ ← alloc;
  ok ← malloc_array 1;
  if ok : bool then
    d ← csv_row (fun _ => false) (size + 1) field icon_line (None, None);
    match d.1 with
    | None => throw Uninitialised
    | Some key =>
        '(r, htbl) ← chtbl_insert_kv htbl (Kv (str key) (str <$> d.2));
        mret (if r =? 0 then None else Some 1, htbl, fp)
    end
  else mret (Some 1, htbl, fp).

Fixpoint hash_loop (fuel : nat) (size : nat) (field : Z -> text -> entry -> M tmem entry)
    (htbl : table) (fp : FILE) : M tmem (Z * table) :=
  if f_eof fp then mret (0, htbl)
  else
    match fuel with
    | O => no_fuel
    | S fuel =>
        '(ret, htbl, fp) ← hash_round size field htbl fp;
        match ret with
        | Some r => mret (r, htbl)
        | None => hash_loop fuel size field htbl fp
        end
    end.

(** [file]: the contents, [None] when [fopen] fails; [junk] as in
    [chtbl_init_kv].  Each round takes a character or meets the end. *)
Definition create_hash (size : nat) (field : Z -> text -> entry -> M tmem entry)
    (htbl : table) (junk : List SweetListKv) (file : option text) : M tmem (Z * table) :=
  match file with
  | None => mret (1, htbl)
  | Some contents =>
      '(r, htbl) ← chtbl_init_kv htbl junk PRIME_TBLSIZ (Some hashpjw)
                     (Some match_sweet_list_kv) true;
      if r =? 0 then hash_loop (S (S (length contents))) size field htbl (fopen contents)
      else mret (2, htbl)
  end.

Definition create_icon_hash (htbl : table) (junk : List SweetListKv) (file : option text)
  : M tmem (Z * table) := create_hash 1024 icon_field htbl junk file.

(** [8192] *)
Definition SETITEM_LINE : nat := Z.to_nat 8192.

Definition create_setitem_hash (htbl : table) (junk : List SweetListKv) (file : option text)
    (effect : Z) : M tmem (Z * table) :=
  create_hash SETITEM_LINE (setitem_field effect) htbl junk file.

Definition remove_icon_hash (htbl : table) : M tmem table := chtbl_destroy htbl.
Definition remove_setitem_hash (htbl : table) : M tmem table := chtbl_destroy htbl.

(** ** The hash function fits the table *)

Lemma hashpjw_nonneg key : 0 <= hashpjw key.
Proof. unfold hashpjw. by apply Z.mod_pos_bound. Qed.

Lemma match_sweet_list_kv_key x y : match_sweet_list_kv x y <> 0 <-> kv_key x = kv_key y.
Proof. unfold match_sweet_list_kv. by case_decide. Qed.

(** What the table needs from its client. *)
Definition bns_hashing : Hashing string SweetListKv string :=
  kv_hashing hashpjw match_sweet_list_kv hashpjw_nonneg match_sweet_list_kv_key.

Abbreviation is_map := (is_table (HQ := bns_hashing)).

(** ** What the lines put into the table *)

Section lines.
Implicit Types (T : table) (m : tmem) (mp : gmap string SweetListKv).

(** The column of the key is 0; [v] is the column of the value. *)
Definition row_entry (v : Z) (fs : list text) : SweetListKv :=
  Kv (str (default [] (fs !! 0%nat))) (str <$> fs !! Z.to_nat v).

(** A field handler that collects columns 0 and [v] when memory lasts. *)
Definition collects (field : Z -> text -> entry -> M tmem entry) (v : Z) : Prop :=
  forall n tmp d m, 0 <= n -> oracle m = [] -> (length tmp < 1025)%nat ->
    field n tmp d m
    = Ok ((if n =? 0 then Some tmp else d.1, if n =? v then Some tmp else d.2), m).

Lemma alloc_ok m : oracle m = [] -> alloc m = Ok (tt, m).
Proof. destruct m as [c o t]. simpl. by intros ->. Qed.

Lemma icon_collects : collects icon_field 2.
Proof.
  intros n tmp [k v] m Hn Ho Hl. unfold icon_field.
  destruct (Z.eqb_spec n 0) as [->|E].
  { by rewrite (bind_ok _ _ _ _ _ (alloc_ok m Ho)). }
  destruct (n =? 2); [|done]. by rewrite (bind_ok _ _ _ _ _ (alloc_ok m Ho)).
Qed.

Lemma setitem_collects effect : collects (setitem_field effect) effect.
Proof.
  intros n tmp [k v] m Hn Ho Hl. unfold setitem_field. rewrite (proj2 (Nat.ltb_lt _ _) Hl).
  destruct (Z.eqb_spec n 0) as [->|E].
  - rewrite (bind_ok _ _ _ (Some tmp, v) m).
    2: { by rewrite (bind_ok _ _ _ _ _ (alloc_ok m Ho)). }
    destruct (0 =? effect); [|done]. by rewrite (bind_ok _ _ _ _ _ (alloc_ok m Ho)).
  - rewrite (bind_ok _ _ _ (k, v) m) by done.
    destruct (n =? effect); [|done]. by rewrite (bind_ok _ _ _ _ _ (alloc_ok m Ho)).
Qed.

(** The entry after the fields [fs] from column [n] on. *)
Lemma collects_fields field v fs : forall n d m,
  collects field v -> 0 <= n -> 0 <= v -> oracle m = [] ->
  Forall (fun f => (length f < 1025)%nat) fs ->
  each_field (fun _ => false) field n fs d m
  = Ok ((if n =? 0 then (match fs !! 0%nat with Some f => Some f | None => d.1 end) else d.1,
         if (n <=? v) then (match fs !! Z.to_nat (v - n) with Some f => Some f | None => d.2 end)
         else d.2), m).
Proof.
  induction fs as [|f fs IH]; intros n [k w] m Hc Hn Hv Ho HF; cbn [each_field].
  { simpl. by destruct (n =? 0), (n <=? v). }
  apply Forall_cons in HF as [Hf HF].
  rewrite (bind_ok _ _ _ _ _ (Hc n f (k, w) m Hn Ho Hf)).
  rewrite IH by (done || lia). simpl.
  rewrite (proj2 (Z.eqb_neq (n + 1) 0)) by lia.
  do 3 f_equal. destruct (Z.leb_spec n v) as [Hnv|Hnv]; destruct (Z.leb_spec (n + 1) v); try lia.
  - rewrite (proj2 (Z.eqb_neq n v)) by lia.
    replace (Z.to_nat (v - n)) with (S (Z.to_nat (v - (n + 1)))) by lia. done.
  - assert (n = v) as -> by lia. rewrite Z.eqb_refl, Z.sub_diag. done.
  - by rewrite (proj2 (Z.eqb_neq n v)) by lia.
Qed.

(** A complete line of the file: its fields. *)
Definition good_row (size : nat) (fs : list text) : Prop :=
  fs <> [] /\ last fs <> Some [] /\
  Forall (fun f => plain f = true /\ (length f < 1025)%nat) fs /\
  (length (tab_join fs) + 1 < size)%nat.

Lemma plain_no_newline f : plain f = true -> NL ∉ f.
Proof.
  unfold plain. rewrite forallb_forall. intros H Hin%list_elem_of_In. by apply H in Hin.
Qed.

Lemma tab_join_no_newline fs : Forall (fun f => plain f = true) fs -> NL ∉ tab_join fs.
Proof.
  induction fs as [|f [|g fs] IH]; intros HF; apply Forall_cons in HF || idtac; [set_solver| |].
  - destruct HF as [Hf _]. by apply plain_no_newline.
  - destruct HF as [Hf HF]. specialize (IH HF). apply plain_no_newline in Hf.
    change (tab_join (f :: g :: fs)) with (f ++ TAB :: tab_join (g :: fs)).
    rewrite not_elem_of_app, not_elem_of_cons. by split_and!.
Qed.

(** One round on a complete line. *)
Lemma hash_round_line size field v fs rest T m :
  (1024 <= size)%nat ->
  collects field v -> 0 <= v -> oracle m = [] -> good_row size fs ->
  hash_round size field T (MkFile (tab_join fs ++ NL :: rest) false) m
  = ('(r, T) ← chtbl_insert_kv T (row_entry v fs);
     mret (if r =? 0 then None else Some 1, T, MkFile rest false)) m.
Proof.
  intros Hsize Hc Hv Ho (Hne & Hlast & HF & Hlen). unfold hash_round.
  assert (Hplain : Forall (fun f => plain f = true) fs) by (eapply Forall_impl; [exact HF|by intros ? [? ?]]).
  rewrite fgets_line by (done || by apply tab_join_no_newline).
  rewrite (bind_ok _ _ _ _ _ (alloc_ok m Ho)).
  rewrite (bind_ok _ _ _ true m); [|destruct m; simpl in *; by subst].
  erewrite (bind_ok (csv_row _ _ _ _ _)); cycle 1.
  { rewrite csv_row_fields; [| |done].
    - eapply collects_fields; try done. eapply Forall_impl; [exact HF|by intros ? [? ?]].
    - eapply Forall_impl; [exact HF|]. intros f [??]. split; [done|lia]. }
  simpl. destruct fs as [|f fs]; [done|]. simpl. rewrite Z.sub_0_r.
  destruct (Z.leb_spec 0 v); [|lia]. unfold row_entry. simpl.
  by destruct ((f :: fs) !! Z.to_nat v).
Qed.

(** The map after the rows: as long as the keys are new. *)
Fixpoint load_rows (v : Z) (rows : list (list text)) mp : gmap string SweetListKv :=
  match rows with
  | [] => mp
  | fs :: rows => load_rows v rows (<[kv_key (row_entry v fs) := row_entry v fs]> mp)
  end.

(** The text of complete lines. *)
Fixpoint lines_of (rows : list (list text)) (rest : text) : text :=
  match rows with
  | [] => rest
  | fs :: rows => tab_join fs ++ NL :: lines_of rows rest
  end.

(** The first [n] rounds of the loop: how it has ended, if it has; the table; what is left
    of the file. *)
Fixpoint hash_rounds (n : nat) (size : nat) (field : Z -> text -> entry -> M tmem entry)
    (htbl : table) (fp : FILE) : M tmem (option Z * table * FILE) :=
  if f_eof fp then mret (Some 0, htbl, fp)
  else
    match n with
    | O => mret (None, htbl, fp)
    | S n =>
        '(ret, htbl, fp) ← hash_round size field htbl fp;
        match ret with
        | Some r => mret (Some r, htbl, fp)
        | None => hash_rounds n size field htbl fp
        end
    end.

Lemma hash_loop_rounds size field n : forall fuel T fp m,
  hash_loop (n + fuel) size field T fp m
  = ('(ret, T, fp) ← hash_rounds n size field T fp;
     match ret with Some r => mret (r, T) | None => hash_loop fuel size field T fp end) m.
Proof.
  induction n as [|n IH]; intros fuel T fp m.
  - cbn [hash_rounds Nat.add]. unfold mbind, M_bind. destruct (f_eof fp) eqn:E; [|done]. destruct fuel; cbn [hash_loop]; by rewrite E.
  - cbn [hash_rounds Nat.add hash_loop]. unfold mbind, M_bind. destruct (f_eof fp); [done|].
    destruct (hash_round size field T fp m) as [[[[[r|] T1] fp1] m1]| |]; [done| |done..]. apply IH.
Qed.

Lemma hash_rounds_rows size field v rows : forall rest T reps mp m,
  (1024 <= size)%nat -> collects field v -> 0 <= v -> oracle m = [] ->
  Forall (good_row size) rows ->
  NoDup ((fun fs => kv_key (row_entry v fs)) <$> rows) ->
  (forall fs, fs ∈ rows -> mp !! kv_key (row_entry v fs) = None) ->
  is_map (cells m) T reps mp -> Z.of_nat (length (elems reps) + length rows) <= INT_MAX ->
  exists T' m' reps',
    hash_rounds (length rows) size field T (MkFile (lines_of rows rest) false) m
    = Ok ((None, T', MkFile rest false), m') /\
    is_map (cells m') T' reps' (load_rows v rows mp) /\ oracle m' = [] /\
    (length (elems reps') = length (elems reps) + length rows)%nat.
Proof.
  induction rows as [|fs rows IH]; intros rest T reps mp m Hsize Hc Hv Ho HF Hnd Hfree Ht Hsz.
  { exists T, m, reps. simpl. rewrite Nat.add_0_r. by split_and!. }
  apply Forall_cons in HF as [Hg HF]. simpl in Hnd. apply NoDup_cons in Hnd as [Hk Hnd].
  assert (Hlt : Z.of_nat (length (elems reps)) < INT_MAX) by (simpl in Hsz; lia).
  pose proof (insert_body_spec (HQ := bns_hashing) T reps mp (row_entry v fs) m Ht Hlt) as Hwp.
  destruct (wp_inv _ _ _ Hwp) as ([r T1] & m1 & Hrun & _ & Hpost).
  assert (Hnone : mp !! kv_key (row_entry v fs) = None) by (apply Hfree; set_solver).
  change (key_of (row_entry v fs)) with (kv_key (row_entry v fs)) in Hpost.
  rewrite Hnone in Hpost. unfold may_alloc in Hpost. rewrite Ho in Hpost. simpl in Hpost.
  destruct Hpost as (Ho1 & -> & reps1 & Ht1 & Hp & _). apply Permutation_length in Hp. simpl in Hp, Hsz.
  destruct (IH rest T1 reps1 (<[kv_key (row_entry v fs) := row_entry v fs]> mp) m1)
    as (T' & m' & reps' & Hrounds & Ht' & Ho' & Hl'); try done.
  { intros fs' Hin. rewrite lookup_insert_ne; [apply Hfree; set_solver|].
    intros Heq. apply Hk, list_elem_of_fmap. by exists fs'. }
  { lia. }
  exists T', m', reps'. split_and!; [|done|done|simpl; lia].
  cbn [length lines_of hash_rounds f_eof].
  erewrite (bind_ok (hash_round _ _ _ _)).
  2: { rewrite (hash_round_line size field v) by done. by rewrite (bind_ok _ _ _ _ _ Hrun). }
  exact Hrounds.
Qed.

(** A line whose key is in the table ends the function. *)
Lemma hash_round_repeated size field v fs rest T reps mp m :
  (1024 <= size)%nat -> collects field v -> 0 <= v -> oracle m = [] -> good_row size fs ->
  is_map (cells m) T reps mp -> Z.of_nat (length (elems reps)) < INT_MAX ->
  is_Some (mp !! kv_key (row_entry v fs)) ->
  hash_round size field T (MkFile (tab_join fs ++ NL :: rest) false) m = Ok ((Some 1, T, MkFile rest false), m).
Proof.
  intros Hsize Hc Hv Ho Hg Ht Hlt [x Hx]. rewrite (hash_round_line size field v) by done.
  pose proof (insert_body_spec (HQ := bns_hashing) T reps mp (row_entry v fs) m Ht Hlt) as Hwp.
  destruct (wp_inv _ _ _ Hwp) as ([r T1] & m1 & Hrun & _ & Hpost).
  change (key_of (row_entry v fs)) with (kv_key (row_entry v fs)) in Hpost. rewrite Hx in Hpost.
  destruct Hpost as [[= -> ->] ->]. by rewrite (bind_ok _ _ _ _ _ Hrun).
Qed.

Lemma load_rows_key v rows : forall fs mp,
  fs ∈ rows -> is_Some (load_rows v rows mp !! kv_key (row_entry v fs)).
Proof.
  assert (Hmono : forall rows mp k, is_Some (mp !! k) -> is_Some (load_rows v rows mp !! k)).
  { clear rows. induction rows as [|fs rows IH]; intros mp k Hk; [done|]. simpl. apply IH. apply lookup_insert_is_Some. destruct (decide (kv_key (row_entry v fs) = k)); [by left|by right]. }
  induction rows as [|fs' rows IH]; intros fs mp; [by intros ?%elem_of_nil|].
  intros [->|Hin]%elem_of_cons; simpl; [|by apply IH]. apply Hmono. by rewrite lookup_insert_eq.
Qed.

(** [create_*] up to the end of the first [n] rounds, and from there. *)
Definition create_rounds (n : nat) (size : nat) (field : Z -> text -> entry -> M tmem entry)
    (htbl : table) (junk : List SweetListKv) (contents : text) : M tmem (option Z * table * FILE) :=
  '(r, htbl) ← chtbl_init_kv htbl junk PRIME_TBLSIZ (Some hashpjw) (Some match_sweet_list_kv) true;
  if r =? 0 then hash_rounds n size field htbl (fopen contents) else mret (Some 2, htbl, fopen contents).

Lemma create_hash_rounds n size field htbl junk contents m :
  (n <= S (S (length contents)))%nat ->
  create_hash size field htbl junk (Some contents) m
  = ('(ret, T, fp) ← create_rounds n size field htbl junk contents;
     match ret with Some r => mret (r, T) | None => hash_loop (S (S (length contents)) - n) size field T fp end) m.
Proof.
  intros Hn. unfold create_hash, create_rounds. unfold mbind, M_bind.
  destruct (chtbl_init_kv _ _ _ _ _ _ m) as [[[r T] m1]| |]; [|done..]. destruct (r =? 0); [|done].
  rewrite <- (Nat.sub_add n (S (S (length contents)))) at 1 by done. rewrite (Nat.add_comm _ n).
  apply hash_loop_rounds.
Qed.

Lemma length_lines rows rest : (length rows <= length (lines_of rows rest))%nat.
Proof. induction rows; simpl; [lia|]. rewrite length_app. simpl. lia. Qed.

Lemma lines_of_app rows rows' rest : lines_of (rows ++ rows') rest = lines_of rows (lines_of rows' rest).
Proof. induction rows as [|fs rows IH]; simpl; [done|]. by rewrite IH. Qed.

(** A routine that reads its lines into a table of columns 0 and [v]. *)
Definition loads (size : nat) (field : Z -> text -> entry -> M tmem entry) (v : Z) (rows : list (list text))
    (T0 : table) (junk : List SweetListKv) (m : tmem) : Prop :=
  Forall (good_row size) rows -> forall rest,
  (exists T' m' reps',
     create_rounds (length rows) size field T0 junk (lines_of rows rest) m = Ok ((None, T', MkFile rest false), m') /\
     is_map (cells m') T' reps' (load_rows v rows ∅)) /\
  (forall fs, good_row size fs -> fs !! 0%nat ∈ (fun fs => fs !! 0%nat) <$> rows -> exists T' m' reps',
     create_hash size field T0 junk (Some (lines_of (rows ++ [fs]) rest)) m = Ok ((1, T'), m') /\
     is_map (cells m') T' reps' (load_rows v rows ∅)).

Lemma create_hash_loads size field v rows T0 junk m :
  (1024 <= size)%nat -> collects field v -> 0 <= v -> oracle m = [] ->
  NoDup ((fun fs => kv_key (row_entry v fs)) <$> rows) ->
  Z.of_nat (length rows) < INT_MAX -> loads size field v rows T0 junk m.
Proof.
  intros Hsize Hc Hv Ho Hnd Hsz HF rest.
  destruct (init_body_spec (HQ := bns_hashing) T0 junk PRIME_TBLSIZ true m ltac:(done))
    as (T & m1 & Hinit & Ht & _ & _ & _ & Ho1); [unfold may_alloc; by rewrite Ho|]. rewrite Ho in Ho1.
  assert (Hrounds : forall rest, exists T' m' reps',
    create_rounds (length rows) size field T0 junk (lines_of rows rest) m = Ok ((None, T', MkFile rest false), m') /\
    is_map (cells m') T' reps' (load_rows v rows ∅) /\ oracle m' = [] /\ length (elems reps') = length rows).
  { intros rest'. unfold create_rounds, chtbl_init_kv. rewrite (bind_ok _ _ _ _ _ Hinit). cbv beta iota. rewrite Z.eqb_refl.
    destruct (hash_rounds_rows size field v rows rest' T (replicate (Z.to_nat PRIME_TBLSIZ) ([], [])) ∅ m1)
      as (T' & m' & reps' & H1 & H2 & H3 & H4); try done; [rewrite elems_empty; simpl; lia|].
    exists T', m', reps'. split_and!; [done..|]. rewrite H4, elems_empty. done. }
  split.
  - destruct (Hrounds rest) as (T' & m' & reps' & H1 & H2 & _). by exists T', m', reps'.
  - intros fs Hg Hin. rewrite lines_of_app. destruct (Hrounds (lines_of [fs] rest)) as (T' & m' & reps' & H1 & H2 & H3 & H4).
    exists T', m', reps'. split; [|done]. pose proof (length_lines rows (lines_of [fs] rest)).
    rewrite (create_hash_rounds (length rows)) by lia. rewrite (bind_ok _ _ _ _ _ H1). cbv beta iota.
    rewrite Nat.sub_succ_l, Nat.sub_succ_l by lia. cbn [hash_loop f_eof lines_of].
    rewrite (bind_ok (hash_round _ _ _ _) _ m' (Some 1, T', MkFile rest false) m'); [done|].
    eapply hash_round_repeated; try done; [lia|].
    apply list_elem_of_fmap in Hin as (fs' & E & Hin). replace (kv_key (row_entry v fs)) with (kv_key (row_entry v fs')); [by apply load_rows_key|].
    unfold row_entry. simpl. by rewrite E.
Qed.

(** C36: reading any number of complete lines with distinct keys, [create_icon_hash] and
    [create_setitem_hash] have, when they get to what follows, a table that maps the first
    column of each line to its third column, or to column [effect].  A line whose key is
    there already ends them: they return 1 with that table. *)
Theorem create_hash_lines rows T0 junk effect m :
  oracle m = [] -> 0 <= effect -> Z.of_nat (length rows) < INT_MAX ->
  NoDup ((fun fs => str (default [] (fs !! 0%nat))) <$> rows) ->
  loads 1024 icon_field 2 rows T0 junk m /\ loads SETITEM_LINE (setitem_field effect) effect rows T0 junk m.
Proof.
  intros Ho He Hsz Hnd. split.
  - apply create_hash_loads; try done. apply icon_collects.
  - apply create_hash_loads; try done; [|apply setitem_collects]. apply Nat.leb_le. by vm_compute.
Qed.

End lines.

(** ** Witness *)

(** The third line has the key of the first. *)
Definition ex_lines : list (list text) := [[lit "8583"; lit "x"; lit "icon a"]; [lit "8584"; []; lit "b"]].

Lemma create_hash_lines_witness :
  exists T' m' reps',
    create_icon_hash chtbl_zero ex_junk (Some (lines_of (ex_lines ++ [[lit "8583"; lit "y"; lit "c"]]) [])) ex_kv_mem
    = Ok ((1, T'), m') /\
    is_map (cells m') T' reps'
      (<["8584"%string := Kv "8584" (Some "b"%string)]>
        (<["8583"%string := Kv "8583" (Some "icon a"%string)]> ∅)).
Proof.
  assert (Hg : forall fs, length fs = 3%nat -> last fs <> Some [] -> forallb plain fs = true ->
    forallb (fun f => length f <? 9)%nat fs = true -> good_row 1024 fs).
  { intros [|f1 [|f2 [|f3 [|]]]] Hl Hlast Hp Hs; try done. simpl in Hp, Hs. rewrite !andb_true_iff in Hp, Hs.
    destruct Hp as (H1 & H2 & H3 & _), Hs as (L1%Nat.ltb_lt & L2%Nat.ltb_lt & L3%Nat.ltb_lt & _).
    split; [done|]. split; [done|]. split; [repeat (apply Forall_cons; split; [split; [done|lia]|]); by apply Forall_nil|].
    cbn [tab_join]. rewrite length_app. simpl. rewrite length_app. simpl. lia. }
  destruct (create_hash_lines ex_lines chtbl_zero ex_junk 0 ex_kv_mem) as [H _].
  - reflexivity.
  - lia.
  - vm_compute. reflexivity.
  - apply (bool_decide_unpack _). vm_compute. exact I.
  - apply (H ltac:(repeat (apply Forall_cons; split; [by apply Hg|]); by apply Forall_nil) []); [by apply Hg|]. left.
Defined.
