(* ===== verification/WeaponHandle.v ===== *)
(** * The icon table of [src/lib/app/bns/weapon_handle.c], byte by byte

    weapon_handle.c has functions of its own for reading lines and building the table
    of icons: [my_csv], [hashpjw] and [create_icon_hash].  BnsCsv.v and BnsHash.v have the
    same routines on texts, with [sprintf(ss, "%s", my_csv(ss, tmp))] read as the
    text that is left, and reading past the end of a text as a fault.  Here the buffers
    are blocks of bytes, pointers are indices, and [sprintf] copies byte by byte, onto its
    own argument too.  What is in a block that [malloc] returns is a parameter: it can be
    new, or one that was freed in an earlier round, with what is left in it.  On lines with
    a newline the two descriptions are proved equivalent, whatever is in these blocks.  On
    a line without one, as the last round of every run has it, the loop reads on into what
    [malloc] left there: without a newline in it no round ends the loop; with one, as in a
    block of an earlier round, the loop ends and the function can return 0. *)

From stdpp Require Import prelude gmap list strings.
From Stdlib Require Import ZArith Lia Ascii.
From Stdlib Require Import FunctionalExtensionality.
From S2P Require Import Prelude CList CHashTable CString BnsCsv BnsHash.

(** ** Blocks of bytes *)

(** [None]: indeterminate. *)
Abbreviation block := (list (option ascii)).

Section blocks.
Context {S : Type}.

Definition rd (b : block) (i : nat) : M S ascii :=
  match b !! i with
  | None => throw OutOfBounds
  | Some None => throw Uninitialised
  | Some (Some c) => mret c
  end.

Definition wr (b : block) (i : nat) (c : ascii) : M S block :=
  if (i <? length b)%nat then mret (<[i := Some c]> b) else throw OutOfBounds.

(** [memset(b, 0, n)], and a block that nothing has written to since the program began. *)
Definition cleared (n : nat) : block := replicate n (Some NUL).
Definition fresh_block (n : nat) : block := replicate n None.

(** [sprintf(dst + j, "%s", src + i)] between two blocks. *)
Fixpoint copy_loop (fuel : nat) (dst : block) (j : nat) (src : block) (i : nat) : M S block :=
  match fuel with
  | O => no_fuel
  | Datatypes.S fuel =>
      c ← rd src i;
      dst ← wr dst j c;
      if decide (c = NUL) then mret dst else copy_loop fuel dst (j + 1) src (i + 1)
  end.

(** The same within one block: a byte is read, then written. *)
Fixpoint move_loop (fuel : nat) (b : block) (j i : nat) : M S block :=
  match fuel with
  | O => no_fuel
  | Datatypes.S fuel =>
      c ← rd b i;
      b ← wr b j c;
      if decide (c = NUL) then mret b else move_loop fuel b (j + 1) (i + 1)
  end.

(** What [strlen] and [strcpy] read at [b + i]. *)
Fixpoint string_loop (fuel : nat) (b : block) (i : nat) : M S text :=
  match fuel with
  | O => no_fuel
  | Datatypes.S fuel =>
      c ← rd b i;
      if decide (c = NUL) then mret [] else t ← string_loop fuel b (i + 1); mret (c :: t)
  end.

(** A pointer that goes up leaves the block after as many steps as it has bytes. *)
Definition sprintf_s (dst src : block) : M S block := copy_loop (length src + 1) dst 0 src 0.
Definition sprintf_move (b : block) (i : nat) : M S block := move_loop (length b + 1) b 0 i.
Definition c_string (b : block) : M S text := string_loop (length b + 1) b 0.

(** The pointer [s1] is [s1 + i], the pointer [p] is [s2 + p]. *)
Fixpoint my_csv_loop (fuel : nat) (s1 : block) (i : nat) (s2 : block) (p : nat) : M S (nat * block) :=
  match fuel with
  | O => no_fuel
  | Datatypes.S fuel =>
      c ← rd s1 i;
      if negb (bool_decide (c = NL)) && (bool_decide (c = SPACE) || negb (isspace c)) then
        s2 ← wr s2 p c;
        my_csv_loop fuel s1 (i + 1) s2 (p + 1)
      else if negb (bool_decide (c = NL)) && isspace c then mret (i + 1, s2)%nat
      else mret (i, s2)
  end.

Definition my_csv (s1 s2 : block) : M S (nat * block) := my_csv_loop (length s1 + 1) s1 0 s2 0.

End blocks.

(** ** [hashpjw] *)

(** [ptr] is [key + ptr]; there is a NUL at the end of the key. *)
Fixpoint hashpjw_loop (fuel : nat) (key : string) (ptr : nat) (val : Z) : Z :=
  match String.get ptr key with
  | None => val
  | Some c =>
      match fuel with
      | O => val
      | S fuel =>
          let val := u32 (u32 (Z.shiftl val 4) + schar c) in
          let tmp := Z.land val 4026531840 (* 0xf0000000 *) in
          let val := if tmp =? 0 then val else Z.lxor (Z.lxor val (Z.shiftr tmp 24)) tmp in
          hashpjw_loop fuel key (ptr + 1) val
      end
  end.

Definition hashpjw (key : string) : Z := hashpjw_loop (String.length key) key 0 0 mod PRIME_TBLSIZ.

(** ** [create_icon_hash] *)

(** [1024+1] *)
Definition ICON_BUF : nat := 1025.

(** [switch (n)]: [strlen(tmp)], [malloc], [strcpy]. *)
Definition icon_switch (n : Z) (tmp : block) (data : entry) : M tmem entry :=
  if n =? 0 then t ← c_string tmp; _ ← alloc; mret (Some t, data.2)
  else if n =? 2 then t ← c_string tmp; _ ← alloc; mret (data.1, Some t)
  else mret data.

(** [while ( *ss2 != *enter)] *)
Fixpoint icon_fields (fuel : nat) (ss2 : block) (n : Z) (data : entry) : M tmem entry :=
  c ← rd ss2 0;
  if decide (c = NL) then mret data
  else
    match fuel with
    | O => no_fuel
    | S fuel =>
        '(s1, tmp) ← my_csv ss2 (cleared ICON_BUF);
        ss2 ← sprintf_move ss2 s1;
        data ← icon_switch n tmp data;
        n ← int_of (n + 1);
        icon_fields fuel ss2 n data
    end.

(** [fgets] into the cleared buffer; the NUL it ends the line with is there already. *)
Definition store_line (b : block) (line : text) : block := (Some <$> line) ++ drop (length line) b.

(** A round of [while (!feof(fpi))]: the returned [int] when it returns.  [malloced]: what is
    in the block that [malloc] returns. *)
Definition icon_round (fuel : nat) (malloced : block) (htbl : table) (fpi : FILE) : M tmem (option Z * table * FILE) :=
  let '(line, fpi) := fgets 1024 fpi in
  let icon_line := store_line (cleared ICON_BUF) line in
  _ ← alloc;
  ss2 ← sprintf_s malloced icon_line;
  ok ← malloc_array 1;
  if ok : bool then
    data ← icon_fields fuel ss2 0 (None, None);
    match data.1 with
    | None => throw Uninitialised
    | Some key =>
        '(r, htbl) ← chtbl_insert_kv htbl (Kv (str key) (str <$> data.2));
        mret (if r =? 0 then None else Some 1, htbl, fpi)
    end
  else mret (Some 1, htbl, fpi).

(** Round [i] gets the block [mallocs i]. *)
Fixpoint icon_loop (rounds fuel : nat) (mallocs : nat -> block) (i : nat) (htbl : table) (fpi : FILE) : M tmem (Z * table) :=
  if f_eof fpi then mret (0, htbl)
  else
    match rounds with
    | O => no_fuel
    | S rounds =>
        '(ret, htbl, fpi) ← icon_round fuel (mallocs i) htbl fpi;
        match ret with
        | Some r => mret (r, htbl)
        | None => icon_loop rounds fuel mallocs (i + 1) htbl fpi
        end
    end.

(** [fuel]: rounds of the inner loop; [file] and [junk] as in BnsHash.v. *)
Definition create_icon_hash (fuel : nat) (mallocs : nat -> block) (htbl : table) (junk : List SweetListKv) (file : option text)
  : M tmem (Z * table) :=
  match file with
  | None => mret (1, htbl)
  | Some contents =>
      '(r, htbl) ← chtbl_init_kv htbl junk PRIME_TBLSIZ (Some hashpjw) (Some match_sweet_list_kv) true;
      if r =? 0 then icon_loop (S (S (length contents))) fuel mallocs 0 htbl (fopen contents)
      else mret (2, htbl)
  end.

Definition remove_icon_hash (htbl : table) : M tmem table := chtbl_destroy htbl.

(** ** Reading and writing at the end of a known prefix *)

Section block_lemmas.
Context {S : Type}.
Implicit Types (b pre rest : block) (s t : text) (m : S).

Lemma rd_mid pre c rest i m : length pre = i -> rd (pre ++ Some c :: rest) i m = Ok (c, m).
Proof. intros <-. unfold rd. by rewrite list_lookup_middle. Qed.

Lemma wr_mid pre x rest i c m : length pre = i -> wr (pre ++ x :: rest) i c m = Ok (pre ++ Some c :: rest, m).
Proof.
  intros <-. unfold wr. rewrite length_app, (proj2 (Nat.ltb_lt _ _)) by (simpl; lia).
  rewrite <- (Nat.add_0_r (length pre)) at 1. by rewrite insert_app_r.
Qed.

Lemma snoc_app {A} (l : list A) x r : l ++ x :: r = (l ++ [x]) ++ r.
Proof. by rewrite <- app_assoc. Qed.

(** A text with a NUL behind it, somewhere in a block. *)
Definition at_block (pre : block) s (rest : block) : block := pre ++ (Some <$> s) ++ Some NUL :: rest.

Lemma rd_block_cons pre c s rest i m : length pre = i -> rd (at_block pre (c :: s) rest) i m = Ok (c, m).
Proof. apply rd_mid. Qed.
Lemma rd_block_nil pre rest i m : length pre = i -> rd (at_block pre [] rest) i m = Ok (NUL, m).
Proof. apply rd_mid. Qed.

Lemma at_block_cons pre c s rest : at_block pre (c :: s) rest = at_block (pre ++ [Some c]) s rest.
Proof. unfold at_block. by rewrite <- app_assoc. Qed.

Lemma copy_block s : forall w dst pre rest fuel m,
  NUL ∉ s -> (length s < length dst)%nat -> (length s < fuel)%nat ->
  copy_loop fuel (w ++ dst) (length w) (at_block pre s rest) (length pre) m
  = Ok (at_block w s (drop (length s + 1) dst), m).
Proof.
  induction s as [|c s IH]; intros w dst pre rest [|fuel] m Hn Hd Hf; try (simpl in Hf; lia);
    (destruct dst as [|x dst]; [simpl in Hd; lia|]); cbn [copy_loop].
  - rewrite (bind_ok _ _ _ _ _ (rd_block_nil pre rest _ m eq_refl)).
    rewrite (bind_ok _ _ _ _ _ (wr_mid w x dst _ NUL m eq_refl)). simpl. rewrite ?drop_0. done.
  - apply not_elem_of_cons in Hn as [Hc Hn]. simpl in Hd, Hf.
    rewrite (bind_ok _ _ _ _ _ (rd_block_cons pre c s rest _ m eq_refl)).
    rewrite (bind_ok _ _ _ _ _ (wr_mid w x dst _ c m eq_refl)).
    rewrite decide_False by done. rewrite snoc_app, !at_block_cons.
    replace (length w + 1)%nat with (length (w ++ [Some c])) by (rewrite length_app; done).
    replace (length pre + 1)%nat with (length (pre ++ [Some c])) by (rewrite length_app; done).
    rewrite IH by (done || lia). done.
Qed.

Lemma move_block s : forall w gap rest fuel m,
  NUL ∉ s -> (length s < fuel)%nat ->
  exists rest', length rest' = (length gap + length rest)%nat /\
    move_loop fuel (at_block (w ++ gap) s rest) (length w) (length w + length gap) m
    = Ok (at_block w s rest', m).
Proof.
  induction s as [|c s IH]; intros w gap rest [|fuel] m Hn Hf; try (simpl in Hf; lia); cbn [move_loop].
  - rewrite (bind_ok _ _ _ _ _ (rd_block_nil (w ++ gap) rest _ m (length_app w gap))).
    destruct gap as [|g gap].
    + exists rest. split; [done|]. rewrite app_nil_r. rewrite (bind_ok _ _ _ (at_block w [] rest) m); [done|by apply wr_mid].
    + exists (gap ++ Some NUL :: rest). split; [rewrite length_app; simpl; lia|].
      unfold at_block. rewrite <- app_assoc.
      rewrite (bind_ok _ _ _ (at_block w [] (gap ++ Some NUL :: rest)) m); [done|by apply wr_mid].
  - apply not_elem_of_cons in Hn as [Hc Hn]. simpl in Hf.
    rewrite (bind_ok _ _ _ _ _ (rd_block_cons (w ++ gap) c _ _ _ m (length_app w gap))).
    set (gap' := match gap with [] => [] | _ :: gap => gap ++ [Some c] end).
    assert (Hg : length gap' = length gap) by (unfold gap'; destruct gap; [done|rewrite length_app; simpl; lia]).
    destruct (IH (w ++ [Some c]) gap' rest fuel m Hn ltac:(lia)) as (rest' & Hl & E).
    exists rest'. split; [lia|]. rewrite (at_block_cons w c s rest'). rewrite <- E. rewrite Hg, length_app.
    rewrite (bind_ok _ _ _ (at_block ((w ++ [Some c]) ++ gap') s rest) m).
    { rewrite decide_False by done. simpl length. f_equal; lia. }
    unfold at_block, gap'. destruct gap as [|g gap].
    + rewrite !app_nil_r, <- app_assoc. apply (wr_mid w (Some c) _ _ c m eq_refl).
    + rewrite <- !app_assoc. exact (wr_mid w g _ _ c m eq_refl).
Qed.

Lemma string_block s : forall pre rest fuel m,
  NUL ∉ s -> (length s < fuel)%nat -> string_loop fuel (at_block pre s rest) (length pre) m = Ok (s, m).
Proof.
  induction s as [|c s IH]; intros pre rest [|fuel] m Hn Hf; try (simpl in Hf; lia); cbn [string_loop].
  - by rewrite (bind_ok _ _ _ _ _ (rd_block_nil pre rest _ m eq_refl)).
  - apply not_elem_of_cons in Hn as [Hc Hn]. simpl in Hf.
    rewrite (bind_ok _ _ _ _ _ (rd_block_cons pre c s rest _ m eq_refl)). rewrite decide_False by done.
    rewrite at_block_cons. replace (length pre + 1)%nat with (length (pre ++ [Some c])) by (rewrite length_app; done).
    rewrite (bind_ok _ _ _ s m); [done|]. apply IH; [done|lia].
Qed.

(** A text in a block that was cleared before. *)
Definition padded (cap : nat) s : block := (Some <$> s) ++ replicate (cap - length s) (Some NUL).

Lemma padded_at_block cap s :
  (length s < cap)%nat -> padded cap s = at_block [] s (replicate (cap - length s - 1) (Some NUL)).
Proof.
  intros H. unfold padded, at_block. simpl. f_equal.
  destruct (cap - length s)%nat as [|k] eqn:E; [lia|]. simpl. by rewrite Nat.sub_0_r.
Qed.

Lemma length_padded cap s : (length s <= cap)%nat -> length (padded cap s) = cap.
Proof. intros. unfold padded. rewrite length_app, length_fmap, length_replicate. lia. Qed.

Lemma c_string_padded cap s m : NUL ∉ s -> (length s < cap)%nat -> c_string (padded cap s) m = Ok (s, m).
Proof.
  intros Hn Hl. unfold c_string. rewrite length_padded by lia. rewrite padded_at_block by done.
  apply (string_block s [] _ _ m); [exact Hn|lia].
Qed.

Lemma wr_padded cap s c m : (length s < cap)%nat -> wr (padded cap s) (length s) c m = Ok (padded cap (s ++ [c]), m).
Proof.
  intros Hl. rewrite padded_at_block by done. unfold at_block. simpl.
  rewrite wr_mid by (by rewrite length_fmap). unfold padded. rewrite fmap_app, length_app, <- app_assoc. simpl.
  by replace (cap - (length s + 1))%nat with (cap - length s - 1)%nat by lia.
Qed.

(** [my_csv] on a text with a newline: what the text version returns is what it copies,
    and where it stops. *)
Lemma my_csv_block cap s1 : forall pre rest s2 fuel m,
  NL ∈ s1 -> (length s1 + length s2 <= cap)%nat -> (length s1 <= fuel)%nat ->
  exists d t s', s1 = d ++ s' /\ NL ∈ s' /\ (head s1 <> Some NL -> d <> []) /\
    (length t < cap)%nat /\ (NUL ∉ s1 -> NUL ∉ s2 -> NUL ∉ t) /\
    BnsCsv.my_csv cap s2 s1 m = Ok ((t, s'), m) /\
    my_csv_loop fuel (pre ++ (Some <$> s1) ++ rest) (length pre) (padded cap s2) (length s2) m
    = Ok ((length pre + length d, padded cap t)%nat, m).
Proof.
  induction s1 as [|c s1 IH]; intros pre rest s2 [|fuel] m Hnl Hc Hf; try (simpl in Hf; lia); [by apply not_elem_of_nil in Hnl..|].
  cbn [my_csv_loop BnsCsv.my_csv fmap list_fmap app]. simpl in Hc, Hf.
  rewrite (bind_ok _ _ _ _ _ (rd_mid pre c _ _ m eq_refl)).
  rewrite (proj2 (Nat.ltb_lt (length s2) cap)) by lia.
  destruct (decide (c = NL)) as [->|Hne].
  { exists [], s2, (NL :: s1). rewrite bool_decide_eq_true_2 by done. split_and!; try done; try lia.
    cbn [negb andb length]. rewrite Nat.add_0_r. reflexivity. }
  rewrite (bool_decide_eq_false_2 (c = NL)) by exact Hne. simpl.
  assert (Hnl' : NL ∈ s1) by (apply elem_of_cons in Hnl as [?|?]; [congruence|done]).
  destruct (bool_decide (c = SPACE) || negb (isspace c)) eqn:Hs.
  - destruct (IH (pre ++ [Some c]) rest (s2 ++ [c]) fuel m Hnl') as (d & t & s' & -> & H1 & H2 & H3 & H4 & H5 & H6);
      [rewrite length_app; simpl; lia|lia|].
    exists (c :: d), t, s'. split_and!; try done; [set_solver|].
    rewrite (bind_ok _ _ _ (padded cap (s2 ++ [c])) m) by (apply wr_padded; lia).
    rewrite snoc_app. rewrite !length_app in H6. simpl in H6. rewrite H6. do 3 f_equal. simpl. lia.
  - assert (isspace c = true) as ->.
    { apply orb_false_iff in Hs as [_ Hs]. by apply negb_false_iff in Hs. }
    exists [c], s2, s1. split_and!; try done. lia.
Qed.

End block_lemmas.

(** ** One line *)

Lemma cleared_padded cap : cleared cap = padded cap [].
Proof. unfold cleared, padded. simpl. by rewrite Nat.sub_0_r. Qed.

Lemma icon_switch_padded n t d m :
  NUL ∉ t -> (length t < ICON_BUF)%nat -> icon_switch n (padded ICON_BUF t) d m = icon_field n t d m.
Proof.
  intros Hn Hl. unfold icon_switch, icon_field.
  destruct (n =? 0); [|destruct (n =? 2); [|done]]; by rewrite (bind_ok _ _ _ _ _ (c_string_padded _ _ _ Hn Hl)).
Qed.

(** On a line with a newline the two loops run alike, unless the rounds do not last. *)
Lemma icon_fields_text fuel : forall F s rest n d m,
  NL ∈ s -> NUL ∉ s -> (length s < ICON_BUF)%nat -> (length s < F)%nat -> 0 <= n -> n + Z.of_nat (length s) <= INT_MAX ->
  icon_fields fuel (at_block [] s rest) n d m = csv_loop (fun _ => false) F ICON_BUF icon_field n s d m \/
  (icon_fields fuel (at_block [] s rest) n d m = NoFuel /\ (fuel <= length s)%nat).
Proof.
  induction fuel as [|fuel IH]; intros F s rest n d m Hnl Hn Hl HF Hn0 Hmax;
    (destruct s as [|c s]; [by apply not_elem_of_nil in Hnl|]); (destruct F as [|F]; [simpl in HF; lia|]);
    cbn [icon_fields csv_loop]; rewrite (bind_ok _ _ _ _ _ (rd_block_cons [] c s rest 0 m eq_refl));
    change (char_at (c :: s) 0) with c; (destruct (decide (c = NL)) as [->|Hc]; [by left|]).
  { right. split; [done|lia]. }
  destruct (my_csv_block ICON_BUF (c :: s) [] (Some NUL :: rest) [] (length (at_block [] (c :: s) rest) + 1) m)
    as (dd & t & s' & E & Hnl' & Hd & Ht & Htn & E1 & E2); [done|simpl in *; lia|unfold at_block; rewrite !length_app, length_fmap; simpl; lia|].
  unfold my_csv. rewrite cleared_padded. rewrite (bind_ok _ _ _ _ _ E2). rewrite (bind_ok _ _ _ _ _ E1). cbn [length Nat.add].
  assert (Hdd : (1 <= length dd)%nat) by (destruct dd; [by destruct Hd; [intros [= ?]|]|simpl; lia]).
  assert (Hlen : (length (c :: s) = length dd + length s')%nat) by (by rewrite E, length_app).
  assert (Hs' : NUL ∉ s') by (rewrite E in Hn; by apply not_elem_of_app in Hn as [_ ?]).
  destruct (move_block s' [] (Some <$> dd) rest (length (at_block [] (c :: s) rest) + 1) m Hs') as (rest' & _ & E3).
  { unfold at_block. rewrite !length_app, length_fmap. simpl in *. lia. }
  assert (Eb : at_block [] (c :: s) rest = at_block ([] ++ (Some <$> dd)) s' rest).
  { rewrite E. unfold at_block. by rewrite fmap_app, <- app_assoc. }
  rewrite <- Eb, length_fmap in E3. rewrite (bind_ok (sprintf_move _ _) _ _ _ _ E3).
  pose proof (icon_switch_padded n t d m (Htn Hn ltac:(apply not_elem_of_nil)) Ht) as Esw.
  destruct (icon_field n t d m) as [[d1 m1]| |] eqn:Ef; [|left; unfold mbind, M_bind; by rewrite Esw, Ef..].
  rewrite (bind_ok _ _ _ _ _ Esw), (bind_ok _ _ _ _ _ Ef).
  rewrite (bind_ok _ _ _ (n + 1) m1).
  2: { unfold int_of. rewrite (proj2 (Z.leb_le _ _)), (proj2 (Z.leb_le _ _)); [done|lia|unfold INT_MIN; lia]. }
  cbn [length] in *. destruct (IH F s' rest' (n + 1) d1 m1) as [H|[H ?]]; try done; try lia; [by left|].
  right. split; [done|lia].
Qed.

(** Without one, no round is the last. *)
Lemma wr_no_newline {S} (b b' : block) j c (m m' : S) :
  wr b j c m = Ok (b', m') -> c <> NL -> Some NL ∉ b -> Some NL ∉ b'.
Proof.
  unfold wr. destruct (_ <? _)%nat; [|done]. intros [= <- _] Hc Hb (i & Hi)%list_elem_of_lookup.
  apply list_lookup_insert_Some in Hi as [(_ & [= ?] & _)|[_ Hi]]; [congruence|].
  apply Hb, list_elem_of_lookup. by exists i.
Qed.

Lemma rd_no_newline {S} (b : block) i c (m m' : S) : rd b i m = Ok (c, m') -> Some NL ∉ b -> c <> NL.
Proof.
  unfold rd. destruct (b !! i) as [[x|]|] eqn:E; [|done..]. intros [= <- _] Hb ->.
  apply Hb, list_elem_of_lookup. by exists i.
Qed.

Lemma move_no_newline {S} fuel : forall (b : block) j i (m : S) b' m',
  move_loop fuel b j i m = Ok (b', m') -> Some NL ∉ b -> Some NL ∉ b'.
Proof.
  induction fuel as [|fuel IH]; intros b j i m b' m'; cbn [move_loop]; [done|]. unfold mbind, M_bind.
  destruct (rd b i m) as [[c m1]| |] eqn:E1; [|done..]. destruct (wr b j c m1) as [[b1 m2]| |] eqn:E2; [|done..].
  intros H Hb. pose proof (wr_no_newline _ _ _ _ _ _ E2 (rd_no_newline _ _ _ _ _ E1 Hb) Hb) as Hb1.
  destruct (decide (c = NUL)); [by injection H as <- _|by eapply IH].
Qed.

Lemma icon_fields_no_newline fuel : forall ss2 n d m r, Some NL ∉ ss2 -> icon_fields fuel ss2 n d m <> Ok r.
Proof.
  induction fuel as [|fuel IH]; intros ss2 n d m r Hb; cbn [icon_fields]; unfold mbind, M_bind;
    (destruct (rd ss2 0 m) as [[c m1]| |] eqn:E1; [|done..]); rewrite decide_False by (by eapply rd_no_newline); [done|].
  destruct (my_csv ss2 _ m1) as [[[i tmp] m2]| |]; [|done..].
  destruct (sprintf_move ss2 i m2) as [[b m3]| |] eqn:E2; [|done..].
  destruct (icon_switch n tmp d m3) as [[d1 m4]| |]; [|done..].
  destruct (int_of (n + 1) m4) as [[n1 m5]| |]; [|done..].
  apply IH. by eapply move_no_newline.
Qed.

(** ** [hashpjw] *)

Lemma get_lit key : forall i, String.get i key = lit key !! i.
Proof. induction key as [|c key IH]; intros [|i]; [done..|]. apply IH. Qed.

Lemma hashpjw_loop_text key fuel : forall ptr val,
  (String.length key <= ptr + fuel)%nat -> hashpjw_loop fuel key ptr val = BnsHash.hashpjw_loop val (drop ptr (lit key)).
Proof.
  assert (Hlen : length (lit key) = String.length key) by (induction key; [done|]; simpl; by f_equal).
  induction fuel as [|fuel IH]; intros ptr val Hl; cbn [hashpjw_loop]; rewrite get_lit;
    (destruct (lit key !! ptr) as [c|] eqn:E; [|by rewrite drop_ge by (by apply lookup_ge_None)]).
  - apply lookup_lt_Some in E. lia.
  - rewrite (drop_S _ _ _ E). cbn [BnsHash.hashpjw_loop]. rewrite IH by lia. by rewrite Nat.add_1_r.
Qed.

Lemma hashpjw_eq : hashpjw = BnsHash.hashpjw.
Proof.
  apply functional_extensionality. intros key. unfold hashpjw, BnsHash.hashpjw.
  rewrite hashpjw_loop_text by lia. by rewrite drop_0.
Qed.

(** ** The whole file *)

(** What [c] returns, [c'] returns. *)
Definition below {S A} (c c' : M S A) : Prop := forall m r, c m = Ok r -> c' m = Ok r.

Lemma below_refl {S A} (c : M S A) : below c c.
Proof. by intros m r. Qed.

Lemma below_bind {S A B} (c c' : M S A) (k k' : A -> M S B) (P : A -> Prop) :
  below c c' -> (forall m a m', c' m = Ok (a, m') -> P a) -> (forall a, P a -> below (k a) (k' a)) ->
  below (c ≫= k) (c' ≫= k').
Proof.
  intros Hc HP Hk m r. unfold mbind, M_bind. destruct (c m) as [[a m1]| |] eqn:E; [|done..].
  apply Hc in E. rewrite E. apply Hk. by eapply HP.
Qed.

Lemma below_bind_any {S A B} (c c' : M S A) (k k' : A -> M S B) :
  below c c' -> (forall a, below (k a) (k' a)) -> below (c ≫= k) (c' ≫= k').
Proof. intros Hc Hk. eapply (below_bind _ _ _ _ (fun _ => True)); eauto. Qed.

(** A first step whose result does not depend on the state. *)
Lemma below_step_l {S A B} (c : M S A) a (k : A -> M S B) c' :
  (forall m, c m = Ok (a, m)) -> below (k a) c' -> below (c ≫= k) c'.
Proof. intros Hc Hk m r. rewrite (bind_ok _ _ _ _ _ (Hc m)). apply Hk. Qed.
Lemma below_step_r {S A B} (c : M S A) a (k : A -> M S B) c' :
  (forall m, c m = Ok (a, m)) -> below c' (k a) -> below c' (c ≫= k).
Proof. intros Hc Hk m r Hr. rewrite (bind_ok _ _ _ _ _ (Hc m)). by apply Hk. Qed.

Lemma ICON_BUF_val : Z.of_nat ICON_BUF = 1025.
Proof. reflexivity. Qed.
Lemma ICON_BUF_size : (1024 + 1)%nat = ICON_BUF.
Proof. reflexivity. Qed.
#[local] Opaque ICON_BUF.

Section file.
Implicit Types (line : text) (fpi : FILE) (T : table).

Lemma take_line_split k : forall s, s = (take_line k s).1.1 ++ (take_line k s).1.2 /\ (length (take_line k s).1.1 <= k)%nat.
Proof.
  induction k as [|k IH]; intros [|c s]; simpl; [split; [done|lia]..|]. case_decide; simpl; [split; [done|lia]|].
  destruct (IH s) as [E Hl]. destruct (take_line k s) as [[line rest] e]. simpl in *. split; [by f_equal|lia].
Qed.

Lemma fgets_no_nul size fpi :
  NUL ∉ f_rest fpi -> NUL ∉ (fgets size fpi).1 /\ NUL ∉ f_rest (fgets size fpi).2 /\ (length (fgets size fpi).1 <= size - 1)%nat.
Proof.
  unfold fgets. destruct (take_line_split (size - 1) (f_rest fpi)) as [E Hl].
  destruct (take_line _ _) as [[line rest] e]. simpl in *. rewrite E, not_elem_of_app. tauto.
Qed.

(** The block [ss2] once the line has been copied. *)
Definition line_block (malloced : block) line : block := at_block [] line (drop (length line + 1) malloced).

Lemma sprintf_line malloced line (m : tmem) :
  NUL ∉ line -> (length line < ICON_BUF)%nat -> length malloced = ICON_BUF ->
  sprintf_s malloced (store_line (cleared ICON_BUF) line) m = Ok (line_block malloced line, m).
Proof.
  intros Hn Hl Hm. assert (E : store_line (cleared ICON_BUF) line = padded ICON_BUF line).
  { unfold store_line, cleared, padded. by rewrite drop_replicate. }
  rewrite E. unfold sprintf_s. rewrite length_padded by lia. rewrite padded_at_block by done.
  apply (copy_block line [] malloced [] (replicate (ICON_BUF - length line - 1) (Some NUL)) (ICON_BUF + 1) m Hn); [by rewrite Hm|lia].
Qed.

Lemma line_block_no_newline malloced line : NL ∉ line -> Some NL ∉ malloced -> Some NL ∉ line_block malloced line.
Proof.
  intros H Hm. unfold line_block, at_block. rewrite !not_elem_of_app, not_elem_of_cons. split_and!; [apply not_elem_of_nil| |done|].
  - by intros (c & [= <-] & Hc)%list_elem_of_fmap.
  - intros Hin. apply Hm. eapply elem_of_submseteq; [exact Hin|]. apply sublist_submseteq, sublist_drop.
Qed.

(** A row, byte by byte and on texts. *)
Lemma row_below fuel malloced line d :
  NUL ∉ line -> (length line < ICON_BUF)%nat -> length malloced = ICON_BUF -> Some NL ∉ malloced ->
  below (icon_fields fuel (line_block malloced line) 0 d) (csv_row (fun _ => false) ICON_BUF icon_field line d).
Proof.
  intros Hn Hl Hlen Hm m r Hr. destruct (decide (NL ∈ line)) as [Hnl|Hnl].
  2: { by destruct (icon_fields_no_newline _ _ _ _ _ _ (line_block_no_newline malloced line Hnl Hm) Hr). }
  destruct (icon_fields_text fuel (S (length line)) line (drop (length line + 1) malloced) 0 d m) as [H|[H _]];
    try done; try lia; [pose proof ICON_BUF_val; unfold INT_MAX; lia| |].
  - exact (eq_trans (eq_sym H) Hr).
  - unfold line_block in Hr. by rewrite H in Hr.
Qed.

Lemma row_above malloced line d :
  NUL ∉ line -> (length line < ICON_BUF)%nat -> length malloced = ICON_BUF ->
  below (csv_row (fun _ => false) ICON_BUF icon_field line d) (icon_fields ICON_BUF (line_block malloced line) 0 d).
Proof.
  intros Hn Hl Hlen m r Hr. destruct (decide (NL ∈ line)) as [Hnl|Hnl].
  2: { by apply csv_row_no_newline in Hr. }
  destruct (icon_fields_text ICON_BUF (S (length line)) line (drop (length line + 1) malloced) 0 d m) as [H|[_ H]];
    try done; try lia; [pose proof ICON_BUF_val; unfold INT_MAX; lia|].
  exact (eq_trans H Hr).
Qed.

Lemma hash_round_rest T fpi m ret T' fpi' m' :
  hash_round 1024 icon_field T fpi m = Ok ((ret, T', fpi'), m') -> fpi' = (fgets 1024 fpi).2.
Proof.
  unfold hash_round. destruct (fgets 1024 fpi) as [line fp]. unfold mbind, M_bind.
  destruct (alloc m) as [[[] m1]| |]; [|done..]. destruct (malloc_array 1 m1) as [[[] m2]| |]; [| |done..]. 2: { intros H. by inversion H. }
  cbv beta iota. destruct (csv_row (fun _ => false) (1024 + 1) icon_field line (None, None) m2) as [[d m3]| |]; [|done..]. destruct d.1; [|done].
  destruct (chtbl_insert_kv _ _ m3) as [[[x T1] m4]| |]; [|done..]. intros H. by inversion H.
Qed.

Lemma icon_round_text fuel malloced T fpi :
  NUL ∉ f_rest fpi -> length malloced = ICON_BUF ->
  (Some NL ∉ malloced -> below (icon_round fuel malloced T fpi) (hash_round 1024 icon_field T fpi)) /\
  below (hash_round 1024 icon_field T fpi) (icon_round ICON_BUF malloced T fpi).
Proof.
  intros Hn Hlm. destruct (fgets_no_nul 1024 fpi Hn) as (Hline & _ & Hlen). unfold icon_round, hash_round.
  destruct (fgets 1024 fpi) as [line fp]. simpl fst in *. rewrite ICON_BUF_size.
  assert (Hl : (length line < ICON_BUF)%nat) by (pose proof ICON_BUF_val; lia).
  split; [intros Hnl|]; (apply below_bind_any; [apply below_refl|intros _]);
    [eapply below_step_l|eapply below_step_r]; try (intros m; by apply sprintf_line);
    (apply below_bind_any; [apply below_refl|intros [|]; [|apply below_refl]]);
    (apply below_bind_any; [by apply row_below || by apply row_above|intros d; apply below_refl]).
Qed.

Lemma icon_loop_text rounds fuel mallocs : forall i T fpi,
  NUL ∉ f_rest fpi -> (forall i, length (mallocs i) = ICON_BUF) ->
  ((forall i, Some NL ∉ mallocs i) -> below (icon_loop rounds fuel mallocs i T fpi) (hash_loop rounds 1024 icon_field T fpi)) /\
  below (hash_loop rounds 1024 icon_field T fpi) (icon_loop rounds ICON_BUF mallocs i T fpi).
Proof.
  induction rounds as [|rounds IH]; intros i T fpi Hn Hlm; cbn [icon_loop hash_loop];
    (destruct (f_eof fpi); [split; [intros _|]; apply below_refl|]); [split; [intros _|]; apply below_refl|].
  destruct (icon_round_text fuel (mallocs i) T fpi Hn (Hlm i)) as [H1 H2]. destruct (fgets_no_nul 1024 fpi Hn) as (_ & Hn' & _).
  split.
  - intros Hnl. apply (below_bind _ _ _ _ (fun a => a.2 = (fgets 1024 fpi).2)); [by apply H1| |].
    + intros m [[ret T'] fpi'] m' E. by eapply hash_round_rest.
    + intros [[[x|] T'] fpi']; simpl; intros ->; [apply below_refl|by apply IH].
  - intros m r. unfold mbind, M_bind. destruct (hash_round _ _ _ _ m) as [[[[ret T'] fpi'] m']| |] eqn:E; [|done..].
    rewrite (H2 _ _ E). apply hash_round_rest in E as ->. destruct ret; [done|]. by apply IH.
Qed.

(** C37: [create_icon_hash] of weapon_handle.c, with its buffers byte by byte, against the
    routine on texts that bns_hash.c is read as, on a file without NUL characters.  What
    that one returns, this one returns, for some number of rounds of its inner loop, with
    the same table and memory, whatever is in the blocks [malloc] returns; and it returns
    nothing else as long as there is no newline in these blocks.  Each line with a newline
    has the same outcome, faults included, whatever lies in the block behind the text; and
    on a line without a newline, with none behind it in the block, no number of rounds ends
    the loop. *)
Theorem create_icon_hash_equivalent T junk file mallocs :
  NUL ∉ default [] file -> (forall i, length (mallocs i) = ICON_BUF) ->
  (forall m r, BnsHash.create_icon_hash T junk file m = Ok r -> exists fuel, create_icon_hash fuel mallocs T junk file m = Ok r) /\
  ((forall i, Some NL ∉ mallocs i) ->
   forall m r, (exists fuel, create_icon_hash fuel mallocs T junk file m = Ok r) <-> BnsHash.create_icon_hash T junk file m = Ok r) /\
  (forall line rest fuel data m, NL ∈ line -> NUL ∉ line -> (length line < ICON_BUF)%nat -> (length line < fuel)%nat ->
     icon_fields fuel (at_block [] line rest) 0 data m = csv_row (fun _ => false) ICON_BUF icon_field line data m) /\
  (forall line rest fuel data m r, NL ∉ line -> Some NL ∉ rest -> icon_fields fuel (at_block [] line rest) 0 data m <> Ok r).
Proof.
  intros Hfile Hlm.
  assert (H1 : forall m r, BnsHash.create_icon_hash T junk file m = Ok r -> exists fuel, create_icon_hash fuel mallocs T junk file m = Ok r).
  { intros m r. unfold create_icon_hash, BnsHash.create_icon_hash, create_hash.
    destruct file as [contents|]; [|intros ?; by exists 0%nat]. rewrite hashpjw_eq. unfold mbind, M_bind.
    destruct (chtbl_init_kv _ _ _ _ _ _ m) as [[[x T'] m1]| |]; [|done..].
    destruct (x =? 0); [|intros ?; by exists 0%nat]. intros Hr. exists ICON_BUF. by apply (icon_loop_text _ 0). }
  split_and!; [exact H1| | |].
  - intros Hnl m r. split; [|apply H1]. unfold create_icon_hash, BnsHash.create_icon_hash, create_hash.
    destruct file as [contents|]; [|by intros [_ ?]]. rewrite hashpjw_eq. unfold mbind, M_bind.
    destruct (chtbl_init_kv _ _ _ _ _ _ m) as [[[x T'] m1]| |]; [|by intros [_ ?]..].
    destruct (x =? 0); [|by intros [_ ?]]. intros [fuel Hr]. revert Hr. by apply (icon_loop_text _ fuel).
  - intros line rest fuel data m Hnl Hn Hl Hf.
    destruct (icon_fields_text fuel (S (length line)) line rest 0 data m) as [H|[_ H]]; try done; try lia.
    pose proof ICON_BUF_val. unfold INT_MAX. lia.
  - intros line rest fuel data m r Hnl Hrest. apply icon_fields_no_newline. unfold at_block.
    rewrite !not_elem_of_app, not_elem_of_cons. split_and!; [apply not_elem_of_nil| |done|done].
    by intros (c & [= <-] & Hc)%list_elem_of_fmap.
Qed.

End file.

(** ** A last line without a newline can keep the loop going *)

(** What is left in [ss2] of the line [8583<tab>x] after the first round: the second
    round copies past the end of the text up to the old tab, and leaves the block as
    it was. *)
Definition ex_stale : block := [Some "x"%char; Some NUL; Some "8"%char; Some "3"%char; Some TAB; Some "x"%char; Some NUL].
Definition ex_tail : block := replicate 1018 None.
Definition ex_tmp : block := padded ICON_BUF ["x"%char; NUL; "8"%char; "3"%char].

Lemma stale_round (m : tmem) :
  my_csv (ex_stale ++ ex_tail) (cleared ICON_BUF) m = Ok ((5%nat, ex_tmp), m) /\
  sprintf_move (ex_stale ++ ex_tail) 5 m = Ok (ex_stale ++ ex_tail, m) /\ c_string ex_tmp m = Ok (["x"%char], m).
Proof. split_and!; vm_compute; reflexivity. Qed.

Lemma stale_never_ends fuel : forall n d (m : tmem),
  oracle m = [] -> 0 <= n -> n + Z.of_nat fuel <= INT_MAX ->
  icon_fields fuel (ex_stale ++ ex_tail) n d m = NoFuel.
Proof.
  induction fuel as [|fuel IH]; intros n d m Ho Hn Hmax; [done|]. cbn [icon_fields].
  destruct (stale_round m) as (E1 & E2 & E3).
  rewrite (bind_ok _ _ _ "x"%char m) by done. rewrite decide_False by done.
  rewrite (bind_ok _ _ _ _ _ E1), (bind_ok _ _ _ _ _ E2).
  assert (Esw : exists d', icon_switch n ex_tmp d m = Ok (d', m)).
  { unfold icon_switch. destruct (n =? 0); [|destruct (n =? 2); [|by eexists]];
      rewrite (bind_ok _ _ _ _ _ E3), (bind_ok _ _ _ _ _ (alloc_ok m Ho)); by eexists. }
  destruct Esw as [d' Esw]. rewrite (bind_ok _ _ _ _ _ Esw), (bind_ok _ _ _ (n + 1) m); [apply IH; [done|lia..]|].
  unfold int_of. by rewrite (proj2 (Z.leb_le _ _)), (proj2 (Z.leb_le _ _)) by (unfold INT_MIN; lia).
Qed.

Lemma last_line_never_ends fuel (m : tmem) :
  oracle m = [] -> Z.of_nat fuel <= INT_MAX ->
  icon_fields fuel (line_block (fresh_block ICON_BUF) (lit "8583" ++ TAB :: lit "x")) 0 (None, None) m = NoFuel.
Proof.
  intros Ho Hf. destruct fuel as [|fuel]; [done|]. cbn [icon_fields].
  rewrite (bind_ok _ _ _ "8"%char m) by done. rewrite decide_False by done.
  rewrite (bind_ok _ _ _ (5%nat, padded ICON_BUF (lit "8583")) m) by (vm_compute; reflexivity).
  cbv beta iota. rewrite (bind_ok _ _ _ (ex_stale ++ ex_tail) m) by (vm_compute; reflexivity).
  rewrite (bind_ok _ _ _ ((Some (lit "8583"), None) : entry) m).
  2: { unfold icon_switch. rewrite Z.eqb_refl. rewrite (bind_ok _ _ _ (lit "8583") m) by (vm_compute; reflexivity). by rewrite (bind_ok _ _ _ _ _ (alloc_ok m Ho)). }
  rewrite (bind_ok _ _ _ 1 m) by done. apply stale_never_ends; [done|lia..].
Qed.

(** ** A block of an earlier round lets the function end *)

(** What the loop has left of the line [7<tab>a<tab>A] in its block, which is freed. *)
Definition ex_left : block :=
  [Some NL; Some NUL; Some NUL; Some NL; Some NUL; Some NL; Some NUL] ++ replicate 1018 None.

Lemma left_by_the_line (m : tmem) :
  let line := lit "7" ++ TAB :: lit "a" ++ TAB :: lit "A" ++ [NL] in
  exists s1 s2, sprintf_move (line_block (fresh_block ICON_BUF) line) 2 m = Ok (s1, m) /\ sprintf_move s1 2 m = Ok (s2, m) /\
    sprintf_move s2 1 m = Ok (ex_left, m).
Proof. eexists. eexists. split_and!; vm_compute; reflexivity. Qed.

(** With a new block for the line, and that block for the round after it, which reads
    nothing more, the function returns 0; there is an entry for the empty key, too. *)
Example stale_block_succeeds :
  match create_icon_hash 4 (fun i => if (i =? 0)%nat then fresh_block ICON_BUF else ex_left) chtbl_zero ex_junk
          (Some (lit "7" ++ TAB :: lit "a" ++ TAB :: lit "A" ++ [NL])) ex_kv_mem with
  | Ok ((r, T), _) => r = 0 /\ t_size T = 2
  | _ => False
  end.
Proof. vm_compute. split; reflexivity. Qed.

(** ** Witness *)

(** The second line has the key of the first: the function returns 1. *)
Definition ex_file : text := lit "7" ++ TAB :: lit "a" ++ TAB :: lit "A" ++ NL :: lit "7" ++ TAB :: lit "b" ++ TAB :: lit "B" ++ [NL].

Lemma create_icon_hash_equivalent_witness :
  exists fuel T m, create_icon_hash fuel (fun _ => ex_left) chtbl_zero ex_junk (Some ex_file) ex_kv_mem = Ok ((1, T), m).
Proof.
  assert (Hn : NUL ∉ default [] (Some ex_file)) by (apply (bool_decide_unpack _); vm_compute; exact I).
  assert (Hr : match BnsHash.create_icon_hash chtbl_zero ex_junk (Some ex_file) ex_kv_mem with Ok ((r, _), _) => r =? 1 | _ => false end = true)
    by (vm_compute; reflexivity).
  destruct (BnsHash.create_icon_hash chtbl_zero ex_junk (Some ex_file) ex_kv_mem) as [[[r T] m]| |] eqn:E; [|discriminate Hr..].
  apply Z.eqb_eq in Hr as ->.
  destruct (create_icon_hash_equivalent chtbl_zero ex_junk (Some ex_file) (fun _ => ex_left) Hn) as [H _]; [intros i; reflexivity|].
  destruct (H ex_kv_mem ((1, T), m) E) as [fuel Hf]. exists fuel, T, m. exact Hf.
Defined.
