(* ===== verification/BnsPrint.v ===== *)
(** * [print_table] of [src/lib/app/bns/bns_hash.c]

    The size of a table and, bucket after bucket, its entries are printed. *)

From stdpp Require Import prelude gmap list strings.
From Stdlib Require Import ZArith Lia.
From S2P Require Import Prelude CList CHashTable BnsHash.

Inductive piece := TableSize (n : Z) | Bucket (i : Z) | Entry (key value : string) | EndOfLine.

(** [for (element = list_head(..); element != NULL; element = list_next(element))] *)
Fixpoint print_bucket (fuel : nat) (element : ptr) : M tmem (list piece) :=
  match element with
  | None => mret []
  | Some _ =>
      match fuel with
      | O => no_fuel
      | S fuel =>
          el ← load element;
          match kv_value (e_data el) with
          | None => throw Uninitialised
          | Some v => ps ← print_bucket fuel (e_next el); mret (Entry (kv_key (e_data el)) v :: ps)
          end
      end
  end.

(** [n] buckets from [i] on *)
Fixpoint print_buckets (htbl : table) (n : nat) (i : Z) : M tmem (list piece) :=
  match n with
  | O => mret []
  | S n =>
      L ← table_get htbl i;
      fuel ← gets walk_fuel;
      ps ← print_bucket fuel (l_head L);
      qs ← print_buckets htbl n (i + 1);
      mret (Bucket i :: ps ++ EndOfLine :: qs)
  end.

Definition print_table (htbl : table) : M tmem (list piece) :=
  ps ← print_buckets htbl (Z.to_nat PRIME_TBLSIZ) 0;
  mret (TableSize (t_size htbl) :: ps).

(** ** What is printed *)

Definition piece_of (d : SweetListKv) : piece := Entry (kv_key d) (default "" (kv_value d)).
Definition has_value (d : SweetListKv) : Prop := is_Some (kv_value d).

Definition is_entry (p : piece) : bool := match p with Entry _ _ => true | _ => false end.

Lemma print_bucket_ok p ls xs (m : tmem) fuel :
  lseg (cells m) p ls xs NULL -> Forall has_value xs -> (length ls < fuel)%nat ->
  print_bucket fuel p m = Ok (piece_of <$> xs, m).
Proof.
  revert p ls xs. induction fuel as [|fuel IH]; intros p ls xs Hs HF Hf; [lia|].
  destruct ls as [|l ls], xs as [|x xs]; simpl in Hs; try done; [by subst p|].
  destruct Hs as (-> & nx & Hl & Hs). apply Forall_cons in HF as [[v Hv] HF]. simpl. unfold mbind, M_bind, load. rewrite Hl. simpl. rewrite Hv.
  simpl in Hf. rewrite (IH nx ls xs Hs HF) by lia. unfold piece_of at 2. by rewrite Hv.
Qed.

Lemma print_buckets_ok `{HQ : Hashing string SweetListKv Q} b tab (T : table) reps (m : tmem) n : forall k,
  t_table T = Some tab -> buckets_ok (cells m) b tab reps -> Forall has_value (elems reps) -> (k + n = length reps)%nat ->
  print_buckets T n (Z.of_nat k) m =
    Ok (concat (imap (fun i r => Bucket (Z.of_nat (k + i)) :: (piece_of <$> r.2) ++ [EndOfLine]) (drop k reps)), m).
Proof.
  induction n as [|n IH]; intros k Ht Hb HF Hk; cbn [print_buckets]; [rewrite drop_ge by lia; done|].
  destruct (lookup_lt_is_Some_2 reps k ltac:(lia)) as [[ls xs] Hr]. pose proof (bo_length _ _ _ _ Hb) as Hlen.
  destruct (lookup_lt_is_Some_2 tab k ltac:(lia)) as [L HL]. destruct (bo_list _ _ _ _ Hb k L _ HL Hr) as [Hlist _].
  unfold mbind, M_bind, table_get. rewrite Ht. rewrite (proj2 (Z.ltb_ge _ _)) by lia. rewrite Nat2Z.id, HL. unfold mret at 1, M_ret at 1, gets.
  assert (HFx : Forall has_value xs).
  { apply Forall_forall. intros d Hd. eapply Forall_forall; [exact HF|]. apply elem_of_elems. by exists k, (ls, xs). }
  pose proof (walk_fuel_enough L ls xs m Hlist) as Hfuel. destruct Hlist as [Hseg _ _ _]. rewrite (print_bucket_ok _ ls xs m _ Hseg HFx Hfuel).
  replace (Z.of_nat k + 1) with (Z.of_nat (S k)) by lia. rewrite (IH (S k)) by (done || lia). unfold mret, M_ret.
  rewrite (drop_S reps (ls, xs) k Hr). cbn [imap concat]. do 2 f_equal. cbn [snd]. rewrite Nat.add_0_r. cbn [app]. f_equal. rewrite <- app_assoc. cbn [app].
  do 2 f_equal. f_equal. apply imap_ext. intros i r _. simpl. do 2 f_equal. lia.
Qed.

Lemma filter_pieces xs : List.filter is_entry (piece_of <$> xs) = piece_of <$> xs.
Proof. induction xs as [|x xs IH]; [done|]. rewrite fmap_cons. cbn [List.filter is_entry piece_of]. by rewrite IH. Qed.

(** [print_table] prints, without a fault and without changing anything, the number of
    entries and every entry of the table once, in the order of the buckets. *)
Lemma print_table_ok `{HQ : Hashing string SweetListKv Q, Countable Q} T reps mp (m : tmem) :
  is_table (cells m) T reps mp -> t_buckets T = PRIME_TBLSIZ -> Forall has_value (elems reps) ->
  exists out, print_table T m = Ok (TableSize (Z.of_nat (length (elems reps))) :: out, m) /\
    List.filter is_entry out = piece_of <$> elems reps.
Proof.
  intros [_ _ (tab & Ht & _ & Hbk & Hb) Hsz _ _] Hn HF. unfold print_table, mbind, M_bind.
  pose proof (bo_length _ _ _ _ Hb) as Hlen. rewrite Hbk in Hn.
  rewrite (print_buckets_ok (t_destroy T) tab T reps m _ 0%nat Ht Hb HF) by (rewrite <- Hlen; unfold PRIME_TBLSIZ in *; lia).
  unfold mret, M_ret. rewrite Hsz. eexists. split; [reflexivity|]. rewrite drop_0. unfold elems. clear.
  generalize 0%nat. induction reps as [|[ls xs] reps IH]; intros k; [done|]. cbn [imap concat fmap list_fmap snd].
  cbn [app List.filter is_entry]. rewrite <- app_assoc, List.filter_app. cbn [app List.filter is_entry]. rewrite filter_pieces. rewrite fmap_app. f_equal.
  rewrite <- (IH (S k)). do 2 f_equal. apply imap_ext. intros i r _. simpl. do 2 f_equal. lia.
Qed.
