(* ===== verification/BnsPrograms.v ===== *)
(** * The table converters of [src/lib/app/bns]

    [weapon_info.c], [weapon_handle.c], [real_weapon.c], [gem_handle.c],
    [gem_effect.c] and [real_gem.c]: each reads a table line by line and prints,
    for the rows of the wanted items, one JSON object per row, field by field
    (the [switch (n)] on the column number).  Output is a text; POSIX
    [regcomp]/[regexec] are a parameter.  A double quote of the source is written
    as a single quote inside [J]. *)

From stdpp Require Import prelude gmap list strings pretty.
From Stdlib Require Import ZArith Lia Ascii.
From S2P Require Import Prelude CList CHashTable CString BnsCsv BnsHash.

(** ** Literals, numbers *)

Definition QUOTE : ascii := "034".

(** A literal whose single quotes stand for double quotes. *)
Definition J (s : string) : text :=
  map (fun c => if decide (c = "'"%char) then QUOTE else c) (lit s).
Arguments J s%_string.

(** [%d] *)
Definition dec (z : Z) : text := lit (pretty z).

(** [atoi]: white space, a sign, digits; a value out of range is undefined. *)
Fixpoint digits (acc : Z) (s : text) : Z :=
  match s with
  | c :: s' => if isdigit c then digits (acc * 10 + (code c - 48)) s' else acc
  | [] => acc
  end.

Fixpoint skip_space (s : text) : text :=
  match s with c :: s' => if isspace c then skip_space s' else s | [] => [] end.

Definition atoi_value (s : text) : Z :=
  match skip_space s with
  | c :: s' =>
      if decide (c = "-"%char) then - digits 0 s'
      else if decide (c = "+"%char) then digits 0 s'
      else digits 0 (c :: s')
  | [] => 0
  end.

Definition atoi {S} (s : text) : M S Z := int_of (atoi_value s).

(** ** [filter_regex] of bns_regex.c *)

(** What [regexec] says of a compiled pattern and a string: the substrings of
    the whole match and of the groups, in order. *)
Inductive regex_result :=
| RegError
| NoMatch
| Matched (groups : list text).

(** The last group copied wins; every copy must fit the static buffer. *)
Fixpoint copy_groups {S} (matched : text) (groups : list text) : M S text :=
  match groups with
  | [] => mret matched
  | g :: groups =>
      if (length g <? 1024)%nat then copy_groups g groups else throw OutOfBounds
  end.

Definition filter_regex {S} (regexec : text -> text -> regex_result) (pattern src : text)
  : M S (option text) :=
  match regexec pattern src with
  | RegError | NoMatch => mret None
  | Matched groups => t ← copy_groups [] groups; mret (Some t)
  end.

(** ** The state of a program *)

(** The memory of the hash tables, what was printed, and [__strntok]. *)
Record world := World { w_mem : tmem; w_out : text; w_tok : option text }.

Definition in_mem {A} (c : M tmem A) : M world A := fun w =>
  match c (w_mem w) with
  | Ok (a, m) => Ok (a, World m (w_out w) (w_tok w))
  | Err f => Err f
  | NoFuel => NoFuel
  end.

Definition in_tok {A} (c : M (option text) A) : M world A := fun w =>
  match c (w_tok w) with
  | Ok (a, t) => Ok (a, World (w_mem w) (w_out w) t)
  | Err f => Err f
  | NoFuel => NoFuel
  end.

Definition print (t : text) : M world unit := fun w =>
  Ok (tt, World (w_mem w) (w_out w ++ t) (w_tok w)).

(** A pointer used as a string. *)
Definition deref {S} (p : option text) : M S text :=
  match p with Some t => mret t | None => throw NullDeref end.

(** The variables of [main] that live across fields: [block], [tmp_id] and
    [atk_min] are reset in every row; [loc_2] and [ptr3] are not ([ptr3]'s
    entries are [None] until they are assigned); [ret] is the value of a [return]
    taken inside the row. *)
Record locals := Locals {
  block : bool;
  tmp_id : Z;
  atk_min : option text;
  loc_2 : Z;
  ptr3 : list (option (option text));
  ret : option Z;
}.

Definition set_block l := Locals true (tmp_id l) (atk_min l) (loc_2 l) (ptr3 l) (ret l).
Definition set_id z l := Locals (block l) z (atk_min l) (loc_2 l) (ptr3 l) (ret l).
Definition set_atk p l := Locals (block l) (tmp_id l) p (loc_2 l) (ptr3 l) (ret l).
Definition set_loc_2 z l := Locals (block l) (tmp_id l) (atk_min l) z (ptr3 l) (ret l).
Definition set_ptr3 a l := Locals (block l) (tmp_id l) (atk_min l) (loc_2 l) a (ret l).
Definition set_ret r l := Locals (block l) (tmp_id l) (atk_min l) (loc_2 l) (ptr3 l) (Some r).

Definition locals0 : locals := Locals false 0 None 0 (replicate 6 None) None.
Definition new_row l : locals := Locals false 0 None (loc_2 l) (ptr3 l) (ret l).

(** A table object; [None] while it is uninitialised. *)
Definition tab := option table.
Record tables := Tables { t_icon : tab; t_set3 : tab; t_set5 : tab; t_set8 : tab; t_equip : tab }.

(** [chtbl_find_kv(&htbl, &data)->value], where [data] has only its key: the
    [value] of the caller's own entry was never assigned. *)
Definition find_value (t : tab) (key : text) : M world text :=
  match t with
  | None => throw Uninitialised
  | Some htbl =>
      e ← in_mem (chtbl_find_kv htbl (Kv (str key) None));
      match kv_value e with Some v => mret (lit v) | None => throw Uninitialised end
  end.

(** The token loops: [p = strntok(s, d, n); while (p != NULL) { body;
    p = strntok(__strntok, d, n); }].  Every token but the last takes at least one
    character. *)
Fixpoint tokens_loop {X} (fuel : nat) (s1 : option text) (d : text) (n : Z)
    (body : text -> X -> M world X) (x : X) : M world X :=
  match fuel with
  | O => no_fuel
  | S fuel =>
      p ← in_tok (strntok s1 d n);
      match p with
      | None => mret x
      | Some t =>
          x ← body t x;
          rest ← in_tok get;
          tokens_loop fuel rest d n body x
      end
  end.

Definition tokens {X} (s d : text) (n : Z) (body : text -> X -> M world X) (x : X) : M world X :=
  tokens_loop (S (S (length s))) (Some s) d n body x.

(** [switch (n)]: the first case with the number, [dflt] when there is none. *)
Fixpoint switch {A} (n : Z) (cases : list (Z * A)) (dflt : A) : A :=
  match cases with
  | [] => dflt
  | (k, a) :: cases => if n =? k then a else switch n cases dflt
  end.

(** [if (!strcmp(tmp, k1)) printf(v1); else if ...] *)
Fixpoint print_for (tmp : text) (cases : list (text * text)) : M world unit :=
  match cases with
  | [] => mret tt
  | (k, v) :: cases => if decide (tmp = k) then print v else print_for tmp cases
  end.

(** A case that only prints. *)
Definition out (l : locals) (t : text) : M world locals := _ ← print t; mret l.

Section programs.
Context (regexec : text -> text -> regex_result).

Definition regex (pattern : string) (src : text) : M world (option text) :=
  filter_regex regexec (J pattern) src.

Definition regex_patten : string := "<[0-9a-zA-Z]+\s[0-9a-zA-Z_='\.]+>(.*)</font".
Definition regex_icon : string := "([0-9]+),[0-9]+,[0-9]+".
Definition regex_loc_k : string := "path=''[0-9\.]+([a-zA-Z_]+)''".
Definition regex_loc_v : string := "<image.*/>(.*)'{0,1}".
Definition regex_consum : string := "item:([0-9]+)".
Definition regex_set_item : string := "set-item:([0-9]+)".
Definition regex_effect : string := "effect:([0-9]+)".

(** [case 232] of the four programs with an icon table *)
Definition print_icon (tabs : tables) (tmp : text) (l : locals) : M world locals :=
  ok ← in_mem (malloc_array 1);
  if ok : bool then
    k ← regex regex_icon tmp;
    k ← deref k;
    _ ← in_mem alloc;
    v ← find_value (t_icon tabs) k;
    out l (J "'icon':'" ++ v ++ J "',")
  else mret (set_ret 1 l).

(** [case 266]: the places an item is found at *)
Definition print_location (tmp : text) (l : locals) : M world locals :=
  _ ← print (J "'location':[");
  _ ← tokens tmp (lit "<br/>") 5 (fun ptr1 loc_i =>
        k ← regex regex_loc_k ptr1;
        match k with
        | None => mret loc_i
        | Some k =>
            _ ← (if loc_i >? 0 then print (lit ",") else mret tt);
            k ← str_tolower k;
            _ ← print (J "['" ++ k ++ J "',");
            v ← regex regex_loc_v ptr1;
            v ← deref v;
            v ← str_delchar v (J "'");
            _ ← print (J "'" ++ v ++ J "']");
            int_of (loc_i + 1)
        end) 0;
  out l (lit "],").

(** [case 34] *)
Definition print_grade (tmp : text) (l : locals) : M world locals :=
  if decide (tmp = lit "7") then out l (J "'item_grade':'6',")
  else out l (J "'item_grade':'" ++ tmp ++ J "',").

(** [printf("\"key\":%s,", tmp_title)] and [printf("\"key\":\"%s\",", tmp_title)] *)
Definition num_field (key : string) (tmp : text) (l : locals) : M world locals :=
  out l (J "'" ++ lit key ++ J "':" ++ tmp ++ lit ",").
Definition str_field (key : string) (tmp : text) (l : locals) : M world locals :=
  out l (J "'" ++ lit key ++ J "':'" ++ tmp ++ J "',").

(** [(atoi(atk_min) + atoi(tmp_title)) / 2] *)
Definition atk_mean (tmp : text) (l : locals) : M world Z :=
  a ← deref (atk_min l);
  a ← atoi a;
  b ← atoi tmp;
  s ← int_of (a + b);
  mret (Z.quot s 2).

(** [case 260] *)
Definition print_description (tmp : text) (l : locals) : M world locals :=
  t ← regex regex_patten tmp;
  match t with
  | Some t => out l (J "'描述':'" ++ t ++ J "',")
  | None => out l (J "'描述':'',")
  end.

(** *** weapon_handle.c *)

Definition weapon_kinds : list (text * text) :=
  [(lit "sword(1)", J "'武器类型':'2',");
   (lit "gauntlet(2)", J "'武器类型':'3',");
   (lit "axe(3)", J "'武器类型':'7',");
   (lit "staff(4)", J "'武器类型':'9',");
   (lit "aura-bangle(5)", J "'武器类型':'4',");
   (lit "dagger(6)", J "'武器类型':'10',")].

Definition weapon_handle_cases1 (tmp : text) (l : locals) : list (Z * M world locals) :=
  [(0, z ← atoi tmp; mret (set_id z l));
   (1, lv ← atoi tmp;
       _ ← (if lv >? 1 then
              _ ← print (J "{'_id':'" ++ dec (tmp_id l) ++ lit "_" ++ tmp ++ J "',");
              print (J "'weapons':['" ++ dec (tmp_id l) ++ J "'],")
            else
              _ ← print (J "{'_id':'" ++ dec (tmp_id l) ++ J "',");
              print (J "'weapons':['" ++ dec (tmp_id l) ++ J "'],"));
       num_field "level" tmp l);
   (229, str_field "name" tmp l);
   (34, print_grade tmp l);
   (8, _ ← print_for tmp weapon_kinds; mret l);
   (90, num_field "命中" tmp l);
   (94, num_field "穿刺" tmp l);
   (98, num_field "暴击" tmp l);
   (102, num_field "暴击防御" tmp l);
   (105, num_field "闪避" tmp l);
   (108, num_field "格挡" tmp l);
   (123, num_field "最大生命" tmp l);
   (267, _ ← print (J "'以下效果随机出现一种':[");
         l ← tokens tmp (lit "><br/>") 6 (fun ptr2 l =>
               _ ← (if loc_2 l >? 0 then print (lit ",") else mret tt);
               t ← regex regex_patten ptr2;
               _ ← match t with
                   | Some t => print (J "'" ++ t ++ J "'")
                   | None => print (J "''")
                   end;
               z ← int_of (loc_2 l + 1);
               mret (set_loc_2 z l)) (set_loc_2 0 l);
         out l (lit "]}" ++ [NL]))].

Definition weapon_jobs : list (text * text) :=
  [(lit "0,0", J "'职业':[''],");
   (lit "1,0", J "'职业':['剑师'],");
   (lit "1,8", J "'职业':['剑师','灵剑士'],");
   (lit "2,0", J "'职业':['拳师'],");
   (lit "3,0", J "'职业':['气功师'],");
   (lit "5,0", J "'职业':['力士'],");
   (lit "6,0", J "'职业':['召唤师'],");
   (lit "7,0", J "'职业':['刺客'],");
   (lit "7,9", J "'职业':['刺客','咒术师'],");
   (lit "8,0", J "'职业':['灵剑士'],");
   (lit "9,0", J "'职业':['咒术师'],")].

(** [case 35] *)
Definition print_constants (l : locals) : M world locals :=
  _ ← print (J "'耐久度':'100/100',");
  _ ← print (J "'disable':0,");
  _ ← print (J "'growth_level_exp':'0',");
  _ ← print (J "'growth_recipe_cost':0,");
  _ ← print (J "'mesh_id':0,");
  _ ← print (J "'hidden':0,");
  _ ← print (J "'集中':0,");
  out l (J "'额外伤害':0,").

(** [case 14] *)
Definition print_trade (tmp : text) (l : locals) : M world locals :=
  _ ← print (J "'不可交易':'" ++ tmp ++ J "',");
  if decide (tmp = lit "y") then out l (J "'归属':'2',") else mret l.

Definition weapon_handle_cases2 (tabs : tables) (tmp : text) (l : locals)
  : list (Z * M world locals) :=
  [(25, num_field "需要等级" tmp l);
   (28, _ ← print_for tmp weapon_jobs; mret l);
   (14, print_trade tmp l);
   (4, num_field "售价" tmp l);
   (24, num_field "gear_score" tmp l);
   (232, print_icon tabs tmp l);
   (35, print_constants l);
   (81, _ ← in_mem alloc; mret (set_atk (Some tmp) l));
   (82, z ← atk_mean tmp l; out l (J "'攻击力范围':[" ++ dec z ++ lit "],"));
   (85, num_field "防御" tmp l);
   (260, print_description tmp l);
   (175, _ ← print (J "'恢复':" ++ tmp ++ lit ","); num_field "战斗中恢复" tmp l);
   (266, print_location tmp l)].

Definition weapon_handle_switch (tabs : tables) (n : Z) (tmp : text) (l : locals) : M world locals :=
  switch n (weapon_handle_cases1 tmp l ++ weapon_handle_cases2 tabs tmp l) (mret l).

(** *** real_weapon.c *)

Definition real_weapon_cases1 (tmp : text) (l : locals) : list (Z * M world locals) :=
  [(0, z ← atoi tmp; mret (set_id z l));
   (1, lv ← atoi tmp;
       _ ← (if lv >? 1 then
              _ ← print (J "{'_id':'" ++ dec (tmp_id l) ++ lit "_" ++ tmp ++ J "',");
              _ ← print (J "'weapons':['" ++ dec (tmp_id l) ++ J "'],");
              print (J "'collectweapon_id':'" ++ dec (tmp_id l) ++ lit "_" ++ tmp ++ J "',")
            else
              _ ← print (J "{'_id':'" ++ dec (tmp_id l) ++ J "',");
              _ ← print (J "'weapons':['" ++ dec (tmp_id l) ++ J "'],");
              print (J "'collectweapon_id':'" ++ dec (tmp_id l) ++ J "',"));
       num_field "level" tmp l);
   (229, str_field "name" tmp l);
   (34, print_grade tmp l);
   (8, _ ← print_for tmp weapon_kinds; mret l);
   (90, num_field "命中" tmp l);
   (94, num_field "穿刺" tmp l);
   (98, num_field "暴击" tmp l);
   (102, num_field "暴击防御" tmp l);
   (105, num_field "闪避" tmp l);
   (108, num_field "格挡" tmp l);
   (123, num_field "最大生命" tmp l);
   (267, _ ← print (J "'以下效果随机出现一种':[");
         l ← tokens tmp (lit "><br/>") 6 (fun ptr2 l =>
               _ ← (if loc_2 l >? 0 then print (lit ",") else mret tt);
               whole ← regex regex_patten tmp;
               _ ← match whole with
                   | Some _ =>
                       t ← regex regex_patten ptr2;
                       t ← deref t;
                       print (J "'" ++ t ++ J "'")
                   | None => print (J "''")
                   end;
               z ← int_of (loc_2 l + 1);
               mret (set_loc_2 z l)) (set_loc_2 0 l);
         out l (lit "]}" ++ [NL]))].

Definition real_weapon_jobs : list (text * text) :=
  [(lit "0,0", J "'职业':'',");
   (lit "1,0", J "'职业':'剑师',");
   (lit "1,8", J "'职业':'剑师','灵剑士',");
   (lit "2,0", J "'职业':'拳师',");
   (lit "3,0", J "'职业':'气功师',");
   (lit "5,0", J "'职业':'力士',");
   (lit "6,0", J "'职业':'召唤师',");
   (lit "7,0", J "'职业':'刺客',");
   (lit "7,9", J "'职业':'刺客','咒术师',");
   (lit "8,0", J "'职业':'灵剑士',");
   (lit "9,0", J "'职业':'咒术师',")].

Definition real_weapon_cases2 (tabs : tables) (tmp : text) (l : locals)
  : list (Z * M world locals) :=
  [(25, num_field "需要等级" tmp l);
   (28, _ ← print_for tmp real_weapon_jobs; mret l);
   (14, print_trade tmp l);
   (4, num_field "售价" tmp l);
   (24, num_field "gear_score" tmp l);
   (232, print_icon tabs tmp l);
   (35, print_constants l);
   (81, _ ← in_mem alloc; mret (set_atk (Some tmp) l));
   (82, z ← atk_mean tmp l; out l (J "'攻击力':" ++ dec z ++ lit ","));
   (85, num_field "防御" tmp l);
   (260, print_description tmp l);
   (175, _ ← print (J "'恢复':" ++ tmp ++ lit ","); num_field "战斗中恢复" tmp l);
   (266, print_location tmp l)].

Definition real_weapon_switch (tabs : tables) (n : Z) (tmp : text) (l : locals) : M world locals :=
  switch n (real_weapon_cases1 tmp l ++ real_weapon_cases2 tabs tmp l) (mret l).

(** *** gem_handle.c *)

(** [gam] is the name of the first category as the program spells it. *)
Definition gem_kinds (gam : string) : list (text * text) :=
  [(lit gam, J "'game_category':'1',");
   (lit "gan2(8)", J "'game_category':'2',");
   (lit "jin3(9)", J "'game_category':'3',");
   (lit "son4(10)", J "'game_category':'4',");
   (lit "ri5(11)", J "'game_category':'5',");
   (lit "gon6(12)", J "'game_category':'6',");
   (lit "tae7(13)", J "'game_category':'7',");
   (lit "geon8(14)", J "'game_category':'8',")].

Definition gem_handle_switch (n : Z) (tmp : text) (l : locals) : M world locals :=
  switch n
    [(0, out l (J "{'_id':'" ++ tmp ++ J "',"));
     (8, _ ← print_for tmp (gem_kinds "gam(1)7"); mret l);
     (24, out l (J "'gear_score'," ++ tmp ++ lit ","));
     (25, num_field "需要等级" tmp l);
     (34, print_grade tmp l);
     (229, str_field "name" tmp l);
     (267, str_field "description" tmp l)] (mret l).

(** *** gem_effect.c *)

(** One of the three blocks of [case 64]: the effect of a set of stones. *)
Definition print_set (key : string) (set equip : tab) (item : text) (l : locals) : M world locals :=
  match ret l with
  | Some _ => mret l
  | None =>
      v ← find_value set item;
      e ← regex regex_effect v;
      match e with
      | None => mret l
      | Some e =>
          ok ← in_mem (malloc_array 1);
          if ok : bool then
            _ ← in_mem alloc;
            r ← find_value equip e;
            str_field key r l
          else mret (set_ret 1 l)
      end
  end.

Definition print_sets (tabs : tables) (tmp : text) (l : locals) : M world locals :=
  item ← regex regex_set_item tmp;
  match item with
  | None => mret l
  | Some item =>
      ok ← in_mem (malloc_array 1);
      if ok : bool then
        _ ← in_mem alloc;
        l ← print_set "count_3_effect" (t_set3 tabs) (t_equip tabs) item l;
        l ← print_set "count_5_effect" (t_set5 tabs) (t_equip tabs) item l;
        print_set "count_8_effect" (t_set8 tabs) (t_equip tabs) item l
      else mret (set_ret 1 l)
  end.

(** [ptr3[loc_2] = malloc(strlen((filter_regex(...)) + 1)); strcpy(ptr3[loc_2], ...)]:
    the parenthesis makes the block one byte shorter than the string's
    characters, so the copy writes past it. *)
Definition store_item (item : text) (l : locals) : M world locals :=
  match item with
  | [] => throw Uninitialised
  | _ :: rest =>
      _ ← in_mem alloc;
      if (length item + 1 <=? length rest)%nat then
        (if (0 <=? loc_2 l) && (loc_2 l <? 6) then
           z ← int_of (loc_2 l + 1);
           mret (set_loc_2 z (set_ptr3 (<[Z.to_nat (loc_2 l) := Some (Some item)]> (ptr3 l)) l))
         else throw OutOfBounds)
      else throw OutOfBounds
  end.

(** [case 287] *)
Definition read_items (tmp : text) (l : locals) : M world locals :=
  tokens tmp (lit ",1,") 3 (fun ptr2 l =>
    item ← regex regex_consum ptr2;
    match item with None => mret l | Some item => store_item item l end) (set_loc_2 0 l).

(** [case 288] *)
Definition print_items (tmp : text) (l : locals) : M world locals :=
  _ ← print (J "'consumable':[");
  l ← (if loc_2 l >? 0 then
         tokens tmp (lit ",") 1 (fun ptr2 l =>
           match (if 0 <=? loc_2 l then ptr3 l !! Z.to_nat (loc_2 l) else None) with
           | None => throw OutOfBounds
           | Some None => throw Uninitialised
           | Some (Some None) => z ← int_of (loc_2 l + 1); mret (set_loc_2 z l)
           | Some (Some (Some item)) =>
               _ ← (if loc_2 l >? 0 then print (lit ",") else mret tt);
               _ ← print (J "[['" ++ item ++ J "','grocery']," ++ ptr2 ++ lit "]");
               z ← int_of (loc_2 l + 1);
               mret (set_loc_2 z (set_ptr3 (<[Z.to_nat (loc_2 l) := Some None]> (ptr3 l)) l))
           end) (set_loc_2 0 l)
       else mret l);
  out l (lit "],").

(** [case 289] *)
Definition print_cost (tmp : text) (l : locals) : M world locals :=
  _ ← print (J "'money_cost':" ++ tmp); out l (lit "}" ++ [NL]).

Definition gem_effect_cases1 (tabs : tables) (tmp : text) (l : locals) : list (Z * M world locals) :=
  [(0, out l (J "{'_id':'" ++ tmp ++ J "',"));
   (4, num_field "price" tmp l);
   (8, _ ← print_for tmp (gem_kinds "gam1(7)"); mret l);
   (24, num_field "gear_score" tmp l);
   (25, num_field "需要等级" tmp l);
   (34, print_grade tmp l);
   (64, print_sets tabs tmp l)].

Definition gem_effect_cases2 (tabs : tables) (tmp : text) (l : locals) : list (Z * M world locals) :=
  [(90, num_field "命中" tmp l);
   (94, num_field "穿刺" tmp l);
   (98, num_field "暴击" tmp l);
   (102, num_field "暴击防御" tmp l);
   (105, num_field "闪避" tmp l);
   (108, num_field "格挡" tmp l);
   (123, num_field "最大生命" tmp l);
   (134, num_field "max_value" tmp l);
   (229, str_field "name" tmp l);
   (232, print_icon tabs tmp l);
   (263, str_field "title" tmp l);
   (266, print_location tmp l);
   (267, str_field "description" tmp l);
   (287, read_items tmp l);
   (288, print_items tmp l);
   (289, print_cost tmp l)].

Definition gem_effect_switch (tabs : tables) (n : Z) (tmp : text) (l : locals) : M world locals :=
  switch n (gem_effect_cases1 tabs tmp l ++ gem_effect_cases2 tabs tmp l) (mret l).

(** *** real_gem.c *)

Definition real_gem_switch (tabs : tables) (n : Z) (tmp : text) (l : locals) : M world locals :=
  switch n
    [(0, out l (J "{'_id':'" ++ tmp ++ J "',"));
     (4, num_field "price" tmp l);
     (8, _ ← print_for tmp (gem_kinds "gam1(7)"); mret l);
     (24, num_field "gear_score" tmp l);
     (25, num_field "需要等级" tmp l);
     (34, print_grade tmp l);
     (90, num_field "命中" tmp l);
     (94, num_field "穿刺" tmp l);
     (98, num_field "暴击" tmp l);
     (102, num_field "暴击防御" tmp l);
     (105, num_field "闪避" tmp l);
     (108, num_field "格挡" tmp l);
     (123, num_field "最大生命" tmp l);
     (134, num_field "max_value" tmp l);
     (229, str_field "name" tmp l);
     (232, print_icon tabs tmp l);
     (263, str_field "title" tmp l);
     (266, print_location tmp l);
     (267, str_field "description" tmp l);
     (287, read_items tmp l);
     (288, print_items tmp l);
     (289, print_cost tmp l)] (mret l).

(** ** The loop over the lines, and [main] *)

Definition LINE_BUF : nat := Z.to_nat (8192 * 2).
Definition TITLE_BUF : nat := Z.to_nat 8192.

(** A header field: [title[n] = malloc(...); strcpy(title[n], tmp_title)]. *)
Definition title_field (ncols : nat) (n : Z) (tmp : text) (titles : list text)
  : M world (list text) :=
  _ ← in_mem alloc;
  if (length titles <? ncols)%nat then mret (titles ++ [tmp]) else throw OutOfBounds.

(** A field of another line: [select] is the condition under which [block] is
    set at column 0, [action] what is done while it is set. *)
Definition data_field (select : text -> M world bool) (action : Z -> text -> locals -> M world locals)
    (n : Z) (tmp : text) (l : locals) : M world locals :=
  l ← (if n =? 0 then b ← select tmp; mret (if b : bool then set_block l else l) else mret l);
  if block l then action n tmp l else mret l.

Definition stopped (l : locals) : bool := match ret l with Some _ => true | None => false end.

(** One line: [line_num] is 1 for the header. *)
Definition row (ncols : nat) (select : text -> M world bool)
    (action : list text -> Z -> text -> locals -> M world locals)
    (line_num : Z) (line : text) (titles : list text) (l : locals)
  : M world (list text * locals) :=
  _ ← in_mem alloc;
  if line_num =? 1 then
    titles ← csv_row (fun _ => false) (TITLE_BUF + 1) (title_field ncols) line titles;
    mret (titles, l)
  else
    l ← csv_row stopped (TITLE_BUF + 1) (data_field select (action titles)) line (new_row l);
    mret (titles, l).

Fixpoint rows_loop (fuel : nat) (ncols : nat) (select : text -> M world bool)
    (action : list text -> Z -> text -> locals -> M world locals)
    (fp : FILE) (line_num : Z) (titles : list text) (l : locals) : M world (list text * locals) :=
  if f_eof fp then mret (titles, l)
  else
    match fuel with
    | O => no_fuel
    | S fuel =>
        let '(line, fp) := fgets LINE_BUF fp in
        '(titles, l) ← row ncols select action line_num line titles l;
        if stopped l then mret (titles, l)
        else rows_loop fuel ncols select action fp (line_num + 1) titles l
    end.

(** What the programs share: [args_ok] is the test of [argc], [file] the
    contents of the input, [init] and [finish] the tables. *)
Definition bns_main (args_ok : bool) (file : option text) (ncols : nat)
    (init : M world tables) (finish : tables -> M world unit)
    (select : text -> M world bool)
    (action : tables -> list text -> Z -> text -> locals -> M world locals) : M world Z :=
  if args_ok then
    match file with
    | None => _ ← print (lit "error!"); mret (-1)
    | Some contents =>
        tabs ← init;
        '(titles, l) ← rows_loop (S (S (length contents))) ncols select (action tabs)
                         (fopen contents) 1 [] locals0;
        match ret l with
        | Some r => mret r
        | None =>
            (* free(title[i]) for every i < ncols *)
            _ ← (if (length titles <? ncols)%nat then throw Uninitialised else mret tt);
            _ ← finish tabs;
            mret 0
        end
    end
  else mret 1.

(** [create_icon_hash(&htbl, ...)] with its result ignored. *)
Definition make_table (create : table -> M tmem (Z * table)) (file : option text) : M world tab :=
  '(r, t) ← in_mem (create chtbl_zero);
  match file with
  | None => mret None
  | Some _ => mret (if r =? 2 then None else Some t)
  end.

Definition drop_table (remove : table -> M tmem table) (t : tab) : M world unit :=
  match t with
  | None => throw Uninitialised
  | Some t => _ ← in_mem (remove t); mret tt
  end.

Definition no_tables : tables := Tables None None None None None.

Definition init_icon (junk : List SweetListKv) (icons : option text) : M world tables :=
  t ← make_table (fun t => create_icon_hash t junk icons) icons;
  mret (Tables t None None None None).

Definition finish_icon (tabs : tables) : M world unit := drop_table remove_icon_hash (t_icon tabs).

(** [atoi(tmp) >= atoi(argv[2]) && atoi(tmp) <= atoi(argv[3])] *)
Definition in_range (lo hi : text) (tmp : text) : M world bool :=
  a ← atoi tmp;
  b ← atoi lo;
  if b <=? a then c ← atoi hi; mret (a <=? c) else mret false.

(** [argv[k]] *)
Definition arg (argv : list text) (k : nat) : text := default [] (argv !! k).

(** [atoi(tmp_title) == atoi(argv[2])], and [printf("#%d %s: %s\n", ...)] *)
Definition weapon_info_select (id : text) (tmp : text) : M world bool :=
  a ← atoi tmp; b ← atoi id; mret (a =? b).

Definition weapon_info_print (titles : list text) (n : Z) (tmp : text) (l : locals) : M world locals :=
  match titles !! Z.to_nat n with
  | Some t => out l (lit "#" ++ dec n ++ lit " " ++ t ++ lit ": " ++ tmp ++ [NL])
  | None => throw Uninitialised
  end.

Definition weapon_info_main (junk : List SweetListKv) (argv : list text)
    (file icons : option text) : M world Z :=
  bns_main (3 <=? length argv)%nat file 300 (init_icon junk icons) finish_icon
    (weapon_info_select (arg argv 2)) (fun _ => weapon_info_print).

Definition weapon_handle_main (junk : List SweetListKv) (argv : list text)
    (file icons : option text) : M world Z :=
  bns_main (length argv =? 2)%nat file 300 (init_icon junk icons) finish_icon
    (fun tmp => a ← atoi tmp; mret (a =? 624040)) (fun tabs _ => weapon_handle_switch tabs).

Definition real_weapon_main (junk : List SweetListKv) (argv : list text)
    (file icons : option text) : M world Z :=
  bns_main (4 <=? length argv)%nat file 300 (init_icon junk icons) finish_icon
    (in_range (arg argv 2) (arg argv 3)) (fun tabs _ => real_weapon_switch tabs).

Definition gem_handle_main (argv : list text) (file : option text) : M world Z :=
  bns_main (4 <=? length argv)%nat file 400 (mret no_tables) (fun _ => mret tt)
    (in_range (arg argv 2) (arg argv 3)) (fun _ _ => gem_handle_switch).

Definition real_gem_main (junk : List SweetListKv) (argv : list text)
    (file icons : option text) : M world Z :=
  bns_main (4 <=? length argv)%nat file 400 (init_icon junk icons) finish_icon
    (in_range (arg argv 2) (arg argv 3)) (fun tabs _ => real_gem_switch tabs).

Definition gem_effect_main (junk : List SweetListKv) (argv : list text)
    (file icons sets effects : option text) : M world Z :=
  bns_main (4 <=? length argv)%nat file 400
    (icon ← make_table (fun t => create_icon_hash t junk icons) icons;
     s3 ← make_table (fun t => create_setitem_hash t junk sets 5) sets;
     s5 ← make_table (fun t => create_setitem_hash t junk sets 7) sets;
     s8 ← make_table (fun t => create_setitem_hash t junk sets 10) sets;
     eq ← make_table (fun t => create_setitem_hash t junk effects 87) effects;
     mret (Tables icon s3 s5 s8 eq))
    (fun tabs =>
       _ ← drop_table remove_icon_hash (t_icon tabs);
       _ ← drop_table remove_setitem_hash (t_set3 tabs);
       _ ← drop_table remove_setitem_hash (t_set5 tabs);
       _ ← drop_table remove_setitem_hash (t_set8 tabs);
       drop_table remove_setitem_hash (t_equip tabs))
    (in_range (arg argv 2) (arg argv 3)) (fun tabs _ => gem_effect_switch tabs).

(** ** Part of a run *)

(** The first [n] rounds of the loop over the lines. *)
Fixpoint rows_rounds (n : nat) (ncols : nat) (select : text -> M world bool)
    (action : list text -> Z -> text -> locals -> M world locals)
    (fp : FILE) (line_num : Z) (titles : list text) (l : locals) : M world (list text * locals * FILE * Z) :=
  match n with
  | O => mret (titles, l, fp, line_num)
  | S n =>
      if f_eof fp || stopped l then mret (titles, l, fp, line_num)
      else
        let '(line, fp) := fgets LINE_BUF fp in
        '(titles, l) ← row ncols select action line_num line titles l;
        rows_rounds n ncols select action fp (line_num + 1) titles l
  end.

(** The loop is its first rounds and the rest. *)
Lemma rows_loop_rounds n ncols select action : forall fuel fp k titles l w,
  stopped l = false ->
  rows_loop (n + fuel) ncols select action fp k titles l w
  = ('(titles, l, fp, k) ← rows_rounds n ncols select action fp k titles l;
     if stopped l then mret (titles, l) else rows_loop fuel ncols select action fp k titles l) w.
Proof.
  induction n as [|n IH]; intros fuel fp k titles l w Hl; cbn [rows_rounds Nat.add].
  { unfold mbind, M_bind, mret, M_ret. by rewrite Hl. }
  cbn [rows_loop]. rewrite Hl, orb_false_r. destruct (f_eof fp) eqn:He.
  { unfold mbind, M_bind, mret, M_ret. rewrite Hl. destruct fuel; cbn [rows_loop]; by rewrite He. }
  destruct (fgets LINE_BUF fp) as [line fp']. unfold mbind, M_bind.
  destruct (row _ _ _ _ _ _ _ _) as [[[t1 l1] w1]| |]; [|done..]. destruct (stopped l1) eqn:Hl1; [|by apply IH].
  destruct n; cbn [rows_rounds]; unfold mret, M_ret; rewrite Hl1, ?orb_true_r; by rewrite ?Hl1.
Qed.

(** ** What [weapon_info] prints *)

Section weapon_info.
Context (id : text) (titles : list text).
Context (id_int : INT_MIN <= atoi_value id <= INT_MAX).

Definition info_line (n : Z) (f : text) : text :=
  lit "#" ++ dec n ++ lit " " ++ default [] (titles !! Z.to_nat n) ++ lit ": " ++ f ++ [NL].

Fixpoint info_lines (n : Z) (fs : list text) : text :=
  match fs with [] => [] | f :: fs => info_line n f ++ info_lines (n + 1) fs end.

(** A row is printed when its first field has the value of [id]. *)
Definition info_row (fs : list text) : text :=
  match fs with
  | f :: _ => if atoi_value f =? atoi_value id then info_lines 0 fs else []
  | [] => []
  end.

(** A row the buffers can hold, with a title for each field. *)
Record row_fits (fs : list text) : Prop := {
  fits_fields : Forall (fun f => plain f = true /\ (length f < TITLE_BUF + 1)%nat) fs;
  fits_last : last fs <> Some [];
  fits_line : (length (tab_join fs) + 1 < LINE_BUF)%nat;
  fits_titles : (length fs <= length titles)%nat;
  fits_id : INT_MIN <= atoi_value (default [] (head fs)) <= INT_MAX;
}.

Definition prints (t : text) (w : world) : world := World (w_mem w) (w_out w ++ t) (w_tok w).

Lemma atoi_ok {S} s (m : S) : INT_MIN <= atoi_value s <= INT_MAX -> atoi s m = Ok (atoi_value s, m).
Proof.
  intros [H1 H2]. unfold atoi, int_of. by rewrite (proj2 (Z.leb_le _ _) H1), (proj2 (Z.leb_le _ _) H2).
Qed.

Lemma select_ok f w :
  INT_MIN <= atoi_value f <= INT_MAX ->
  weapon_info_select id f w = Ok (atoi_value f =? atoi_value id, w).
Proof.
  intros Hf. unfold weapon_info_select.
  by rewrite (bind_ok _ _ _ _ _ (atoi_ok f w Hf)), (bind_ok _ _ _ _ _ (atoi_ok id w id_int)).
Qed.

Lemma info_print_ok n f l w :
  (Z.to_nat n < length titles)%nat ->
  weapon_info_print titles n f l w = Ok (l, prints (info_line n f) w).
Proof.
  intros Hn. destruct (lookup_lt_is_Some_2 titles (Z.to_nat n) Hn) as [t Ht].
  unfold weapon_info_print, info_line. by rewrite Ht.
Qed.

Lemma prints_app t1 t2 w : prints t2 (prints t1 w) = prints (t1 ++ t2) w.
Proof. unfold prints. simpl. by rewrite app_assoc. Qed.

Lemma prints_nil w : prints [] w = w.
Proof. unfold prints. rewrite app_nil_r. by destruct w. Qed.

Local Abbreviation info_field := (data_field (weapon_info_select id) (weapon_info_print titles)).

Lemma info_field_rest n f l w :
  0 < n -> (Z.to_nat n < length titles)%nat ->
  info_field n f l w = Ok (l, prints (if block l then info_line n f else []) w).
Proof.
  intros Hn Hl. unfold data_field. rewrite (proj2 (Z.eqb_neq n 0)) by lia.
  rewrite (bind_ok _ _ _ _ _ (eq_refl (Ok (l, w)))).
  destruct (block l); [by apply info_print_ok|]. by rewrite prints_nil.
Qed.

Lemma info_field_first f l w :
  INT_MIN <= atoi_value f <= INT_MAX -> (0 < length titles)%nat -> block l = false ->
  let b := atoi_value f =? atoi_value id in
  info_field 0 f l w
  = Ok (if b then set_block l else l, prints (if b then info_line 0 f else []) w).
Proof.
  intros Hf Hl Hb b. unfold data_field.
  rewrite (bind_ok _ _ w (if b then set_block l else l) w).
  2: { change (0 =? 0) with true. cbn iota. by rewrite (bind_ok _ _ _ _ _ (select_ok f w Hf)). }
  destruct b; [by apply info_print_ok|]. by rewrite Hb, prints_nil.
Qed.

(** The fields from the second on. *)
Lemma each_field_rest fs : forall n l w,
  0 < n -> ret l = None -> (Z.to_nat n + length fs <= length titles)%nat ->
  each_field stopped info_field n fs l w
  = Ok (l, prints (if block l then info_lines n fs else []) w).
Proof.
  induction fs as [|f fs IH]; intros n l w Hn Hr Hl; cbn [each_field info_lines].
  { by destruct (block l); rewrite prints_nil. }
  simpl in Hl. rewrite (bind_ok _ _ _ _ _ (info_field_rest n f l w Hn ltac:(lia))).
  unfold stopped at 1. rewrite Hr. rewrite IH by (done || lia). rewrite prints_app.
  by destruct (block l).
Qed.

Lemma each_field_row fs l w :
  row_fits fs -> ret l = None -> block l = false ->
  exists l', ret l' = None /\
    each_field stopped info_field 0 fs l w = Ok (l', prints (info_row fs) w).
Proof.
  intros [_ _ _ Ht Hid] Hr Hb. destruct fs as [|f fs].
  { exists l. split; [done|]. by rewrite prints_nil. }
  simpl in Ht, Hid. cbn [each_field info_row].
  rewrite (bind_ok _ _ _ _ _ (info_field_first f l w Hid ltac:(lia) Hb)).
  set (l' := if _ =? _ then _ else _).
  assert (Hr' : ret l' = None) by (unfold l'; by destruct (_ =? _)).
  exists l'. split; [done|]. unfold stopped at 1. rewrite Hr'.
  rewrite (each_field_rest fs (0 + 1) l'); [|lia|done|lia]. rewrite prints_app. subst l'.
  destruct (_ =? _); simpl; [done|]. by rewrite Hb.
Qed.

Lemma info_row_ok ncols k fs l w :
  row_fits fs -> ret l = None -> 2 <= k -> oracle (w_mem w) = [] ->
  exists l', ret l' = None /\
    row ncols (weapon_info_select id) weapon_info_print k (tab_join fs ++ [NL]) titles l w
    = Ok ((titles, l'), prints (info_row fs) w).
Proof.
  intros Hfit Hr Hk Ho. unfold row.
  assert (Ha : in_mem alloc w = Ok (tt, w)).
  { unfold in_mem. rewrite alloc_ok by done. by destruct w. }
  rewrite (bind_ok _ _ _ _ _ Ha). rewrite (proj2 (Z.eqb_neq k 1)) by lia.
  destruct (each_field_row fs (new_row l) w) as (l' & Hr' & He); [done..|].
  exists l'. split; [done|].
  unfold mbind, M_bind, csv_row. rewrite csv_loop_fields, He; [done|apply Hfit|apply Hfit|].
  pose proof (tab_join_length fs (fits_last fs Hfit)). rewrite length_app. simpl. lia.
Qed.

Lemma info_rounds_ok rows : forall ncols k rest l w,
  Forall row_fits rows -> ret l = None -> 2 <= k -> oracle (w_mem w) = [] ->
  exists l', ret l' = None /\
    rows_rounds (length rows) ncols (weapon_info_select id) weapon_info_print (MkFile (lines_of rows rest) false) k titles l w
    = Ok ((titles, l', MkFile rest false, k + Z.of_nat (length rows)), prints (concat (map info_row rows)) w).
Proof.
  induction rows as [|fs rows IH]; intros ncols k rest l w HF Hr Hk Ho.
  { exists l. split; [done|]. cbn. by rewrite prints_nil, Z.add_0_r. }
  apply Forall_cons in HF as [Hfit HF].
  destruct (info_row_ok ncols k fs l w) as (l1 & Hr1 & E1); [done..|].
  destruct (IH ncols (k + 1) rest l1 (prints (info_row fs) w)) as (l2 & Hr2 & E2);
    [done|done|lia|done|].
  exists l2. split; [done|]. cbn [length rows_rounds map concat f_eof lines_of].
  unfold stopped at 1. rewrite Hr. cbn [orb]. rewrite fgets_line.
  - rewrite (bind_ok _ _ _ _ _ E1). rewrite E2, prints_app. by replace (k + Z.of_nat (S (length rows))) with (k + 1 + Z.of_nat (length rows)) by lia.
  - apply tab_join_no_newline. eapply Forall_impl; [apply Hfit|]. by intros ? [? ?].
  - apply Hfit.
Qed.

(** A line of titles that the buffers and [ncols] can hold. *)
Record header_fits (ncols : nat) : Prop := {
  header_fields : Forall (fun f => plain f = true /\ (length f < TITLE_BUF + 1)%nat) titles;
  header_last : last titles <> Some [];
  header_line : (length (tab_join titles) + 1 < LINE_BUF)%nat;
  header_cols : (length titles <= ncols)%nat;
}.

Lemma title_fields_ok ncols fs : forall n ts w,
  oracle (w_mem w) = [] -> (length ts + length fs <= ncols)%nat ->
  each_field (fun _ => false) (title_field ncols) n fs ts w = Ok (ts ++ fs, w).
Proof.
  induction fs as [|f fs IH]; intros n ts w Ho Hl; cbn [each_field]; [by rewrite app_nil_r|]. simpl in Hl.
  rewrite (bind_ok _ _ _ (ts ++ [f]) w).
  - rewrite IH; [by rewrite <- app_assoc|done|rewrite length_app; simpl; lia].
  - unfold title_field. rewrite (bind_ok _ _ _ tt w) by (unfold in_mem; rewrite alloc_ok by done; by destruct w).
    by rewrite (proj2 (Nat.ltb_lt (length ts) ncols)) by lia.
Qed.

(** C39: [weapon_info] on a table whose first line has the titles and whose next lines fit
    its buffers: after the rounds for these lines it has printed, for the rows whose first
    field has the value of the wanted id and for no other, one line per field with its
    number, its title and its text, and nothing else, and the loop goes on with the rest of
    the file. *)
Theorem weapon_info_rows_correct ncols rows rest w :
  header_fits ncols -> Forall row_fits rows -> oracle (w_mem w) = [] ->
  exists l',
    rows_rounds (S (length rows)) ncols (weapon_info_select id) weapon_info_print
      (fopen (lines_of (titles :: rows) rest)) 1 [] locals0 w
    = Ok ((titles, l', MkFile rest false, 2 + Z.of_nat (length rows)),
          World (w_mem w) (w_out w ++ concat (map info_row rows)) (w_tok w)) /\
    forall fuel,
      rows_loop (S (length rows) + fuel) ncols (weapon_info_select id) weapon_info_print
        (fopen (lines_of (titles :: rows) rest)) 1 [] locals0 w
      = rows_loop fuel ncols (weapon_info_select id) weapon_info_print
          (MkFile rest false) (2 + Z.of_nat (length rows)) titles l'
          (World (w_mem w) (w_out w ++ concat (map info_row rows)) (w_tok w)).
Proof.
  intros [H1 H2 H3 H4] HF Ho. destruct (info_rounds_ok rows ncols 2 rest locals0 w HF eq_refl ltac:(lia) Ho) as (l' & Hr & E).
  exists l'.
  match goal with |- ?A /\ _ => enough (H : A) by (split; [exact H|]; intros fuel; rewrite rows_loop_rounds, (bind_ok _ _ _ _ _ H) by done;
    unfold stopped; by rewrite Hr) end.
  cbn [rows_rounds fopen f_eof lines_of]. unfold stopped at 1. cbn [orb ret locals0]. unfold fopen.
  rewrite fgets_line; [|by apply tab_join_no_newline; eapply Forall_impl; [exact H1|]; intros ? [? ?]|done].
  rewrite (bind_ok _ _ _ (titles, locals0) w); [exact E|]. unfold row.
  rewrite (bind_ok _ _ _ tt w) by (unfold in_mem; rewrite alloc_ok by done; by destruct w).
  change (1 =? 1) with true. cbv iota. rewrite (bind_ok (csv_row _ _ _ _ _) _ w titles w); [done|]. rewrite csv_row_fields by done.
  by rewrite title_fields_ok by done.
Qed.

End weapon_info.

End programs.

(** ** Witnesses *)

Definition ex_world : world := World (Store ∅ [] []) [] None.
Definition ex_titles : list text := [lit "id"; lit "name"].
Definition ex_rows : list (list text) := [[lit "7"; lit "axe"]; [lit "8"; lit "bow"]].

Lemma ex_rows_fit : Forall (row_fits ex_titles) ex_rows.
Proof.
  assert (H : forall f, plain f = true -> (length f <? TITLE_BUF + 1)%nat = true ->
                plain f = true /\ (length f < TITLE_BUF + 1)%nat)
    by (intros; split; [done|by apply Nat.ltb_lt]).
  assert (HF : forall f g, Forall (fun f => plain f = true /\ (length f < TITLE_BUF + 1)%nat) [f; g] ->
                 last [f; g] <> Some [] -> (length (tab_join [f; g]) + 1 <? LINE_BUF)%nat = true ->
                 INT_MIN <= atoi_value f <= INT_MAX -> row_fits ex_titles [f; g])
    by (intros; split; [done|done|by apply Nat.ltb_lt|done|done]).
  apply Forall_cons; split; [|apply Forall_cons; split; [|apply Forall_nil; done]];
    (apply HF; [|done|by vm_compute|by vm_compute]);
    (apply Forall_cons; split; [|apply Forall_cons; split; [|by apply Forall_nil]]);
    apply H; by vm_compute.
Qed.

Lemma ex_header_fits : header_fits ex_titles 300.
Proof.
  split; [|done|by apply Nat.ltb_lt; vm_compute|by vm_compute; lia].
  repeat (apply Forall_cons; split; [split; [done|by apply Nat.ltb_lt; vm_compute]|]). by apply Forall_nil.
Qed.

Lemma weapon_info_rows_correct_witness :
  exists l',
    rows_rounds 3 300 (weapon_info_select (lit "7")) weapon_info_print
      (fopen (lines_of (ex_titles :: ex_rows) (lit "end"))) 1 [] locals0 ex_world
    = Ok ((ex_titles, l', MkFile (lit "end") false, 4),
          World (w_mem ex_world) (lit "#0 id: 7" ++ [NL] ++ lit "#1 name: axe" ++ [NL]) None).
Proof.
  destruct (weapon_info_rows_correct (lit "7") ex_titles ltac:(by vm_compute) 300 ex_rows (lit "end") ex_world)
    as (l' & H & _); [exact ex_header_fits|exact ex_rows_fit|reflexivity|].
  exists l'. exact H.
Defined.
