(* ===== verification/MysqlCsv.v ===== *)
(** * From a table to a database: [src/lib/mysql/mysql_csv_inster.c]

    Each line of a text file, after the first and after those to be skipped, becomes
    an INSERT statement with ten of its first 32 fields.  Streams are those of
    BnsCsv.v.  Whether the server accepts a statement is a parameter; the statements
    sent are a log. *)

From stdpp Require Import prelude list strings.
From Stdlib Require Import ZArith Lia Ascii.
From S2P Require Import Prelude CString BnsCsv.

Definition COMMA : ascii := ",".
Definition QUOTE : ascii := "'".

(** The buffers [strline], [result], [temp] and [sql]. *)
Definition LINE_SIZE : nat := 1024.
Definition RESULT_SIZE : nat := 512.
Definition TEMP_SIZE : nat := 128.
Definition SQL_SIZE : nat := 512.

(** The statements sent, and for each whether it was printed as inserted, with the
    number of its line. *)
Record db := Db { queries : list text; printed : list (option Z) }.

(** ** [my_csv] *)

Fixpoint skip_spaces (s1 : text) : text :=
  match s1 with c :: s1' => if isspace c then skip_spaces s1' else s1 | [] => [] end.

(** Up to a comma, which is skipped, or a newline.  Reading past the terminating NUL
    is a fault, as in BnsCsv.v: what is there depends on the block [malloc] returned. *)
Fixpoint copy_field (s2 s1 : text) : M db (text * text) :=
  match s1 with
  | [] => throw Uninitialised
  | c :: s1' =>
      if (length s2 <? RESULT_SIZE)%nat then
        if decide (c = COMMA) then mret (s2, s1')
        else if decide (c = NL) then mret (s2, s1)
        else copy_field (s2 ++ [c]) s1'
      else throw OutOfBounds
  end.

Definition my_csv (s1 : text) : M db (text * text) := copy_field [] (skip_spaces s1).

(** ** A line *)

(** The fields that go into the statement. *)
Definition wanted : list nat := [0; 3; 4; 5; 6; 7; 8; 19; 22; 31]%nat.

Definition PREFIX : text :=
  lit "insert into user (username,ctftype,identity,sex,birthday,address,zip,phone,email,createtime) value (".

(** [sprintf] into [temp] *)
Definition quoted (n : nat) (result : text) : text :=
  QUOTE :: result ++ QUOTE :: (if decide (n = 31%nat) then lit ");" else lit ",").

(** [sprintf(temp, ...); strcat(sql, temp);] *)
Definition add_field (n : nat) (result sql : text) : M db text :=
  if decide (n ∈ wanted) then
    let temp := quoted n result in
    _ ← (if (length temp <? TEMP_SIZE)%nat then mret tt else throw OutOfBounds);
    if (length (sql ++ temp) <? SQL_SIZE)%nat then mret (sql ++ temp) else throw OutOfBounds
  else mret sql.

(** The rounds from field [n] on, [k] in number. *)
Fixpoint fields (k n : nat) (ss1 sql : text) : M db text :=
  match k with
  | O => mret sql
  | S k =>
      '(result, ss1) ← my_csv ss1;
      sql ← add_field n result sql;
      fields k (S n) ss1 sql
  end.

Section main.
Context (mysql_query : text -> bool).

Definition send_query (i : Z) (sql : text) : M db unit := fun s =>
  Ok (tt, Db (queries s ++ [sql]) (printed s ++ [if mysql_query sql then Some i else None])).

(** The body of the loop for line [i]; [skip] is [atoi(argv[2])]. *)
Definition row (skip i : Z) (strline : text) : M db unit :=
  if i =? 0 then mret tt
  else if skip <? i then sql ← fields 32 0 strline PREFIX; send_query i sql
  else mret tt.

Fixpoint rows_loop (fuel : nat) (skip i : Z) (fp : FILE) : M db unit :=
  if f_eof fp then mret tt
  else
    match fuel with
    | O => no_fuel
    | S fuel =>
        let '(strline, fp) := fgets LINE_SIZE fp in
        _ ← row skip i strline;
        i ← int_of (i + 1);
        rows_loop fuel skip i fp
    end.

(** The file is there, and the connection is made. *)
Definition inserter_main (skip : Z) (contents : text) : M db Z :=
  _ ← rows_loop (S (S (length contents))) skip 0 (fopen contents); mret 0.

(** ** What is sent *)

(** A field as it is written: no comma, no newline, no leading white space. *)
Definition plain_field (f : text) : bool :=
  forallb (fun c => negb (bool_decide (c = COMMA)) && negb (bool_decide (c = NL))) f &&
  match f with c :: _ => negb (isspace c) | [] => false end.

Fixpoint comma_join (fs : list text) : text :=
  match fs with [] => [] | [f] => f | f :: fs => f ++ COMMA :: comma_join fs end.

(** The statement of a line. *)
Definition statement (fs : list text) : text :=
  PREFIX ++ concat ((fun n => quoted n (nth n fs [])) <$> wanted).

Lemma skip_plain f rest : plain_field f = true -> skip_spaces (f ++ rest) = f ++ rest.
Proof.
  unfold plain_field. destruct f as [|c f]; [by rewrite andb_false_r|]. rewrite andb_true_iff. intros [_ Hc]. simpl.
  by destruct (isspace c).
Qed.

Lemma copy_plain f : forall s2 rest m,
  forallb (fun c => negb (bool_decide (c = COMMA)) && negb (bool_decide (c = NL))) f = true ->
  (length s2 + length f < RESULT_SIZE)%nat ->
  copy_field s2 (f ++ rest) m = copy_field (s2 ++ f) rest m.
Proof.
  induction f as [|c f IH]; intros s2 rest m Hp Hl; [by rewrite app_nil_r|]. simpl in Hp, Hl.
  apply andb_true_iff in Hp as [Hc Hp]. apply andb_true_iff in Hc as [H1 H2]. cbn [copy_field app].
  rewrite (proj2 (Nat.ltb_lt _ _)) by lia. rewrite decide_False; [|intros ->; by rewrite bool_decide_eq_true_2 in H1].
  rewrite decide_False; [|intros ->; by rewrite bool_decide_eq_true_2 in H2].
  rewrite IH; [by rewrite <- app_assoc|done|rewrite length_app; simpl; lia].
Qed.

Lemma my_csv_plain_field f rest m : plain_field f = true -> (length f < RESULT_SIZE)%nat ->
  my_csv (f ++ COMMA :: rest) m = Ok ((f, rest), m) /\ my_csv (f ++ NL :: rest) m = Ok ((f, NL :: rest), m).
Proof.
  intros Hp Hl. unfold my_csv. rewrite !skip_plain by done. apply andb_true_iff in Hp as [Hp _].
  rewrite !copy_plain by done. simpl. by rewrite (proj2 (Nat.ltb_lt _ _)) by done.
Qed.

(** The fields that are taken from number [n] on. *)
Definition parts (n k : nat) (fs : list text) : text :=
  concat ((fun i => if decide (i ∈ wanted) then quoted i (nth (i - n) fs []) else []) <$> seq n k).

Lemma parts_S n k f fs : parts n (S k) (f :: fs) = (if decide (n ∈ wanted) then quoted n f else []) ++ parts (S n) k fs.
Proof.
  unfold parts. simpl seq. rewrite fmap_cons. cbn [concat]. rewrite Nat.sub_diag. simpl nth. f_equal. f_equal.
  apply list_fmap_ext. intros j i Hj. apply lookup_seq in Hj as [-> _]. destruct (decide _); [|done]. f_equal.
  replace (S n + j - n)%nat with (S (S n + j - S n)) by lia. done.
Qed.

Lemma fields_ok k : forall n fs sql s,
  Forall (fun f => plain_field f = true /\ (length f < RESULT_SIZE)%nat /\ (length (quoted 0 f) + 1 < TEMP_SIZE)%nat) fs ->
  (k <= length fs)%nat -> (length (sql ++ parts n k fs) < SQL_SIZE)%nat ->
  fields k n (comma_join fs ++ [NL]) sql s = Ok (sql ++ parts n k fs, s).
Proof.
  induction k as [|k IH]; intros n fs sql s Hfs Hk Hsql; [unfold parts; simpl; by rewrite app_nil_r|].
  destruct fs as [|f fs]; [simpl in Hk; lia|]. apply Forall_cons in Hfs as [(Hp & Hl & Ht) Hfs]. cbn [fields].
  assert (Hread : exists rest, my_csv (comma_join (f :: fs) ++ [NL]) s = Ok ((f, rest), s) /\
    (k <= length fs)%nat /\ (k = 0%nat \/ rest = comma_join fs ++ [NL])).
  { destruct fs as [|g fs]; simpl in Hk.
    - exists [NL]. split; [by apply my_csv_plain_field|]. split; [simpl; lia|left; lia].
    - exists (comma_join (g :: fs) ++ [NL]). split; [|split; [simpl; lia|by right]].
      change (comma_join (f :: g :: fs)) with (f ++ COMMA :: comma_join (g :: fs)). rewrite <- app_assoc.
      by apply my_csv_plain_field. }
  destruct Hread as (rest & E & Hk' & Hrest). rewrite (bind_ok _ _ _ _ _ E). rewrite parts_S in *.
  assert (Hadd : add_field n f sql s = Ok (sql ++ (if decide (n ∈ wanted) then quoted n f else []), s)).
  { unfold add_field. rewrite !length_app in Hsql. destruct (decide (n ∈ wanted)); [|by rewrite app_nil_r].
    assert (Hq : (length (quoted n f) <= length (quoted 0 f) + 1)%nat).
    { unfold quoted. cbn [length]. rewrite !length_app. cbn [length]. destruct (decide (n = 31%nat)); simpl; lia. }
    cbv zeta. rewrite (proj2 (Nat.ltb_lt (length (quoted n f)) TEMP_SIZE)) by lia.
    rewrite (proj2 (Nat.ltb_lt (length (sql ++ quoted n f)) SQL_SIZE)) by (rewrite length_app; lia). done. }
  rewrite (bind_ok _ _ _ _ _ Hadd). rewrite app_assoc in *. destruct Hrest as [-> | ->].
  - unfold parts. simpl. by rewrite app_nil_r.
  - by apply IH.
Qed.

Lemma parts_statement fs : PREFIX ++ parts 0 32 fs = statement fs.
Proof. unfold statement, parts. simpl seq. repeat (rewrite fmap_cons; cbn [concat]). simpl. by rewrite ?app_nil_r. Qed.


(** ** A file *)

(** A line that fits the buffers, with enough fields. *)
Record good_line (fs : list text) : Prop := {
  gl_fields : Forall (fun f => plain_field f = true /\ (length f < RESULT_SIZE)%nat /\ (length (quoted 0 f) + 1 < TEMP_SIZE)%nat) fs;
  gl_enough : (32 <= length fs)%nat;
  gl_sql : (length (statement fs) < SQL_SIZE)%nat;
  gl_line : (length (comma_join fs) + 1 < LINE_SIZE)%nat;
}.

(** The statements of the lines from number [i] on that are not skipped. *)
Fixpoint statements (skip i : Z) (lines : list (list text)) : list (Z * text) :=
  match lines with
  | [] => []
  | fs :: lines => (if skip <? i then [(i, statement fs)] else []) ++ statements skip (i + 1) lines
  end.

Definition after (qs : list (Z * text)) (s : db) : db :=
  Db (queries s ++ qs.*2) (printed s ++ ((fun q => if mysql_query q.2 then Some q.1 else None) <$> qs)).

Definition file_of (lines : list (list text)) : text := concat ((fun fs => comma_join fs ++ [NL]) <$> lines).

Lemma comma_no_newline fs : Forall (fun f => plain_field f = true) fs -> NL ∉ comma_join fs.
Proof.
  assert (Hone : forall f, plain_field f = true -> NL ∉ f).
  { intros f Hf Hin. apply andb_true_iff in Hf as [Hf _]. rewrite forallb_forall in Hf.
    specialize (Hf NL (proj1 (list_elem_of_In _ _) Hin)). by vm_compute in Hf. }
  induction fs as [|f [|g fs] IH]; intros Hfs; [by intros ?%elem_of_nil|exact (Hone f (proj1 (proj1 (Forall_cons _ _ _) Hfs)))|].
  apply Forall_cons in Hfs as [Hf Hfs]. change (comma_join (f :: g :: fs)) with (f ++ COMMA :: comma_join (g :: fs)).
  intros [H|H]%elem_of_app; [by apply (Hone f)|]. apply elem_of_cons in H as [H|H]; [done|by apply IH].
Qed.

Lemma row_ok skip i fs s : good_line fs -> 0 < i ->
  row skip i (comma_join fs ++ [NL]) s = Ok (tt, after (if skip <? i then [(i, statement fs)] else []) s).
Proof.
  intros [Hf He Hs _] Hi. unfold row. rewrite (proj2 (Z.eqb_neq _ _)) by lia. destruct (skip <? i).
  - rewrite <- parts_statement in *. rewrite (bind_ok _ _ _ _ _ (fields_ok 32 0 fs PREFIX s Hf He Hs)). done.
  - unfold after. simpl. rewrite !app_nil_r. by destruct s.
Qed.

Lemma after_after qs qs' s : after qs' (after qs s) = after (qs ++ qs') s.
Proof. unfold after. simpl. by rewrite !fmap_app, !app_assoc. Qed.

Lemma rows_lines skip rest lines : forall fuel i s,
  Forall good_line lines -> 0 < i -> i + Z.of_nat (length lines) <= INT_MAX ->
  rows_loop (length lines + fuel) skip i (MkFile (file_of lines ++ rest) false) s
  = rows_loop fuel skip (i + Z.of_nat (length lines)) (MkFile rest false) (after (statements skip i lines) s).
Proof.
  induction lines as [|fs lines IH]; intros fuel i s Hl Hi Hmax.
  { unfold file_of, after. simpl. rewrite !app_nil_r, Z.add_0_r. by destruct s. }
  apply Forall_cons in Hl as [Hg Hl]. cbn [length] in Hmax. unfold file_of. cbn [length Nat.add rows_loop fmap list_fmap concat].
  simpl f_eof. cbv iota. rewrite <- app_assoc, <- app_assoc. simpl ([NL] ++ _).
  rewrite fgets_line; [| |apply Hg].
  2: { apply comma_no_newline. eapply Forall_impl; [apply Hg|]. by intros f [? _]. }
  cbn [f_eof]. rewrite (bind_ok _ _ _ _ _ (row_ok skip i fs s Hg Hi)).
  assert (Hint : int_of (i + 1) (after (if skip <? i then [(i, statement fs)] else []) s)
    = Ok (i + 1, after (if skip <? i then [(i, statement fs)] else []) s)).
  { unfold int_of, INT_MAX, INT_MIN in *. rewrite !(proj2 (Z.leb_le _ _)) by lia. done. }
  rewrite (bind_ok _ _ _ _ _ Hint). rewrite (IH fuel (i + 1)) by (done || lia). rewrite after_after. cbn [statements].
  f_equal. lia.
Qed.

Lemma rows_header skip header rest fuel s :
  NL ∉ header -> (length header + 1 < LINE_SIZE)%nat ->
  rows_loop (S fuel) skip 0 (MkFile (header ++ NL :: rest) false) s = rows_loop fuel skip 1 (MkFile rest false) s.
Proof. intros Hn Hl. cbn [rows_loop]. simpl f_eof. cbv iota. by rewrite fgets_line. Qed.

(** The round after the last line. *)
Lemma rows_end skip fuel i s : 0 < i -> i + 1 <= INT_MAX ->
  rows_loop (S (S fuel)) skip i (MkFile [] false) s = if skip <? i then Err Uninitialised else Ok (tt, s).
Proof.
  intros Hi Hmax. cbn [rows_loop]. simpl f_eof. cbv iota. change (fgets LINE_SIZE (MkFile [] false)) with (@nil ascii, MkFile [] true).
  cbv beta iota. unfold row. rewrite (proj2 (Z.eqb_neq _ _)) by lia. destruct (skip <? i); [done|].
  unfold mbind, M_bind. simpl. unfold int_of, INT_MAX, INT_MIN in *. by rewrite !(proj2 (Z.leb_le _ _)) by lia.
Qed.

End main.

(** Of a file of a header and lines with at least 32 plain fields that fit the
    buffers, the loop sends one statement for every line whose number is above
    [skip], in order, with the fields 0, 3 to 8, 19, 22 and 31, and prints the
    number of each line the server accepts.  But the round after the last line reads
    past its empty string, unless the program skips all lines. *)
Theorem inserter_correct mysql_query skip header lines s :
  NL ∉ header -> (length header + 1 < LINE_SIZE)%nat -> Forall good_line lines -> Z.of_nat (length lines) + 2 <= INT_MAX ->
  let contents := header ++ NL :: file_of lines in
  let last := 1 + Z.of_nat (length lines) in
  (exists fuel, rows_loop mysql_query (S (S (length contents))) skip 0 (fopen contents) s
     = rows_loop mysql_query fuel skip last (fopen []) (after mysql_query (statements skip 1 lines) s)) /\
  inserter_main mysql_query skip contents s = if skip <? last then Err Uninitialised else Ok (0, s).
Proof.
  intros Hh Hl Hg Hmax contents last.
  assert (Hlen : (length lines <= length (file_of lines))%nat).
  { clear. induction lines as [|fs lines IH]; [done|]. unfold file_of in *. rewrite fmap_cons. cbn [concat length].
    rewrite !length_app. simpl. lia. }
  assert (Hcl : length contents = (length header + S (length (file_of lines)))%nat) by (unfold contents; by rewrite length_app).
  set (fuel := (length contents - S (length lines))%nat).
  assert (Hrun : rows_loop mysql_query (S (S (length contents))) skip 0 (fopen contents) s
    = rows_loop mysql_query (S (S fuel)) skip last (fopen []) (after mysql_query (statements skip 1 lines) s)).
  { unfold contents at 2, fopen. rewrite rows_header by done. rewrite <- (app_nil_r (file_of lines)).
    replace (S (length contents)) with (length lines + S (S fuel))%nat by (unfold fuel; lia).
    by rewrite rows_lines by (done || lia). }
  split; [by eexists|]. unfold inserter_main, mbind, M_bind. rewrite Hrun. unfold fopen. rewrite rows_end by (unfold last; lia).
  destruct (Z.ltb_spec skip last) as [|Hge]; [done|].
  assert (Hst : forall i ls, i + Z.of_nat (length ls) <= skip + 1 -> statements skip i ls = []).
  { clear. intros i ls. revert i. induction ls as [|fs ls IH]; intros i H; [done|]. cbn [statements length] in *.
    rewrite (proj2 (Z.ltb_ge _ _)) by lia. simpl. apply IH. lia. }
  rewrite Hst by (unfold last in Hge; lia). unfold after. simpl. rewrite !app_nil_r. by destruct s.
Qed.

Definition ex_line : list text := replicate 32 (lit "ab").

Lemma ex_good : good_line ex_line.
Proof. split; [by repeat constructor; vm_compute|..]; vm_compute; lia. Qed.

Lemma inserter_correct_witness :
  inserter_main (fun _ => true) 0 (lit "names" ++ NL :: file_of [ex_line; ex_line]) (Db [] []) = Err Uninitialised.
Proof.
  destruct (inserter_correct (fun _ => true) 0 (lit "names") [ex_line; ex_line] (Db [] [])) as [_ E].
  - apply (bool_decide_unpack _). vm_compute. exact I.
  - vm_compute. lia.
  - repeat constructor; apply ex_good.
  - vm_compute. discriminate.
  - rewrite E. reflexivity.
Defined.
