(* ===== verification/MysqlSamples.v ===== *)
(** * The small database programs: [src/lib/mysql/mysql_select.c], [mysql_insert.c]

    One query each.  What the server answers is a parameter. *)

From stdpp Require Import prelude list.
From Stdlib Require Import ZArith Lia.
From S2P Require Import Prelude Text.

(** ** [mysql_select.c] *)

(** "select username from user where userid = " *)
Definition SELECT_QUERY : list Z :=
  [115; 101; 108; 101; 99; 116; 32; 117; 115; 101; 114; 110; 97; 109; 101; 32; 102; 114; 111; 109; 32; 117; 115; 101; 114; 32;
   119; 104; 101; 114; 101; 32; 117; 115; 101; 114; 105; 100; 32; 61; 32].

(** What [mysql_query] and [mysql_store_result] give: a column may be NULL. *)
Inductive answer := QueryFails | NoResult | Rows (fields : Z) (rows : list (option (list Z))).

Inductive line := Usage | NotConnected | Failed | NumberOfFields (n : Z) | UserName (userid : Z) (name : list Z) | QueryOk.
Abbreviation printed := (list line).

Definition print (l : line) : M printed unit := modify (fun out => out ++ [l]).

(** [while (row = mysql_fetch_row(res))]; [(row[0]==NULL) && (!strlen(row[0]))] *)
Fixpoint print_rows (userid : Z) (rows : list (option (list Z))) : M printed unit :=
  match rows with
  | [] => mret tt
  | None :: _ => throw NullDeref
  | Some name :: rows => _ ← print (UserName userid name); _ ← print QueryOk; print_rows userid rows
  end.

(** [argv] without the name of the program; the status of [exit]. *)
Definition select_main (argv : list (list Z)) (connects : bool) (server : list Z -> answer) : M printed Z :=
  _ ← (if (length argv =? 1)%nat then mret tt else print Usage);
  if connects then
    match argv with
    | [] => throw NullDeref
    | arg :: _ =>
        userid ← atoi arg;
        let querybuffer := SELECT_QUERY ++ fmt_d 0 userid in
        if (length querybuffer <? 160)%nat then
          match server querybuffer with
          | QueryFails | NoResult => _ ← print Failed; mret 1
          | Rows fields rows => _ ← print (NumberOfFields fields); _ ← print_rows userid rows; mret 0
          end
        else throw OutOfBounds
    end
  else _ ← print NotConnected; mret 1.

Lemma print_rows_ok userid names out :
  print_rows userid (Some <$> names) out = Ok (tt, out ++ (names ≫= fun n => [UserName userid n; QueryOk])).
Proof.
  revert out. induction names as [|n names IH]; intros out; [by rewrite app_nil_r|]. rewrite fmap_cons. cbn [print_rows].
  unfold print, modify, mbind, M_bind. rewrite IH. rewrite <- !app_assoc. done.
Qed.

Lemma int_of_value {S} z (s : S) : INT_MIN <= z <= INT_MAX -> int_of z s = Ok (z, s).
Proof. intros [? ?]. unfold int_of. by rewrite (proj2 (Z.leb_le _ _)), (proj2 (Z.leb_le _ _)) by done. Qed.

(** Asked for a number that is an [int], the program sends the query for it, whose text
    fits the buffer, and prints every row of the answer. *)
Lemma select_main_ok arg userid server fields names :
  atoi_value arg = userid -> INT_MIN <= userid <= INT_MAX -> server (SELECT_QUERY ++ fmt_d 0 userid) = Rows fields (Some <$> names) ->
  select_main [arg] true server [] = Ok (0, NumberOfFields fields :: (names ≫= fun n => [UserName userid n; QueryOk])).
Proof.
  intros Ha Hi Hs. unfold select_main, mbind, M_bind. change (length [arg] =? 1)%nat with true. unfold mret, M_ret, atoi. rewrite Ha, int_of_value by lia.
  assert (Hl : (length (SELECT_QUERY ++ fmt_d 0 userid) <? 160)%nat = true).
  { apply Nat.ltb_lt. rewrite length_app. pose proof (length_fmt_d 0 userid 10 ltac:(unfold INT_MIN, INT_MAX in *; simpl; lia) ltac:(lia) ltac:(lia)).
    assert (length SELECT_QUERY = 41%nat) by done. destruct (userid <? 0); lia. }
  rewrite Hl, Hs. unfold print, modify. by rewrite print_rows_ok.
Qed.

(** A user without a name brings the program down: the test for NULL takes the length of
    the string first. *)
Lemma select_null arg userid server fields :
  atoi_value arg = userid -> INT_MIN <= userid <= INT_MAX -> server (SELECT_QUERY ++ fmt_d 0 userid) = Rows fields [None] ->
  forall out, exists f, select_main [arg] true server out = Err f.
Proof.
  intros Ha Hi Hs out. unfold select_main, mbind, M_bind. change (length [arg] =? 1)%nat with true. unfold mret, M_ret, atoi. rewrite Ha, int_of_value by lia.
  destruct (_ <? 160)%nat; [rewrite Hs|]; eauto.
Qed.

(** Without an argument the program says how it is used, and goes on. *)
Lemma select_no_argument server : select_main [] true server [] = Err NullDeref.
Proof. done. Qed.

(** ** [mysql_insert.c] *)

(** [mysql_free_result(my_res)] is given a pointer that was never set. *)
Definition insert_main (connects : bool) (inserted : option Z) : outcome Z :=
  if connects then
    match inserted with
    | None => Ok 1
    | Some rows => Err Uninitialised
    end
  else Ok 1.

(** No run that inserts a row ends normally. *)
Lemma insert_main_never_succeeds connects inserted : insert_main connects inserted <> Ok 0.
Proof. by destruct connects, inserted. Qed.
