(* ===== verification/ReadFile.v ===== *)
(** * Printing the fields of a file: [src/lib/mysql/read_file.c]

    The first 33 fields of each of the first eleven lines are printed.  Streams are those
    of BnsCsv.v, a line is read into a cleared buffer of 1024 bytes. *)

From stdpp Require Import prelude list strings.
From Stdlib Require Import ZArith Lia Ascii.
From S2P Require Import Prelude CString BnsCsv.

Definition COMMA : ascii := ",".
Definition LINE_SIZE : nat := 1024.
Definition RESULT_SIZE : nat := 128.
Definition FIELDS : nat := 33.

(** What is printed: the number of a field, and the field. *)
Abbreviation output := (list (nat * text)).

(** The buffer [strline] after [fgets]. *)
Definition buffer_of (line : text) : text := line ++ replicate (LINE_SIZE - length line) NUL.

(** [s1] is the rest of the buffer; nothing stops the loop at a NUL. *)
Fixpoint my_csv (s2 s1 : text) : M output (text * text) :=
  match s1 with
  | [] => throw OutOfBounds
  | c :: s1' =>
      if decide (c = COMMA) then mret (s2, s1')
      else if (length s2 <? RESULT_SIZE)%nat then my_csv (s2 ++ [c]) s1' else throw OutOfBounds
  end.

(** The string in a buffer. *)
Fixpoint until_nul (s : text) : text :=
  match s with c :: s => if decide (c = NUL) then [] else c :: until_nul s | [] => [] end.

(** [printf("%d: %s\n", n, result)]: [result] was cleared, and must not be full. *)
Definition print_field (n : nat) (result : text) : M output unit :=
  if (length result <? RESULT_SIZE)%nat || bool_decide (NUL ∈ result) then modify (fun out => out ++ [(n, until_nul result)])
  else throw OutOfBounds.

(** The rounds from field [n] on, [k] in number. *)
Fixpoint fields (k n : nat) (ss1 : text) : M output unit :=
  match k with
  | O => mret tt
  | S k => '(result, ss1) ← my_csv [] ss1; _ ← print_field n result; fields k (S n) ss1
  end.

(** [i] lines have been read; the loop is left when there are eleven. *)
Fixpoint lines_loop (fuel i : nat) (fp : FILE) : M output unit :=
  if f_eof fp then mret tt
  else
    match fuel with
    | O => no_fuel
    | S fuel =>
        let '(line, fp) := fgets LINE_SIZE fp in
        _ ← fields FIELDS 0 (buffer_of line);
        if (10 <? S i)%nat then mret tt else lines_loop fuel (S i) fp
    end.

(** Eleven rounds at most. *)
Definition read_file_main (contents : text) : M output Z :=
  _ ← lines_loop 11 0 (fopen contents); mret 0.

(** ** What is printed *)

Definition plain_field (f : text) : Prop := COMMA ∉ f /\ NUL ∉ f /\ NL ∉ f /\ (length f < RESULT_SIZE)%nat.

(** A line: its fields, each followed by a comma, and a rest. *)
Definition line_text (l : list text * text) : text := concat ((fun f => f ++ [COMMA]) <$> l.1) ++ l.2.

Record good_line (l : list text * text) : Prop := {
  rl_fields : Forall plain_field l.1;
  rl_enough : (FIELDS <= length l.1)%nat;
  rl_rest : NL ∉ l.2;
  rl_length : (length (line_text l) + 1 < LINE_SIZE)%nat;
}.

Lemma my_csv_copies f : forall s2 rest out,
  COMMA ∉ f -> (length s2 + length f <= RESULT_SIZE)%nat -> my_csv s2 (f ++ COMMA :: rest) out = Ok ((s2 ++ f, rest), out).
Proof.
  induction f as [|c f IH]; intros s2 rest out Hc Hl; cbn [app my_csv].
  - rewrite decide_True by done. by rewrite app_nil_r.
  - simpl in Hl. rewrite decide_False by set_solver. rewrite (proj2 (Nat.ltb_lt _ _)) by lia.
    rewrite IH; [by rewrite <- app_assoc|set_solver|rewrite length_app; simpl; lia].
Qed.

Lemma until_nul_id f : NUL ∉ f -> until_nul f = f.
Proof. induction f as [|c f IH]; intros Hn; [done|]. simpl. rewrite decide_False by set_solver. by rewrite IH by set_solver. Qed.

Lemma fields_print k : forall n fs rest out,
  Forall plain_field fs -> (k <= length fs)%nat ->
  fields k n (concat ((fun f => f ++ [COMMA]) <$> fs) ++ rest) out = Ok (tt, out ++ imap (fun i f => ((n + i)%nat, f)) (take k fs)).
Proof.
  induction k as [|k IH]; intros n fs rest out HF Hk; [by rewrite app_nil_r|]. destruct fs as [|f fs]; [simpl in Hk; lia|].
  apply Forall_cons in HF as [(H1 & H2 & H3 & H4) HF]. cbn [fields fmap list_fmap concat]. rewrite <- !app_assoc. cbn [app].
  erewrite bind_ok; [|apply my_csv_copies; [done|simpl; lia]]. cbv iota. unfold print_field at 1. simpl app.
  rewrite (proj2 (Nat.ltb_lt _ _) H4). simpl orb. cbv iota. erewrite bind_ok; [|reflexivity]. rewrite IH by (done || simpl in Hk; lia).
  rewrite <- app_assoc, until_nul_id by done. simpl. rewrite Nat.add_0_r. do 3 f_equal. f_equal. apply imap_ext. intros i x _. simpl. by rewrite Nat.add_succ_r.
Qed.

(** A text without a comma in it runs over the buffers. *)
Lemma my_csv_overruns s1 : forall s2 out, COMMA ∉ s1 -> my_csv s2 s1 out = Err OutOfBounds.
Proof.
  induction s1 as [|c s1 IH]; intros s2 out Hc; [done|]. simpl. rewrite decide_False by set_solver.
  destruct (_ <? _)%nat; [|done]. apply IH. set_solver.
Qed.

Definition file_text (ls : list (list text * text)) : text := concat ((fun l => line_text l ++ [NL]) <$> ls).

Definition printed (ls : list (list text * text)) : output := ls ≫= (fun l => imap (fun i f => (i, f)) (take FIELDS l.1)).

Lemma line_no_newline l : good_line l -> NL ∉ line_text l.
Proof.
  intros [HF _ Hr _]. unfold line_text. rewrite elem_of_app. intros [H|H]; [|done].
  apply list_elem_of_In, in_concat in H as (x & Hx & H). apply list_elem_of_In, list_elem_of_fmap in Hx as (f & -> & Hf).
  apply list_elem_of_In, elem_of_app in H as [H|H]; [|by apply list_elem_of_singleton in H]. eapply Forall_forall in HF as (_ & _ & Hn & _); [|exact Hf]. done.
Qed.

Lemma fields_line l out : good_line l ->
  fields FIELDS 0 (buffer_of (line_text l ++ [NL])) out = Ok (tt, out ++ imap (fun i f => (i, f)) (take FIELDS l.1)).
Proof.
  intros [HF He _ _]. unfold buffer_of. set (z := replicate _ _). unfold line_text. rewrite <- !app_assoc. by apply fields_print.
Qed.

Lemma lines_loop_ok ls : forall fuel i rest out,
  Forall good_line ls -> (i + length ls <= 10)%nat ->
  lines_loop (length ls + fuel) i (MkFile (file_text ls ++ rest) false) out = lines_loop fuel (i + length ls) (MkFile rest false) (out ++ printed ls).
Proof.
  induction ls as [|l ls IH]; intros fuel i rest out HF Hi; simpl in Hi; [simpl; by rewrite app_nil_r, Nat.add_0_r|].
  apply Forall_cons in HF as [Hl HF]. cbn [length Nat.add lines_loop]. simpl f_eof. cbv iota. unfold file_text. cbn [fmap list_fmap concat].
  rewrite <- !app_assoc. cbn [app]. rewrite fgets_line; [|by apply line_no_newline|apply Hl]. cbn [f_eof]. cbv iota.
  erewrite bind_ok; [|by apply fields_line]. rewrite (proj2 (Nat.ltb_ge _ _)) by lia.
  change (concat ((fun l => line_text l ++ [NL]) <$> ls)) with (file_text ls). rewrite IH by (done || lia). rewrite Nat.add_succ_r.
  unfold printed. by rewrite bind_cons, <- app_assoc.
Qed.

(** Of a file with eleven lines or more of at least 33 fields that fit the buffers, the
    program prints the first 33 fields of the first eleven lines; with fewer lines it runs
    over its buffers at the end of the file. *)
Lemma read_file_correct ls last rest out :
  Forall good_line ls ->
  (length ls = 10%nat -> good_line last ->
    read_file_main (file_text ls ++ line_text last ++ NL :: rest) out = Ok (0, out ++ printed (ls ++ [last]))) /\
  ((length ls <= 10)%nat -> read_file_main (file_text ls) out = Err OutOfBounds).
Proof.
  intros HF. unfold read_file_main, fopen. split.
  - intros Hl Hlast. unfold mbind, M_bind. replace 11%nat with (length ls + 1)%nat by lia. rewrite lines_loop_ok by (done || lia). rewrite Hl. cbn [lines_loop Nat.add].
    simpl f_eof. cbv iota. rewrite fgets_line; [|by apply line_no_newline|apply Hlast]. cbn [f_eof]. cbv iota.
    unfold mbind, M_bind. rewrite fields_line by done. simpl. unfold printed. rewrite bind_app. simpl. by rewrite app_nil_r, <- app_assoc.
  - intros Hl. unfold mbind, M_bind. replace 11%nat with (length ls + S (10 - length ls))%nat by lia. rewrite <- (app_nil_r (file_text ls)), lines_loop_ok by (done || lia).
    cbn [lines_loop]. simpl f_eof. cbv iota. change (fgets LINE_SIZE (MkFile [] false)) with (@nil ascii, MkFile [] true). cbv iota beta.
    assert (Hf : forall o, fields FIELDS 0 (buffer_of []) o = Err OutOfBounds).
    { intros o. unfold FIELDS. cbn [fields]. unfold mbind, M_bind. rewrite my_csv_overruns; [done|]. unfold buffer_of.
      intros H. cbn [app] in H. apply elem_of_replicate in H as [H _]. done. }
    unfold mbind, M_bind. by rewrite Hf.
Qed.
