(* ===== verification/RegexGrep.v ===== *)
(** * Matching lines: [src/lib/regex/regexp.c]

    The lines of the standard input that match a pattern are printed with their numbers
    and with the parts that matched.  [regcomp] and [regexec] are parameters; streams are
    those of BnsCsv.v. *)

From stdpp Require Import prelude list strings.
From Stdlib Require Import ZArith Lia Ascii.
From S2P Require Import Prelude CString BnsCsv.

Definition LBUF_SIZE : nat := 256.
Definition STBUF_SIZE : nat := 256.
Definition nmatch : nat := 10.

(** What [regexec] returns: an error, no match, or the offsets in [pm]. *)
Inductive exec_result := ExecError | ExecNoMatch | ExecMatch (pm : list (Z * Z)).

(** What is printed: a line with its number, a part with its number, an error. *)
Inductive printed := Line (lno : Z) (lbuf : text) | Part (x : nat) (s : text) | BadPattern | BadExec (lbuf : text).

Abbreviation output := (list printed).

(** [strncpy] into the static buffer, and the NUL; the offsets are converted to
    [unsigned]. *)
Definition substr (str : text) (start end_ : Z) : M output text :=
  let n := (end_ - start) mod 2 ^ 32 in
  if (n <? Z.of_nat STBUF_SIZE) && (0 <=? start) && (start <=? Z.of_nat (length str)) then
    mret (take (Z.to_nat n) (drop (Z.to_nat start) str))
  else throw OutOfBounds.

Definition print (p : printed) : M output unit := modify (fun out => out ++ [p]).

(** [for (x=0; x < nmatch && pm[x].rm_so!=-1; ++x)], [pm] from [x] on *)
Fixpoint parts_loop (lno : Z) (lbuf : text) (x : nat) (pm : list (Z * Z)) : M output unit :=
  match pm with
  | [] => mret tt
  | (so, eo) :: pm =>
      if (x <? nmatch)%nat && negb (so =? -1) then
        _ ← (if (x =? 0)%nat then print (Line lno lbuf) else mret tt);
        s ← substr lbuf so eo;
        _ ← print (Part x s);
        parts_loop lno lbuf (S x) pm
      else mret tt
  end.

(** [if ((z = strlen(lbuf)) > 0 && lbuf[z-1] == '\n') lbuf[z-1] = 0;] *)
Definition strip_newline (lbuf : text) : text :=
  match last lbuf with Some c => if decide (c = NL) then take (length lbuf - 1) lbuf else lbuf | None => lbuf end.

Section main.
Context (regexec : text -> exec_result).

(** [while(fgets(lbuf, sizeof(lbuf), stdin))]; the status the program ends with *)
Fixpoint grep_loop (fuel : nat) (lno : Z) (fp : FILE) : M output Z :=
  let '(lbuf, fp) := fgets LBUF_SIZE fp in
  match lbuf, fuel with
  | [], _ => mret 0
  | _ :: _, O => no_fuel
  | _ :: _, S fuel =>
      lno ← int_of (lno + 1);
      let lbuf := strip_newline lbuf in
      match regexec lbuf with
      | ExecNoMatch => grep_loop fuel lno fp
      | ExecError => _ ← print (BadExec lbuf); mret 2
      | ExecMatch pm => _ ← parts_loop lno lbuf 0 pm; grep_loop fuel lno fp
      end
  end.

(** [compiles]: whether [regcomp] accepts the pattern. *)
Definition grep_main (compiles : bool) (contents : text) : M output Z :=
  if compiles then grep_loop (length contents) 0 (fopen contents)
  else _ ← print BadPattern; mret 1.

(** ** What is printed *)

(** What regexec(3) says of the offsets: those in use are within the string. *)
Definition within (str : text) (p : Z * Z) : Prop := p.1 = -1 \/ 0 <= p.1 <= p.2 /\ p.2 <= Z.of_nat (length str).

Context (regexec_within : forall str pm, regexec str = ExecMatch pm -> Forall (within str) pm).

(** The parts before the first that did not take part in the match. *)
Fixpoint used (pm : list (Z * Z)) : list (Z * Z) :=
  match pm with (so, eo) :: pm => if so =? -1 then [] else (so, eo) :: used pm | [] => [] end.

Definition slice (str : text) (p : Z * Z) : text := take (Z.to_nat (p.2 - p.1)) (drop (Z.to_nat p.1) str).

(** The output for a line. *)
Definition report (lno : Z) (lbuf : text) : output :=
  match regexec lbuf with
  | ExecMatch pm =>
      match used (take nmatch pm) with
      | [] => []
      | ps => Line lno lbuf :: imap (fun x p => Part x (slice lbuf p)) ps
      end
  | _ => []
  end.

Lemma parts_loop_ok lno lbuf pm : forall x out,
  (length lbuf < STBUF_SIZE)%nat -> Forall (within lbuf) pm ->
  parts_loop lno lbuf x pm out =
    Ok (tt, out ++ match used (take (nmatch - x) pm) with
                   | [] => []
                   | ps => (if (x =? 0)%nat then [Line lno lbuf] else []) ++ imap (fun i p => Part (x + i) (slice lbuf p)) ps
                   end).
Proof.
  induction pm as [|[so eo] pm IH]; intros x out Hl HF; cbn [parts_loop]; [by rewrite take_nil, app_nil_r|].
  apply Forall_cons in HF as [Hw HF]. destruct (Nat.ltb_spec x nmatch) as [Hx|Hx]; simpl andb.
  - destruct (nmatch - x)%nat as [|k] eqn:Ek; [lia|]. cbn [take used]. destruct (Z.eqb_spec so (-1)) as [->|Hso]; simpl negb; cbv iota; [by rewrite app_nil_r|].
    destruct Hw as [Hw|[Hw1 Hw2]]; cbn [fst snd] in *; [done|].
    assert (Hsub : forall o, substr lbuf so eo o = Ok (slice lbuf (so, eo), o)).
    { intros o. unfold substr. unfold STBUF_SIZE in *. rewrite Z.mod_small by lia. rewrite (proj2 (Z.ltb_lt _ _)), !(proj2 (Z.leb_le _ _)) by lia. done. }
    assert (Hk : k = (nmatch - S x)%nat) by lia. 
    assert (Hrest : forall o, parts_loop lno lbuf (S x) pm o = Ok (tt, o ++ imap (fun i p => Part (S x + i) (slice lbuf p)) (used (take k pm)))).
    { intros o. rewrite IH by done. rewrite <- Hk. do 3 f_equal. by destruct (used (take k pm)). }
    assert (Him : imap (fun i p => Part (x + i) (slice lbuf p)) ((so, eo) :: used (take k pm)) =
      Part x (slice lbuf (so, eo)) :: imap (fun i p => Part (S x + i) (slice lbuf p)) (used (take k pm))).
    { simpl. rewrite Nat.add_0_r. f_equal. apply imap_ext. intros i p _. simpl. by rewrite Nat.add_succ_r. }
    rewrite Him. unfold mbind, M_bind. destruct (x =? 0)%nat; unfold print, modify, mret, M_ret; cbn [andb negb]; cbv beta iota; rewrite Hsub; cbv beta iota; rewrite Hrest; f_equal; f_equal; by rewrite <- !app_assoc.
  - replace (nmatch - x)%nat with 0%nat by lia. simpl. by rewrite app_nil_r.
Qed.

Lemma strip_line l : NL ∉ l -> strip_newline (l ++ [NL]) = l.
Proof.
  intros Hn. unfold strip_newline. rewrite last_snoc, decide_True by done. rewrite length_app, Nat.add_sub. by rewrite take_app_length.
Qed.

Definition file_text (ls : list text) : text := concat ((fun l => l ++ [NL]) <$> ls).

(** A pattern that compiles, and lines that fit the buffer, on which [regexec] does not
    fail: the output has, in order, each line that matches with its number from 1, and the
    parts of it the match used, up to the first that was not; the program ends with 0. *)
Lemma grep_correct ls :
  Forall (fun l => NL ∉ l /\ (length l + 1 < LBUF_SIZE)%nat /\ regexec l <> ExecError) ls -> Z.of_nat (length ls) <= INT_MAX ->
  grep_main true (file_text ls) [] = Ok (0, concat (imap (fun i l => report (Z.of_nat (S i)) l) ls)).
Proof.
  intros HF Hn. unfold grep_main, fopen.
  assert (Hlen : (length ls <= length (file_text ls))%nat).
  { clear. unfold file_text. induction ls as [|l ls IH]; [done|]. rewrite fmap_cons. cbn [concat length]. rewrite !length_app. simpl. lia. }
  assert (Hloop : forall ls fuel k out, Forall (fun l => NL ∉ l /\ (length l + 1 < LBUF_SIZE)%nat /\ regexec l <> ExecError) ls ->
    Z.of_nat (k + length ls) <= INT_MAX -> (length ls <= fuel)%nat ->
    grep_loop fuel (Z.of_nat k) (MkFile (file_text ls) false) out = Ok (0, out ++ concat (imap (fun i l => report (Z.of_nat (S (k + i))) l) ls))).
  { clear ls HF Hn Hlen. induction ls as [|l ls IH]; intros fuel k out HF Hk Hf.
    { unfold file_text. simpl. destruct fuel; simpl; by rewrite app_nil_r. }
    simpl in Hk, Hf. destruct fuel as [|fuel]; [lia|]. apply Forall_cons in HF as [(Hnl & Hl & Hre) HF].
    unfold file_text. cbn [grep_loop fmap list_fmap concat]. rewrite <- !app_assoc. cbn [app]. rewrite fgets_line by done. cbn [f_eof f_rest].
    destruct (l ++ [NL]) as [|c l'] eqn:E; [by destruct l|]. rewrite <- E. rewrite strip_line by done.
    assert (Hint : forall o : output, int_of (Z.of_nat k + 1) o = Ok (Z.of_nat (S k), o)).
    { intros o. unfold int_of, INT_MIN, INT_MAX in *. rewrite !(proj2 (Z.leb_le _ _)) by lia. unfold mret, M_ret. simpl. do 2 f_equal. lia. }
    unfold mbind, M_bind. rewrite Hint. change (concat ((fun l => l ++ [NL]) <$> ls)) with (file_text ls).
    assert (Hc : concat (imap (fun i l => report (Z.of_nat (S (k + i))) l) (l :: ls)) =
      report (Z.of_nat (S k)) l ++ concat (imap (fun i l => report (Z.of_nat (S (S k + i))) l) ls)).
    { simpl. rewrite Nat.add_0_r. do 2 f_equal. apply imap_ext. intros i x _. simpl. do 2 f_equal. lia. }
    rewrite Hc. unfold report at 1. destruct (regexec l) as [| |pm] eqn:Er; [done| |].
    - rewrite IH by (done || lia). done.
    - rewrite parts_loop_ok by (unfold LBUF_SIZE, STBUF_SIZE in *; try lia; eauto). rewrite IH by (done || lia). by rewrite <- app_assoc. }
  exact (Hloop ls (length (file_text ls)) 0%nat [] HF Hn Hlen).
Qed.

End main.
