(* ===== verification/FileCopy.v ===== *)
(** * Copying a file: [src/lib/file/cp_test.c]

    The file [test.txt] is copied to [write.txt] in blocks.  How much each [read] gives
    and each [write] takes are the events of a run. *)

From stdpp Require Import prelude list.
From Stdlib Require Import ZArith Lia.
From S2P Require Import Prelude.

Definition BUFF_SIZE : nat := 512.

(** What is left to read, the other file with the position in it, how often "write error"
    was printed, and how often [fdatasync] was called. *)
Record files := Files { fd_r : list Z; fd_w : list Z; pos : nat; errors : nat; syncs : nat }.

(** [write]: the bytes at the position are replaced, and the file grows if it must. *)
Definition write_at (p : nat) (d f : list Z) : list Z := take p f ++ d ++ drop (p + length d) f.

(** [avail]: how many bytes [read] finds at hand, at least one; [taken]: how many [write]
    takes, [None] for -1. *)
Definition copy_block (avail : nat) (taken : option nat) (s : files) : option files :=
  let buf := take (avail `min` BUFF_SIZE) (fd_r s) in
  let n := length buf in
  if (0 <? n)%nat then
    let res := (fun w => w `min` n)%nat <$> taken in
    let w := default 0%nat res in
    Some (Files (drop n (fd_r s)) (write_at (pos s) (take w buf) (fd_w s)) (pos s + w)
      (if bool_decide (res = Some n) then errors s else S (errors s)) (S (syncs s)))
  else None.

(** [while ((n = read(..)) > 0)]; [false]: the events are over before the file. *)
Fixpoint copy_loop (es : list (nat * option nat)) (s : files) : files * bool :=
  match es with
  | [] => (s, bool_decide (fd_r s = []))
  | (avail, taken) :: es => match copy_block avail taken s with Some s => copy_loop es s | None => (s, true) end
  end.

Definition cp_main (es : list (nat * option nat)) (from to : list Z) : files * bool := copy_loop es (Files from to 0 0 0).

(** Every [read] gives something while there is something, every [write] takes it all. *)
Definition completes (e : nat * option nat) : Prop := (0 < e.1)%nat /\ exists w, e.2 = Some w /\ (BUFF_SIZE <= w)%nat.

Lemma length_write_at p d f : (p <= length f)%nat -> (p + length d <= length (write_at p d f))%nat.
Proof. intros Hp. unfold write_at. rewrite !length_app, length_take. lia. Qed.

(** Two blocks in a row *)
Lemma write_at_app p d e f : (p <= length f)%nat -> write_at (p + length d) e (write_at p d f) = write_at p (d ++ e) f.
Proof.
  intros Hp. unfold write_at. rewrite (app_assoc (take p f)). rewrite take_app_length' by (rewrite length_app, length_take; lia).
  rewrite drop_app_ge by (rewrite length_app, length_take; lia). rewrite length_app, length_take, drop_drop, length_app, <- !app_assoc. do 4 f_equal. lia.
Qed.

Lemma copy_loop_ok es : forall s,
  Forall completes es -> (length (fd_r s) <= length es)%nat -> (pos s <= length (fd_w s))%nat ->
  let s' := (copy_loop es s).1 in
  (copy_loop es s).2 = true /\ fd_r s' = [] /\ errors s' = errors s /\ fd_w s' = write_at (pos s) (fd_r s) (fd_w s).
Proof.
  assert (Hnil : forall s, fd_r s = [] -> fd_w s = write_at (pos s) (fd_r s) (fd_w s)).
  { intros s ->. unfold write_at. simpl. by rewrite Nat.add_0_r, take_drop. }
  induction es as [|[avail taken] es IH]; intros s HF Hl Hp; simpl in Hl.
  - assert (E : fd_r s = []) by (apply length_zero_iff_nil; lia). simpl. rewrite bool_decide_true by done. eauto.
  - apply Forall_cons in HF as [[Ha (w & Ht & Hw)] HF]. simpl in Ha, Ht. subst taken. cbn [copy_loop]. unfold copy_block.
    set (buf := take (avail `min` BUFF_SIZE) (fd_r s)). destruct (Nat.ltb_spec 0 (length buf)) as [Hn|Hn].
    + assert (Hnb : (length buf <= BUFF_SIZE)%nat) by (unfold buf; rewrite length_take; lia). cbn [fmap option_fmap option_map default].
      replace (w `min` length buf)%nat with (length buf) by lia. unfold default, from_option, id. rewrite firstn_all, bool_decide_true by done. set (s1 := Files _ _ _ _ _).
      assert (Er : fd_r s = buf ++ drop (length buf) (fd_r s)).
      { unfold buf at 1. rewrite <- (take_drop (avail `min` BUFF_SIZE) (fd_r s)) at 1. f_equal. unfold buf. rewrite length_take.
        destruct (decide (avail `min` BUFF_SIZE <= length (fd_r s))%nat); [f_equal; lia|]. rewrite !drop_ge by lia. done. }
      destruct (IH s1) as (H1 & H2 & H3 & H4); [done|simpl; rewrite length_drop; lia|simpl; pose proof (length_write_at (pos s) buf (fd_w s) Hp); lia|].
      split; [exact H1|]. split; [exact H2|]. split; [exact H3|]. rewrite H4. simpl. rewrite write_at_app by done. by rewrite <- Er.
    + assert (E : fd_r s = []).
      { unfold buf in Hn. rewrite length_take in Hn. apply length_zero_iff_nil. unfold BUFF_SIZE in Hn. lia. }
      simpl. eauto.
Qed.

(** When every [read] and [write] succeeds the copy begins with the contents of the file,
    whatever the sizes of the blocks; if the other file was longer its end stays, for it
    is not truncated. *)
Lemma cp_correct es from to :
  Forall completes es -> (length from <= length es)%nat ->
  let r := cp_main es from to in
  r.2 = true /\ errors r.1 = 0%nat /\ fd_w r.1 = from ++ drop (length from) to.
Proof.
  intros HF Hl. unfold cp_main. destruct (copy_loop_ok es (Files from to 0 0 0) HF Hl) as (H1 & _ & H3 & H4); [simpl; lia|].
  split; [exact H1|]. split; [exact H3|]. exact H4.
Qed.

(** Bytes that [write] does not take are lost, and only a message says so. *)
Lemma cp_short_write : cp_main [(512%nat, Some 1%nat); (512%nat, Some 512%nat)] [1; 2; 3] [] = (Files [] [1] 1 1 1, true).
Proof. done. Qed.
