(* ===== verification/ThreadPool.v ===== *)
(** * The thread pool of [src/lib/threadpool/threadpool.c]

    A queue of [threadworker]s behind a mutex and a condition variable, a fixed
    number of threads that run [threadpool_handle], and one client thread that
    calls [threadpool_add_worker] and [threadpool_destroy].  The threads are
    state machines over the shared pool; an execution is a list of actions that
    says which thread moves next, and every interleaving is such a list.

    A step is at most one access that another thread can race with: what a thread
    does to [work_queue] and [cur_queue_size] while it holds [queue_lock] is one
    step, an access of [shutdown], which [threadpool_destroy] writes without the
    lock, is a step of its own.  Accesses are sequentially consistent.

    [threadpool_init] does not look at what [pthread_create] returns.  A thread that was
    not created never moves, and its entry of [thread_ids] is not written: joining it reads
    an uninitialised value, a fault. *)

From stdpp Require Import prelude gmap list.
From Stdlib Require Import ZArith Lia.
From S2P Require Import Prelude CList CStackQueue.

Section pool.
Context {F A : Type}.

(** ** Data: threadpool.h *)

Record threadworker := Worker { process : F; arg : A }.

(** Where a thread is in [threadpool_handle]. *)
Inductive wpc :=
| W_Lock                 (** at [pthread_mutex_lock] *)
| W_Cond                 (** at the condition of the inner [while] *)
| W_Wait                 (** at the call of [pthread_cond_wait] *)
| W_Waiting              (** blocked on [queue_ready] *)
| W_Relock               (** woken, has to take the lock again *)
| W_Test                 (** at [if (pool->shutdown)] *)
| W_Leave                (** at the unlock before [pthread_exit] *)
| W_Take                 (** at the assertions and the dequeue *)
| W_Unlock (worker : ptr)
| W_Run (worker : ptr)
| W_Free (worker : ptr)
| W_Exited
| W_NotCreated.          (** [pthread_create] has failed *)

#[global] Instance wpc_eq_dec : EqDecision wpc.
Proof. solve_decision. Defined.

(** Where the client is. *)
Inductive cpc :=
| C_Idle
| C_AddLock (new_worker : ptr)   (** at [pthread_mutex_lock] of add_worker *)
| C_Enqueue (new_worker : ptr)
| C_Unlock
| C_Signal
| C_Broadcast                    (** [shutdown] is set *)
| C_Join (i : nat)
| C_Destroyed.

Inductive thread := Client | Thread (i : nat).

(** The pool, the threads, and three histories: what was enqueued, what was
    dequeued by a thread, what was called; [dropped] are the workers that
    [threadpool_destroy] takes out of the queue. *)
Record threadpool := Pool {
  queue_lock : option thread;
  work_queue : List loc;
  q_mem : lmem loc;
  w_mem : store threadworker unit;
  shutdown : Z;
  cur_queue_size : Z;
  max_thread_num : Z;
  threads : list wpc;
  client : cpc;
  added : list threadworker;
  taken : list threadworker;
  called : list threadworker;
  dropped : list loc;
}.

Definition set_lock v s := Pool v (work_queue s) (q_mem s) (w_mem s) (shutdown s) (cur_queue_size s)
  (max_thread_num s) (threads s) (client s) (added s) (taken s) (called s) (dropped s).
Definition set_queue v s := Pool (queue_lock s) v (q_mem s) (w_mem s) (shutdown s) (cur_queue_size s)
  (max_thread_num s) (threads s) (client s) (added s) (taken s) (called s) (dropped s).
Definition set_q_mem v s := Pool (queue_lock s) (work_queue s) v (w_mem s) (shutdown s)
  (cur_queue_size s) (max_thread_num s) (threads s) (client s) (added s) (taken s) (called s) (dropped s).
Definition set_w_mem v s := Pool (queue_lock s) (work_queue s) (q_mem s) v (shutdown s)
  (cur_queue_size s) (max_thread_num s) (threads s) (client s) (added s) (taken s) (called s) (dropped s).
Definition set_shutdown v s := Pool (queue_lock s) (work_queue s) (q_mem s) (w_mem s) v
  (cur_queue_size s) (max_thread_num s) (threads s) (client s) (added s) (taken s) (called s) (dropped s).
Definition set_cur v s := Pool (queue_lock s) (work_queue s) (q_mem s) (w_mem s) (shutdown s) v
  (max_thread_num s) (threads s) (client s) (added s) (taken s) (called s) (dropped s).
Definition set_threads v s := Pool (queue_lock s) (work_queue s) (q_mem s) (w_mem s) (shutdown s)
  (cur_queue_size s) (max_thread_num s) v (client s) (added s) (taken s) (called s) (dropped s).
Definition set_client v s := Pool (queue_lock s) (work_queue s) (q_mem s) (w_mem s) (shutdown s)
  (cur_queue_size s) (max_thread_num s) (threads s) v (added s) (taken s) (called s) (dropped s).
Definition log_added w s := Pool (queue_lock s) (work_queue s) (q_mem s) (w_mem s) (shutdown s)
  (cur_queue_size s) (max_thread_num s) (threads s) (client s) (added s ++ [w]) (taken s) (called s)
  (dropped s).
Definition log_taken w s := Pool (queue_lock s) (work_queue s) (q_mem s) (w_mem s) (shutdown s)
  (cur_queue_size s) (max_thread_num s) (threads s) (client s) (added s) (taken s ++ [w]) (called s)
  (dropped s).
Definition log_called w s := Pool (queue_lock s) (work_queue s) (q_mem s) (w_mem s) (shutdown s)
  (cur_queue_size s) (max_thread_num s) (threads s) (client s) (added s) (taken s) (called s ++ [w])
  (dropped s).
Definition set_dropped v s := Pool (queue_lock s) (work_queue s) (q_mem s) (w_mem s) (shutdown s)
  (cur_queue_size s) (max_thread_num s) (threads s) (client s) (added s) (taken s) (called s) v.

(** Operations on the two memories as operations on the pool. *)
Definition in_queue {X} (c : M (lmem loc) X) : M threadpool X := fun s =>
  match c (q_mem s) with
  | Ok (x, m) => Ok (x, set_q_mem m s)
  | Err f => Err f
  | NoFuel => NoFuel
  end.

Definition in_workers {X} (c : M (store threadworker unit) X) : M threadpool X := fun s =>
  match c (w_mem s) with
  | Ok (x, m) => Ok (x, set_w_mem m s)
  | Err f => Err f
  | NoFuel => NoFuel
  end.

(** Entering the worker at [p] in a history. *)
Definition record (log : threadworker -> threadpool -> threadpool) (p : ptr) : M threadpool unit :=
  modify (fun s =>
    match p ≫= fun l => cells (w_mem s) !! l with Some w => log w s | None => s end).

(** ** [threadpool_init] *)

(** A failing [malloc] of the pool or of the thread ids is written through.  [create i]:
    [pthread_create] succeeds for thread [i]. *)
Definition threadpool_init (create : nat -> bool) (junk : List loc) (qm : lmem loc) (wm : store threadworker unit)
    (n : Z) : outcome threadpool :=
  match (pool ← malloc_array 1; ids ← malloc_array n; mret (pool, ids)) wm with
  | Ok ((pool, ids), wm) =>
      if pool && (ids || (n <=? 0)) then
        Ok (Pool None (list_init junk true) qm wm 0 0 n ((fun i => if create i then W_Lock else W_NotCreated) <$> seq 0 (Z.to_nat n)) C_Idle
              [] [] [] [])
      else Err NullDeref
  | Err f => Err f
  | NoFuel => NoFuel
  end.

(** ** Steps; [false] is a thread that cannot move *)

Definition goto (i : nat) (pc : wpc) : M threadpool bool :=
  _ ← modify (fun s => set_threads (<[i := pc]> (threads s)) s); mret true.

Definition client_goto (pc : cpc) : M threadpool bool :=
  _ ← modify (set_client pc); mret true.

(** [pthread_mutex_lock], then [k] *)
Definition lock (t : thread) (k : M threadpool bool) : M threadpool bool :=
  s ← get;
  match queue_lock s with
  | Some _ => mret false
  | None => _ ← modify (set_lock (Some t)); k
  end.

Definition unlock : M threadpool unit := modify (set_lock None).

(** [threadpool_handle], by one step of thread [i] *)
Definition take_worker (i : nat) : M threadpool bool :=
  s ← get;
  _ ← assert (negb (cur_queue_size s =? 0));
  p ← in_queue (queue_peek (work_queue s));
  _ ← assert (bool_decide (p <> None));
  z ← int_of (cur_queue_size s - 1);
  _ ← modify (set_cur z);
  worker ← in_queue (queue_peek (work_queue s));
  '(_, data, queue) ← in_queue (queue_dequeue (work_queue s));
  _ ← modify (set_queue queue);
  let worker := match data with Some d => Some d | None => worker end in
  _ ← record log_taken worker;
  goto i (W_Unlock worker).

Definition worker_step (i : nat) : M threadpool bool :=
  s ← get;
  match threads s !! i with
  | None => mret false
  | Some pc =>
      match pc with
      | W_Lock => lock (Thread i) (goto i W_Cond)
      | W_Cond =>
          if (cur_queue_size s =? 0) && (shutdown s =? 0) then goto i W_Wait else goto i W_Test
      | W_Wait => _ ← unlock; goto i W_Waiting
      | W_Waiting => mret false
      | W_Relock => lock (Thread i) (goto i W_Cond)
      | W_Test => if shutdown s =? 0 then goto i W_Take else goto i W_Leave
      | W_Leave => _ ← unlock; goto i W_Exited
      | W_Take => take_worker i
      | W_Unlock worker => _ ← unlock; goto i (W_Run worker)
      | W_Run worker =>
          w ← in_workers (load worker);
          _ ← modify (log_called w);
          goto i (W_Free worker)
      | W_Free worker => _ ← in_workers (free worker); goto i W_Lock
      | W_Exited | W_NotCreated => mret false
      end
  end.

Definition waiting (pc : wpc) : bool := match pc with W_Waiting => true | _ => false end.
Definition wake (pc : wpc) : wpc := if waiting pc then W_Relock else pc.

(** [pthread_cond_signal]: one of the waiting threads, the scheduler's choice,
    is woken; without one nothing happens. *)
Definition signal (i : nat) (k : M threadpool bool) : M threadpool bool :=
  s ← get;
  match threads s !! i with
  | Some W_Waiting => _ ← goto i W_Relock; k
  | _ => if existsb waiting (threads s) then mret false else k
  end.

Definition broadcast : M threadpool unit := modify (fun s => set_threads (map wake (threads s)) s).

(** [while (queue_peek(..) != NULL) queue_dequeue(..)] *)
Fixpoint drain (fuel : nat) (queue : List loc) : M (lmem loc) (list loc * List loc) :=
  p ← queue_peek queue;
  match p with
  | None => mret ([], queue)
  | Some worker =>
      match fuel with
      | O => no_fuel
      | S fuel =>
          '(_, data, queue) ← queue_dequeue queue;
          '(ds, queue) ← drain fuel queue;
          mret (match data with Some d => d | None => worker end :: ds, queue)
      end
  end.

(** The calls of the client: the part before the first step another thread can
    see. *)
Definition add_worker_call (w : threadworker) : M threadpool bool :=
  new_worker ← in_workers (malloc w);
  match new_worker with
  | None => throw NullDeref
  | Some _ => client_goto (C_AddLock new_worker)
  end.

Definition destroy_call : M threadpool bool :=
  s ← get;
  if shutdown s =? 0 then _ ← modify (set_shutdown 1); client_goto C_Broadcast
  else mret true.

(** The rest of [threadpool_add_worker] and of [threadpool_destroy], by one step
    of the client. *)
Definition client_step (i : nat) : M threadpool bool :=
  s ← get;
  match client s with
  | C_Idle | C_Destroyed => mret false
  | C_AddLock w => lock Client (client_goto (C_Enqueue w))
  | C_Enqueue None => throw NullDeref
  | C_Enqueue (Some l) =>
      '(r, queue) ← in_queue (queue_enqueue (work_queue s) l);
      _ ← modify (set_queue queue);
      _ ← (if r =? 0 then record log_added (Some l) else mret tt);
      z ← int_of (cur_queue_size s + 1);
      _ ← modify (set_cur z);
      client_goto C_Unlock
  | C_Unlock => _ ← unlock; client_goto C_Signal
  | C_Signal => signal i (client_goto C_Idle)
  | C_Broadcast => _ ← broadcast; client_goto (C_Join 0)
  | C_Join k =>
      if Z.of_nat k <? max_thread_num s then
        match threads s !! k with
        | Some W_Exited => client_goto (C_Join (S k))
        | Some W_NotCreated => throw Uninitialised
        | Some _ => mret false
        | None => throw OutOfBounds
        end
      else
        '(ds, queue) ← in_queue (drain (S (Z.to_nat (l_size (work_queue s)))) (work_queue s));
        _ ← modify (set_queue queue);
        _ ← modify (set_dropped ds);
        client_goto C_Destroyed
  end.

(** ** Executions *)

Inductive action :=
| AWorker (i : nat)              (** thread [i] moves *)
| AWake (i : nat)                (** a spurious wakeup, which POSIX allows *)
| AAdd (w : threadworker)        (** the client calls [threadpool_add_worker] *)
| ADestroy                       (** the client calls [threadpool_destroy] *)
| AClient (i : nat).             (** the client moves on; [i] is woken by a signal *)

Definition is_call (a : action) : bool :=
  match a with AAdd _ | ADestroy => true | _ => false end.

(** The client calls when it is idle; once the pool is destroyed [pool] is NULL. *)
Definition step (a : action) : M threadpool bool :=
  s ← get;
  match a with
  | AWorker i => worker_step i
  | AWake i => match threads s !! i with Some W_Waiting => goto i W_Relock | _ => mret false end
  | AAdd w =>
      match client s with
      | C_Idle => add_worker_call w
      | C_Destroyed => throw NullDeref
      | _ => mret false
      end
  | ADestroy =>
      match client s with
      | C_Idle => destroy_call
      | C_Destroyed => throw NullDeref
      | _ => mret false
      end
  | AClient i => client_step i
  end.

Inductive reachable (s0 : threadpool) : threadpool -> Prop :=
| reach_init : reachable s0 s0
| reach_step s a b s' : reachable s0 s -> step a s = Ok (b, s') -> reachable s0 s'.

(** ** The invariant *)

Definition holds (pc : wpc) : bool :=
  match pc with W_Cond | W_Wait | W_Test | W_Leave | W_Take | W_Unlock _ => true | _ => false end.
Definition client_holds (c : cpc) : bool :=
  match c with C_Enqueue _ | C_Unlock => true | _ => false end.

Definition awake (pc : wpc) : bool :=
  match pc with W_Waiting | W_Exited | W_NotCreated => false | _ => true end.
Definition signalling (c : cpc) : bool :=
  match c with C_Unlock | C_Signal => true | _ => false end.

(** The worker a thread has in its hands, and the worker it has yet to call. *)
Definition hand (pc : wpc) : ptr :=
  match pc with W_Unlock w | W_Run w | W_Free w => w | _ => None end.
Definition client_hand (c : cpc) : ptr :=
  match c with C_AddLock w | C_Enqueue w => w | _ => None end.
Definition pending (h : gmap loc threadworker) (pc : wpc) : option threadworker :=
  match pc with W_Unlock w | W_Run w => w ≫= fun l => h !! l | _ => None end.

Definition olist {X} (o : option X) : list X := match o with Some x => [x] | None => [] end.

Definition owned (s : threadpool) (ws : list loc) : list loc :=
  ws ++ dropped s ++ omap hand (threads s) ++ olist (client_hand (client s)).

Definition pc_ok (s : threadpool) (ws : list loc) (pc : wpc) : Prop :=
  match pc with
  | W_Wait => ws = []
  | W_Test => ws <> [] \/ shutdown s <> 0
  | W_Take => ws <> []
  | W_Unlock w | W_Run w | W_Free w => w <> NULL
  | W_Leave | W_Exited => shutdown s <> 0
  | _ => True
  end.

Definition exited_below (k : nat) (pcs : list wpc) : Prop :=
  forall j, (j < k)%nat -> (j < length pcs)%nat -> pcs !! j = Some W_Exited.

Definition client_ok (s : threadpool) : Prop :=
  match client s with
  | C_AddLock w | C_Enqueue w => w <> NULL /\ shutdown s = 0 /\ dropped s = []
  | C_Idle | C_Unlock | C_Signal => shutdown s = 0 /\ dropped s = []
  | C_Broadcast => shutdown s <> 0 /\ dropped s = []
  | C_Join k => shutdown s <> 0 /\ dropped s = [] /\ exited_below k (threads s)
  | C_Destroyed => shutdown s <> 0 /\ exited_below (length (threads s)) (threads s)
  end.

(** The queue holds [ws] in the cells [ls]. *)
Record pinv (s : threadpool) (ls ws : list loc) : Prop := {
  i_max : length (threads s) = Z.to_nat (max_thread_num s);
  i_thread_lock i pc : threads s !! i = Some pc -> holds pc = true <-> queue_lock s = Some (Thread i);
  i_lock_thread i : queue_lock s = Some (Thread i) -> is_Some (threads s !! i);
  i_client_lock : client_holds (client s) = true <-> queue_lock s = Some Client;
  i_queue : is_list (cells (q_mem s)) (work_queue s) ls ws;
  i_size : cur_queue_size s = Z.of_nat (length (ws ++ dropped s));
  i_oracles : oracle (q_mem s) = [] /\ oracle (w_mem s) = [];
  i_owned : NoDup (owned s ws);
  i_alloc l : l ∈ owned s ws <-> is_Some (cells (w_mem s) !! l);
  i_added : exists q, added s = taken s ++ q /\
      Forall2 (fun l w => cells (w_mem s) !! l = Some w) (ws ++ dropped s) q;
  i_called : taken s ≡ₚ called s ++ omap (pending (cells (w_mem s))) (threads s);
  i_pc i pc : threads s !! i = Some pc -> pc_ok s ws pc;
  i_client : client_ok s;
  i_signal : shutdown s = 0 -> ws <> [] ->
      signalling (client s) = true \/ Forall (W_NotCreated =.) (threads s) \/
      exists i pc, threads s !! i = Some pc /\ awake pc = true;
}.

Definition inv (s : threadpool) : Prop := exists ls ws, pinv s ls ws.

(** Replacing one thread's entry. *)
Lemma omap_insert_perm {X Y} (f : X -> option Y) (l : list X) (i : nat) x x' :
  l !! i = Some x -> exists r, omap f l ≡ₚ olist (f x) ++ r /\
    omap f (<[i := x']> l) ≡ₚ olist (f x') ++ r.
Proof.
  intros Hi. pose proof (lookup_lt_Some _ _ _ Hi).
  exists (omap f (take i l) ++ omap f (drop (S i) l)).
  rewrite insert_take_drop by done. rewrite <- (take_drop_middle l i x Hi) at 1.
  rewrite !omap_app. split; simpl.
  - destruct (f x); simpl; [by rewrite Permutation_middle|done].
  - destruct (f x'); simpl; [by rewrite Permutation_middle|done].
Qed.

Lemma omap_insert_same {X Y} (f : X -> option Y) (l : list X) (i : nat) x x' :
  l !! i = Some x -> f x' = f x -> omap f (<[i := x']> l) = omap f l.
Proof.
  intros Hi Hf. pose proof (lookup_lt_Some _ _ _ Hi).
  rewrite insert_take_drop by done. rewrite <- (take_drop_middle l i x Hi) at 3.
  rewrite !omap_app. simpl. by rewrite Hf.
Qed.

(** What the workers' memory holds outside the given addresses may change. *)
Lemma values_frame (h h' : gmap loc threadworker) ks q :
  (forall l, l ∈ ks -> h' !! l = h !! l) ->
  Forall2 (fun l w => h !! l = Some w) ks q -> Forall2 (fun l w => h' !! l = Some w) ks q.
Proof.
  intros Hf HF. induction HF as [|l w ks q Hl HF IH]; constructor.
  - rewrite Hf; [done|set_solver].
  - apply IH. set_solver.
Qed.

Lemma pending_frame (h h' : gmap loc threadworker) (pcs : list wpc) :
  (forall l, l ∈ omap hand pcs -> h' !! l = h !! l) ->
  omap (pending h') pcs = omap (pending h) pcs.
Proof.
  induction pcs as [|pc pcs IH]; intros Hf; [done|]. csimpl in *.
  assert (Hp : pending h' pc = pending h pc).
  { destruct pc as [| | | | | | | |[l|]|[l|]|[l|]| |]; simpl; try done; apply Hf; set_solver. }
  rewrite Hp, IH; [done|]. intros l Hl. apply Hf. destruct (hand pc); set_solver.
Qed.

(** Only the lock's holder can be where the queue matters. *)
Lemma pc_ok_change s s' ws ws' pc :
  shutdown s' = shutdown s -> holds pc = false -> pc_ok s ws pc -> pc_ok s' ws' pc.
Proof. intros Hs. destruct pc; simpl; rewrite ?Hs; done. Qed.

(** Thread [i] is at [pc'] and the lock is [lk]. *)
Definition moved (i : nat) (pc' : wpc) (lk : option thread) (s : threadpool) : threadpool :=
  set_threads (<[i := pc']> (threads s)) (set_lock lk s).

(** How a thread's move may change the lock. *)
Definition lock_moves (s : threadpool) (i : nat) (pc pc' : wpc) (lk : option thread) : Prop :=
  ((holds pc = true \/ queue_lock s = None) /\ lk = if holds pc' then Some (Thread i) else None) \/
  (holds pc = false /\ holds pc' = false /\ lk = queue_lock s).

Lemma moved_lock s ls ws i pc pc' lk :
  pinv s ls ws -> threads s !! i = Some pc -> lock_moves s i pc pc' lk ->
  (forall j pc0, threads (moved i pc' lk s) !! j = Some pc0 ->
     holds pc0 = true <-> lk = Some (Thread j)) /\
  (forall j, lk = Some (Thread j) -> is_Some (threads (moved i pc' lk s) !! j)) /\
  (client_holds (client s) = true <-> lk = Some Client).
Proof.
  intros H Hi Hm. pose proof (i_thread_lock _ _ _ H) as Ht. pose proof (i_client_lock _ _ _ H) as Hc.
  pose proof (i_lock_thread _ _ _ H) as Hlt. pose proof (lookup_lt_Some _ _ _ Hi).
  pose proof (Ht _ _ Hi) as Hti. simpl.
  assert (Hrange : forall j, is_Some (threads s !! j) -> is_Some (<[i:=pc']> (threads s) !! j)).
  { intros j. by rewrite !lookup_lt_is_Some, length_insert. }
  split_and!.
  - intros j pc0. destruct (decide (i = j)) as [<-|Hne].
    + rewrite list_lookup_insert_eq by done. intros [= <-].
      destruct Hm as [[? ->]|(? & -> & ->)]; [by destruct (holds pc')|]. split; [done|].
      intros Hq%Hti. congruence.
    + rewrite list_lookup_insert_ne by done. intros Hj. rewrite (Ht _ _ Hj).
      destruct Hm as [[Hlk ->]|(_ & _ & ->)]; [|done].
      destruct Hlk as [Hh|Hn]; [apply Hti in Hh as Hn|]; rewrite Hn; destruct (holds pc'); split; congruence.
  - intros j Hj. apply Hrange. destruct Hm as [[_ ->]|(_ & _ & ->)]; [|by apply Hlt].
    destruct (holds pc'); [|done]. by simplify_eq.
  - destruct Hm as [[Hlk ->]|(_ & _ & ->)]; [|done]. rewrite Hc.
    destruct Hlk as [Hh|Hn]; [apply Hti in Hh as Hn|]; rewrite Hn; destruct (holds pc'); split; congruence.
Qed.

(** The other threads' conditions survive a change of the queue when none of
    them holds the lock. *)
Lemma moved_pc_ok s s' ws ws' i pc pc' :
  (forall j pc0, threads s !! j = Some pc0 -> pc_ok s ws pc0) ->
  threads s !! i = Some pc -> shutdown s' = shutdown s -> threads s' = <[i := pc']> (threads s) ->
  pc_ok s' ws' pc' ->
  (ws' = ws \/ forall j pc0, threads s !! j = Some pc0 -> j <> i -> holds pc0 = false) ->
  forall j pc0, threads s' !! j = Some pc0 -> pc_ok s' ws' pc0.
Proof.
  intros Hok Hi Hs Ht Hpc Hw j pc0. rewrite Ht.
  destruct (decide (i = j)) as [<-|Hne].
  - rewrite list_lookup_insert_eq by (by eapply lookup_lt_Some). by intros [= <-].
  - rewrite list_lookup_insert_ne by done. intros Hj. specialize (Hok _ _ Hj).
    destruct Hw as [-> |Hw]; [|by eapply pc_ok_change; [..|done]; [|eapply Hw]].
    unfold pc_ok in *. destruct pc0; rewrite ?Hs; done.
Qed.

Lemma moved_client_ok s s' i pc pc' :
  client_ok s -> threads s !! i = Some pc -> pc <> W_Exited -> client s' = client s ->
  shutdown s' = shutdown s -> dropped s' = dropped s -> threads s' = <[i := pc']> (threads s) ->
  client_ok s'.
Proof.
  intros Hc Hi Hne Ec Es Ed Et. unfold client_ok in *. rewrite Ec, Es, Ed, Et.
  pose proof (lookup_lt_Some _ _ _ Hi).
  assert (He : forall k, exited_below k (threads s) -> exited_below k (<[i:=pc']> (threads s))).
  { intros k Hk j Hj. rewrite length_insert. intros Hl. specialize (Hk j Hj Hl).
    destruct (decide (i = j)) as [<-|?]; [congruence|]. by rewrite list_lookup_insert_ne. }
  destruct (client s); rewrite ?length_insert; naive_solver.
Qed.

(** A thread that moves keeps the queue attended: it is awake, or it waits at an
    empty queue, or the pool is shut down. *)
Lemma moved_signal s (ws : list loc) i pc pc' :
  threads s !! i = Some pc -> (pc' = W_Waiting -> ws = []) -> (pc' = W_Exited -> shutdown s <> 0) ->
  pc' <> W_NotCreated -> shutdown s = 0 -> ws <> [] ->
  exists j pc0, <[i := pc']> (threads s) !! j = Some pc0 /\ awake pc0 = true.
Proof.
  intros Hi Hw He Hs Hn. exists i, pc'.
  rewrite list_lookup_insert_eq by (by eapply lookup_lt_Some). split; [done|].
  destruct pc'; naive_solver.
Qed.

(** A step of a thread that touches neither the queue nor the workers. *)
Lemma moved_inv s ls ws i pc pc' lk :
  pinv s ls ws -> threads s !! i = Some pc -> pc <> W_Exited -> pc' <> W_NotCreated ->
  hand pc' = hand pc -> (forall h, pending h pc' = pending h pc) ->
  pc_ok s ws pc' -> (pc' = W_Waiting -> ws = []) -> lock_moves s i pc pc' lk ->
  pinv (moved i pc' lk s) ls ws.
Proof.
  intros H Hi Hne Hnc Hh Hp Hok Hw Hm. destruct (moved_lock _ _ _ _ _ _ _ H Hi Hm) as (L1 & L2 & L3).
  destruct H.
  assert (Ho : owned (moved i pc' lk s) ws = owned s ws).
  { unfold owned. simpl. by erewrite omap_insert_same. }
  split; try done; simpl.
  - by rewrite length_insert.
  - by rewrite Ho.
  - intros l. by rewrite Ho.
  - by erewrite omap_insert_same.
  - eapply (moved_pc_ok s (moved i pc' lk s)); [done|done|done|done|done|by left].
  - by eapply (moved_client_ok s (moved i pc' lk s)).
  - intros Hs Hn. right. right. eapply moved_signal; [done..| |done|done|done]. by intros ->.
Qed.

(** ** The code's building blocks *)

Lemma wp_in_queue {X} (c : M (lmem loc) X) Q s :
  wp c (fun x m => Q x (set_q_mem m s)) (q_mem s) -> wp (in_queue c) Q s.
Proof. unfold wp, in_queue. by destruct (c (q_mem s)) as [[]| |]. Qed.

Lemma wp_in_workers {X} (c : M (store threadworker unit) X) Q s :
  wp c (fun x m => Q x (set_w_mem m s)) (w_mem s) -> wp (in_workers c) Q s.
Proof. unfold wp, in_workers. by destruct (c (w_mem s)) as [[]| |]. Qed.

Lemma wp_get (Q : threadpool -> threadpool -> Prop) s : Q s s -> wp get Q s.
Proof. done. Qed.

Lemma wp_modify f (Q : unit -> threadpool -> Prop) s : Q tt (f s) -> wp (modify f) Q s.
Proof. done. Qed.

Lemma wp_goto i pc Q s :
  Q true (set_threads (<[i := pc]> (threads s)) s) -> wp (goto i pc) Q s.
Proof. done. Qed.

Lemma wp_client_goto pc Q s : Q true (set_client pc s) -> wp (client_goto pc) Q s.
Proof. done. Qed.

Lemma wp_lock t k Q s :
  Q false s -> (queue_lock s = None -> wp k Q (set_lock (Some t) s)) -> wp (lock t k) Q s.
Proof.
  intros H1 H2. unfold lock. apply wp_bind, wp_get. destruct (queue_lock s); [done|].
  apply wp_bind, wp_modify. by apply H2.
Qed.

Lemma wp_record log p Q s w :
  p ≫= (fun l => cells (w_mem s) !! l) = Some w -> Q tt (log w s) -> wp (record log p) Q s.
Proof. intros Hw HQ. unfold record. apply wp_modify. by rewrite Hw. Qed.

Lemma queue_peek_ok L ls ws (m : lmem loc) :
  is_list (cells m) L ls ws -> queue_peek L m = Ok (head ws, m).
Proof.
  intros [Hc _ _ _]. unfold queue_peek. destruct ls as [|l ls], ws as [|w ws]; try done; simpl in Hc.
  - by rewrite Hc.
  - destruct Hc as (-> & nx & Hl & _). by rewrite (bind_ok _ _ _ (Elmt w nx) m) by (unfold load; by rewrite Hl).
Qed.

(** ** A thread takes a worker, calls it, frees it *)

Lemma size_bound s ls ws :
  pinv s ls ws -> (length (ws ++ dropped s) <= length (added s))%nat.
Proof.
  intros H. destruct (i_added _ _ _ H) as (q & -> & HF). apply Forall2_length in HF.
  rewrite HF, length_app. lia.
Qed.

(** While a thread is in the loop the pool is not destroyed. *)
Lemma running_dropped s ls ws i pc :
  pinv s ls ws -> threads s !! i = Some pc -> pc <> W_Exited -> dropped s = [].
Proof.
  intros H Hi Hne. pose proof (i_client _ _ _ H) as Hc. unfold client_ok in Hc.
  destruct (client s); try naive_solver. destruct Hc as [_ He].
  pose proof (lookup_lt_Some _ _ _ Hi) as Hl. specialize (He i Hl Hl). congruence.
Qed.

Lemma owned_alloc s ls ws l :
  pinv s ls ws -> l ∈ owned s ws -> exists w, cells (w_mem s) !! l = Some w.
Proof. intros H. apply (i_alloc _ _ _ H). Qed.

(** The state after the dequeue of [l] (the worker [w]). *)
Definition took (i : nat) (l : loc) (w : threadworker) (L : List loc) (m : lmem loc)
    (s : threadpool) : threadpool :=
  set_threads (<[i := W_Unlock (Some l)]> (threads s))
    (log_taken w (set_queue L (set_q_mem m (set_cur (cur_queue_size s - 1) s)))).

Lemma other_not_holding s ls ws i pc :
  pinv s ls ws -> threads s !! i = Some pc -> holds pc = true ->
  forall j pc0, threads s !! j = Some pc0 -> j <> i -> holds pc0 = false.
Proof.
  intros H Hi Hh j pc0 Hj Hne. apply (i_thread_lock _ _ _ H i pc Hi) in Hh.
  destruct (holds pc0) eqn:E; [|done]. apply (i_thread_lock _ _ _ H j pc0 Hj) in E. congruence.
Qed.

Lemma took_inv s ls k l ws i w L m :
  pinv s (k :: ls) (l :: ws) -> threads s !! i = Some W_Take ->
  cells (w_mem s) !! l = Some w ->
  is_list (cells m) L ls ws -> oracle m = [] ->
  pinv (took i l w L m s) ls ws.
Proof.
  intros H Hi Hw HL Ho.
  pose proof (running_dropped _ _ _ _ _ H Hi ltac:(done)) as Hdr.
  pose proof (other_not_holding _ _ _ _ _ H Hi eq_refl) as Hother.
  pose proof (i_thread_lock _ _ _ H i _ Hi) as Hlk.
  destruct (moved_lock s _ _ i W_Take (W_Unlock (Some l)) (queue_lock s) H Hi) as (L1 & L2 & L3).
  { left. split; [by left|]. by apply Hlk. }
  destruct H.
  destruct (omap_insert_perm hand (threads s) i W_Take (W_Unlock (Some l)) Hi) as (r & R1 & R2).
  destruct (omap_insert_perm (pending (cells (w_mem s))) (threads s) i W_Take (W_Unlock (Some l)) Hi)
    as (rp & P1 & P2).
  assert (Hown : owned (took i l w L m s) ws ≡ₚ owned s (l :: ws)).
  { unfold owned, took. simpl. rewrite R1, R2. simpl. solve_Permutation. }
  split; try done; simpl.
  - by rewrite length_insert.
  - rewrite i_size0, Hdr. simpl. lia.
  - by destruct i_oracles0.
  - by rewrite Hown.
  - intros l'. by rewrite Hown.
  - destruct i_added0 as (q & Hq & HF). simpl in HF. apply Forall2_cons_inv_l in HF as (w' & q' & Hw' & HF & ->).
    exists q'. rewrite Hq. simplify_eq. split; [by rewrite <- app_assoc|done].
  - rewrite P2. simpl. rewrite Hw. simpl. rewrite i_called0, P1. simpl. solve_Permutation.
  - eapply (moved_pc_ok s (took i l w L m s) (l :: ws)); [done|done|done|done|done|].
    right. intros. by eapply Hother.
  - by eapply (moved_client_ok s (took i l w L m s)).
  - intros Hs Hn. right. right. by apply (moved_signal s ws i W_Take).
Qed.

Lemma take_worker_inv s ls ws i :
  pinv s ls ws -> threads s !! i = Some W_Take -> Z.of_nat (length (added s)) <= INT_MAX ->
  wp (take_worker i) (fun _ s' => inv s' /\ added s' = added s) s.
Proof.
  intros H Hi Hb. pose proof (i_pc _ _ _ H i _ Hi) as Hne. simpl in Hne.
  pose proof (size_bound _ _ _ H) as Hsz.
  pose proof (running_dropped _ _ _ _ _ H Hi ltac:(done)) as Hdr.
  pose proof (i_queue _ _ _ H) as HL. pose proof (is_list_length _ _ _ _ HL) as Hlen.
  destruct ws as [|l ws]; [done|]. destruct ls as [|k ls]; [done|].
  destruct (owned_alloc _ _ _ l H) as [w Hw]; [unfold owned; set_solver|].
  pose proof (i_size _ _ _ H) as Hcur. rewrite Hdr, app_nil_r in Hcur, Hsz.
  unfold take_worker. wp_step. apply wp_get. wp_step. apply wp_assert.
  { apply negb_true_iff, Z.eqb_neq. rewrite Hcur. simpl. lia. }
  pose proof (queue_peek_ok _ _ _ _ HL) as Hp.
  wp_step. apply wp_in_queue. eapply wp_intro; [exact Hp|]. wp_step. apply wp_assert; [done|].
  wp_step. apply wp_int_of; [unfold INT_MIN, INT_MAX in *; simpl in *; lia|].
  wp_step. apply wp_modify. wp_step. apply wp_in_queue. simpl.
  eapply wp_intro; [exact Hp|]. wp_step. apply wp_in_queue. simpl.
  eapply wp_mono; [apply (list_rem_next_head_spec _ k ls l ws); [done|lia]|].
  intros [[r d] L] m (Ho & _ & _ & Hr & _ & HL' & _). simpl in Hr. simplify_eq. simpl in HL'.
  wp_step. apply wp_modify. wp_step. eapply wp_record; [exact Hw|]. apply wp_goto.
  split; [|done]. exists ls, ws.
  assert (Ho' : oracle m = []) by (rewrite Ho; apply H).
  exact (took_inv s ls k l ws i w L m H Hi Hw HL' Ho').
Qed.

(** The state after the call of the worker [w]. *)
Lemma called_inv s ls ws i l w :
  pinv s ls ws -> threads s !! i = Some (W_Run (Some l)) -> cells (w_mem s) !! l = Some w ->
  pinv (set_threads (<[i := W_Free (Some l)]> (threads s)) (log_called w s)) ls ws.
Proof.
  intros H Hi Hw.
  destruct (moved_lock s _ _ i _ (W_Free (Some l)) (queue_lock s) H Hi) as (L1 & L2 & L3); [by right|].
  destruct H.
  destruct (omap_insert_perm (pending (cells (w_mem s))) (threads s) i _ (W_Free (Some l)) Hi)
    as (rp & P1 & P2). simpl in P1, P2. rewrite Hw in P1. simpl in P1.
  set (s' := set_threads _ _).
  assert (Ho : owned s' ws = owned s ws).
  { unfold owned. simpl. by erewrite omap_insert_same by done. }
  split; try done; simpl.
  - by rewrite length_insert.
  - by rewrite Ho.
  - intros l'. by rewrite Ho.
  - rewrite i_called0, P1, P2. solve_Permutation.
  - eapply (moved_pc_ok s s'); [done|done|done|done|done|by left].
  - by eapply (moved_client_ok s s').
  - intros Hs Hn. right. right. by apply (moved_signal s ws i (W_Run (Some l))).
Qed.

(** The state after [free(worker)]. *)
Lemma freed_inv s ls ws i l :
  pinv s ls ws -> threads s !! i = Some (W_Free (Some l)) ->
  pinv (set_threads (<[i := W_Lock]> (threads s))
          (set_w_mem (Store (delete l (cells (w_mem s))) (oracle (w_mem s)) (trace (w_mem s))) s)) ls ws.
Proof.
  intros H Hi.
  destruct (moved_lock s _ _ i _ W_Lock (queue_lock s) H Hi) as (L1 & L2 & L3); [by right|].
  destruct H.
  destruct (omap_insert_perm hand (threads s) i _ W_Lock Hi) as (r & R1 & R2).
  simpl in R1, R2.
  set (s' := set_threads _ _).
  assert (Ho : owned s ws ≡ₚ l :: owned s' ws).
  { unfold owned. simpl. rewrite R1, R2. solve_Permutation. }
  rewrite Ho in i_owned0. apply NoDup_cons in i_owned0 as [Hnin Hnd].
  assert (Hws : forall k, k ∈ ws ++ dropped s -> k <> l).
  { intros k Hk ->. apply Hnin. unfold owned. simpl. set_solver. }
  split; try done; simpl.
  - by rewrite length_insert.
  - intros k. rewrite lookup_delete_is_Some, <- i_alloc0, Ho, elem_of_cons.
    split; [|naive_solver]. intros Hk. split; [|by right]. by intros <-.
  - destruct i_added0 as (q & Hq & HF). exists q. split; [done|].
    eapply values_frame; [|done]. intros k Hk. apply lookup_delete_ne. by apply not_eq_sym, Hws.
  - rewrite (pending_frame (cells (w_mem s))), i_called0.
    + by erewrite (omap_insert_same (pending _)).
    + intros k Hk. apply lookup_delete_ne. intros <-. apply Hnin. unfold owned. simpl. set_solver.
  - eapply (moved_pc_ok s s'); [done|done|done|done|done|by left].
  - by eapply (moved_client_ok s s').
  - intros Hs Hn. right. right. by apply (moved_signal s ws i (W_Free (Some l))).
Qed.

Definition post (s : threadpool) (_ : bool) (s' : threadpool) : Prop :=
  inv s' /\ exists q, added s' = added s ++ q.

Lemma post_same s b s' : inv s' -> added s' = added s -> post s b s'.
Proof. intros H E. split; [done|]. exists []. by rewrite app_nil_r. Qed.

(** A move of the shape of [moved]. *)
Lemma moved_post s ls ws i pc pc' lk b :
  pinv s ls ws -> threads s !! i = Some pc -> pc <> W_Exited -> pc' <> W_NotCreated ->
  hand pc' = hand pc -> (forall h, pending h pc' = pending h pc) ->
  pc_ok s ws pc' -> (pc' = W_Waiting -> ws = []) -> lock_moves s i pc pc' lk ->
  post s b (moved i pc' lk s).
Proof. intros. apply post_same; [|done]. exists ls, ws. by eapply moved_inv. Qed.

Lemma worker_step_inv s i :
  inv s -> Z.of_nat (length (added s)) <= INT_MAX -> wp (worker_step i) (post s) s.
Proof.
  intros (ls & ws & H) Hb. unfold worker_step. wp_step. apply wp_get.
  destruct (threads s !! i) as [pc|] eqn:Hi; [|apply wp_ret, post_same; [by exists ls, ws|done]].
  assert (Hsame : forall b, post s b s) by (intros; apply post_same; [by exists ls, ws|done]).
  pose proof (i_pc _ _ _ H i pc Hi) as Hok. pose proof (i_thread_lock _ _ _ H i pc Hi) as Hlk.
  pose proof (i_size _ _ _ H) as Hsz.
  destruct pc as [| | | | | | | |w|w|w| |]; simpl in Hok, Hlk;
    try (apply wp_ret, Hsame).
  - apply wp_lock; [done|]. intros Hn. apply wp_goto.
    eapply (moved_post s ls ws i W_Lock W_Cond (Some (Thread i))); try done. left. auto.
  - rewrite (running_dropped _ _ _ _ _ H Hi ltac:(done)), app_nil_r in Hsz.
    destruct ((_ =? _) && _) eqn:E; apply wp_goto.
    + apply andb_true_iff in E as [E1%Z.eqb_eq _]. 
      eapply (moved_post s ls ws i W_Cond W_Wait (queue_lock s)); try done.
      * simpl. by destruct ws; [|simpl in *; lia].
      * left. split; [by left|]. by apply Hlk.
    + eapply (moved_post s ls ws i W_Cond W_Test (queue_lock s)); try done.
      * simpl. apply andb_false_iff in E as [E%Z.eqb_neq|E%Z.eqb_neq]; [left|by right].
        by intros ->.
      * left. split; [by left|]. by apply Hlk.
  - apply wp_bind, wp_modify, wp_goto.
    eapply (moved_post s ls ws i W_Wait W_Waiting None); try done. left. auto.
  - apply wp_lock; [done|]. intros Hn. apply wp_goto.
    eapply (moved_post s ls ws i W_Relock W_Cond (Some (Thread i))); try done. left. auto.
  - destruct (Z.eqb_spec (shutdown s) 0) as [Hs|Hs]; apply wp_goto.
    + eapply (moved_post s ls ws i W_Test W_Take (queue_lock s)); try done.
      * simpl. by destruct Hok.
      * left. split; [by left|]. by apply Hlk.
    + eapply (moved_post s ls ws i W_Test W_Leave (queue_lock s)); try done.
      left. split; [by left|]. by apply Hlk.
  - apply wp_bind, wp_modify, wp_goto.
    eapply (moved_post s ls ws i W_Leave W_Exited None); try done. left. auto.
  - eapply wp_mono; [by eapply take_worker_inv|]. intros b s' [? ?]. by apply post_same.
  - apply wp_bind, wp_modify, wp_goto.
    eapply (moved_post s ls ws i (W_Unlock w) (W_Run w) None); try done. left. auto.
  - destruct w as [l|]; [|done].
    destruct (owned_alloc _ _ _ l H) as [w Hw].
    { unfold owned. rewrite !elem_of_app. right. right. left.
      apply list_elem_of_omap. exists (W_Run (Some l)). split; [by eapply list_elem_of_lookup_2|done]. }
    wp_step. apply wp_in_workers. eapply wp_load; [done|]. apply wp_bind, wp_modify, wp_goto.
    apply post_same; [|done]. exists ls, ws.
    exact (called_inv s ls ws i l w H Hi Hw).
  - destruct w as [l|]; [|done].
    destruct (owned_alloc _ _ _ l H) as [w Hw].
    { unfold owned. rewrite !elem_of_app. right. right. left.
      apply list_elem_of_omap. exists (W_Free (Some l)). split; [by eapply list_elem_of_lookup_2|done]. }
    wp_step. apply wp_in_workers. eapply wp_free; [done|]. apply wp_goto.
    apply post_same; [|done]. exists ls, ws.
    exact (freed_inv s ls ws i l H Hi).
Qed.

(** ** The client's steps *)

(** A step of the client that touches neither the queue nor the workers. *)
Definition client_moved (c' : cpc) (lk : option thread) (s : threadpool) : threadpool :=
  set_client c' (set_lock lk s).

Definition client_lock_moves (s : threadpool) (c' : cpc) (lk : option thread) : Prop :=
  ((client_holds (client s) = true \/ queue_lock s = None) /\
     lk = if client_holds c' then Some Client else None) \/
  (client_holds (client s) = false /\ client_holds c' = false /\ lk = queue_lock s).

Lemma client_moved_lock s ls ws c' lk :
  pinv s ls ws -> client_lock_moves s c' lk ->
  (forall j pc, threads s !! j = Some pc -> holds pc = true <-> lk = Some (Thread j)) /\
  (forall j, lk = Some (Thread j) -> is_Some (threads s !! j)) /\
  (client_holds c' = true <-> lk = Some Client).
Proof.
  intros H Hm. pose proof (i_thread_lock _ _ _ H) as Ht. pose proof (i_client_lock _ _ _ H) as Hc.
  pose proof (i_lock_thread _ _ _ H) as Hlt.
  destruct Hm as [[Hlk ->]|(Hf & -> & ->)].
  - assert (Hno : forall j, queue_lock s <> Some (Thread j)).
    { intros j. destruct Hlk as [Hh%Hc| ->]; congruence. }
    split_and!.
    + intros j pc Hj. rewrite (Ht _ _ Hj). specialize (Hno j). destruct (client_holds c'); split; congruence.
    + intros j. by destruct (client_holds c').
    + by destruct (client_holds c').
  - split_and!; [done|done|]. split; [done|]. intros Hq%Hc. congruence.
Qed.

(** With the client at [c'] a non-empty queue has a thread to serve it. *)
Definition attended (s : threadpool) (ws : list loc) (c' : cpc) : Prop :=
  shutdown s = 0 -> ws <> [] ->
  signalling c' = true \/ Forall (W_NotCreated =.) (threads s) \/
  exists i pc, threads s !! i = Some pc /\ awake pc = true.

Lemma attended_keep s ls ws c' :
  pinv s ls ws -> (signalling (client s) = true -> signalling c' = true) -> attended s ws c'.
Proof. intros H Hs H0 H1. destruct (i_signal _ _ _ H H0 H1) as [?|[?|?]]; auto. Qed.

Lemma client_moved_inv s ls ws c' lk :
  pinv s ls ws -> client_lock_moves s c' lk -> client_hand c' = client_hand (client s) ->
  client_ok (client_moved c' lk s) -> attended s ws c' ->
  pinv (client_moved c' lk s) ls ws.
Proof.
  intros H Hm Hh Hok Hs. destruct (client_moved_lock _ _ _ _ _ H Hm) as (L1 & L2 & L3).
  destruct H.
  assert (Ho : owned (client_moved c' lk s) ws = owned s ws) by (unfold owned; simpl; by rewrite Hh).
  split; try done; simpl.
  - by rewrite Ho.
  - intros l. by rewrite Ho.
Qed.

(** [threadpool_add_worker] has allocated its worker. *)
Lemma malloced_inv s ls ws l w :
  pinv s ls ws -> client s = C_Idle -> cells (w_mem s) !! l = None ->
  pinv (set_client (C_AddLock (Some l))
          (set_w_mem (Store (<[l := w]> (cells (w_mem s))) [] (trace (w_mem s))) s)) ls ws.
Proof.
  intros H Hc Hl. destruct H.
  set (s' := set_client _ _).
  assert (Ho : owned s' ws ≡ₚ l :: owned s ws).
  { unfold owned. simpl. rewrite Hc. simpl. rewrite app_nil_r. solve_Permutation. }
  assert (Hn : l ∉ owned s ws).
  { intros Hin%i_alloc0. rewrite Hl in Hin. by destruct Hin. }
  assert (Hfr : forall k, k ∈ owned s ws -> <[l := w]> (cells (w_mem s)) !! k = cells (w_mem s) !! k).
  { intros k Hk. apply lookup_insert_ne. by intros <-. }
  unfold client_ok in i_client0. rewrite Hc in i_client0, i_client_lock0, i_signal0.
  split; try done; simpl.
  - by destruct i_oracles0.
  - rewrite Ho. by constructor.
  - intros k. rewrite Ho, elem_of_cons, i_alloc0, lookup_insert_is_Some. 
    destruct (decide (l = k)) as [->|?]; naive_solver.
  - destruct i_added0 as (q & Hq & HF). exists q. split; [done|].
    eapply values_frame; [|done]. intros k Hk. apply Hfr. unfold owned. set_solver.
  - rewrite i_called0. f_equiv. symmetry. erewrite pending_frame; [done|].
    intros k Hk. apply Hfr. unfold owned. set_solver.
Qed.

Lemma client_holds_alone s ls ws :
  pinv s ls ws -> client_holds (client s) = true ->
  forall j pc, threads s !! j = Some pc -> holds pc = false.
Proof.
  intros H Hc j pc Hj. apply (i_client_lock _ _ _ H) in Hc.
  destruct (holds pc) eqn:E; [|done]. apply (i_thread_lock _ _ _ H j pc Hj) in E. congruence.
Qed.

(** The worker at [l] has been enqueued. *)
Definition enqueued (w : threadworker) (L : List loc) (m : lmem loc) (s : threadpool) : threadpool :=
  set_client C_Unlock
    (set_cur (cur_queue_size s + 1) (log_added w (set_queue L (set_q_mem m s)))).

Lemma enqueued_inv s ls ws k l w L m :
  pinv s ls ws -> client s = C_Enqueue (Some l) -> cells (w_mem s) !! l = Some w ->
  is_list (cells m) L (ls ++ [k]) (ws ++ [l]) -> oracle m = [] ->
  pinv (enqueued w L m s) (ls ++ [k]) (ws ++ [l]).
Proof.
  intros H Hc Hw HL Ho.
  assert (Hal : forall j pc, threads s !! j = Some pc -> holds pc = false).
  { eapply client_holds_alone; [done|]. by rewrite Hc. }
  pose proof (i_client _ _ _ H) as Hok. unfold client_ok in Hok. rewrite Hc in Hok.
  destruct Hok as (_ & Hsd & Hdr). destruct H. rewrite Hc in i_client_lock0.
  assert (Hown : owned (enqueued w L m s) (ws ++ [l]) ≡ₚ owned s ws).
  { unfold owned, enqueued. simpl. rewrite Hc. simpl. solve_Permutation. }
  split; try done; simpl.
  - rewrite i_size0, Hdr, !app_nil_r, length_app. simpl. lia.
  - by destruct i_oracles0.
  - by rewrite Hown.
  - intros l'. by rewrite Hown.
  - destruct i_added0 as (q & Hq & HF). rewrite Hdr, app_nil_r in *. exists (q ++ [w]).
    split; [by rewrite Hq, app_assoc|]. apply Forall2_app; [done|]. by repeat constructor.
  - intros i pc Hi. eapply (pc_ok_change s); [done|by eapply Hal|by eapply i_pc0].
  - by left.
Qed.

Lemma enqueue_inv s ls ws l :
  pinv s ls ws -> client s = C_Enqueue (Some l) -> Z.of_nat (length (added s)) < INT_MAX ->
  forall i, wp (client_step i) (post s) s.
Proof.
  intros H Hc Hb i. unfold client_step. wp_step. apply wp_get. rewrite Hc.
  pose proof (size_bound _ _ _ H) as Hsz. pose proof (i_size _ _ _ H) as Hcur.
  pose proof (i_queue _ _ _ H) as HL. destruct (i_oracles _ _ _ H) as [Ho _].
  rewrite length_app in Hsz, Hcur.
  destruct (owned_alloc _ _ _ l H) as [w Hw].
  { unfold owned. rewrite Hc. simpl. set_solver. }
  wp_step. apply wp_in_queue. unfold queue_enqueue. rewrite (il_tail _ _ _ _ HL).
  eapply wp_mono; [eapply (list_ins_next_spec _ ls [] ws []); rewrite ?app_nil_r; [done|by eapply is_list_length|lia]|].
  intros [r L] m (Ho' & _ & _ & Hr). unfold may_alloc in Hr. rewrite Ho in Hr. simpl in Hr.
  destruct Hr as (-> & k & _ & HL' & _).
  wp_step. apply wp_modify. wp_step. change (0 =? 0) with true. cbn iota.
  eapply wp_record; [exact Hw|]. wp_step.
  apply wp_int_of; [unfold INT_MIN, INT_MAX in *; lia|].
  wp_step. apply wp_modify, wp_client_goto. split; [|by exists [w]].
  exists (ls ++ [k]), (ws ++ [l]). rewrite Ho in Ho'.
  exact (enqueued_inv s ls ws k l w L m H Hc Hw HL' Ho').
Qed.

(** ** Broadcast, join, drain *)

Lemma omap_wake {Y} (f : wpc -> option Y) (pcs : list wpc) :
  (forall pc, f (wake pc) = f pc) -> omap f (map wake pcs) = omap f pcs.
Proof. intros Hf. induction pcs as [|pc pcs IH]; [done|]. csimpl. by rewrite Hf, IH. Qed.

Lemma broadcast_inv s ls ws :
  pinv s ls ws -> client s = C_Broadcast ->
  pinv (set_client (C_Join 0) (set_threads (map wake (threads s)) s)) ls ws.
Proof.
  intros H Hc. pose proof (i_client _ _ _ H) as Hok. unfold client_ok in Hok. rewrite Hc in Hok.
  destruct Hok as [Hsd Hdr]. destruct H. rewrite Hc in i_client_lock0.
  assert (Hl : forall i pc, map wake (threads s) !! i = Some pc ->
            exists pc0, threads s !! i = Some pc0 /\ pc = wake pc0).
  { intros i pc Hi. rewrite list_lookup_fmap in Hi. destruct (threads s !! i); naive_solver. }
  set (s' := set_client _ _).
  assert (Ho : owned s' ws = owned s ws).
  { unfold owned. simpl. rewrite Hc. by rewrite omap_wake by (by intros []). }
  split; try done; simpl.
  - by rewrite length_map.
  - intros i pc (pc0 & Hi & ->)%Hl. rewrite <- (i_thread_lock0 i pc0 Hi). by destruct pc0.
  - intros i Hi%i_lock_thread0. rewrite list_lookup_fmap. by destruct (threads s !! i); destruct Hi.
  - by rewrite Ho.
  - intros l. by rewrite Ho.
  - by rewrite omap_wake by (by intros []).
  - intros i pc (pc0 & Hi & ->)%Hl. specialize (i_pc0 i pc0 Hi). by destruct pc0.
  - split_and!; [done|done|]. intros j Hj. lia.
Qed.

Lemma drain_ok ws : forall L ls (m : lmem loc) fuel,
  is_list (cells m) L ls ws -> Z.of_nat (length ws) <= INT_MAX -> (length ws < fuel)%nat ->
  wp (drain fuel L) (fun r m' => r.1 = ws /\ oracle m' = oracle m /\ is_list (cells m') r.2 [] []) m.
Proof.
  induction ws as [|w ws IH]; intros L ls m fuel HL Hb Hf.
  - pose proof (is_list_length _ _ _ _ HL) as Hlen. destruct ls; [|done].
    destruct fuel; simpl; (wp_step; eapply wp_intro; [exact (queue_peek_ok _ _ _ _ HL)|]); by apply wp_ret.
  - destruct fuel as [|fuel]; [simpl in Hf; lia|]. destruct ls as [|k ls]; [by apply is_list_length in HL|].
    simpl. wp_step. eapply wp_intro; [exact (queue_peek_ok _ _ _ _ HL)|]. simpl. wp_step.
    eapply wp_mono; [apply (list_rem_next_head_spec _ k ls w ws); [done|exact Hb]|].
    intros [[r d] L'] m' (Ho & _ & _ & Hr & _ & HL' & _). simpl in Hr. simplify_eq. simpl in *.
    wp_step. eapply wp_mono; [apply (IH L' ls); [done|lia|lia]|].
    intros [ds L''] m'' (Hds & Ho'' & HL''). simpl in *. apply wp_ret. simpl.
    rewrite Hds. split_and!; [done|congruence|done].
Qed.

(** ** Every step keeps the invariant *)

Lemma client_moved_post s ls ws c' lk b :
  pinv s ls ws -> client_lock_moves s c' lk -> client_hand c' = client_hand (client s) ->
  client_ok (client_moved c' lk s) -> attended s ws c' ->
  post s b (client_moved c' lk s).
Proof. intros. apply post_same; [|done]. exists ls, ws. by apply client_moved_inv. Qed.

(** Nobody waits and the pool is not shut down: every thread that was created is awake. *)
Lemma nobody_waiting s ls ws :
  pinv s ls ws -> existsb waiting (threads s) = false -> attended s ws C_Idle.
Proof.
  intros H He Hs Hn. right. destruct (decide (Forall (W_NotCreated =.) (threads s))) as [|Hc]; [by left|right].
  apply not_Forall_Exists, Exists_exists in Hc as (pc & Hin & Hpc); [|apply _].
  apply list_elem_of_lookup in Hin as [i Hi]. exists i, pc. split; [done|]. pose proof (i_pc _ _ _ H i pc Hi) as Hp.
  assert (Hw : waiting pc = false).
  { destruct (waiting pc) eqn:Ew; [|done]. rewrite <- He. symmetry. apply existsb_exists. exists pc. split; [|done].
    apply list_elem_of_In. by eapply list_elem_of_lookup_2. }
  unfold compose in Hpc. by destruct pc.
Qed.

Lemma signal_inv s ls ws i :
  pinv s ls ws -> client s = C_Signal -> wp (signal i (client_goto C_Idle)) (post s) s.
Proof.
  intros H Hc. unfold signal. wp_step. apply wp_get.
  pose proof (i_client _ _ _ H) as Hok. unfold client_ok in Hok. rewrite Hc in Hok.
  assert (Hsame : post s false s) by (apply post_same; [by exists ls, ws|done]).
  assert (Hlm : forall s0, client s0 = C_Signal -> client_lock_moves s0 C_Idle (queue_lock s0)).
  { intros s0 E. right. by rewrite E. }
  assert (Hnone : wp (if existsb waiting (threads s) then mret false else client_goto C_Idle) (post s) s).
  { destruct (existsb waiting (threads s)) eqn:He; [by apply wp_ret|]. apply wp_client_goto.
    eapply (client_moved_post s ls ws C_Idle (queue_lock s)); [done|by apply Hlm|by rewrite Hc|done|].
    by eapply nobody_waiting. }
  destruct (threads s !! i) as [pc|] eqn:Hi; [|done]. destruct pc; try done.
  wp_step. apply wp_goto, wp_client_goto.
  set (s1 := moved i W_Relock (queue_lock s) s).
  assert (H1 : pinv s1 ls ws).
  { eapply (moved_inv s ls ws i W_Waiting); try done. by right. }
  apply post_same; [|done]. exists ls, ws.
  eapply (client_moved_inv s1 ls ws C_Idle (queue_lock s));
    [done|exact (Hlm s1 Hc)|simpl; by rewrite Hc|done|].
  intros _ _. right. right. exists i, W_Relock. split; [|done]. simpl.
  apply list_lookup_insert_eq. by eapply lookup_lt_Some.
Qed.

(** [threadpool_destroy] after the last join: the queue is emptied. *)
Lemma drained_inv s ls ws L m k :
  pinv s ls ws -> client s = C_Join k -> (length (threads s) <= k)%nat ->
  is_list (cells m) L [] [] -> oracle m = [] ->
  pinv (set_client C_Destroyed (set_dropped ws (set_queue L (set_q_mem m s)))) [] [].
Proof.
  intros H Hc Hk HL Ho. pose proof (i_client _ _ _ H) as Hok. unfold client_ok in Hok.
  rewrite Hc in Hok. destruct Hok as (Hsd & Hdr & Hex). destruct H.
  rewrite Hc in i_client_lock0. rewrite Hdr, app_nil_r in *.
  set (s' := set_client _ _).
  assert (Hown : owned s' [] = owned s ws).
  { unfold owned. simpl. by rewrite Hc, Hdr. }
  assert (Hex' : exited_below (length (threads s)) (threads s)).
  { intros j Hj Hl. apply Hex; [lia|done]. }
  split; try done; simpl.
  - by destruct i_oracles0.
  - by rewrite Hown.
  - intros l. by rewrite Hown.
  - intros i pc Hi. pose proof (lookup_lt_Some _ _ _ Hi) as Hl. rewrite (Hex' i Hl Hl) in Hi.
    by simplify_eq.
Qed.

Lemma join_inv s ls ws k i :
  pinv s ls ws -> client s = C_Join k -> threads s !! k <> Some W_NotCreated -> Z.of_nat (length (added s)) <= INT_MAX ->
  wp (client_step i) (post s) s.
Proof.
  intros H Hc Hnc Hb. unfold client_step. wp_step. apply wp_get. rewrite Hc.
  pose proof (i_max _ _ _ H) as Hmax.
  pose proof (i_client _ _ _ H) as Hok. unfold client_ok in Hok. rewrite Hc in Hok.
  destruct Hok as (Hsd & Hdr & Hex).
  destruct (Z.ltb_spec (Z.of_nat k) (max_thread_num s)) as [Hk|Hk].
  - destruct (lookup_lt_is_Some_2 (threads s) k) as [pc Hpc]; [lia|]. rewrite Hpc.
    destruct pc; try (apply wp_ret, post_same; [by exists ls, ws|done]); [|done]. apply wp_client_goto.
    eapply (client_moved_post s ls ws (C_Join (S k)) (queue_lock s)); [done|by right; rewrite Hc|by rewrite Hc| |].
    + unfold client_ok. simpl. split_and!; [done|done|]. intros j Hj Hl.
      destruct (decide (j = k)) as [->|]; [done|]. apply Hex; [lia|done].
    + eapply attended_keep; [done|]. by rewrite Hc.
  - pose proof (i_queue _ _ _ H) as HL. pose proof (size_bound _ _ _ H) as Hsz.
    rewrite length_app in Hsz. destruct (i_oracles _ _ _ H) as [Ho _].
    wp_step. apply wp_in_queue. eapply wp_mono; [eapply drain_ok; [done|lia|]|].
    { rewrite (il_size _ _ _ _ HL). lia. }
    intros [ds L] m (Hds & Ho' & HL'). simpl in *. subst ds. rewrite Ho in Ho'.
    apply wp_bind, wp_modify. apply wp_bind, wp_modify, wp_client_goto.
    apply post_same; [|done]. exists [], [].
    exact (drained_inv s ls ws L m k H Hc ltac:(lia) HL' Ho').
Qed.

(** The step joins a thread that was not created. *)
Definition joins_unset s (a : action) : Prop :=
  exists i k, a = AClient i /\ client s = C_Join k /\ threads s !! k = Some W_NotCreated.

Lemma client_step_inv s i :
  inv s -> Z.of_nat (length (added s)) < INT_MAX -> ~ joins_unset s (AClient i) -> wp (client_step i) (post s) s.
Proof.
  intros (ls & ws & H) Hb Hj.
  pose proof (i_client _ _ _ H) as Hok. unfold client_ok in Hok.
  destruct (client s) as [|w|w| | | |k|] eqn:Hc.
  3: { destruct w as [l|]; [|naive_solver]. by eapply enqueue_inv. }
  6: { eapply join_inv; [done|done| |lia]. intros E. apply Hj. by exists i, k. }
  all: unfold client_step; wp_step; apply wp_get; rewrite Hc.
  - apply wp_ret, post_same; [by exists ls, ws|done].
  - apply wp_lock; [apply post_same; [by exists ls, ws|done]|]. intros Hn. apply wp_client_goto.
    eapply (client_moved_post s ls ws (C_Enqueue w) (Some Client)); [done|left; auto|by rewrite Hc|done|].
    eapply attended_keep; [done|]. by rewrite Hc.
  - apply wp_bind, wp_modify, wp_client_goto.
    eapply (client_moved_post s ls ws C_Signal None); [done|left; rewrite Hc; auto|by rewrite Hc|done|].
    by eapply attended_keep.
  - by eapply signal_inv.
  - apply wp_bind, wp_modify, wp_client_goto. apply post_same; [|done]. exists ls, ws.
    exact (broadcast_inv s ls ws H Hc).
  - apply wp_ret, post_same; [by exists ls, ws|done].
Qed.

Lemma shutdown_inv s ls ws :
  pinv s ls ws -> client s = C_Idle ->
  pinv (set_client C_Broadcast (set_shutdown 1 s)) ls ws.
Proof.
  intros H Hc. pose proof (i_client _ _ _ H) as Hok. unfold client_ok in Hok. rewrite Hc in Hok.
  destruct Hok as [Hsd Hdr]. destruct H. rewrite Hc in i_client_lock0.
  set (s' := set_client _ _).
  assert (Hown : owned s' ws = owned s ws) by (unfold owned; simpl; by rewrite Hc).
  split; try done; simpl.
  - by rewrite Hown.
  - intros l. by rewrite Hown.
  - intros i pc Hi. specialize (i_pc0 i pc Hi). destruct pc; simpl in *; auto.
Qed.

Lemma step_inv s a :
  inv s -> Z.of_nat (length (added s)) < INT_MAX ->
  (client s = C_Destroyed -> is_call a = false) -> ~ joins_unset s a -> wp (step a) (post s) s.
Proof.
  intros H Hb Hd Hj. pose proof H as (ls & ws & Hp).
  assert (Hsame : forall b, post s b s) by (intros; by apply post_same).
  unfold step. wp_step. apply wp_get. destruct a as [i|i|w| |i].
  - apply worker_step_inv; [done|lia].
  - destruct (threads s !! i) as [pc|] eqn:Hi; [destruct pc|]; try (apply wp_ret, Hsame).
    apply wp_goto. eapply (moved_post s ls ws i W_Waiting W_Relock (queue_lock s)); try done. by right.
  - destruct (client s) eqn:Hc; try (apply wp_ret, Hsame); [|by specialize (Hd eq_refl)].
    unfold add_worker_call. wp_step. apply wp_in_workers, wp_malloc.
    + intros _ l Hl. apply wp_client_goto, post_same; [|done]. exists ls, ws.
      destruct (i_oracles _ _ _ Hp) as [_ Ho]. rewrite Ho. exact (malloced_inv s ls ws l w Hp Hc Hl).
    + unfold may_alloc. destruct (i_oracles _ _ _ Hp) as [_ Ho]. by rewrite Ho.
  - destruct (client s) eqn:Hc; try (apply wp_ret, Hsame); [|by specialize (Hd eq_refl)].
    unfold destroy_call. wp_step. apply wp_get. destruct (shutdown s =? 0); [|by apply wp_ret].
    wp_step. apply wp_modify, wp_client_goto, post_same; [|done]. exists ls, ws.
    exact (shutdown_inv s ls ws Hp Hc).
  - by apply client_step_inv.
Qed.

(** ** Reachable states *)

(** A pool that was made with enough memory, and is not short of it later. *)
Definition created (n : Z) (create : nat -> bool) (s0 : threadpool) : Prop :=
  exists junk qm wm, threadpool_init create junk qm wm n = Ok s0 /\
    oracle qm = [] /\ oracle wm = [] /\ cells wm = ∅.

Definition new_thread (create : nat -> bool) (i : nat) : wpc := if create i then W_Lock else W_NotCreated.

Lemma new_threads_lookup create n i pc : (new_thread create <$> seq 0 n) !! i = Some pc -> pc = new_thread create i.
Proof. rewrite list_lookup_fmap. intros (j & [-> _]%lookup_seq & ->)%fmap_Some. done. Qed.

Lemma omap_new {Y} (f : wpc -> option Y) create (js : list nat) :
  f W_Lock = None -> f W_NotCreated = None -> omap f (new_thread create <$> js) = [].
Proof.
  intros H1 H2. induction js as [|j js IH]; [done|]. csimpl. rewrite IH. unfold new_thread.
  destruct (create j); by rewrite ?H1, ?H2.
Qed.

Lemma created_inv n create s0 : created n create s0 -> inv s0.
Proof.
  intros (junk & qm & wm & Hi & Hq & Hw & He). unfold threadpool_init in Hi.
  destruct ((pool ← malloc_array 1; ids ← malloc_array n; mret (pool, ids)) wm)
    as [[[p d] wm']| |] eqn:E; [|done..].
  assert (Hm : oracle wm' = [] /\ cells wm' = ∅).
  { unfold mbind, M_bind, mret, M_ret, malloc_array in E. simplify_eq. simpl. by rewrite Hw. }
  clear E. destruct Hm as [Ho Hc].
  destruct (p && _); [|done]. simplify_eq. exists [], [].
  split; simpl; try done.
  - by rewrite length_fmap, length_seq.
  - intros i pc ->%new_threads_lookup. unfold new_thread. by destruct (create i).
  - apply is_list_init.
  - unfold owned. simpl. rewrite (omap_new hand create) by done. constructor.
  - intros l. unfold owned. simpl. rewrite (omap_new hand create), Hc, lookup_empty by done. simpl.
    split; [by intros ?%not_elem_of_nil|by intros []].
  - exists []. by split; [|constructor].
  - by rewrite (omap_new (pending _) create).
  - intros i pc ->%new_threads_lookup. unfold new_thread. by destruct (create i).
Qed.

Lemma unset_fails s a : inv s -> joins_unset s a -> step a s = Err Uninitialised.
Proof.
  intros (ls & ws & H) (i & k & -> & Hc & Hk). pose proof (i_max _ _ _ H). pose proof (lookup_lt_Some _ _ _ Hk).
  unfold step, client_step. rewrite !(bind_ok get _ s s s) by done. rewrite Hc, Hk.
  by rewrite (proj2 (Z.ltb_lt _ _)) by lia.
Qed.

Lemma joins_unset_dec s a : joins_unset s a \/ ~ joins_unset s a.
Proof.
  destruct a as [| | | |i]; try (right; by intros (i0 & k & E & _)). unfold joins_unset.
  destruct (client s) as [| | | | | |k|]; try (right; by intros (i0 & k0 & _ & E & _)).
  destruct (decide (threads s !! k = Some W_NotCreated)) as [Hk|Hk]; [left; by exists i, k|right].
  intros (i0 & k0 & _ & E & Hk0). congruence.
Qed.

Lemma step_added s a b s' :
  inv s -> Z.of_nat (length (added s)) < INT_MAX -> step a s = Ok (b, s') -> post s b s'.
Proof.
  intros H Hb E.
  assert (Hd : client s = C_Destroyed -> is_call a = false).
  { intros Hc. destruct a; try done; unfold step, mbind, M_bind, get in E; by rewrite Hc in E. }
  assert (Hj : ~ joins_unset s a) by (intros Hj; by rewrite (unset_fails s a H Hj) in E).
  pose proof (step_inv s a H Hb Hd Hj) as Hw. unfold wp in Hw. by rewrite E in Hw.
Qed.


(** The history of additions only grows, and a thread that was created stays one. *)
Definition later s s' : Prop :=
  (length (added s) <= length (added s'))%nat /\ length (threads s') = length (threads s) /\
  forall i, threads s' !! i = Some W_NotCreated -> threads s !! i = Some W_NotCreated.

Definition onward {X} (c : M threadpool X) : Prop := forall s x s', c s = Ok (x, s') -> later s s'.

Lemma later_refl s : later s s.
Proof. done. Qed.

Lemma later_trans s1 s2 s3 : later s1 s2 -> later s2 s3 -> later s1 s3.
Proof. intros (H1 & H2 & H3) (H4 & H5 & H6). split_and!; [lia|lia|auto]. Qed.

Lemma onward_bind {X Y} (c : M threadpool X) (k : X -> M threadpool Y) :
  onward c -> (forall x, onward (k x)) -> onward (c ≫= k).
Proof.
  intros Hc Hk s y s'. unfold mbind, M_bind. destruct (c s) as [[x s1]| |] eqn:E; [|done..].
  intros E2. eapply later_trans; [by eapply Hc|by eapply Hk].
Qed.

Lemma onward_modify f : (forall s, later s (f s)) -> onward (modify f).
Proof. intros Hf s x s' [= _ <-]. apply Hf. Qed.

Lemma later_moves i pc s : pc <> W_NotCreated -> later s (set_threads (<[i := pc]> (threads s)) s).
Proof. intros Hpc. split_and!; [done|by simpl; rewrite length_insert|]. intros j. simpl. by intros [(_ & -> & _)|[_ ?]]%list_lookup_insert_Some. Qed.

Lemma later_wakes s : later s (set_threads (map wake (threads s)) s).
Proof.
  split_and!; [done|by simpl; rewrite length_map|]. intros j. simpl. rewrite list_lookup_fmap. destruct (threads s !! j) as [pc|]; [|done]. by destruct pc.
Qed.

Lemma later_same s s' : (length (added s) <= length (added s'))%nat -> threads s' = threads s -> later s s'.
Proof. intros Hl Ht. split_and!; [done|by rewrite Ht|]. by rewrite Ht. Qed.

Lemma onward_in_queue {X} (c : M (lmem loc) X) : onward (in_queue c).
Proof. intros s x s'. unfold in_queue. destruct (c (q_mem s)) as [[]| |]; [|done..]. by intros [= _ <-]. Qed.

Lemma onward_in_workers {X} (c : M (store threadworker unit) X) : onward (in_workers c).
Proof. intros s x s'. unfold in_workers. destruct (c (w_mem s)) as [[]| |]; [|done..]. by intros [= _ <-]. Qed.

Lemma onward_ret {X} (x : X) : onward (mret x).
Proof. by intros s y s' [= _ <-]. Qed.

Lemma onward_get : onward get.
Proof. by intros s y s' [= _ <-]. Qed.

Lemma onward_throw {X} f : @onward X (throw f).
Proof. by intros s y s'. Qed.

Ltac onward :=
  repeat (cbn beta iota;
    lazymatch goal with
    | |- onward (mret _) => apply onward_ret
    | |- onward get => apply onward_get
    | |- onward (throw _) => apply onward_throw
    | |- onward (in_queue _) => apply onward_in_queue
    | |- onward (in_workers _) => apply onward_in_workers
    | |- onward (modify _) =>
        apply onward_modify; intros; first [by apply later_moves | apply later_wakes
          | apply later_same; repeat case_match; simpl; rewrite ?length_app; (lia || done)]
    | |- onward (_ ≫= _) => apply onward_bind; [|intros]
    | |- onward (match ?x with _ => _ end) => destruct x eqn:?
    | |- onward _ =>
        progress unfold goto, client_goto, unlock, lock, signal, broadcast, record, assert, int_of,
          take_worker, worker_step, client_step, add_worker_call, destroy_call
    end).

Lemma step_onward a : onward (step a).
Proof. unfold step. onward. Qed.

Lemma reachable_inv n create s0 s :
  created n create s0 -> reachable s0 s -> Z.of_nat (length (added s)) < INT_MAX -> inv s.
Proof.
  intros H0 Hr. induction Hr as [|s a b s' Hr IH E]; intros Hb; [by eapply created_inv|].
  destruct (step_onward a _ _ _ E) as [Hl _]. apply (step_added s a b s'); [apply IH; lia|lia|done].
Qed.

(** There are [n] threads, and one that is missing was not created. *)
Lemma reachable_created n create s0 s :
  created n create s0 -> reachable s0 s ->
  length (threads s) = Z.to_nat n /\ forall i, threads s !! i = Some W_NotCreated -> create i = false.
Proof.
  intros (junk & qm & wm & Hi & _) Hr. induction Hr as [|s a b s' Hr [IHl IH] E].
  - unfold threadpool_init in Hi. destruct ((pool ← malloc_array 1; _) wm) as [[[p d] wm']| |]; [|done..].
    destruct (p && _); [|done]. simplify_eq. simpl. split; [by rewrite length_fmap, length_seq|].
    intros i H%(new_threads_lookup create). unfold new_thread in H. by destruct (create i).
  - destruct (step_onward a _ _ _ E) as (_ & Hl & Ht). split; [congruence|auto].
Qed.

(** C3: in every interleaving of the threads and the client no step faults, but one: no
    assertion of [threadpool_handle] fails, no NULL or freed worker is used, no counter
    overflows; but [threadpool_destroy] reads an id that was never written when it joins a
    thread for which [pthread_create] had failed.  (Memory does not run out, fewer than
    INT_MAX workers are added, and the client does not call a pool it has destroyed.) *)
Theorem pool_safe n create s0 s a :
  created n create s0 -> reachable s0 s -> Z.of_nat (length (added s)) < INT_MAX ->
  (client s = C_Destroyed -> is_call a = false) ->
  (exists b s', step a s = Ok (b, s')) \/
  (exists i k, a = AClient i /\ client s = C_Join k /\ create k = false /\ step a s = Err Uninitialised).
Proof.
  intros H0 Hr Hb Hd. pose proof (reachable_inv n create s0 s H0 Hr Hb) as H.
  destruct (joins_unset_dec s a) as [Hj|Hj].
  - right. pose proof (unset_fails s a H Hj) as E. destruct Hj as (i & k & -> & Hc & Hk). exists i, k.
    split_and!; [done|done| |done]. by apply (proj2 (reachable_created n create s0 s H0 Hr)).
  - left. pose proof (step_inv s a H Hb Hd Hj) as Hw. apply wp_inv in Hw as (b & s' & E & _). eauto.
Qed.

Lemma values_of (h : gmap loc threadworker) ks q :
  NoDup ks -> (forall l, l ∈ ks <-> is_Some (h !! l)) ->
  Forall2 (fun l w => h !! l = Some w) ks q -> (map_to_list h).*2 ≡ₚ q.
Proof.
  intros Hnd Hd HF. pose proof (Forall2_length _ _ _ HF) as Hlen.
  assert (Hh : h = list_to_map (zip ks q)).
  { apply map_eq. intros l. symmetry. destruct (h !! l) as [w|] eqn:El.
    - apply elem_of_list_to_map; [by rewrite fst_zip by lia|].
      assert (Hin : l ∈ ks) by (apply Hd; eauto).
      apply list_elem_of_lookup in Hin as [j Hj].
      destruct (Forall2_lookup_l _ _ _ _ _ HF Hj) as (w' & Hw' & E).
      apply list_elem_of_lookup. exists j. rewrite lookup_zip_with, Hj, Hw'. simpl. congruence.
    - apply not_elem_of_list_to_map. rewrite fst_zip by lia. intros Hin%Hd.
      rewrite El in Hin. by destruct Hin. }
  rewrite Hh, map_to_list_to_map by (by rewrite fst_zip by lia). by rewrite snd_zip by lia.
Qed.

Lemma all_exited_hands (pcs : list wpc) h :
  exited_below (length pcs) pcs -> omap hand pcs = [] /\ omap (pending h) pcs = [].
Proof.
  intros He. assert (HF : Forall (fun pc => pc = W_Exited) pcs).
  { apply Forall_lookup. intros i pc Hi. pose proof (lookup_lt_Some _ _ _ Hi) as Hl.
    rewrite (He i Hl Hl) in Hi. by simplify_eq. }
  clear He. induction HF as [|pc pcs -> HF [IH1 IH2]]; [done|]. by csimpl.
Qed.

(** C4: the workers are taken in the order in which they were added, each
    exactly once, and each taken worker is called exactly once, except for those
    a thread is about to call; [cur_queue_size] counts those still queued.  Once
    [threadpool_destroy] has returned, every taken worker was called, and the
    workers left in memory are exactly those that were never taken. *)
Theorem pool_fifo n create s0 s :
  created n create s0 -> reachable s0 s -> Z.of_nat (length (added s)) < INT_MAX ->
  exists q, added s = taken s ++ q /\ cur_queue_size s = Z.of_nat (length q) /\
    taken s ≡ₚ called s ++ omap (pending (cells (w_mem s))) (threads s) /\
    (client s = C_Destroyed ->
       taken s ≡ₚ called s /\ (map_to_list (cells (w_mem s))).*2 ≡ₚ q).
Proof.
  intros H0 Hr Hb. destruct (reachable_inv n create s0 s H0 Hr Hb) as (ls & ws & H).
  destruct (i_added _ _ _ H) as (q & Hq & HF). exists q. split_and!.
  - done.
  - rewrite (i_size _ _ _ H). by rewrite (Forall2_length _ _ _ HF).
  - apply H.
  - intros Hc. pose proof (i_client _ _ _ H) as Hok. unfold client_ok in Hok. rewrite Hc in Hok.
    destruct Hok as [_ He]. destruct (all_exited_hands _ (cells (w_mem s)) He) as [Hh Hp].
    pose proof (i_owned _ _ _ H) as Hnd. pose proof (i_alloc _ _ _ H) as Hal.
    unfold owned in Hnd, Hal. rewrite Hh, Hc in Hnd, Hal. simpl in Hnd, Hal. rewrite app_nil_r in Hnd.
    split; [by rewrite (i_called _ _ _ H), Hp, app_nil_r|].
    eapply values_of; [exact Hnd| |exact HF]. intros l. rewrite <- Hal. by rewrite app_nil_r.
Qed.

Definition moves (c : M threadpool bool) : Prop := forall s b s', c s = Ok (b, s') -> b = true.

Lemma moves_bind {X} (c : M threadpool X) k : (forall x, moves (k x)) -> moves (c ≫= k).
Proof.
  intros Hk s b s'. unfold mbind, M_bind. destruct (c s) as [[x s1]| |]; [|done..]. apply Hk.
Qed.

Lemma moves_goto i pc : moves (goto i pc).
Proof. by intros s b s' [= <- _]. Qed.

(** A thread that is awake can move unless another holds the lock. *)
Lemma awake_moves s ls ws i pc :
  pinv s ls ws -> threads s !! i = Some pc -> awake pc = true ->
  holds pc = true \/ queue_lock s = None -> Z.of_nat (length (added s)) < INT_MAX ->
  exists s', step (AWorker i) s = Ok (true, s').
Proof.
  intros H Hi Ha Hl Hb.
  assert (Hj : ~ joins_unset s (AWorker i)) by (by intros (i0 & k & E & _)).
  pose proof (step_inv s (AWorker i) ltac:(by exists ls, ws) Hb ltac:(done) Hj) as Hw.
  apply wp_inv in Hw as (b & s' & E & _). exists s'.
  enough (b = true) by congruence. revert E.
  unfold step, worker_step. rewrite !(bind_ok get _ s s s) by done. rewrite Hi.
  destruct pc; try done; try (unfold lock; rewrite (bind_ok get _ s s s) by done;
    destruct Hl as [Hl|Hl]; [done|rewrite Hl]); try case_match; unfold take_worker;
    match goal with |- ?c s = _ -> _ => apply (fun H : moves c => H s b s') end;
    repeat first [apply moves_goto | apply moves_bind; intros [[? ?] ?]
                 | apply moves_bind; intros [? ?] | apply moves_bind; intros ].
Qed.

(** C34: added work is never stranded as long as one thread was created: while the pool
    is not shut down and the client is between its calls, if a worker is queued then some
    thread can move.  (The signal after each addition wakes a thread whenever all of them
    wait.  Memory does not run out, and fewer than INT_MAX workers are added.)  With no
    thread at all no queued worker is ever taken: [no_thread_strands]. *)
Theorem pool_work_proceeds n create s0 s :
  created n create s0 -> reachable s0 s -> Z.of_nat (length (added s)) < INT_MAX ->
  client s = C_Idle -> cur_queue_size s <> 0 -> (exists i, (i < Z.to_nat n)%nat /\ create i = true) ->
  exists i s', step (AWorker i) s = Ok (true, s').
Proof.
  intros H0 Hr Hb Hc Hq (j & Hjn & Hj). destruct (reachable_inv n create s0 s H0 Hr Hb) as (ls & ws & H).
  pose proof (i_client _ _ _ H) as Hok. unfold client_ok in Hok. rewrite Hc in Hok.
  destruct Hok as [Hs Hdr].
  assert (Hws : ws <> []).
  { intros ->. rewrite (i_size _ _ _ H), Hdr in Hq. done. }
  destruct (queue_lock s) as [[|j']|] eqn:El.
  - apply (i_client_lock _ _ _ H) in El. by rewrite Hc in El.
  - destruct (i_lock_thread _ _ _ H j' El) as [pc Hj'].
    pose proof (proj2 (i_thread_lock _ _ _ H j' pc Hj') El) as Hh. exists j'.
    eapply awake_moves; [done|done| |by left|done]. by destruct pc.
  - destruct (i_signal _ _ _ H Hs Hws) as [Hsig|[Ht|(i & pc & Hi & Ha)]].
    + by rewrite Hc in Hsig.
    + exfalso. destruct (reachable_created n create s0 s H0 Hr) as [Hl Hcr].
      destruct (lookup_lt_is_Some_2 (threads s) j) as [pc Hpc]; [lia|].
      pose proof (proj1 (Forall_lookup _ _) Ht j pc Hpc) as <-.
      pose proof (Hcr j Hpc). congruence.
    + exists i. eapply awake_moves; eauto.
Qed.
(** ** Three hazards *)

(** A new pool of one thread; [oom] are the answers of the queue's [malloc]. *)
Definition one_thread (create : nat -> bool) (oom : list bool) : outcome threadpool :=
  threadpool_init create list_zero (Store ∅ oom []) (Store ∅ [] []) 1.

(** Running actions from the outcome of [threadpool_init]. *)
Definition run_from (o : outcome threadpool) (acts : list action) : outcome (list bool * threadpool) :=
  match o with Ok s => run step acts s | Err f => Err f | NoFuel => NoFuel end.

Definition empty_queue : List loc := MkList 0 None true NULL NULL.

(** [threadpool_destroy] can wait for ever: it sets [shutdown] and
    broadcasts without the lock, so a thread that has just found [shutdown] unset
    goes to wait after the broadcast.  From then on no thread can move (only a
    spurious wakeup would help), and the join never ends. *)
Theorem destroy_can_hang :
  exists acts bs s, run_from (one_thread (fun _ => true) []) acts = Ok (bs, s) /\
    client s = C_Join 0 /\
    forall a, (forall i, a <> AWake i) -> step a s = Ok (false, s).
Proof.
  exists [AWorker 0; AWorker 0; ADestroy; AClient 0; AWorker 0], (replicate 5 true).
  exists (Pool None empty_queue (Store ∅ [] []) (Store ∅ [] []) 1 0 1 [W_Waiting] (C_Join 0) [] [] [] []).
  split; [vm_compute; reflexivity|]. split; [reflexivity|].
  intros [i|i|w| |i] Ha; try reflexivity; [|by destruct (Ha i)].
  by destruct i.
Qed.

(** When no thread could be created, what is added is never taken: no thread moves; and
    [threadpool_destroy] reads the id that was not written. *)
Lemma no_thread_strands (w : threadworker) :
  exists bs s, run_from (one_thread (fun _ => false) []) (AAdd w :: replicate 4 (AClient 0)) = Ok (bs, s) /\
    client s = C_Idle /\ cur_queue_size s = 1 /\ (forall i, step (AWorker i) s = Ok (false, s)) /\
    run step [ADestroy; AClient 0; AClient 0] s = Err Uninitialised.
Proof.
  eexists. eexists. split; [vm_compute; reflexivity|]. split_and!; [reflexivity|reflexivity| |vm_compute; reflexivity].
  by intros [|[|i]].
Qed.

(** When [queue_enqueue] has no memory its result is ignored, the counter is
    incremented all the same, and the thread that finds the counter positive
    fails its assertion. *)
Lemma enqueue_failure_asserts (w : threadworker) :
  run_from (one_thread (fun _ => true) [false])
    ([AAdd w; AClient 0; AClient 0; AClient 0; AClient 0] ++ replicate 4 (AWorker 0))
  = Err AssertFailed.
Proof. vm_compute. reflexivity. Qed.

End pool.
Arguments threadworker : clear implicits.
Arguments threadpool : clear implicits.
Arguments action : clear implicits.

(** ** Witnesses *)

Definition ex_pool : threadpool Z Z :=
  Pool None (list_init list_zero true) (Store ∅ [] []) (Store ∅ [] []) 0 0 1 [W_Lock] C_Idle [] [] [] [].

Lemma ex_created : created 1 (fun _ => true) ex_pool.
Proof. exists list_zero, (Store ∅ [] []), (Store ∅ [] []). done. Qed.

(** The execution of a list of actions reaches a state. *)
Lemma run_reachable (s0 : threadpool Z Z) acts : forall s bs s',
  reachable s0 s -> run step acts s = Ok (bs, s') -> reachable s0 s'.
Proof.
  induction acts as [|a acts IH]; intros s bs s' Hr; simpl; [by intros [= _ <-]|].
  unfold mbind, M_bind. destruct (step a s) as [[b s1]| |] eqn:E; [|done..].
  destruct (run step acts s1) as [[bs1 s2]| |] eqn:E2; [|done..]. intros [= _ <-].
  eapply IH; [|done]. by eapply reach_step.
Qed.

Definition final (s0 : threadpool Z Z) (acts : list (action Z Z)) : threadpool Z Z :=
  match run step acts s0 with Ok (_, s) => s | _ => s0 end.

Definition ex_acts : list (action Z Z) :=
  [AAdd (Worker 1 10); AClient 0; AClient 0; AClient 0; AClient 0;
   AAdd (Worker 2 20); AClient 0; AClient 0; AClient 0; AClient 0].

(** The thread runs the first worker, finds the pool shut down and leaves; the
    second worker stays behind. *)
Definition ex_destroyed : list (action Z Z) :=
  ex_acts ++ replicate 7 (AWorker 0) ++ [ADestroy; AClient 0] ++ replicate 4 (AWorker 0)
  ++ replicate 2 (AClient 0).

Lemma final_reachable s0 acts : reachable s0 (final s0 acts).
Proof.
  unfold final. destruct (run step acts s0) as [[bs s]| |] eqn:E; [|apply reach_init..].
  eapply run_reachable; [apply reach_init|exact E].
Qed.

(** The second of two threads is not created; the pool is destroyed, and the first joined. *)
Definition ex_pool2 : threadpool Z Z :=
  Pool None (list_init list_zero true) (Store ∅ [] []) (Store ∅ [] []) 0 0 2 [W_Lock; W_NotCreated] C_Idle [] [] [] [].

Lemma ex_created2 : created 2 (fun i => (i =? 0)%nat) ex_pool2.
Proof. exists list_zero, (Store ∅ [] []), (Store ∅ [] []). done. Qed.

Definition ex_joined : list (action Z Z) := [ADestroy; AClient 0] ++ replicate 4 (AWorker 0) ++ [AClient 0].

Lemma pool_safe_witness :
  (exists b s', step (AWorker 0) (final ex_pool (ex_acts ++ replicate 3 (AWorker 0))) = Ok (b, s')) /\
  client (final ex_pool2 ex_joined) = C_Join 1 /\ step (AClient 0) (final ex_pool2 ex_joined) = Err Uninitialised.
Proof.
  split; [|split; [vm_compute; reflexivity|]].
  - destruct (pool_safe 1 (fun _ => true) ex_pool _ (AWorker 0) ex_created (final_reachable ex_pool (ex_acts ++ replicate 3 (AWorker 0)))) as [H|(i & k & E & _)];
      [vm_compute; done|done|exact H|discriminate E].
  - destruct (pool_safe 2 (fun i => (i =? 0)%nat) ex_pool2 _ (AClient 0) ex_created2 (final_reachable ex_pool2 ex_joined))
      as [(b & s' & E)|(i & k & _ & _ & _ & E)]; [vm_compute; done|done|vm_compute in E; discriminate E|exact E].
Defined.

Lemma pool_fifo_witness :
  exists q : list (threadworker Z Z), [Worker 1 10; Worker 2 20] = [Worker 1 10] ++ q /\
    [Worker 1 10] ≡ₚ called (final ex_pool ex_destroyed).
Proof.
  destruct (pool_fifo 1 (fun _ => true) ex_pool (final ex_pool ex_destroyed) ex_created (final_reachable _ _))
    as (q & Hq & _ & _ & Hd); [vm_compute; done|].
  exists q. split; [exact Hq|]. apply Hd. vm_compute. reflexivity.
Defined.

Lemma pool_work_proceeds_witness :
  exists i s', step (AWorker i) (final ex_pool ex_acts) = Ok (true, s').
Proof.
  apply (pool_work_proceeds 1 (fun _ => true) ex_pool _ ex_created (final_reachable _ _)); [vm_compute; done..|].
  exists 0%nat. split; [vm_compute; lia|reflexivity].
Defined.
