(* ===== verification/MongoPool.v ===== *)
(** * Threads that share a pool of clients: [src/lib/mongo/client_pool.c]

    [main] starts 300 threads and waits for them; each takes a client out of the pool,
    runs through the documents of a query, and gives the client back.  libmongoc is
    a class of operations with what its documentation promises: a pool holds a bounded
    number of clients, and [mongoc_client_pool_pop] blocks while all of them are taken,
    or gives up and returns NULL.  Threads are functions that give the next state, or
    [None] when they block; a run is any interleaving. *)

From stdpp Require Import prelude list relations.
From Stdlib Require Import ZArith Lia.
From S2P Require Import Prelude.

(** [pop]: [None] blocks, [Some (None, p)] is a NULL. *)
Class Mongoc := {
  mongoc_client_t : Type;
  mongoc_client_pool_t : Type;
  mongoc_client_pool_new : mongoc_client_pool_t;
  mongoc_client_pool_pop : mongoc_client_pool_t -> option (option mongoc_client_t * mongoc_client_pool_t);
  mongoc_client_pool_push : mongoc_client_t -> mongoc_client_pool_t -> mongoc_client_pool_t;
}.

(** [taken]: the clients that are out of the pool; [max_pool_size] of them at most. *)
Class MongocLaws `(Mongoc) := {
  taken : mongoc_client_pool_t -> list mongoc_client_t;
  max_pool_size : nat;
  max_pool_size_pos : (0 < max_pool_size)%nat;
  taken_new : taken mongoc_client_pool_new = [];
  pop_client p c p' : mongoc_client_pool_pop p = Some (Some c, p') ->
    c ∉ taken p /\ taken p' ≡ₚ c :: taken p /\ (length (taken p) < max_pool_size)%nat;
  pop_null p p' : mongoc_client_pool_pop p = Some (None, p') -> taken p' ≡ₚ taken p;
  pop_blocks p : mongoc_client_pool_pop p = None -> (max_pool_size <= length (taken p))%nat;
  push_client p c : c ∈ taken p -> taken p ≡ₚ c :: taken (mongoc_client_pool_push c p);
}.

Section program.
Context `{Mongoc}.
Abbreviation client := mongoc_client_t.
Abbreviation pool := mongoc_client_pool_t.

(** The number of threads. *)
Definition THREADS : nat := 300.

(** Where a thread is, with the documents its query will still find. *)
Inductive worker_pc :=
| Pop (docs : nat)
| Next (c : client) (docs : nat)
| Push (c : client)
| Returned.

Definition worker (w : worker_pc) (p : pool) : option (worker_pc * pool) :=
  match w with
  | Pop docs =>
      match mongoc_client_pool_pop p with
      | None => None
      | Some (None, p) => Some (Returned, p)
      | Some (Some c, p) => Some (Next c docs, p)
      end
  | Next c (S docs) => Some (Next c docs, p)
  | Next c O => Some (Push c, p)
  | Push c => Some (Returned, mongoc_client_pool_push c p)
  | Returned => None
  end.

(** The two loops of [main], with [i]. *)
Inductive where_main := Creating (i : nat) | Joining (i : nat) | Ended.

(** [threads]: what has been created so far, [None] where [pthread_create] has failed and
    the identifier was not set. *)
Record system := System { m_pc : where_main; threads : list (option worker_pc); m_pool : pool }.

(** How many documents the query of each thread finds. *)
Context (docs : nat -> nat).

(** [created]: whether [pthread_create], whose result is not looked at, succeeds. *)
Definition main (created : bool) (s : system) : option (outcome system) :=
  match m_pc s with
  | Creating i =>
      if (i <? THREADS)%nat then
        Some (Ok (System (Creating (i + 1)) (threads s ++ [if created then Some (Pop (docs i)) else None]) (m_pool s)))
      else Some (Ok (System (Joining 0) (threads s) (m_pool s)))
  | Joining i =>
      if (i <? THREADS)%nat then
        match threads s !! i with
        | Some (Some Returned) => Some (Ok (System (Joining (i + 1)) (threads s) (m_pool s)))
        | Some (Some _) => None
        | Some None | None => Some (Err Uninitialised)
        end
      else Some (Ok (System Ended (threads s) (m_pool s)))
  | Ended => None
  end.

(** A step of thread [i]; the end of [main] ends the process. *)
Definition thread (i : nat) (s : system) : option system :=
  match m_pc s, threads s !! i with
  | Ended, _ => None
  | _, Some (Some w) => '(w, p) ← worker w (m_pool s); Some (System (m_pc s) (<[i := Some w]> (threads s)) p)
  | _, _ => None
  end.

Definition start : system := System (Creating 0) [] mongoc_client_pool_new.

Inductive step (s : system) : system -> Prop :=
| step_main s' : main true s = Some (Ok s') -> step s s'
| step_thread i s' : thread i s = Some s' -> step s s'.

(** ** Who has which client, and what is left to do *)

Definition thread_client (t : option worker_pc) : list client :=
  match t with Some (Next c _) | Some (Push c) => [c] | _ => [] end.
Definition held (ts : list (option worker_pc)) : list client := ts ≫= thread_client.

Definition thread_work (t : option worker_pc) : nat :=
  match t with Some (Pop d) => d + 3 | Some (Next _ d) => d + 2 | Some (Push _) => 1 | _ => 0 end.
Definition main_work (m : where_main) : nat :=
  match m with
  | Creating i => sum_list_with (fun k => docs k + 4)%nat (seq i (THREADS - i)) + THREADS + 2
  | Joining i => THREADS - i + 1
  | Ended => 0
  end.
Definition work (s : system) : nat := main_work (m_pc s) + sum_list_with thread_work (threads s).

(** Where one thread stands among the others. *)
Lemma held_at ts i t : ts !! i = Some t ->
  exists R n, held ts ≡ₚ thread_client t ++ R /\ sum_list_with thread_work ts = (thread_work t + n)%nat /\
    forall t', held (<[i := t']> ts) ≡ₚ thread_client t' ++ R /\ sum_list_with thread_work (<[i := t']> ts) = (thread_work t' + n)%nat.
Proof.
  intros Ht. pose proof (take_drop_middle ts i t Ht) as E. apply lookup_lt_Some in Ht.
  exists (held (take i ts) ++ held (drop (S i) ts)), (sum_list_with thread_work (take i ts) + sum_list_with thread_work (drop (S i) ts))%nat.
  assert (Hat : forall t', held (take i ts ++ t' :: drop (S i) ts) ≡ₚ thread_client t' ++ held (take i ts) ++ held (drop (S i) ts) /\
    sum_list_with thread_work (take i ts ++ t' :: drop (S i) ts) = (thread_work t' + (sum_list_with thread_work (take i ts) + sum_list_with thread_work (drop (S i) ts)))%nat).
  { intros t'. unfold held. rewrite bind_app, bind_cons, sum_list_with_app.
    split; [by rewrite !app_assoc, (Permutation_app_comm (_ ≫= _))|]. simpl. lia. }
  pose proof (Hat t) as [H1 H2]. rewrite E in H1, H2. split_and!; [done..|]. intros t'. rewrite insert_take_drop by done. apply Hat.
Qed.

Context {L : MongocLaws _}.

(** What [main] knows of the threads. *)
Definition main_ok (m : where_main) (ts : list (option worker_pc)) : Prop :=
  match m with
  | Creating i => i = length ts /\ (i <= THREADS)%nat
  | Joining i => length ts = THREADS /\ (i <= THREADS)%nat /\ forall k, (k < i)%nat -> ts !! k = Some (Some Returned)
  | Ended => length ts = THREADS /\ forall k, (k < THREADS)%nat -> ts !! k = Some (Some Returned)
  end.

Record pool_inv (s : system) : Prop := {
  pl_taken : taken (m_pool s) ≡ₚ held (threads s);
  pl_once : NoDup (taken (m_pool s));
  pl_size : (length (taken (m_pool s)) <= max_pool_size)%nat;
  pl_threads : Forall is_Some (threads s);
  pl_main : main_ok (m_pc s) (threads s);
}.

Lemma pool_inv_start : pool_inv start.
Proof. split; simpl; rewrite ?taken_new; try done; [apply NoDup_nil_2|simpl; lia|split; [done|lia]]. Qed.

Lemma main_ok_thread m ts i w w' :
  main_ok m ts -> ts !! i = Some (Some w) -> w <> Returned -> main_ok m (<[i := Some w']> ts).
Proof.
  intros Hm Hi Hw. assert (Hne : forall n, (forall k, (k < n)%nat -> ts !! k = Some (Some Returned)) ->
    forall k, (k < n)%nat -> <[i := Some w']> ts !! k = Some (Some Returned)).
  { intros n H1 k Hk. specialize (H1 k Hk). rewrite list_lookup_insert_ne; [done|]. congruence. }
  destruct m; simpl in *; rewrite length_insert; destruct_and?; split_and?; eauto.
Qed.

(** A thread that moves. *)
Lemma thread_inv i s s' : pool_inv s -> thread i s = Some s' -> pool_inv s' /\ (work s' < work s)%nat.
Proof.
  intros Hs E. unfold thread in E. destruct (threads s !! i) as [[w|]|] eqn:Hi; [|by destruct (m_pc s)..].
  assert (exists w' p, worker w (m_pool s) = Some (w', p) /\ s' = System (m_pc s) (<[i := Some w']> (threads s)) p) as (w' & p & Ew & ->).
  { destruct (m_pc s); try done; destruct (worker w (m_pool s)) as [[w' p]|]; try done; injection E as <-; by exists w', p. }
  destruct (held_at _ _ _ Hi) as (R & n & Hh & Hw & Hins). destruct (Hins (Some w')) as [Hh' Hw']. destruct Hs as [Ht Ho Hz Hth Hm].
  assert (Hret : w <> Returned) by (by intros ->).
  assert (Hmain := main_ok_thread _ _ _ _ w' Hm Hi Hret).
  assert (Hth' : Forall is_Some (<[i := Some w']> (threads s))) by (by apply Forall_insert).
  enough (H' : taken p ≡ₚ thread_client (Some w') ++ R /\ NoDup (taken p) /\ (length (taken p) <= max_pool_size)%nat /\ (thread_work (Some w') < thread_work (Some w))%nat).
  { destruct H' as (H1 & H2 & H3 & H4). split; [split; simpl; [by rewrite H1, Hh'|done..]|]. unfold work. simpl m_pc. simpl threads. lia. }
  rewrite Hh in Ht. destruct w as [d|c [|d]|c|]; cbn [worker thread_client app] in *; try done.
  - destruct (mongoc_client_pool_pop (m_pool s)) as [[[c|] p']|] eqn:Ep; [| |done]; injection Ew as <- <-.
    + apply pop_client in Ep as (Hc & Hp & Hlt). simpl. rewrite Hp. split_and!; [by rewrite Ht|by apply NoDup_cons|simpl; lia|lia].
    + apply pop_null in Ep. simpl. rewrite Ep. split_and!; [done..|lia].
  - injection Ew as <- <-. simpl. split_and!; [done..|lia].
  - injection Ew as <- <-. simpl. split_and!; [done..|lia].
  - injection Ew as <- <-. assert (Hc : c ∈ taken (m_pool s)) by (rewrite Ht; left).
    pose proof (push_client _ c Hc) as Hp. simpl. rewrite Hp in Ht, Ho, Hz. apply Permutation.Permutation_cons_inv in Ht.
    apply NoDup_cons in Ho as [_ Ho]. simpl in Hz. split_and!; [done|done|lia|lia].
Qed.

Lemma main_inv s : pool_inv s ->
  (forall s', main true s = Some (Ok s') -> pool_inv s' /\ (work s' < work s)%nat) /\ (forall f, main true s <> Some (Err f)).
Proof.
  intros [Ht Ho Hz Hth Hm]. unfold main. destruct (m_pc s) as [i|i|] eqn:Em; simpl in Hm.
  - destruct Hm as [Hi Hle]. destruct (Nat.ltb_spec i THREADS) as [Hlt|Hge]; (split; [intros s' [= <-]|done]).
    + split.
      * split; simpl; try done; [rewrite Ht; unfold held; rewrite bind_app; simpl; by rewrite app_nil_r|apply Forall_app; split; [done|repeat constructor; done]|].
        rewrite length_app. simpl. lia.
      * unfold work. rewrite Em. cbn [m_pc threads main_work]. rewrite sum_list_with_app.
        replace (THREADS - i)%nat with (S (THREADS - (i + 1))) by lia. cbn [seq sum_list_with thread_work]. rewrite Nat.add_1_r. lia.
    + split; [split; simpl; try done; split_and!; [lia|lia|intros k Hk; lia]|].
      unfold work. rewrite Em. cbn [m_pc threads main_work]. lia.
  - destruct Hm as (Hl & Hle & Hret). destruct (Nat.ltb_spec i THREADS) as [Hlt|Hge].
    + destruct (lookup_lt_is_Some_2 (threads s) i ltac:(lia)) as [t Hi]. rewrite Hi.
      assert (is_Some t) as [w ->] by (by eapply Forall_lookup_1).
      destruct w; (split; [|done]); intros s' [= <-]. split.
      * split; simpl; try done. split_and!; [done|lia|]. intros k Hk. destruct (decide (k = i)) as [->|]; [done|apply Hret; lia].
      * unfold work. rewrite Em. cbn [m_pc threads main_work]. lia.
    + split; [intros s' [= <-]|done]. split.
      * split; simpl; try done. split; [done|]. intros k Hk. apply Hret. lia.
      * unfold work. rewrite Em. cbn [m_pc threads main_work]. lia.
  - split; done.
Qed.

Lemma pool_step_inv s s' : pool_inv s -> step s s' -> pool_inv s' /\ (work s' < work s)%nat.
Proof. intros Hs [s1 E|i s1 E]; [by apply (main_inv s Hs)|by eapply thread_inv]. Qed.

(** While [main] has not ended, something can move: a thread that has a client, one that can get
    one, or [main]. *)
Lemma can_step s : pool_inv s -> m_pc s <> Ended -> exists s', step s s'.
Proof.
  intros Hs Hne. destruct (m_pc s) as [i|i|] eqn:Em; [| |done].
  { destruct (i <? THREADS)%nat eqn:Hi; eexists; apply step_main; unfold main; rewrite Em, Hi; done. }
  destruct Hs as [Ht Ho Hz Hth Hm]. rewrite Em in Hm. destruct Hm as (Hl & Hle & Hret).
  destruct (i <? THREADS)%nat eqn:Hi; [|eexists; apply step_main; unfold main; rewrite Em, Hi; done].
  apply Nat.ltb_lt in Hi. destruct (lookup_lt_is_Some_2 (threads s) i ltac:(lia)) as [t Hti].
  assert (is_Some t) as [w ->] by (by eapply Forall_lookup_1).
  assert (Hmove : forall j w' x, threads s !! j = Some (Some w') -> worker w' (m_pool s) = Some x -> exists s', step s s').
  { intros j w' [w1 p] Hj Hw. eexists. apply (step_thread _ j). unfold thread. rewrite Em, Hj. simpl. by rewrite Hw. }
  destruct w as [d|c [|d]|c|].
  - destruct (mongoc_client_pool_pop (m_pool s)) as [[[c|] p]|] eqn:Ep; [eapply Hmove; [exact Hti|]; simpl; by rewrite Ep..|].
    (* all clients are out: one of the threads has one *)
    apply pop_blocks in Ep. pose proof max_pool_size_pos as Hpos. destruct (taken (m_pool s)) as [|c cs]; [simpl in Ep; lia|].
    assert (Hc : c ∈ held (threads s)) by (rewrite <- Ht; left).
    apply list_elem_of_bind in Hc as (t & Hc & (j & Hj)%list_elem_of_lookup).
    destruct t as [[?|c' [|?]|c'|]|]; simpl in Hc; try (by apply not_elem_of_nil in Hc); by eapply Hmove.
  - by eapply Hmove.
  - by eapply Hmove.
  - by eapply Hmove.
  - eexists. apply step_main. unfold main. rewrite Em, (proj2 (Nat.ltb_lt _ _) Hi), Hti. done.
Qed.

Lemma nsteps_pool n s s' : nsteps step n s s' -> pool_inv s -> pool_inv s' /\ (n + work s' <= work s)%nat.
Proof.
  induction 1 as [s|n s s1 s2 H1 H2 IH]; intros Hs; [split; [done|lia]|].
  destruct (pool_step_inv s s1 Hs H1) as [Hs1 Hw]. destruct (IH Hs1) as [? ?]. split; [done|lia].
Qed.

(** C19: as long as [pthread_create] succeeds, and whatever the order in which the threads move: no
    step faults; a client belongs to one thread at most, and no more than the pool may hold
    are out; as long as [main] has not ended something can move, also when all clients are
    taken; no run has more than [work start] steps; and when [main] has ended all threads
    have returned and every client is back in the pool. *)
Theorem client_pool_completes n s :
  nsteps step n start s ->
  (forall f, main true s <> Some (Err f)) /\
  NoDup (held (threads s)) /\ (length (held (threads s)) <= max_pool_size)%nat /\
  (m_pc s <> Ended -> exists s', step s s') /\
  (n <= sum_list_with (fun k => docs k + 4) (seq 0 THREADS) + THREADS + 2)%nat /\
  (m_pc s = Ended -> threads s = replicate THREADS (Some Returned) /\ taken (m_pool s) = []).
Proof using L.
  intros Hn. destruct (nsteps_pool n start s Hn pool_inv_start) as [Hs Hw]. pose proof Hs as [Ht Ho Hz Hth Hm].
  split_and!.
  - by apply main_inv.
  - by rewrite <- Ht.
  - by rewrite <- Ht.
  - by apply can_step.
  - unfold work, start in Hw. cbn [m_pc threads main_work sum_list_with] in Hw. rewrite Nat.sub_0_r in Hw. lia.
  - intros E. rewrite E in Hm. destruct Hm as [Hl Hret].
    assert (Er : threads s = replicate THREADS (Some Returned)).
    { apply list_eq. intros k. destruct (Nat.lt_ge_cases k THREADS) as [Hk|Hk].
      - rewrite Hret by done. by rewrite lookup_replicate_2.
      - rewrite !lookup_ge_None_2 by (rewrite ?length_replicate; lia). done. }
    split; [done|]. rewrite Er in Ht. clear -Ht. apply Permutation_nil_r. rewrite Ht.
    generalize THREADS as k. by induction k.
Qed.

(** A [pthread_create] that failed is not noticed, and its identifier is read all the same. *)
Lemma join_not_created s i :
  m_pc s = Joining i -> (i < THREADS)%nat -> threads s !! i = Some None -> main true s = Some (Err Uninitialised).
Proof. intros Em Hi Ht. unfold main. by rewrite Em, (proj2 (Nat.ltb_lt _ _) Hi), Ht. Qed.

End program.

(** ** A pool of two clients *)

Fixpoint give_back (c : nat) (p : list nat) : list nat :=
  match p with [] => [] | d :: p => if decide (c = d) then p else d :: give_back c p end.

#[export] Instance ex_mongoc : Mongoc := {
  mongoc_client_t := nat;
  mongoc_client_pool_t := list nat;
  mongoc_client_pool_new := [];
  mongoc_client_pool_pop p := if (length p <? 2)%nat then Some (Some (fresh p), fresh p :: p) else None;
  mongoc_client_pool_push c p := give_back c p;
}.

#[export] Program Instance ex_mongoc_laws : MongocLaws ex_mongoc := {
  taken p := p;
  max_pool_size := 2;
}.
Next Obligation. lia. Qed.
Next Obligation. done. Qed.
Next Obligation.
  intros p c p'. simpl. destruct (Nat.ltb_spec (length p) 2); [|done]. intros [= <- <-]. split_and!; [apply infinite_is_fresh|done|done].
Qed.
Next Obligation. intros p p'. simpl. by destruct (_ <? _)%nat. Qed.
Next Obligation. intros p. simpl. by destruct (Nat.ltb_spec (length p) 2). Qed.
Next Obligation.
  intros p c Hc. simpl. induction p as [|d p IH]; [by apply not_elem_of_nil in Hc|]. simpl.
  case_decide as E; [by subst|]. apply elem_of_cons in Hc as [?|Hc]; [done|]. rewrite (IH Hc) at 1. apply perm_swap.
Qed.

Definition ex_docs (k : nat) : nat := 1.

(** [main] has created a thread, which has taken a client. *)
Lemma client_pool_completes_witness :
  exists s : @system ex_mongoc, nsteps (step ex_docs) 2 start s /\ held (threads s) = [0%nat] /\ exists s', step ex_docs s s'.
Proof.
  set (s := @System ex_mongoc (Creating 1) [Some (@Next ex_mongoc 0%nat 1)] [0%nat]).
  assert (Hn : nsteps (step ex_docs) 2 start s).
  { eapply nsteps_l; [by apply step_main|]. eapply nsteps_l; [by apply (step_thread _ _ 0)|apply nsteps_O]. }
  exists s. split; [exact Hn|]. split; [reflexivity|].
  apply (proj1 (proj2 (proj2 (proj2 (client_pool_completes ex_docs 2 s Hn))))). discriminate.
Defined.
