(* ===== verification/ProcessPool.v ===== *)
(** * The process pool: [src/lib/processpool/processpool.h]

    A parent forks its children at the start and shares a socket pair with each.
    It tells the children in turn to accept a connection; a child handles the
    connections it accepted.  Both are loops around [epoll_wait]: what it returns,
    and what the calls for a ready descriptor return, is an event.  Each process
    has its own memory; the open descriptors are a set, what a process does to
    the others is a log.  Indices and counters are below the number of children,
    which is at most 16.

    The source does not declare the member [m_epollfd] it uses, and [addsig] sets
    SA_RESTART in [sa_handler]; it is read with the member declared, and with
    [sig_handler] writing each signal to the pipe. *)

From stdpp Require Import prelude gmap list.
From Stdlib Require Import ZArith Lia.
From S2P Require Import Prelude.

(** ** The operating system *)

(** The answers to [socketpair] and [epoll_create] (given the open descriptors)
    and to the [i]th [fork]. *)
Class Os := {
  socketpair : gset Z -> option (Z * Z);
  epoll_create : gset Z -> Z;
  fork : nat -> Z;
}.

(** A new descriptor is not one that is open. *)
Class OsLaws `{Os} := {
  socketpair_new fds a b : socketpair fds = Some (a, b) -> (a ∉ fds) /\ (b ∉ fds) /\ a <> b;
  epoll_create_new fds : epoll_create fds <> -1 -> (epoll_create fds ∉ fds);
}.

(** What a process does: it notifies a child through its pipe, sends it SIGTERM,
    or uses a descriptor that is not open. *)
Inductive action := Notify (fd : Z) | Kill (pid : Z) | BadFd (fd : Z).

#[global] Instance action_eq_dec : EqDecision action.
Proof. solve_decision. Defined.

Definition SIGINT : Z := 2.
Definition SIGTERM : Z := 15.
Definition SIGCHLD : Z := 17.

(** ** Data *)

Definition MAX_PROCESS_NUMBER : Z := 16.
Definition USER_PER_PROCESS : Z := 65535.

(** [process]; the pipe is not initialised by the constructor. *)
Record process := Process { m_pid : Z; m_pipefd : option (Z * Z) }.

Definition new_process : process := Process (-1) None.

(** [processpool], the static [sig_pipefd[0]], and the local
    [sub_process_counter] of [run_parent]; then the open descriptors, those that
    are watched, and the log. *)
Record pool := Pool {
  m_process_number : nat;
  m_idx : Z;
  m_listenfd : Z;
  m_epollfd : Z;
  m_stop : bool;
  m_sub_process : list process;
  sig_pipefd : Z;
  sub_process_counter : nat;
  open_fds : gset Z;
  watched : gset Z;
  actions : list action;
}.

Definition set_idx v s := Pool (m_process_number s) v (m_listenfd s) (m_epollfd s) (m_stop s) (m_sub_process s) (sig_pipefd s) (sub_process_counter s) (open_fds s) (watched s) (actions s).
Definition set_epollfd v s := Pool (m_process_number s) (m_idx s) (m_listenfd s) v (m_stop s) (m_sub_process s) (sig_pipefd s) (sub_process_counter s) (open_fds s) (watched s) (actions s).
Definition set_stop v s := Pool (m_process_number s) (m_idx s) (m_listenfd s) (m_epollfd s) v (m_sub_process s) (sig_pipefd s) (sub_process_counter s) (open_fds s) (watched s) (actions s).
Definition set_subs v s := Pool (m_process_number s) (m_idx s) (m_listenfd s) (m_epollfd s) (m_stop s) v (sig_pipefd s) (sub_process_counter s) (open_fds s) (watched s) (actions s).
Definition set_sig v s := Pool (m_process_number s) (m_idx s) (m_listenfd s) (m_epollfd s) (m_stop s) (m_sub_process s) v (sub_process_counter s) (open_fds s) (watched s) (actions s).
Definition set_counter v s := Pool (m_process_number s) (m_idx s) (m_listenfd s) (m_epollfd s) (m_stop s) (m_sub_process s) (sig_pipefd s) v (open_fds s) (watched s) (actions s).
Definition set_fds v s := Pool (m_process_number s) (m_idx s) (m_listenfd s) (m_epollfd s) (m_stop s) (m_sub_process s) (sig_pipefd s) (sub_process_counter s) v (watched s) (actions s).
Definition set_watched v s := Pool (m_process_number s) (m_idx s) (m_listenfd s) (m_epollfd s) (m_stop s) (m_sub_process s) (sig_pipefd s) (sub_process_counter s) (open_fds s) v (actions s).
Definition set_actions v s := Pool (m_process_number s) (m_idx s) (m_listenfd s) (m_epollfd s) (m_stop s) (m_sub_process s) (sig_pipefd s) (sub_process_counter s) (open_fds s) (watched s) v.

Section pool.
Context `{Os}.

Definition act (a : action) : M pool unit := modify (fun s => set_actions (actions s ++ [a]) s).

(** [m_sub_process[i]] *)
Definition sub (i : nat) : M pool process := fun s =>
  match m_sub_process s !! i with Some p => Ok (p, s) | None => Err OutOfBounds end.

Definition set_sub (i : nat) (p : process) : M pool unit :=
  _ ← sub i; modify (fun s => set_subs (<[i := p]> (m_sub_process s)) s).

Definition pipe (p : process) : M pool (Z * Z) :=
  match m_pipefd p with Some fds => mret fds | None => throw Uninitialised end.

(** A closed descriptor is not watched any more. *)
Definition close (fd : Z) : M pool unit :=
  s ← get;
  if decide (fd ∈ open_fds s) then modify (fun s => set_watched (watched s ∖ {[fd]}) (set_fds (open_fds s ∖ {[fd]}) s))
  else act (BadFd fd).

(** The four bytes of [new_conn] *)
Definition send_conn (fd : Z) : M pool unit :=
  s ← get; act (if decide (fd ∈ open_fds s) then Notify fd else BadFd fd).

(** [EPOLL_CTL_ADD]; the descriptor is made nonblocking. *)
Definition addfd (fd : Z) : M pool unit := modify (fun s => set_watched ({[fd]} ∪ watched s) s).

(** ** Construction *)

(** The [i]th round and those after it; a child leaves the loop. *)
Fixpoint fork_loop (rounds i : nat) : M pool unit :=
  match rounds with
  | O => mret tt
  | S rounds =>
      s ← get;
      match socketpair (open_fds s) with
      | None => throw AssertFailed
      | Some (a, b) =>
          _ ← modify (fun s => set_fds ({[a; b]} ∪ open_fds s) s);
          let pid := fork i in
          _ ← set_sub i (Process pid (Some (a, b)));
          _ ← assert (0 <=? pid);
          if 0 <? pid then _ ← close b; fork_loop rounds (S i)
          else _ ← close a; modify (set_idx (Z.of_nat i))
      end
  end.

Definition processpool (listenfd process_number : Z) (fds : gset Z) : outcome pool :=
  if (0 <? process_number) && (process_number <=? MAX_PROCESS_NUMBER) then
    let n := Z.to_nat process_number in
    match fork_loop n 0 (Pool n (-1) listenfd (-1) false (replicate n new_process) (-1) 0 fds ∅ []) with
    | Ok (_, s) => Ok s
    | Err f => Err f
    | NoFuel => NoFuel
    end
  else Err AssertFailed.

(** The epoll descriptor and the pipe the signal handlers write to. *)
Definition setup_sig_pipe : M pool unit :=
  s ← get;
  let fd := epoll_create (open_fds s) in
  _ ← assert (negb (fd =? -1));
  _ ← modify (fun s => set_epollfd fd (set_fds ({[fd]} ∪ open_fds s) s));
  s ← get;
  match socketpair (open_fds s) with
  | None => throw AssertFailed
  | Some (a, b) =>
      _ ← modify (fun s => set_sig a (set_fds ({[a; b]} ∪ open_fds s) s));
      addfd a
  end.

(** ** The parent *)

(** A byte of the signal pipe, and what the calls of [waitpid] return if it is
    SIGCHLD. *)
Record signal := Signal { signo : Z; reaped : list Z }.

(** A ready descriptor; [r_signals] is what [recv] reads from the signal pipe. *)
Record ready := Ready { r_fd : Z; r_in : bool; r_signals : list signal }.

Inductive wait := WaitFailed | WaitInterrupted | WaitReady (es : list ready).

(** [do ... while]: the index of the child whose turn it is. *)
Fixpoint pick (fuel start i : nat) : M pool nat :=
  p ← sub i;
  if m_pid p =? -1 then
    s ← get;
    let i := ((i + 1) mod m_process_number s)%nat in
    if (i =? start)%nat then mret i
    else match fuel with O => no_fuel | S fuel => pick fuel start i end
  else mret i.

(** A new connection; [true]: the [for] loop is left. *)
Definition new_conn : M pool bool :=
  s ← get;
  i ← pick (m_process_number s) (sub_process_counter s) (sub_process_counter s);
  p ← sub i;
  if m_pid p =? -1 then _ ← modify (set_stop true); mret true
  else
    _ ← modify (fun s => set_counter ((i + 1) mod m_process_number s)%nat s);
    '(fd, _) ← pipe p;
    _ ← send_conn fd;
    mret false.

(** The children from [i] on: the one that has ended. *)
Fixpoint reap (rounds i : nat) (pid : Z) : M pool unit :=
  match rounds with
  | O => mret tt
  | S rounds =>
      p ← sub i;
      _ ← (if m_pid p =? pid then
             '(fd, _) ← pipe p;
             _ ← close fd;
             set_sub i (Process (-1) (m_pipefd p))
           else mret tt);
      reap rounds (S i) pid
  end.

(** [while ((pid = waitpid(...)) > 0)] *)
Fixpoint reap_all (pids : list Z) : M pool unit :=
  match pids with
  | [] => mret tt
  | pid :: pids =>
      if 0 <? pid then s ← get; _ ← reap (m_process_number s) 0 pid; reap_all pids else mret tt
  end.

Fixpoint any_left (rounds i : nat) : M pool unit :=
  match rounds with
  | O => mret tt
  | S rounds =>
      p ← sub i;
      _ ← (if m_pid p =? -1 then mret tt else modify (set_stop false));
      any_left rounds (S i)
  end.

Fixpoint kill_all (rounds i : nat) : M pool unit :=
  match rounds with
  | O => mret tt
  | S rounds =>
      p ← sub i;
      _ ← (if m_pid p =? -1 then mret tt else act (Kill (m_pid p)));
      kill_all rounds (S i)
  end.

Definition parent_signal (sg : signal) : M pool unit :=
  s ← get;
  if signo sg =? SIGCHLD then
    _ ← reap_all (reaped sg);
    _ ← modify (set_stop true);
    any_left (m_process_number s) 0
  else if (signo sg =? SIGTERM) || (signo sg =? SIGINT) then kill_all (m_process_number s) 0
  else mret tt.

Fixpoint parent_signals (sgs : list signal) : M pool unit :=
  match sgs with
  | [] => mret tt
  | sg :: sgs => _ ← parent_signal sg; parent_signals sgs
  end.

Fixpoint parent_events (es : list ready) : M pool unit :=
  match es with
  | [] => mret tt
  | e :: es =>
      s ← get;
      if r_fd e =? m_listenfd s then
        leave ← new_conn;
        if leave : bool then mret tt else parent_events es
      else if (r_fd e =? sig_pipefd s) && r_in e then _ ← parent_signals (r_signals e); parent_events es
      else parent_events es
  end.

(** [false]: the process is still in [epoll_wait]. *)
Fixpoint parent_loop (ws : list wait) : M pool bool :=
  s ← get;
  if m_stop s then _ ← close (m_epollfd s); mret true
  else
    match ws with
    | [] => mret false
    | WaitFailed :: _ => _ ← close (m_epollfd s); mret true
    | WaitInterrupted :: ws => parent_loop ws
    | WaitReady es :: ws => _ ← parent_events es; parent_loop ws
    end.

Definition run_parent (ws : list wait) : M pool bool :=
  _ ← setup_sig_pipe;
  s ← get;
  _ ← addfd (m_listenfd s);
  parent_loop ws.

End pool.

(** ** The order of the children *)

Section order.
Context (n : nat).

(** The indices from [c] on, round the circle. *)
Definition nth_from (c j : nat) : nat := ((c + j) mod n)%nat.
Definition order (c : nat) : list nat := nth_from c <$> seq 0 n.

Definition those (A : nat -> bool) (xs : list nat) : list nat := filter (fun i => A i = true) xs.

Lemma nth_from_0 c : (c < n)%nat -> nth_from c 0 = c.
Proof. intros. unfold nth_from. rewrite Nat.add_0_r. by apply Nat.mod_small. Qed.

Lemma nth_from_S c j : (0 < n)%nat -> ((nth_from c j + 1) mod n)%nat = nth_from c (S j).
Proof. intros. unfold nth_from. rewrite Nat.Div0.add_mod_idemp_l. f_equal. lia. Qed.

Lemma nth_from_lt c j : (0 < n)%nat -> (nth_from c j < n)%nat.
Proof. intros. unfold nth_from. apply Nat.mod_upper_bound. lia. Qed.

(** The walk is back where it started after [n] steps and not before. *)
Lemma nth_from_start c j : (c < n)%nat -> (j < n)%nat ->
  (nth_from c (S j) =? c)%nat = bool_decide (S j = n).
Proof.
  intros Hc Hj. unfold nth_from. case_bool_decide as Hd; [apply Nat.eqb_eq|apply Nat.eqb_neq].
  - rewrite Hd. replace (c + n)%nat with (c + 1 * n)%nat by lia.
    rewrite Nat.Div0.mod_add. by apply Nat.mod_small.
  - destruct (decide (c + S j < n)%nat).
    + rewrite Nat.mod_small by done. lia.
    + replace (c + S j)%nat with ((c + S j - n) + 1 * n)%nat by lia.
      rewrite Nat.Div0.mod_add, Nat.mod_small by lia. lia.
Qed.

Lemma nth_from_shift c j k : (0 < n)%nat -> nth_from (nth_from c j) k = nth_from c (j + k).
Proof. intros. unfold nth_from. rewrite Nat.Div0.add_mod_idemp_l. f_equal. lia. Qed.

Lemma nth_from_wrap c j : nth_from c (n + j) = nth_from c j.
Proof.
  unfold nth_from. replace (c + (n + j))%nat with (c + j + 1 * n)%nat by lia. apply Nat.Div0.mod_add.
Qed.

Lemma order_split c j : (j < n)%nat ->
  order c = (nth_from c <$> seq 0 j) ++ nth_from c j :: (nth_from c <$> seq (S j) (n - S j)).
Proof.
  intros Hj. unfold order. replace n with (j + S (n - S j))%nat at 1 by lia.
  by rewrite seq_app, fmap_app.
Qed.

Lemma order_next c j : (j < n)%nat ->
  order (nth_from c (S j)) = (nth_from c <$> seq (S j) (n - S j)) ++ (nth_from c <$> seq 0 j) ++ [nth_from c j].
Proof.
  intros Hj. unfold order.
  assert (E : (nth_from (nth_from c (S j)) <$> seq 0 n) = nth_from c <$> seq (S j) n).
  { rewrite <- (Nat.add_0_r (S j)) at 2. rewrite <- fmap_add_seq, <- list_fmap_compose.
    apply list_fmap_ext. intros i x _. simpl. rewrite nth_from_shift by lia. done. }
  rewrite E. replace n with ((n - S j) + S j)%nat at 1 by lia. rewrite seq_app, fmap_app. f_equal.
  replace (S j + (n - S j))%nat with (n + 0)%nat by lia.
  rewrite <- fmap_add_seq, <- list_fmap_compose.
  assert (E' : (nth_from c ∘ Nat.add n) <$> seq 0 (S j) = nth_from c <$> seq 0 (S j)).
  { apply list_fmap_ext. intros i x _. apply nth_from_wrap. }
  by rewrite E', seq_S, fmap_app.
Qed.

(** The first of [A] in the order moves to the end when the next one is at the
    start. *)
Lemma order_rotate A c i rest : (c < n)%nat ->
  those A (order c) = i :: rest ->
  (i < n)%nat /\ A i = true /\ those A (order ((i + 1) mod n)) = rest ++ [i].
Proof.
  intros Hc E.
  assert (Hj : exists j, (j < n)%nat /\ i = nth_from c j /\ those A (nth_from c <$> seq 0 j) = []).
  { unfold order in E. clear Hc.
    assert (Hgen : forall m k, those A (nth_from c <$> seq k m) = i :: rest ->
      exists j, (k <= j < k + m)%nat /\ i = nth_from c j /\ those A (nth_from c <$> seq k (j - k)) = []).
    { induction m as [|m IH]; intros k Hk; simpl in Hk; [done|]. unfold those in Hk. rewrite filter_cons in Hk.
      destruct (decide (A (nth_from c k) = true)) as [Ha|Ha].
      - injection Hk as <- _. exists k. rewrite Nat.sub_diag. split; [lia|done].
      - destruct (IH (S k) Hk) as (j & Hj & -> & Hno). exists j. split; [lia|]. split; [done|].
        replace (j - k)%nat with (S (j - S k)) by lia. simpl. unfold those. rewrite filter_cons_False by done. done. }
    destruct (Hgen n 0%nat E) as (j & Hj & -> & Hno). rewrite Nat.sub_0_r in Hno. exists j. split; [lia|done]. }
  destruct Hj as (j & Hj & -> & Hno). rewrite (order_split c j Hj) in E. unfold those in *.
  rewrite filter_app, Hno, filter_cons in E. simpl in E.
  destruct (decide (A (nth_from c j) = true)) as [Ha|Ha].
  - injection E as E. split; [apply nth_from_lt; lia|]. split; [done|].
    rewrite nth_from_S, order_next by lia. rewrite !filter_app, Hno, E. by rewrite filter_cons_True.
  - exfalso. assert (Hin : nth_from c j ∈ filter (fun i => A i = true) (nth_from c <$> seq (S j) (n - S j)))
      by (rewrite E; by left).
    by apply list_elem_of_filter in Hin as [? _].
Qed.

Lemma elem_of_order c i : (c < n)%nat -> i ∈ order c <-> (i < n)%nat.
Proof.
  intros Hc. unfold order. rewrite list_elem_of_fmap. split.
  - intros (j & -> & _). apply nth_from_lt. lia.
  - intros Hi. exists ((i + n - c) mod n)%nat. split.
    + unfold nth_from. rewrite Nat.Div0.add_mod_idemp_r. replace (c + (i + n - c))%nat with (i + 1 * n)%nat by lia.
      rewrite Nat.Div0.mod_add. symmetry. by apply Nat.mod_small.
    + apply elem_of_seq. split; [lia|]. simpl. apply Nat.mod_upper_bound. lia.
Qed.

Lemma those_and A B xs : those (fun i => A i && B i) xs = those B (those A xs).
Proof.
  unfold those. rewrite list_filter_filter. apply list_filter_iff. intros i.
  rewrite andb_true_iff. tauto.
Qed.

End order.

(** ** What the parent does *)

(** The children whose turn it is, in order: the pool in the abstract.  [pid] and
    [chan] are the identity of a child and the parent's end of its pipe. *)
Section abstract.
Context (n : nat) (pid chan : nat -> Z) (listenfd sigfd : Z).

(** The results of [waitpid] before the first that is not positive. *)
Fixpoint ended (rets : list Z) : list Z :=
  match rets with
  | [] => []
  | x :: rets => if 0 <? x then x :: ended rets else []
  end.

Definition alive_after (gone : list Z) (q : list nat) : list nat := filter (fun i => pid i ∉ gone) q.

Fixpoint turn_signals (q : list nat) (sgs : list signal) : list nat * list action :=
  match sgs with
  | [] => (q, [])
  | sg :: sgs =>
      if signo sg =? SIGCHLD then turn_signals (alive_after (ended (reaped sg)) q) sgs
      else if (signo sg =? SIGTERM) || (signo sg =? SIGINT) then
        let '(q', out) := turn_signals q sgs in
        (q', ((fun i => Kill (pid i)) <$> filter (.∈ q) (seq 0 n)) ++ out)
      else turn_signals q sgs
  end.

(** The first child of the queue is notified and goes to its end. *)
Fixpoint turn_events (q : list nat) (es : list ready) : list nat * list action :=
  match es with
  | [] => (q, [])
  | e :: es =>
      if r_fd e =? listenfd then
        match q with
        | [] => (q, [])
        | i :: rest => let '(q', out) := turn_events (rest ++ [i]) es in (q', Notify (chan i) :: out)
        end
      else if (r_fd e =? sigfd) && r_in e then
        let '(q1, out1) := turn_signals q (r_signals e) in
        let '(q2, out2) := turn_events q1 es in
        (q2, out1 ++ out2)
      else turn_events q es
  end.

(** The parent ends when no child is left. *)
Fixpoint turn_loop (q : list nat) (ws : list wait) : list nat * list action * bool :=
  match q, ws with
  | [], _ => (q, [], true)
  | _, [] => (q, [], false)
  | _, WaitFailed :: _ => (q, [], true)
  | _, WaitInterrupted :: ws => turn_loop q ws
  | _, WaitReady es :: ws =>
      let '(q1, out1) := turn_events q es in
      let '(q2, out2, b) := turn_loop q1 ws in
      (q2, out1 ++ out2, b)
  end.

End abstract.

Section parent.
Context `{Hos : Os, Hol : !OsLaws}.
Context (n : nat) (pid chan : nat -> Z).
Context (Hn : (0 < n)%nat) (Hpid : forall i, (i < n)%nat -> 0 < pid i).
Context (Hchan : forall i j, (i < n)%nat -> (j < n)%nat -> chan i = chan j -> i = j).
Implicit Types (s : pool) (A : nat -> bool).

(** The children of [A] are alive, and of the parent's ends of the pipes theirs
    are open. *)
Record holds A s : Prop := {
  h_n : m_process_number s = n;
  h_len : length (m_sub_process s) = n;
  h_sub i p : m_sub_process s !! i = Some p ->
    (exists b, m_pipefd p = Some (chan i, b)) /\ m_pid p = if A i then pid i else -1;
  h_open i : (i < n)%nat -> chan i ∈ open_fds s <-> A i = true;
}.

(** The rest of the state is as before. *)
Record framed s s' : Prop := {
  f_counter : sub_process_counter s' = sub_process_counter s;
  f_listen : m_listenfd s' = m_listenfd s;
  f_sig : sig_pipefd s' = sig_pipefd s;
  f_epoll : m_epollfd s' = m_epollfd s;
  f_actions : actions s' = actions s;
  f_fds : forall fd, (forall i, (i < n)%nat -> fd <> chan i) -> fd ∈ open_fds s' <-> fd ∈ open_fds s;
}.

Lemma framed_refl s : framed s s.
Proof. done. Qed.

Lemma framed_trans s1 s2 s3 : framed s1 s2 -> framed s2 s3 -> framed s1 s3.
Proof. intros [? ? ? ? ? F1] [? ? ? ? ? F2]. split; try congruence. intros fd Hfd. by rewrite F2, F1. Qed.

Lemma wp_pget (Q : pool -> pool -> Prop) s : Q s s -> wp get Q s.
Proof. done. Qed.

Lemma wp_pmodify f (Q : unit -> pool -> Prop) s : Q tt (f s) -> wp (modify f) Q s.
Proof. done. Qed.

Lemma wp_sub A i Q s :
  holds A s -> (i < n)%nat ->
  (forall p b, m_sub_process s !! i = Some p -> m_pipefd p = Some (chan i, b) ->
     m_pid p = (if A i then pid i else -1) -> Q p s) ->
  wp (sub i) Q s.
Proof.
  intros [_ Hl Hs _] Hi HQ. destruct (lookup_lt_is_Some_2 (m_sub_process s) i) as [p Hp]; [lia|].
  destruct (Hs i p Hp) as [[b Hb] Hm]. unfold sub, wp. rewrite Hp. by eapply HQ.
Qed.

Lemma dead A i : (i < n)%nat -> ((if A i then pid i else -1) =? -1) = negb (A i).
Proof. intros Hi. destruct (A i); [|done]. apply Z.eqb_neq. pose proof (Hpid i Hi). lia. Qed.

(** The one child that has ended is taken out. *)
Lemma close_child A i p b s :
  holds A s -> (i < n)%nat -> A i = true -> m_sub_process s !! i = Some p -> m_pipefd p = Some (chan i, b) ->
  wp (_ ← close (chan i); set_sub i (Process (-1) (m_pipefd p))) (fun _ s' =>
    holds (fun j => A j && negb (j =? i)%nat) s' /\ framed s s' /\ m_stop s' = m_stop s) s.
Proof.
  intros [Hn' Hl Hs Ho] Hi HA Hp Hb. wp_step. unfold close. wp_step. apply wp_pget.
  rewrite decide_True by (by apply Ho). apply wp_pmodify. unfold set_sub, sub. wp_step.
  eapply wp_intro; [simpl; by rewrite Hp|]. apply wp_pmodify. split; [split|split; [split|]]; simpl; try done.
  - by rewrite length_insert.
  - intros j q. rewrite list_lookup_insert_Some. intros [(<- & <- & _)|[Hne Hq]].
    + simpl. rewrite Nat.eqb_refl, andb_false_r. eauto.
    + destruct (Hs j q Hq) as [Hb' ->]. rewrite (proj2 (Nat.eqb_neq j i)), andb_true_r by done. done.
  - intros j Hj. rewrite elem_of_difference, elem_of_singleton, (Ho j Hj), andb_true_iff, negb_true_iff, Nat.eqb_neq.
    split; intros [? Hne]; (split; [done|]); [intros ->; done|]. intros E. by apply Hne, Hchan.
  - intros fd Hfd. rewrite elem_of_difference, elem_of_singleton. split; [tauto|]. intros ?. split; [done|].
    by apply Hfd.
Qed.

Lemma holds_ext A B s : (forall i, (i < n)%nat -> A i = B i) -> holds A s -> holds B s.
Proof.
  intros He [Hn' Hl Hs Ho]. split; try done.
  - intros i p Hp. rewrite <- He; [by apply Hs|]. apply lookup_lt_Some in Hp. lia.
  - intros i Hi. rewrite <- He by done. by apply Ho.
Qed.

Lemma reap_ok x : 0 < x -> forall m k A s, (k + m = n)%nat -> holds A s ->
  wp (reap m k x) (fun _ s' => holds (fun i => A i && negb ((k <=? i)%nat && (pid i =? x))) s' /\
    framed s s' /\ m_stop s' = m_stop s) s.
Proof.
  intros Hx. induction m as [|m IH]; intros k A s Hk Hh; simpl.
  { apply wp_ret. split; [|done]. eapply holds_ext; [|exact Hh]. intros i Hi. simpl.
    destruct (Nat.leb_spec k i); [lia|]. by rewrite andb_true_r. }
  wp_step. eapply wp_sub; [done|lia|]. intros p b Hp Hb Hm. rewrite Hm.
  wp_step. destruct (decide (A k = true /\ pid k = x)) as [[HA Hpx]|Hno].
  - rewrite HA, (proj2 (Z.eqb_eq _ _) Hpx). unfold pipe. rewrite Hb. wp_step. apply wp_ret. rewrite <- Hb.
    eapply wp_mono; [apply (close_child A k p b s); [done|lia|done..]|]. intros u s1 (Hh1 & Hf1 & Hs1). clear u.
    eapply wp_mono; [eapply (IH (S k)); [lia|exact Hh1]|]. intros u s2 (Hh2 & Hf2 & Hs2). clear u.
    split; [|split; [by eapply framed_trans|congruence]]. eapply holds_ext; [|exact Hh2]. intros i Hi. cbn beta.
    destruct (Nat.eqb_spec i k) as [->|].
    + rewrite Nat.leb_refl, Hpx, Z.eqb_refl. simpl. by rewrite !andb_false_r.
    + destruct (Nat.leb_spec k i), (Nat.leb_spec (S k) i); simpl; try lia; by rewrite ?andb_true_r.
  - rewrite (proj2 (Z.eqb_neq _ _)). 2: { destruct (A k); [naive_solver|lia]. }
    apply wp_ret. eapply wp_mono; [eapply (IH (S k)); [lia|exact Hh]|]. intros u s2 (Hh2 & Hf2 & Hs2).
    split; [|done]. eapply holds_ext; [|exact Hh2]. intros i Hi. cbn beta.
    destruct (Nat.leb_spec (S k) i), (Nat.leb_spec k i); simpl; try lia; try done.
    assert (i = k) as -> by lia. destruct (A k); [|done]. simpl.
    destruct (Z.eqb_spec (pid k) x); [naive_solver|done].
Qed.

Definition gone (rets : list Z) (i : nat) : bool := bool_decide (pid i ∈ ended rets).

Lemma reap_all_ok rets : forall A s, holds A s ->
  wp (reap_all rets) (fun _ s' => holds (fun i => A i && negb (gone rets i)) s' /\
    framed s s' /\ m_stop s' = m_stop s) s.
Proof.
  induction rets as [|x rets IH]; intros A s Hh; unfold gone; cbn [reap_all ended].
  { apply wp_ret. split; [|done]. eapply holds_ext; [|exact Hh]. intros i Hi. cbn beta.
    rewrite bool_decide_false by (by intros ?%elem_of_nil). by rewrite andb_true_r. }
  destruct (Z.ltb_spec 0 x) as [Hx|Hx].
  - wp_step. apply wp_pget. wp_step. rewrite (h_n _ _ Hh). eapply wp_mono; [by apply reap_ok|].
    intros u s1 (Hh1 & Hf1 & Hs1). eapply wp_mono; [by apply IH|]. intros u' s2 (Hh2 & Hf2 & Hs2).
    split; [|split; [by eapply framed_trans|congruence]]. eapply holds_ext; [|exact Hh2]. intros i Hi. cbn beta.
    rewrite <- andb_assoc. f_equal. unfold gone. rewrite <- negb_orb. f_equal.
    destruct (Z.eqb_spec (pid i) x) as [->|Hne]; simpl.
    + symmetry. apply bool_decide_true. by left.
    + apply bool_decide_ext. rewrite elem_of_cons. naive_solver.
  - apply wp_ret. split; [|done]. eapply holds_ext; [|exact Hh]. intros i Hi. cbn beta.
    rewrite bool_decide_false by (by intros ?%elem_of_nil). by rewrite andb_true_r.
Qed.

Lemma those_seq_S A k m : those A (seq k (S m)) = (if A k then [k] else []) ++ those A (seq (S k) m).
Proof. unfold those. simpl. rewrite filter_cons. by destruct (A k). Qed.

Lemma any_left_ok A : forall m k s, (k + m = n)%nat -> holds A s ->
  wp (any_left m k) (fun _ s' => holds A s' /\ framed s s' /\
    m_stop s' = (if decide (those A (seq k m) = []) then m_stop s else false)) s.
Proof.
  induction m as [|m IH]; intros k s Hk Hh; [by apply wp_ret|].
  cbn [any_left]. wp_step. eapply wp_sub; [done|lia|]. intros p b Hp Hb Hm. rewrite Hm, dead by lia.
  wp_step. rewrite those_seq_S. destruct (A k); simpl.
  - apply wp_pmodify. eapply wp_mono; [apply (IH (S k)); [lia|by destruct Hh]|].
    intros u s2 (Hh2 & Hf2 & Hs2). split; [done|]. split; [by destruct Hf2|]. rewrite Hs2. simpl. by case_decide.
  - apply wp_ret. by apply IH; [lia|].
Qed.

Lemma kill_all_ok A : forall m k s, (k + m = n)%nat -> holds A s ->
  wp (kill_all m k) (fun _ s' => s' = set_actions (actions s ++ ((fun i => Kill (pid i)) <$> those A (seq k m))) s) s.
Proof.
  induction m as [|m IH]; intros k s Hk Hh.
  { apply wp_ret. simpl. rewrite app_nil_r. by destruct s. }
  cbn [kill_all]. wp_step. eapply wp_sub; [done|lia|]. intros p b Hp Hb Hm. rewrite Hm, dead by lia.
  wp_step. rewrite those_seq_S. destruct (A k); simpl.
  - apply wp_pmodify. eapply wp_mono; [apply (IH (S k)); [lia|by destruct Hh]|].
    intros u s2 ->. simpl. by rewrite <- app_assoc.
  - apply wp_ret. by apply IH; [lia|].
Qed.

(** The next child in turn, or the start again when there is none. *)
Lemma pick_ok A c s : holds A s -> (c < n)%nat -> forall m fuel j, (j + m = n)%nat -> (0 < m)%nat -> (m <= fuel)%nat ->
  wp (pick fuel c (nth_from n c j)) (fun i s' => s' = s /\
    i = default c (head (those A (nth_from n c <$> seq j m)))) s.
Proof.
  intros Hh Hc. induction m as [|m IH]; intros fuel j Hj Hm Hf; [lia|]. destruct fuel as [|fuel]; [lia|].
  cbn [pick]. wp_step. pose proof (nth_from_lt n c j Hn) as Hlt. eapply wp_sub; [done|done|].
  intros p b Hp Hb Hmp. rewrite Hmp, dead by done. cbn [seq fmap list_fmap]. unfold those. rewrite filter_cons.
  destruct (A (nth_from n c j)) eqn:HA; simpl; [by apply wp_ret|].
  wp_step. apply wp_pget. rewrite (h_n _ _ Hh), nth_from_S, nth_from_start by lia.
  destruct (decide (m = 0)%nat) as [->|Hm0].
  - rewrite bool_decide_true by lia. apply wp_ret. split; [done|]. simpl.
    pose proof (nth_from_start n c j Hc ltac:(lia)) as E. rewrite bool_decide_true in E by lia.
    by apply Nat.eqb_eq in E.
  - rewrite bool_decide_false by lia. apply IH; lia.
Qed.

Lemma those_nil A xs : those A xs = [] <-> forall i, i ∈ xs -> A i = false.
Proof.
  unfold those. induction xs as [|x xs IH]; [set_solver|]. rewrite filter_cons. split.
  - intros E i Hi. destruct (A x) eqn:Hx; simpl in E; [done|]. apply elem_of_cons in Hi as [->|Hi]; [done|].
    by apply IH.
  - intros Hall. rewrite decide_False by (rewrite Hall by set_solver; done). apply IH. set_solver.
Qed.

Lemma those_order_nil A c : (c < n)%nat -> those A (order n c) = [] <-> those A (seq 0 n) = [].
Proof.
  intros Hc. rewrite !those_nil. split; intros Hall i Hi; apply Hall.
  - apply elem_of_order; [done|]. apply elem_of_seq in Hi. lia.
  - apply elem_of_seq. apply elem_of_order in Hi; [lia|done].
Qed.

(** The parent between two events: [q] is the queue of the children, in turn. *)
Record stands (listenfd sigfd : Z) (q : list nat) (out : list action) s : Prop := {
  st_alive : exists A, holds A s /\ q = those A (order n (sub_process_counter s));
  st_counter : (sub_process_counter s < n)%nat;
  st_stop : m_stop s = bool_decide (q = []);
  st_out : actions s = out;
  st_listen : m_listenfd s = listenfd;
  st_sig : sig_pipefd s = sigfd;
  st_epoll : m_epollfd s ∈ open_fds s;
  st_epoll_new i : (i < n)%nat -> m_epollfd s <> chan i;
}.

Context (listenfd sigfd : Z).

Lemma reaped_ok sg q out s :
  stands listenfd sigfd q out s -> signo sg = SIGCHLD ->
  wp (parent_signal sg) (fun _ => stands listenfd sigfd (alive_after pid (ended (reaped sg)) q) out) s.
Proof.
  intros [(A & Hh & Hq) Hc _ Ho Hl Hs He Hne] Hsg. unfold parent_signal. wp_step. apply wp_pget.
  rewrite (proj2 (Z.eqb_eq _ _) Hsg). wp_step. eapply wp_mono; [by apply reap_all_ok|].
  intros u s1 (Hh1 & Hf1 & _). wp_step. apply wp_pmodify. rewrite (h_n _ _ Hh).
  set (B := fun i => A i && negb (gone (reaped sg) i)) in *.
  eapply wp_mono; [apply (any_left_ok B); [done|by destruct Hh1]|].
  intros u' s2 (Hh2 & Hf2 & Hs2). assert (Hf : framed s s2) by (eapply framed_trans; [done|by destruct Hf2]).
  destruct Hf as [F1 F2 F3 F4 F5 F6].
  assert (Eq : alive_after pid (ended (reaped sg)) q = those B (order n (sub_process_counter s))).
  { unfold B. rewrite those_and, <- Hq. unfold alive_after, those. apply list_filter_iff. intros i.
    unfold gone. rewrite negb_true_iff, bool_decide_eq_false. done. }
  split; try congruence.
  - exists B. split; [done|]. by rewrite F1.
  - rewrite Hs2, Eq. simpl. case_decide as Hd; symmetry.
    + by apply bool_decide_true, those_order_nil.
    + apply bool_decide_false. by rewrite those_order_nil.
  - rewrite F4, F6; [done|]. intros i Hi. by apply Hne.
  - intros i Hi. rewrite F4. by apply Hne.
Qed.

Lemma killed_ok sg q out s :
  stands listenfd sigfd q out s -> (signo sg = SIGTERM \/ signo sg = SIGINT) ->
  wp (parent_signal sg) (fun _ => stands listenfd sigfd q
    (out ++ ((fun i => Kill (pid i)) <$> filter (.∈ q) (seq 0 n)))) s.
Proof.
  intros [(A & Hh & Hq) Hc Hst Ho Hl Hs He Hne] Hsg. unfold parent_signal. wp_step. apply wp_pget.
  rewrite (proj2 (Z.eqb_neq (signo sg) SIGCHLD)) by (destruct Hsg as [-> | ->]; done).
  rewrite (proj2 (orb_true_iff _ _)) by (destruct Hsg as [-> | ->]; [by left|by right]).
  rewrite (h_n _ _ Hh). eapply wp_mono; [by apply (kill_all_ok A)|]. intros u s1 ->.
  assert (E : those A (seq 0 n) = filter (.∈ q) (seq 0 n)).
  { unfold those. apply filter_ext_in. intros i Hi. rewrite Hq. unfold those. rewrite list_elem_of_filter, elem_of_order by done.
    apply elem_of_seq in Hi. split; [|by intros [? _]]. intros ?. split; [done|lia]. }
  split; simpl; try done; [exists A; by split; [destruct Hh|]|congruence].
Qed.

Lemma signals_ok sgs : forall q out s, stands listenfd sigfd q out s ->
  wp (parent_signals sgs) (fun _ => let '(q', out') := turn_signals n pid q sgs in
    stands listenfd sigfd q' (out ++ out')) s.
Proof.
  induction sgs as [|sg sgs IH]; intros q out s Hs; cbn [parent_signals turn_signals].
  { apply wp_ret. by rewrite app_nil_r. }
  wp_step. destruct (Z.eqb_spec (signo sg) SIGCHLD) as [E|E1].
  { eapply wp_mono; [by apply reaped_ok|]. intros u s1. apply IH. }
  destruct (Z.eqb_spec (signo sg) SIGTERM) as [E|E2]; [|destruct (Z.eqb_spec (signo sg) SIGINT) as [E|E3]]; simpl.
  1,2: eapply wp_mono; [apply killed_ok; by auto|]; intros u s1 H1;
    (eapply wp_mono; [apply (IH _ _ _ H1)|]); intros u' s2; destruct (turn_signals n pid q sgs) as [q' out'];
    by rewrite app_assoc.
  unfold parent_signal. wp_step. apply wp_pget.
  rewrite (proj2 (Z.eqb_neq _ _) E1), (proj2 (Z.eqb_neq _ _) E2), (proj2 (Z.eqb_neq _ _) E3).
  apply wp_ret. by apply IH.
Qed.

(** A connection goes to the first child of the queue. *)
Lemma new_conn_ok q out s :
  stands listenfd sigfd q out s ->
  wp new_conn (fun leave s' => match q with
    | [] => leave = true /\ stands listenfd sigfd [] out s'
    | i :: rest => leave = false /\ stands listenfd sigfd (rest ++ [i]) (out ++ [Notify (chan i)]) s'
    end) s.
Proof.
  intros [(A & Hh & Hq) Hc Hst Ho Hl Hs He Hne]. unfold new_conn. wp_step. apply wp_pget. wp_step.
  rewrite <- (nth_from_0 n (sub_process_counter s) Hc) at 2. rewrite (h_n _ _ Hh).
  eapply wp_mono; [by apply (pick_ok A _ s Hh Hc n)|]. intros i s1 [-> Hi].
  fold (order n (sub_process_counter s)) in Hi. rewrite <- Hq in Hi.
  destruct q as [|i0 rest]; simpl in Hi; subst i.
  - wp_step. eapply wp_sub; [done|done|]. intros p b Hp Hb Hm. rewrite Hm, dead by done.
    assert (HA : A (sub_process_counter s) = false).
    { symmetry in Hq. eapply those_nil; [exact Hq|]. by apply elem_of_order. }
    rewrite HA. simpl. wp_step. apply wp_pmodify, wp_ret. split; [done|].
    split; simpl; try done. exists A. by split; [destruct Hh|].
  - symmetry in Hq. destruct (order_rotate n A _ i0 rest Hc Hq) as (Hi0 & HA & Hrot).
    wp_step. eapply wp_sub; [done|done|]. intros p b Hp Hb Hm. rewrite Hm, dead, HA by done. simpl.
    wp_step. apply wp_pmodify. wp_step. unfold pipe. rewrite Hb. apply wp_ret. wp_step. unfold send_conn.
    wp_step. apply wp_pget. simpl. rewrite decide_True by (by apply (h_open _ _ Hh)).
    apply wp_pmodify, wp_ret. split; [done|]. split; simpl; try done.
    + exists A. rewrite (h_n _ _ Hh). by split; [destruct Hh|].
    + rewrite (h_n _ _ Hh). apply Nat.mod_upper_bound. lia.
    + rewrite Hst. by destruct rest.
    + by rewrite Ho.
Qed.

Lemma events_ok es : forall q out s, stands listenfd sigfd q out s ->
  wp (parent_events es) (fun _ => let '(q', out') := turn_events n pid chan listenfd sigfd q es in
    stands listenfd sigfd q' (out ++ out')) s.
Proof.
  induction es as [|e es IH]; intros q out s Hs; cbn [parent_events turn_events].
  { apply wp_ret. by rewrite app_nil_r. }
  wp_step. apply wp_pget. rewrite (st_listen _ _ _ _ _ Hs), (st_sig _ _ _ _ _ Hs).
  destruct (r_fd e =? listenfd).
  - wp_step. eapply wp_mono; [by apply new_conn_ok|]. intros leave s1 H1. destruct q as [|i rest].
    + destruct H1 as [-> H1]. apply wp_ret. by rewrite app_nil_r.
    + destruct H1 as [-> H1]. eapply wp_mono; [apply (IH _ _ _ H1)|]. intros u s2.
      destruct (turn_events n pid chan listenfd sigfd (rest ++ [i]) es) as [q' out']. by rewrite <- app_assoc.
  - destruct ((r_fd e =? sigfd) && r_in e); [|by apply IH].
    wp_step. eapply wp_mono; [by apply signals_ok|]. intros u s1 H1. cbn beta in H1.
    destruct (turn_signals n pid q (r_signals e)) as [q1 out1].
    eapply wp_mono; [apply (IH _ _ _ H1)|]. intros u' s2 H2. cbn beta in H2.
    destruct (turn_events n pid chan listenfd sigfd q1 es) as [q2 out2]. by rewrite app_assoc.
Qed.

(** When the parent's loop is left or waits: which pipes are still open. *)
Definition settled (q : list nat) (out : list action) s : Prop :=
  sig_pipefd s = sigfd /\ actions s = out /\ forall i, (i < n)%nat -> chan i ∈ open_fds s <-> i ∈ q.

Lemma stands_pipes q out s i :
  stands listenfd sigfd q out s -> (i < n)%nat -> chan i ∈ open_fds s <-> i ∈ q.
Proof.
  intros [(A & Hh & ->) Hc _ _ _ _ _ _] Hi. rewrite (h_open _ _ Hh i Hi). unfold those.
  rewrite list_elem_of_filter, elem_of_order by done. naive_solver.
Qed.

Lemma close_epoll q out s :
  stands listenfd sigfd q out s -> wp (close (m_epollfd s)) (fun _ => settled q out) s.
Proof.
  intros Hs. pose proof (stands_pipes q out s) as Hp. destruct Hs as [HA Hc Hst Ho Hl Hsg He Hne].
  unfold close. wp_step. apply wp_pget. rewrite decide_True by done. apply wp_pmodify.
  split; [done|]. split; [done|]. intros i Hi. simpl. rewrite elem_of_difference, elem_of_singleton, (Hp i); [|done|done].
  split; [by intros [? _]|]. intros ?. split; [done|]. intros E. by apply (Hne i Hi).
Qed.

Lemma loop_runs ws : forall q out s, stands listenfd sigfd q out s ->
  wp (parent_loop ws) (fun ended s' => let '(q', out', b) := turn_loop n pid chan listenfd sigfd q ws in
    ended = b /\ settled q' (out ++ out') s') s.
Proof.
  induction ws as [|w ws IH]; intros q out s Hs; cbn [parent_loop turn_loop]; wp_step; apply wp_pget;
    rewrite (st_stop _ _ _ _ _ Hs).
  - destruct q as [|i q]; simpl.
    + wp_step. eapply wp_mono; [by apply close_epoll|]. intros u s1 H1. apply wp_ret. by rewrite app_nil_r.
    + apply wp_ret. split; [done|]. rewrite app_nil_r. split; [apply Hs|]. split; [apply Hs|]. intros j Hj. by eapply stands_pipes.
  - destruct q as [|i q].
    { simpl. wp_step. eapply wp_mono; [by apply close_epoll|]. intros u s1 H1. apply wp_ret. by rewrite app_nil_r. }
    rewrite bool_decide_false by done. destruct w as [| |es].
    + wp_step. eapply wp_mono; [by apply close_epoll|]. intros u s1 H1. apply wp_ret. by rewrite app_nil_r.
    + by apply IH.
    + wp_step. eapply wp_mono; [by apply events_ok|]. intros u s1 H1. cbn beta in H1.
      destruct (turn_events n pid chan listenfd sigfd (i :: q) es) as [q1 out1].
      eapply wp_mono; [apply (IH _ _ _ H1)|]. intros b s2 H2. cbn beta in H2.
      destruct (turn_loop n pid chan listenfd sigfd q1 ws) as [[q2 out2] b2]. by rewrite app_assoc.
Qed.

End parent.

(** As many connections as there are children, and no signal in between: each
    child is notified once. *)
Lemma turn_fair n pid chan listenfd sigfd q :
  forall done es, Forall (fun e => r_fd e = listenfd) es -> length es = length q ->
  turn_events n pid chan listenfd sigfd (q ++ done) es = (done ++ q, (fun i => Notify (chan i)) <$> q).
Proof.
  induction q as [|i q IH]; intros dn [|e es] Hes Hlen; simpl in *; try done; [by rewrite app_nil_r|].
  apply Forall_cons in Hes as [He Hes]. rewrite He, Z.eqb_refl, <- app_assoc.
  rewrite (IH (dn ++ [i]) es Hes) by lia. by rewrite <- app_assoc.
Qed.

(** ** Construction, and the whole parent *)

Section construction.
Context `{Hos : Os, Hol : !OsLaws}.
Context (n : nat) (Hn : (0 < n)%nat) (Hmax : Z.of_nat n <= MAX_PROCESS_NUMBER).
Context (Hfork : forall i, (i < n)%nat -> 0 < fork i).
Context (Hpair : forall fds, is_Some (socketpair fds)).
Context (Hepoll : forall fds, epoll_create fds <> -1).
Context (listenfd : Z).
Implicit Types (s : pool).

(** The first children are there; [ch] are the parent's ends of their pipes. *)
Record forked (ch : list Z) s : Prop := {
  fk_len : length (m_sub_process s) = n;
  fk_nodup : NoDup ch;
  fk_sub j fd : ch !! j = Some fd -> fd ∈ open_fds s /\
    exists b, m_sub_process s !! j = Some (Process (fork j) (Some (fd, b)));
  fk_rest : m_process_number s = n /\ m_listenfd s = listenfd /\ m_stop s = false /\
    sub_process_counter s = 0%nat /\ actions s = [] /\ m_idx s = -1;
}.

Lemma fork_step a b ch s :
  forked ch s -> socketpair (open_fds s) = Some (a, b) -> (length ch < n)%nat ->
  forked (ch ++ [a]) (set_watched (watched s ∖ {[b]}) (set_fds (({[a; b]} ∪ open_fds s) ∖ {[b]})
    (set_subs (<[length ch := Process (fork (length ch)) (Some (a, b))]> (m_sub_process s)) s))).
Proof.
  intros [Hl Hnd Hs Hr] Hp Hlt. destruct (socketpair_new _ _ _ Hp) as (Ha & Hb & Hab). split; simpl; try done.
  - by rewrite length_insert.
  - apply NoDup_app. split; [done|]. split; [|apply NoDup_singleton].
    intros x Hx ->%list_elem_of_singleton. apply list_elem_of_lookup in Hx as [j Hj].
    by destruct (Hs _ _ Hj) as [? _].
  - intros j fd. rewrite lookup_app_Some. intros [Hj|[Hge Hj]].
    + destruct (Hs _ _ Hj) as [Hin [b' Hb']]. split; [set_solver|]. exists b'.
      rewrite list_lookup_insert_ne; [done|]. apply lookup_lt_Some in Hj. lia.
    + apply list_lookup_singleton_Some in Hj as [Hj ->]. assert (j = length ch) as -> by lia.
      split; [set_solver|]. exists b. apply list_lookup_insert_eq. lia.
Qed.

Lemma fork_loop_ok : forall m ch s, forked ch s -> (length ch + m = n)%nat ->
  wp (fork_loop m (length ch)) (fun _ s' => exists ch', length ch' = n /\ forked ch' s') s.
Proof.
  induction m as [|m IH]; intros ch s Hf Hm; cbn [fork_loop].
  { apply wp_ret. exists ch. split; [lia|done]. }
  wp_step. apply wp_pget. destruct (Hpair (open_fds s)) as [[a b] Hp]. rewrite Hp.
  wp_step. apply wp_pmodify. wp_step. unfold set_sub, sub. wp_step.
  destruct (lookup_lt_is_Some_2 (m_sub_process s) (length ch)) as [p0 Hp0]; [rewrite (fk_len _ _ Hf); lia|].
  eapply wp_intro; [simpl; by rewrite Hp0|]. apply wp_pmodify. simpl. wp_step.
  pose proof (Hfork (length ch) ltac:(lia)) as Hpos. rewrite (proj2 (Z.leb_le _ _)) by lia. apply wp_ret.
  rewrite (proj2 (Z.ltb_lt _ _)) by lia. wp_step. unfold close. wp_step. apply wp_pget. simpl.
  rewrite decide_True by set_solver. apply wp_pmodify.
  pose proof (fork_step a b ch s Hf Hp ltac:(lia)) as Hf'.
  replace (S (length ch)) with (length (ch ++ [a])) by (rewrite length_app; simpl; lia).
  apply IH; [exact Hf'|rewrite length_app; simpl; lia].
Qed.

Lemma order_0 : order n 0 = seq 0 n.
Proof.
  unfold order. rewrite <- (list_fmap_id (seq 0 n)) at 2. apply list_fmap_ext. intros i j Hj.
  apply lookup_seq in Hj as [-> Hj]. unfold nth_from. simpl. by apply Nat.mod_small.
Qed.

Lemma those_all xs : those (fun _ => true) xs = xs.
Proof. unfold those. induction xs as [|x xs IH]; [done|]. by rewrite filter_cons_True, IH. Qed.

Lemma setup_ok ch s :
  forked ch s -> length ch = n ->
  wp (_ ← setup_sig_pipe; s ← get; addfd (m_listenfd s)) (fun _ s' =>
    stands n fork (fun i => default 0 (ch !! i)) listenfd (sig_pipefd s') (seq 0 n) [] s') s.
Proof.
  intros [Hl Hnd Hs (Hn' & Hli & Hst & Hc & Ha & _)] Hlen. wp_step. unfold setup_sig_pipe.
  wp_step. apply wp_pget. wp_step. rewrite (proj2 (Z.eqb_neq _ _) (Hepoll _)). apply wp_ret.
  wp_step. apply wp_pmodify. wp_step. apply wp_pget. simpl.
  destruct (Hpair ({[epoll_create (open_fds s)]} ∪ open_fds s)) as [[a b] Hp]. rewrite Hp.
  wp_step. apply wp_pmodify, wp_pmodify. wp_step. apply wp_pget, wp_pmodify. simpl.
  pose proof (epoll_create_new _ (Hepoll (open_fds s))) as Hnew.
  assert (Hch : forall i, (i < n)%nat -> exists fd, ch !! i = Some fd) by (intros i Hi; apply lookup_lt_is_Some_2; lia).
  split; simpl; try done.
  - exists (fun _ => true). split.
    + split; simpl; try done.
      * intros i p Hi. pose proof (lookup_lt_Some _ _ _ Hi) as Hlt. destruct (Hch i) as [fd Hfd]; [lia|].
        rewrite Hfd. destruct (Hs _ _ Hfd) as [_ [b' Hb']]. simplify_eq. simpl. eauto.
      * intros i Hi. destruct (Hch i Hi) as [fd Hfd]. rewrite Hfd. simpl.
        destruct (Hs _ _ Hfd) as [Hin _]. split; [done|]. intros _. set_solver.
    + by rewrite Hc, order_0, those_all.
  - lia.
  - rewrite Hst, bool_decide_false; [done|]. destruct n; [lia|done].
  - set_solver.
  - intros i Hi E. destruct (Hch i Hi) as [fd Hfd]. rewrite Hfd in E. simpl in E.
    destruct (Hs _ _ Hfd) as [Hin _]. congruence.
Qed.

(** C8: the parent is a queue of children.  From its construction on, whatever
    [epoll_wait], [recv] and [waitpid] return: a new connection is passed to the
    first child of the queue, which goes to its end; a child that has ended leaves
    the queue; a SIGTERM or SIGINT is passed on to every child in it; nothing is
    sent to or closed on a descriptor that is not open.  The parent ends when no
    child is left or [epoll_wait] fails, and of the pipes exactly those of the
    children in the queue are open. *)
Theorem parent_round_robin fds :
  exists s chans, processpool listenfd (Z.of_nat n) fds = Ok s /\ m_idx s = -1 /\ NoDup chans /\ length chans = n /\
  forall ws, exists over s', run_parent ws s = Ok (over, s') /\
    let chan i := default 0 (chans !! i) in
    let '(q, out, b) := turn_loop n fork chan listenfd (sig_pipefd s') (seq 0 n) ws in
    over = b /\ actions s' = out /\ forall i, (i < n)%nat -> chan i ∈ open_fds s' <-> i ∈ q.
Proof.
  assert (Hf0 : forked [] (Pool n (-1) listenfd (-1) false (replicate n new_process) (-1) 0 fds ∅ [])).
  { split; simpl; [apply length_replicate|constructor|done|done]. }
  destruct (wp_inv _ _ _ (fork_loop_ok n [] _ Hf0 eq_refl)) as (u & s & E & ch & Hlen & Hf).
  exists s, ch. unfold processpool.
  rewrite (proj2 (Z.ltb_lt _ _)), (proj2 (Z.leb_le _ _)), Nat2Z.id by lia. simpl in E |- *. rewrite E.
  split; [done|]. split; [apply Hf|]. split; [apply Hf|]. split; [done|]. intros ws.
  destruct (wp_inv _ _ _ (setup_ok ch s Hf Hlen)) as (u1 & s1 & E1 & H1).
  assert (Hchan : forall i j, (i < n)%nat -> (j < n)%nat -> default 0 (ch !! i) = default 0 (ch !! j) -> i = j).
  { intros i j Hi Hj. destruct (lookup_lt_is_Some_2 ch i) as [x Hx]; [lia|].
    destruct (lookup_lt_is_Some_2 ch j) as [y Hy]; [lia|]. rewrite Hx, Hy. simpl. intros ->.
    by eapply NoDup_lookup; [apply Hf|..]. }
  destruct (wp_inv _ _ _ (loop_runs n fork _ Hn Hfork Hchan listenfd (sig_pipefd s1) ws _ _ _ H1))
    as (over & s2 & E2 & H2).
  exists over, s2. split.
  - unfold run_parent. rewrite <- E2. revert E1. unfold mbind, M_bind.
    destruct (setup_sig_pipe s) as [[v s0]| |]; [|done|done]. simpl. unfold addfd, modify. intros [= <- <-]. done.
  - cbn zeta. destruct (turn_loop _ _ _ _ _ _ _) as [[q out] b] eqn:Et in H2.
    destruct H2 as (-> & Hsig & Ho & Hop). rewrite Hsig, Et. done.
Qed.

End construction.

(** ** Witness *)

Section example.

(** Descriptors from the highest open one on, children 100 and up. *)
Definition above (fds : gset Z) : Z := 1 + set_fold Z.max 0 fds.

#[local] Instance ex_os : Os := {|
  socketpair fds := Some (above fds, above fds + 1);
  epoll_create fds := above fds;
  fork i := 100 + Z.of_nat i;
|}.

Lemma above_le (fds : gset Z) x : x ∈ fds -> x < above fds.
Proof.
  unfold above. intros Hx. cut (x <= set_fold Z.max 0 fds); [lia|]. revert x Hx.
  apply (set_fold_ind_L (fun r X => forall x, x ∈ X -> x <= r)); [set_solver|].
  intros y X r Hy IH x [->%elem_of_singleton|Hx]%elem_of_union; [lia|]. pose proof (IH x Hx). lia.
Qed.

Lemma above_pos (fds : gset Z) : 0 < above fds.
Proof.
  unfold above. cut (0 <= set_fold Z.max 0 fds); [lia|].
  apply (set_fold_ind_L (fun r (X : gset Z) => 0 <= r)); [done|]. intros; lia.
Qed.

#[local] Instance ex_os_laws : OsLaws.
Proof.
  split; simpl.
  - intros fds a b [= <- <-]. split_and!; [| |lia]; intros Hin%above_le; lia.
  - intros fds _ Hin%above_le. lia.
Qed.

(** Two children; three connections, then the first child ends, a connection,
    SIGTERM. *)
Definition ex_waits : list wait :=
  [WaitReady [Ready 3 true []; Ready 3 true []; Ready 3 true []];
   WaitReady [Ready 7 true [Signal SIGCHLD [100; 0]]; Ready 3 true [];
              Ready 7 true [Signal SIGTERM []]]].

Lemma parent_round_robin_witness :
  exists s chans, processpool 3 2 {[3]} = Ok s /\ m_idx s = -1 /\ NoDup chans /\ length chans = 2%nat /\
  forall ws, exists over s', run_parent ws s = Ok (over, s') /\
    let chan i := default 0 (chans !! i) in
    let '(q, out, b) := turn_loop 2 fork chan 3 (sig_pipefd s') [0%nat; 1%nat] ws in
    over = b /\ actions s' = out /\ forall i, (i < 2)%nat -> chan i ∈ open_fds s' <-> i ∈ q.
Proof.
  apply (parent_round_robin 2); [lia|done| | |].
  - intros i _. simpl. lia.
  - intros fds. by eexists.
  - intros fds. simpl. pose proof (above_pos fds). lia.
Defined.

Lemma ex_parent : exists s s', processpool 3 2 {[3]} = Ok s /\ run_parent ex_waits s = Ok (false, s') /\
  actions s' = [Notify 4; Notify 5; Notify 4; Notify 5; Kill 101].
Proof. eexists. eexists. split; [vm_compute; reflexivity|]. split; vm_compute; reflexivity. Qed.

End example.
