(* ===== verification/ProcessChild.v ===== *)
(** * The children of the process pool: [src/lib/processpool/processpool.h]

    [run_child] accepts a connection when the parent says so and hands every
    readable descriptor to the handler of its connection, an element of the array
    [users] that the descriptor indexes.  The class of the handlers is a
    parameter, as it is in the source. *)

From stdpp Require Import prelude gmap list.
From Stdlib Require Import ZArith Lia.
From S2P Require Import Prelude ProcessPool.

(** The class [T] of the handlers; [addr] is the address of a client.  The
    [process] of a handler also says whether it called [removefd]. *)
Class Handler := {
  addr : Type;
  user : Type;
  user_new : user;
  user_init : user -> Z -> addr -> user;
  user_process : user -> user * bool;
}.

(** The calls of the handlers of a child. *)
Inductive call := Init (fd : Z) | Served (fd : Z) | Removed (fd : Z).

Section child.
Context `{Os, Handler}.

(** [users] holds the elements of the array that are not as constructed. *)
Record child := Child { c_pool : pool; users : gmap Z user; calls : list call }.

Definition set_pool v s := Child v (users s) (calls s).

Definition on_pool {A} (c : M pool A) : M child A := fun s =>
  match c (c_pool s) with
  | Ok (a, p) => Ok (a, set_pool p s)
  | Err f => Err f
  | NoFuel => NoFuel
  end.

(** [users[fd]] *)
Definition get_user (fd : Z) : M child user := fun s =>
  if (0 <=? fd) && (fd <? USER_PER_PROCESS) then Ok (default user_new (users s !! fd), s) else Err OutOfBounds.

Definition set_user (fd : Z) (u : user) (c : call) : M child unit :=
  modify (fun s => Child (c_pool s) (<[fd := u]> (users s)) (calls s ++ [c])).

(** A ready descriptor; what [recv] returns for the parent's pipe and whether
    [errno] is then EAGAIN, what it reads from the signal pipe, and the
    connection [accept] returns. *)
Record cready := CReady {
  c_fd : Z; c_in : bool; c_ret : Z; c_again : bool; c_signals : list Z; c_accept : option (Z * addr) }.

Definition removefd (fd : Z) : M child unit :=
  _ ← modify (fun s => Child (c_pool s) (users s) (calls s ++ [Removed fd]));
  _ ← on_pool (modify (fun s => set_watched (watched s ∖ {[fd]}) s));
  on_pool (close fd).

Definition child_conn (e : cready) : M child unit :=
  if ((c_ret e <? 0) && negb (c_again e)) || (c_ret e =? 0) then mret tt
  else
    match c_accept e with
    | None => mret tt
    | Some (connfd, a) =>
        _ ← on_pool (modify (fun s => set_fds ({[connfd]} ∪ open_fds s) s));
        _ ← on_pool (addfd connfd);
        u ← get_user connfd;
        set_user connfd (user_init u connfd a) (Init connfd)
    end.

(** [waitpid] has nothing to wait for. *)
Fixpoint child_signals (sgs : list Z) : M child unit :=
  match sgs with
  | [] => mret tt
  | sg :: sgs =>
      _ ← (if (sg =? SIGTERM) || (sg =? SIGINT) then on_pool (modify (set_stop true)) else mret tt);
      child_signals sgs
  end.

Definition child_process (fd : Z) : M child unit :=
  u ← get_user fd;
  let '(u, remove) := user_process u in
  _ ← set_user fd u (Served fd);
  if remove : bool then removefd fd else mret tt.

Definition child_event (pipefd : Z) (e : cready) : M child unit :=
  s ← get;
  if (c_fd e =? pipefd) && c_in e then child_conn e
  else if (c_fd e =? sig_pipefd (c_pool s)) && c_in e then child_signals (c_signals e)
  else if c_in e then child_process (c_fd e)
  else mret tt.

Fixpoint child_events (pipefd : Z) (es : list cready) : M child unit :=
  match es with
  | [] => mret tt
  | e :: es => _ ← child_event pipefd e; child_events pipefd es
  end.

(** [None]: [epoll_wait] failed; an interrupted call is a call without events. *)
Fixpoint child_loop (pipefd : Z) (ws : list (option (list cready))) : M child bool :=
  s ← get;
  if m_stop (c_pool s) then mret true
  else
    match ws with
    | [] => mret false
    | None :: _ => mret true
    | Some es :: ws => _ ← child_events pipefd es; child_loop pipefd ws
    end.

(** The child watches the signals and its end of the pipe to the parent. *)
Definition child_start : M child Z :=
  _ ← on_pool setup_sig_pipe;
  s ← get;
  p ← on_pool (sub (Z.to_nat (m_idx (c_pool s))));
  '(_, pipefd) ← on_pool (pipe p);
  _ ← on_pool (addfd pipefd);
  mret pipefd.

(** [false]: the process is still in [epoll_wait]. *)
Definition run_child (ws : list (option (list cready))) : M child bool :=
  pipefd ← child_start;
  over ← child_loop pipefd ws;
  if over : bool then
    _ ← on_pool (close pipefd);
    s ← get;
    _ ← on_pool (close (m_epollfd (c_pool s)));
    mret true
  else mret false.

(** [run]: the parent has the index -1. *)
Definition run_pool (ws : list wait) (cs : list (option (list cready))) : M child bool :=
  s ← get;
  if m_idx (c_pool s) =? -1 then on_pool (run_parent ws) else run_child cs.

End child.

(** ** What the handlers of a child see *)

Section child_spec.
Context `{Hos : Os, Hol : !OsLaws, Hha : Handler}.
Implicit Types (s : child) (e : cready).

(** The connections that are open after some calls; [None]: a connection was
    served that is not, or was opened twice. *)
Fixpoint conns (cs : list call) (fds : gset Z) : option (gset Z) :=
  match cs with
  | [] => Some fds
  | Init fd :: cs => if decide (fd ∈ fds) then None else conns cs ({[fd]} ∪ fds)
  | Served fd :: cs => if decide (fd ∈ fds) then conns cs fds else None
  | Removed fd :: cs => if decide (fd ∈ fds) then conns cs (fds ∖ {[fd]}) else None
  end.

(** What the kernel reports: a watched descriptor, and a new one for a connection,
    within the size of the table. *)
Definition possible s e : Prop :=
  (c_in e = true -> c_fd e ∈ watched (c_pool s)) /\
  forall fd a, c_accept e = Some (fd, a) -> (fd ∉ open_fds (c_pool s)) /\ 0 <= fd < USER_PER_PROCESS.

Fixpoint all_possible (pipefd : Z) s (es : list cready) : Prop :=
  match es with
  | [] => True
  | e :: es => possible s e /\ forall u s', child_event pipefd e s = Ok (u, s') -> all_possible pipefd s' es
  end.

Fixpoint loop_possible (pipefd : Z) s (ws : list (option (list cready))) : Prop :=
  match ws with
  | [] | None :: _ => True
  | Some es :: ws => all_possible pipefd s es /\
      forall u s', child_events pipefd es s = Ok (u, s') -> loop_possible pipefd s' ws
  end.

(** What is watched is the pipe, the signal pipe and the open connections. *)
Record cinv (pipefd : Z) s : Prop := {
  ci_conns : exists cs, conns (calls s) ∅ = Some cs /\
    watched (c_pool s) = {[pipefd; sig_pipefd (c_pool s)]} ∪ cs /\
    (pipefd ∉ cs) /\ (sig_pipefd (c_pool s) ∉ cs) /\ forall fd, fd ∈ cs -> 0 <= fd < USER_PER_PROCESS;
  ci_open : watched (c_pool s) ⊆ open_fds (c_pool s);
  ci_epoll : m_epollfd (c_pool s) ∈ open_fds (c_pool s) /\ (m_epollfd (c_pool s) ∉ watched (c_pool s));
  ci_bad : forall fd, BadFd fd ∉ actions (c_pool s);
}.

Lemma conns_app cs1 cs2 fds : conns (cs1 ++ cs2) fds = conns cs1 fds ≫= conns cs2.
Proof. revert fds. induction cs1 as [|[fd|fd|fd] cs1 IH]; intros fds; simpl; [done|case_decide; done..]. Qed.

Lemma wp_cget (Q : child -> child -> Prop) s : Q s s -> wp get Q s.
Proof. done. Qed.

Lemma wp_cmodify f (Q : unit -> child -> Prop) s : Q tt (f s) -> wp (modify f) Q s.
Proof. done. Qed.

Lemma wp_on_pool {A} (c : M pool A) (Q : A -> child -> Prop) s :
  wp c (fun a p => Q a (set_pool p s)) (c_pool s) -> wp (on_pool c) Q s.
Proof. unfold wp, on_pool. by destruct (c (c_pool s)) as [[a p]| |]. Qed.

Lemma wp_get_user fd Q s :
  0 <= fd < USER_PER_PROCESS -> Q (default user_new (users s !! fd)) s -> wp (get_user fd) Q s.
Proof.
  intros Hfd HQ. unfold wp, get_user.
  by rewrite (proj2 (Z.leb_le 0 fd)), (proj2 (Z.ltb_lt fd USER_PER_PROCESS)) by lia.
Qed.

Lemma conn_ok pipefd s e : cinv pipefd s -> possible s e -> wp (child_conn e) (fun _ => cinv pipefd) s.
Proof.
  intros Hi [_ Hacc]. unfold child_conn.
  destruct (_ || _); [by apply wp_ret|]. destruct (c_accept e) as [[fd a]|]; [|by apply wp_ret].
  destruct Hi as [(cs & Hcs & Hw & Hp & Hs & Hr) Ho [He Hew] Hb].
  destruct (Hacc fd a eq_refl) as [Hnew Hfd]. wp_step. apply wp_on_pool, wp_pmodify.
  wp_step. apply wp_on_pool, wp_pmodify. wp_step. apply wp_get_user; [done|]. apply wp_cmodify.
  assert (Hncs : fd ∉ cs) by set_solver.
  split; simpl.
  - exists ({[fd]} ∪ cs). rewrite conns_app, Hcs. simpl. rewrite decide_False by done.
    split; [done|]. split; [set_solver|]. split; [set_solver|]. split; [set_solver|].
    intros x [->%elem_of_singleton|Hx]%elem_of_union; [done|by apply Hr].
  - set_solver.
  - set_solver.
  - done.
Qed.

Lemma process_ok pipefd fd s :
  cinv pipefd s -> fd ∈ watched (c_pool s) -> fd <> pipefd -> fd <> sig_pipefd (c_pool s) ->
  wp (child_process fd) (fun _ => cinv pipefd) s.
Proof.
  intros [(cs & Hcs & Hw & Hp & Hs & Hr) Ho [He Hew] Hb] Hfw Hnp Hns. unfold child_process.
  assert (Hfd : fd ∈ cs) by set_solver.
  wp_step. apply wp_get_user; [by apply Hr|]. destruct (user_process _) as [u r]. wp_step. apply wp_cmodify.
  assert (Hcs' : conns (calls s ++ [Served fd]) ∅ = Some cs)
    by (rewrite conns_app, Hcs; simpl; by rewrite decide_True).
  destruct r.
  - unfold removefd. wp_step. apply wp_cmodify. wp_step. apply wp_on_pool, wp_pmodify. apply wp_on_pool.
    unfold close. wp_step. apply wp_pget. simpl. rewrite decide_True by set_solver. apply wp_pmodify.
    split; simpl.
    + exists (cs ∖ {[fd]}). rewrite conns_app, Hcs'. simpl. rewrite decide_True by done.
      split; [done|]. split; [set_solver|]. split; [set_solver|]. split; [set_solver|].
      intros x [Hx _]%elem_of_difference. by apply Hr.
    + set_solver.
    + set_solver.
    + done.
  - apply wp_ret. split; simpl; [by exists cs|done|done|done].
Qed.

Lemma child_signals_ok pipefd sgs : forall s, cinv pipefd s -> wp (child_signals sgs) (fun _ => cinv pipefd) s.
Proof.
  induction sgs as [|sg sgs IH]; intros s Hs; simpl; [by apply wp_ret|]. wp_step.
  destruct (_ || _); [|apply wp_ret; by apply IH]. apply wp_on_pool, wp_pmodify. apply IH. by destruct Hs.
Qed.

Lemma child_event_ok pipefd e s : cinv pipefd s -> possible s e -> wp (child_event pipefd e) (fun _ => cinv pipefd) s.
Proof.
  intros Hs Hp. unfold child_event. wp_step. apply wp_cget.
  destruct (Z.eqb_spec (c_fd e) pipefd), (Z.eqb_spec (c_fd e) (sig_pipefd (c_pool s))), (c_in e) eqn:Hin; simpl;
    try (by apply wp_ret); try (by apply conn_ok); try (by apply child_signals_ok).
  apply process_ok; [done| |done|done]. by apply Hp.
Qed.

Lemma child_events_ok pipefd es : forall s, cinv pipefd s -> all_possible pipefd s es ->
  wp (child_events pipefd es) (fun _ => cinv pipefd) s.
Proof.
  induction es as [|e es IH]; intros s Hs Hp; simpl; [by apply wp_ret|]. destruct Hp as [Hp Hrest].
  wp_step. destruct (wp_inv _ _ _ (child_event_ok pipefd e s Hs Hp)) as (u & s1 & E & Hs1).
  eapply wp_intro; [exact E|]. apply IH; [done|]. by eapply Hrest.
Qed.

Lemma child_loop_ok pipefd ws : forall s, cinv pipefd s -> loop_possible pipefd s ws ->
  wp (child_loop pipefd ws) (fun _ => cinv pipefd) s.
Proof.
  induction ws as [|[es|] ws IH]; intros s Hs Hp; simpl; wp_step; apply wp_cget;
    (destruct (m_stop (c_pool s)); [by apply wp_ret|]); [by apply wp_ret| |by apply wp_ret].
  destruct Hp as [Hp Hrest]. wp_step.
  destruct (wp_inv _ _ _ (child_events_ok pipefd es s Hs Hp)) as (u & s1 & E & Hs1).
  eapply wp_intro; [exact E|]. apply IH; [done|]. by eapply Hrest.
Qed.

(** A SIGTERM or SIGINT ends the loop after the events that were reported with it. *)
Lemma child_signals_stop sgs : forall s, SIGTERM ∈ sgs \/ SIGINT ∈ sgs ->
  wp (child_signals sgs) (fun _ s' => m_stop (c_pool s') = true) s.
Proof.
  assert (Hst : forall xs s, m_stop (c_pool s) = true ->
    wp (child_signals xs) (fun _ s' => m_stop (c_pool s') = true) s).
  { induction xs as [|x xs IH]; intros s Hs; simpl; [by apply wp_ret|]. wp_step.
    destruct (_ || _); [apply wp_on_pool, wp_pmodify|apply wp_ret]; by apply IH. }
  induction sgs as [|sg sgs IH]; intros s Hin; simpl; [set_solver|]. wp_step.
  destruct (Z.eqb_spec sg SIGTERM) as [E1|H1], (Z.eqb_spec sg SIGINT) as [E2|H2]; simpl;
    try (apply wp_on_pool, wp_pmodify; by apply Hst).
  apply wp_ret. apply IH. set_solver.
Qed.

(** A child right after its construction. *)
Record born (pipefd : Z) s : Prop := {
  b_pipe : exists p a, m_sub_process (c_pool s) !! Z.to_nat (m_idx (c_pool s)) = Some p /\
    m_pipefd p = Some (a, pipefd);
  b_open : pipefd ∈ open_fds (c_pool s);
  b_new : watched (c_pool s) = ∅ /\ actions (c_pool s) = [] /\ calls s = [];
}.

Lemma start_ok pipefd s :
  (forall fds, is_Some (socketpair fds)) -> (forall fds, epoll_create fds <> -1) -> born pipefd s ->
  wp child_start (fun fd s' => fd = pipefd /\ cinv pipefd s') s.
Proof.
  intros Hpair Hepoll [(p & x & Hsub & Hpipe) Ho (Hw & Ha & Hc)]. unfold child_start, setup_sig_pipe.
  wp_step. apply wp_on_pool.
  wp_step. apply wp_pget. wp_step. rewrite (proj2 (Z.eqb_neq _ _) (Hepoll _)). apply wp_ret.
  wp_step. apply wp_pmodify. wp_step. apply wp_pget. simpl.
  pose proof (epoll_create_new _ (Hepoll (open_fds (c_pool s)))) as Hnew.
  set (ep := epoll_create (open_fds (c_pool s))) in *.
  destruct (Hpair ({[ep]} ∪ open_fds (c_pool s))) as [[a b] Hp]. rewrite Hp.
  destruct (socketpair_new _ _ _ Hp) as (Hna & Hnb & Hab).
  wp_step. apply wp_pmodify, wp_pmodify. wp_step. apply wp_cget. wp_step. apply wp_on_pool. unfold sub.
  eapply wp_intro; [simpl; by rewrite Hsub|]. wp_step. apply wp_on_pool. unfold pipe. rewrite Hpipe. apply wp_ret.
  wp_step. apply wp_on_pool, wp_pmodify. apply wp_ret. split; [done|]. split; simpl.
  - exists ∅. rewrite Hc, Hw. simpl. split; [done|]. split; [set_solver|]. split; [set_solver|]. split; [set_solver|].
    intros fd Hfd. set_solver.
  - rewrite Hw. set_solver.
  - rewrite Hw. set_solver.
  - rewrite Ha. intros fd Hfd. by apply elem_of_nil in Hfd.
Qed.

(** C30: a child whose kernel reports what it watches, and whose connections have
    descriptors within its table, never faults and never uses a descriptor that
    is not open; its handlers are called in order: a connection is initialised
    when it is accepted, served only between that and its removal, and accepted
    again only after it. *)
Theorem child_serves pipefd ws s :
  (forall fds, is_Some (socketpair fds)) -> (forall fds, epoll_create fds <> -1) -> born pipefd s ->
  (forall s1, child_start s = Ok (pipefd, s1) -> loop_possible pipefd s1 ws) ->
  wp (run_child ws) (fun _ s' => is_Some (conns (calls s') ∅) /\ forall fd, BadFd fd ∉ actions (c_pool s')) s.
Proof.
  intros Hpair Hepoll Hborn Hpos.
  destruct (wp_inv _ _ _ (start_ok pipefd s Hpair Hepoll Hborn)) as (fd & s1 & E & -> & Hi).
  unfold run_child. wp_step. eapply wp_intro; [exact E|]. wp_step.
  eapply wp_mono; [apply child_loop_ok; [done|by apply Hpos]|]. intros over s2 [(cs & Hcs & Hw & _) Ho [He Hew] Hb].
  destruct over; [|apply wp_ret; eauto]. wp_step. apply wp_on_pool. unfold close. wp_step. apply wp_pget.
  rewrite decide_True by set_solver. apply wp_pmodify. wp_step. apply wp_cget. wp_step. apply wp_on_pool.
  wp_step. apply wp_pget. simpl. rewrite decide_True by set_solver. apply wp_pmodify, wp_ret. simpl. eauto.
Qed.

End child_spec.

Section child_example.

(** A handler that counts the requests of a connection, and ends it with the
    second. *)
#[local] Instance ex_handler : Handler := {|
  addr := unit; user := nat; user_new := 0%nat;
  user_init _ _ _ := 0%nat;
  user_process u := (S u, bool_decide (u = 1%nat));
|}.
#[local] Existing Instance ex_os.
#[local] Existing Instance ex_os_laws.

(** The child 0: the pipe is 5, then epoll 6, the signal pipe 7 and 8. *)
Definition ex_child : child :=
  Child (Pool 2 0 3 (-1) false [Process 0 (Some (4, 5)); new_process] (-1) 0 {[3; 5]} ∅ []) ∅ [].

(** A connection on 9, two requests, SIGTERM. *)
Definition ex_child_waits : list (option (list cready)) :=
  [Some [CReady 5 true 4 false [] (Some (9, tt))]; Some [CReady 9 true 0 false [] None];
   Some [CReady 9 true 0 false [] None; CReady 7 true 0 false [SIGTERM] None]].

Lemma all_possible_step pipefd s e es u s' :
  possible s e -> child_event pipefd e s = Ok (u, s') -> all_possible pipefd s' es -> all_possible pipefd s (e :: es).
Proof. intros Hp E Hr. split; [done|]. intros u' s'' E'. rewrite E in E'. by injection E' as _ <-. Qed.

Lemma loop_possible_step pipefd s es ws u s' :
  all_possible pipefd s es -> child_events pipefd es s = Ok (u, s') -> loop_possible pipefd s' ws ->
  loop_possible pipefd s (Some es :: ws).
Proof. intros Hp E Hr. split; [done|]. intros u' s'' E'. rewrite E in E'. by injection E' as _ <-. Qed.

Ltac ex_possible :=
  split; [intros _; apply (bool_decide_unpack _); vm_compute; reflexivity|];
  simpl; intros ? ? E; simplify_eq;
  (split; [apply (bool_decide_unpack _); vm_compute; reflexivity|unfold USER_PER_PROCESS; lia]).

Lemma child_serves_witness :
  wp (run_child ex_child_waits)
    (fun _ s' => is_Some (conns (calls s') ∅) /\ forall fd, BadFd fd ∉ actions (c_pool s')) ex_child.
Proof.
  apply (child_serves 5).
  - intros fds. by eexists.
  - intros fds. simpl. pose proof (above_pos fds). lia.
  - split; [by eexists _, _|set_solver|done].
  - intros s1 E. vm_compute in E. injection E as <-.
    repeat (eapply loop_possible_step;
      [repeat (eapply all_possible_step; [ex_possible|vm_compute; reflexivity|]); exact I|vm_compute; reflexivity|]).
    exact I.
Defined.

End child_example.
