(* ===== verification/Listen.v ===== *)
(** * How the servers set up their listening sockets

    The start of [libevent/lowlevel_libevent_server.c], [libevent/server_echo.c],
    [pthread/chat_server.c], [epoll/epollserver.cpp], [epoll/diff_LT_ET.c] and
    [epoll/test_epolloneshot.c], up to the loop that serves.  What the calls answer is a
    parameter; a call on a descriptor that is not open fails. *)

From stdpp Require Import prelude gmap list.
From Stdlib Require Import ZArith Lia.
From S2P Require Import Prelude Text.

(** ** Sockets *)

(** The address and the port, the length of the queue of [listen], two options. *)
Record sock := Sock { bound : option (Z * Z); backlog : option Z; nonblocking : bool; reuse : bool }.
Abbreviation net := (gmap Z sock).

(** What the calls answer, each of them made at most once. *)
Record answers := Answers {
  a_socket : Z;                      (** a descriptor, or a negative number *)
  a_bind : bool;
  a_listen : bool;
  a_base : bool;                     (** [event_base_new] *)
  a_epoll : Z;                       (** [epoll_create] *)
  a_fcntl : bool;
  a_thread : bool;                   (** [pthread_create] *)
}.

Section programs.
Context (a : answers).
Context (inet : list Z -> option Z).   (** an address in dots; [None] when it is none *)

Definition socket : M net Z :=
  if a_socket a <? 0 then mret (-1)
  else _ ← modify (<[a_socket a := Sock None None false false]>); mret (a_socket a).

(** A call that changes the socket [fd], if it is open and the call does not fail. *)
Definition on_sock (fd : Z) (ok : bool) (f : sock -> sock) : M net Z :=
  s ← get;
  match s !! fd with
  | Some k => if ok then _ ← put (<[fd := f k]> s); mret 0 else mret (-1)
  | None => mret (-1)
  end.

Definition bind (fd addr port : Z) : M net Z :=
  on_sock fd (a_bind a) (fun k => Sock (Some (addr, port)) (backlog k) (nonblocking k) (reuse k)).
Definition listen (fd n : Z) : M net Z :=
  on_sock fd (a_listen a) (fun k => Sock (bound k) (Some n) (nonblocking k) (reuse k)).
Definition make_nonblocking (fd : Z) : M net Z :=
  on_sock fd true (fun k => Sock (bound k) (backlog k) true (reuse k)).
Definition make_reuseable (fd : Z) : M net Z :=
  on_sock fd true (fun k => Sock (bound k) (backlog k) (nonblocking k) true).

(** The 16 bits [htons] takes. *)
Definition htons (port : Z) : Z := port mod 2 ^ 16.

Definition INADDR_ANY : Z := 0.
Definition INADDR_NONE : Z := 2 ^ 32 - 1.
Definition LOCALHOST : Z := 127 * 2 ^ 24 + 1.

(** The program serves on [fd], or has ended. *)
Inductive setup := Serves (fd : Z) | Ends (status : Z).

(** ** The programs *)

(** [run] and [main] of lowlevel_libevent_server.c *)
Definition line_server_run : M net setup :=
  if a_base a then
    listener ← socket;
    _ ← make_nonblocking listener;
    r ← bind listener INADDR_ANY (htons 8021);
    if r <? 0 then mret (Ends 0)
    else r ← listen listener 16; if r <? 0 then mret (Ends 0) else mret (Serves listener)
  else mret (Ends 0).

Definition LISTEN_PORT : Z := 8021.
Definition LISTEN_BACKLOG : Z := 32.

(** [main] of server_echo.c; [if (bind(..) << 0)] *)
Definition echo_server_main : M net setup :=
  listener ← socket;
  if listener <? 0 then mret (Ends 1)
  else
    _ ← make_reuseable listener;
    r ← bind listener LOCALHOST (htons LISTEN_PORT);
    if negb (Z.shiftl r 0 =? 0) then mret (Ends 1)
    else
      r ← listen listener LISTEN_BACKLOG;
      if r <? 0 then mret (Ends 1)
      else
        _ ← make_nonblocking listener;
        if a_base a then mret (Serves listener) else mret (Ends 1).

(** [main] of chat_server.c; [error_handling] exits with 1. *)
Definition chat_server_main (argv : list (list Z)) : M net setup :=
  match argv with
  | [port] =>
      serv_sock ← socket;
      port ← atoi port;
      r ← bind serv_sock INADDR_ANY (htons port);
      if r =? -1 then mret (Ends 1)
      else r ← listen serv_sock 5; if r =? -1 then mret (Ends 1) else mret (Serves serv_sock)
  | _ => mret (Ends 1)
  end.

(** [InitServer] of epollserver.cpp; [None]: the end of the function is reached without a
    [return]. *)
Definition InitServer (pIp : list Z) (iPort : Z) : M net (option bool) :=
  if (0 <=? a_epoll a) && a_fcntl a then
    m_isock ← socket;
    if m_isock <? 0 then mret (Some false)
    else
      _ ← make_reuseable m_isock;
      r ← bind m_isock (default INADDR_NONE (inet pIp)) (htons iPort);
      if negb (r =? 0) then mret (Some false)
      else
        r ← listen m_isock 20;
        if r <? 0 then mret (Some false)
        else mret (if a_thread a then None else Some false)
  else mret (Some false).

(** [main] of diff_LT_ET.c and of test_epolloneshot.c, up to [addfd]; [address] is cleared
    first, and the result of [inet_pton] is not tested. *)
Definition epoll_main (argv : list (list Z)) : M net setup :=
  match argv with
  | ip :: port :: _ =>
      port ← atoi port;
      listenfd ← socket;
      _ ← assert (0 <=? listenfd);
      ret ← bind listenfd (default INADDR_ANY (inet ip)) (htons port);
      _ ← assert (negb (ret =? -1));
      ret ← listen listenfd 5;
      _ ← assert (negb (ret =? -1));
      _ ← assert (negb (a_epoll a =? -1));
      mret (Serves listenfd)
  | _ => mret (Ends 1)
  end.

(** ** What they serve on *)

Definition opens : bool := (0 <=? a_socket a) && a_bind a && a_listen a.

Definition listening (addr port n : Z) (nb re : bool) : net := {[a_socket a := Sock (Some (addr, port)) (Some n) nb re]}.

Ltac run :=
  unfold socket, bind, listen, make_nonblocking, make_reuseable, on_sock, modify, get, put, mbind, M_bind, mret, M_ret;
  repeat (first [rewrite lookup_empty | rewrite lookup_insert_eq | rewrite insert_insert_eq | progress simpl]).

Ltac socket_cases :=
  unfold socket at 1; destruct (Z.ltb_spec (a_socket a) 0) as [Hs|Hs];
  [rewrite (proj2 (Z.leb_gt _ _)) by lia|rewrite (proj2 (Z.leb_le _ _)) by lia].

Ltac call_cases :=
  run; repeat (match goal with |- context [if ?b then _ else _] => destruct b eqn:? end; run); rewrite ?andb_false_r, ?andb_true_r; try by eexists.

(** lowlevel_libevent_server.c: all addresses, port 8021; the program ends with status 0
    also when a call fails. *)
Lemma line_server_listens :
  exists s, line_server_run ∅ = Ok (if opens && a_base a then Serves (a_socket a) else Ends 0, s) /\
    (opens && a_base a = true -> s = listening INADDR_ANY 8021 16 true false).
Proof.
  unfold line_server_run, opens, listening. destruct (a_base a); [|rewrite andb_false_r; by eexists]. socket_cases; call_cases.
Qed.

(** server_echo.c: the local address; [<< 0] is as good as [< 0]. *)
Lemma echo_server_listens :
  exists s, echo_server_main ∅ = Ok (if opens && a_base a then Serves (a_socket a) else Ends 1, s) /\
    (opens && a_base a = true -> s = listening LOCALHOST 8021 32 true true).
Proof.
  unfold echo_server_main, opens, listening. socket_cases; run; [by eexists|]. rewrite (proj2 (Z.ltb_ge _ _)) by lia. call_cases.
Qed.

(** chat_server.c *)
Lemma chat_server_listens port p : atoi_value port = p -> INT_MIN <= p <= INT_MAX ->
  exists s, chat_server_main [port] ∅ = Ok (if opens then Serves (a_socket a) else Ends 1, s) /\
    (opens = true -> s = listening INADDR_ANY (htons p) 5 false false).
Proof.
  intros Hp Hi. unfold chat_server_main, opens, listening, atoi, int_of. rewrite Hp, (proj2 (Z.leb_le _ _)), (proj2 (Z.leb_le _ _)) by lia.
  cbn [andb]. socket_cases; call_cases.
Qed.

(** epollserver.cpp: it never returns true, and no value at all when everything went well. *)
Lemma init_server_listens pIp iPort :
  let ok := (0 <=? a_epoll a) && a_fcntl a && opens && a_thread a in
  exists s, InitServer pIp iPort ∅ = Ok (if ok then None else Some false, s) /\
    (ok = true -> s = listening (default INADDR_NONE (inet pIp)) (htons iPort) 20 false true).
Proof.
  unfold InitServer, opens, listening. destruct ((0 <=? a_epoll a) && a_fcntl a); [|by eexists]. cbn [andb].
  socket_cases; run; [by eexists|]. rewrite (proj2 (Z.ltb_ge _ _)) by lia. call_cases.
Qed.

(** diff_LT_ET.c, test_epolloneshot.c: a failed call ends the program; an address that is
    none is taken for all addresses. *)
Lemma epoll_main_listens ip port p rest : atoi_value port = p -> INT_MIN <= p <= INT_MAX ->
  epoll_main (ip :: port :: rest) ∅ =
    if opens && negb (a_epoll a =? -1) then Ok (Serves (a_socket a), listening (default INADDR_ANY (inet ip)) (htons p) 5 false false)
    else Err AssertFailed.
Proof.
  intros Hp Hi. unfold epoll_main, opens, listening, atoi, int_of. rewrite Hp, (proj2 (Z.leb_le _ _)), (proj2 (Z.leb_le _ _)) by lia.
  cbn [andb]. socket_cases; unfold assert; run; [done|]. rewrite (proj2 (Z.leb_le _ _)) by lia. call_cases.
Qed.

End programs.
