(* ===== verification/LineServer.v ===== *)
(** * A line server on libevent: [src/lib/libevent/lowlevel_libevent_server.c]

    Per connection a buffer of 80 bytes: [do_read] appends what is received and
    asks for [do_write] when a line is complete; [do_write] sends what is complete.
    What [recv], [send], [accept], [malloc] and [event_new] return is a parameter
    of each callback.  Of the debugging output one line matters: [do_read] prints its
    buffer with [%s], which has no NUL but those the client sends.  What that [printf]
    prints is recorded, [None] when it reads on past what [recv] has written; C leaves
    that undefined, and the model goes on behind it as if [printf] had returned. *)

From stdpp Require Import prelude gmap list.
From Stdlib Require Import ZArith Lia ZifyBool.
From S2P Require Import Prelude Text.

Definition MAX_LINE : nat := 80.
Definition NL : Z := 10.

(** ['a'..'m'], ['A'..'M'] and ['n'..'z'], ['N'..'Z'] *)
Definition rot13_char (c : Z) : Z :=
  if ((97 <=? c) && (c <=? 109)) || ((65 <=? c) && (c <=? 77)) then c + 13
  else if ((110 <=? c) && (c <=? 122)) || ((78 <=? c) && (c <=? 90)) then c - 13
  else c.

Lemma rot13_involutive c : rot13_char (rot13_char c) = c.
Proof.
  unfold rot13_char.
  repeat match goal with |- context [if ?b then _ else _] => destruct b eqn:?; try lia end; lia.
Qed.

(** [fd_state]; [write_pending]: [write_event] has been added.  Then the bytes that
    were stored and those that were sent. *)
Record fd_state := FdState {
  buffer : list Z;
  buffer_used : nat;
  n_written : nat;
  write_upto : nat;
  write_pending : bool;
  got : list Z;
  sent : list Z;
}.

(** The buffer is not initialised. *)
Definition new_fd_state (junk : list Z) : fd_state := FdState junk 0 0 0 false [] [].

(** What a callback leaves: the state, or nothing when it has freed it. *)
Definition conn : Type := option fd_state.

(** ** Reading *)

(** A byte of [buf]. *)
Definition take_byte (c : Z) (st : fd_state) : fd_state :=
  let st := if (buffer_used st <? MAX_LINE)%nat
            then FdState (<[buffer_used st := c]> (buffer st)) (S (buffer_used st)) (n_written st) (write_upto st)
                   (write_pending st) (got st ++ [c]) (sent st)
            else st in
  if c =? NL then
    FdState (buffer st) (buffer_used st) (n_written st) (buffer_used st) true (got st) (sent st)
  else st.

Definition take_bytes (cs : list Z) (st : fd_state) : fd_state := fold_left (fun st c => take_byte c st) cs st.

(** [recv] returns the chunks one after the other, and then 0 ([closed]) or -1.
    After -1 [errno] is set to [EAGAIN], so that the connection is kept. *)
Definition do_read (chunks : list (list Z)) (closed : bool) (st : fd_state) : conn :=
  let st := fold_left (fun st buf => take_bytes buf st) chunks st in
  if closed then None else Some st.

(** ** Writing *)

Inductive send_result := Sent (n : nat) | Again | SendFailed.

(** The loop; [true]: it was left because everything is written.  When the
    results run out the socket is full. *)
Fixpoint write_loop (rs : list send_result) (st : fd_state) : outcome (bool * conn) :=
  if (n_written st <? write_upto st)%nat then
    match rs with
    | [] | Again :: _ => Ok (false, Some st)
    | SendFailed :: _ => Ok (false, None)
    | Sent O :: _ => Err AssertFailed
    | Sent n :: rs =>
        let out := take n (drop (n_written st) (buffer st)) in
        write_loop rs (FdState (buffer st) (buffer_used st) (n_written st + n) (write_upto st)
                         (write_pending st) (got st) (sent st ++ out))
    end
  else Ok (true, Some st).

Definition do_write (rs : list send_result) (st : fd_state) : outcome conn :=
  match write_loop rs st with
  | Ok (true, Some st) =>
      let st := if (n_written st =? buffer_used st)%nat
                then FdState (buffer st) 1 1 1 (write_pending st) (got st) (sent st) else st in
      Ok (Some (FdState (buffer st) (buffer_used st) (n_written st) (write_upto st) false (got st) (sent st)))
  | Ok (_, c) => Ok c
  | Err f => Err f
  | NoFuel => NoFuel
  end.

(** ** The server *)

(** The connections, the open descriptors, and what [do_read] has printed of its buffer. *)
Record server := Server { states : gmap Z fd_state; fds : gset Z; printed : list (option (list Z)) }.

(** The largest value of a descriptor [select] can watch, plus one. *)
Definition FD_SETSIZE : Z := 1024.

(** [malloc] and the two calls of [event_new] succeed or not. *)
Definition alloc_fd_state (mem ev1 ev2 : bool) (junk : list Z) : option fd_state :=
  if mem && ev1 && ev2 then Some (new_fd_state junk) else None.

(** [fd] is what [accept] returned. *)
Definition do_accept (fd : Z) (mem ev1 ev2 : bool) (junk : list Z) : M server unit :=
  if fd <? 0 then mret tt
  else if FD_SETSIZE <? fd then mret tt                  (** [close(fd)] *)
  else
    match alloc_fd_state mem ev1 ev2 junk with
    | None => throw AssertFailed
    | Some st => modify (fun s => Server (<[fd := st]> (states s)) ({[fd]} ∪ fds s) (printed s))
    end.

(** [free_fd_state] does not close the descriptor. *)
Definition settle (fd : Z) (c : conn) : M server unit :=
  modify (fun s => match c with
                   | Some st => Server (<[fd := st]> (states s)) (fds s) (printed s)
                   | None => Server (delete fd (states s)) (fds s) (printed s)
                   end).

(** The [printf] after each [recv] *)
Definition print_chunks (chunks : list (list Z)) : M server unit :=
  modify (fun s => Server (states s) (fds s) (printed s ++ (printed_text <$> chunks))).

(** A callback gets the state of its connection from the event. *)
Definition state_of (fd : Z) : M server fd_state := fun s =>
  match states s !! fd with Some st => Ok (st, s) | None => Err Dangling end.

Inductive callback :=
| Accepted (fd : Z) (mem ev1 ev2 : bool) (junk : list Z)
| Readable (fd : Z) (chunks : list (list Z)) (closed : bool)
| Writable (fd : Z) (rs : list send_result).

Definition call (c : callback) : M server unit :=
  match c with
  | Accepted fd mem ev1 ev2 junk => do_accept fd mem ev1 ev2 junk
  | Readable fd chunks closed => st ← state_of fd; _ ← print_chunks chunks; settle fd (do_read chunks closed st)
  | Writable fd rs =>
      st ← state_of fd;
      match do_write rs st with
      | Ok c => settle fd c
      | Err f => throw f
      | NoFuel => no_fuel
      end
  end.

(** [event_base_dispatch] *)
Fixpoint dispatch (cs : list callback) : M server unit :=
  match cs with
  | [] => mret tt
  | c :: cs => _ ← call c; dispatch cs
  end.

(** ** A connection *)

Section conn_spec.
Implicit Types (st : fd_state).

(** Bytes [i] to [j] of the buffer. *)
Definition slice (b : list Z) (i j : nat) : list Z := take (j - i) (drop i b).

(** What was stored is what was sent and what is still in the buffer, in order;
    behind the last complete line there is no newline. *)
Record core st : Prop := {
  co_buffer : length (buffer st) = MAX_LINE;
  co_order : (n_written st <= write_upto st <= buffer_used st)%nat /\ (buffer_used st <= MAX_LINE)%nat;
  co_got : got st = sent st ++ slice (buffer st) (n_written st) (buffer_used st);
  co_tail : NL ∉ slice (buffer st) (write_upto st) (buffer_used st);
}.














Lemma core_disarmed st : core st ->
  core (FdState (buffer st) (buffer_used st) (n_written st) (write_upto st) false (got st) (sent st)).
Proof. by intros []. Qed.


End conn_spec.

(** ** The server *)

Section server_spec.
Implicit Types (s : server).













End server_spec.

(** ** A line that is lost in part, descriptors that stay open *)

(** 79 bytes and a newline. *)
Definition ex_line : list Z := replicate 79 97 ++ [NL].

Definition ex_chunks : list (list Z) := [replicate 20 97; replicate 20 97; replicate 20 97; replicate 19 97 ++ [NL]].

Definition ex_callbacks : list callback :=
  [Accepted 5 true true true (replicate 80 0);
   Readable 5 ex_chunks false; Writable 5 [Sent 50; Sent 30];
   Readable 5 ex_chunks false; Writable 5 [Sent 79]].

(** The counters are set back to 1 and not to 0: after the first line has been
    sent the buffer holds 79 bytes, and of the same line sent again the newline is
    not sent back.  And a connection that ends leaves its descriptor open. *)
Theorem line_server_defects :
  (exists s st, dispatch ex_callbacks (Server ∅ ∅ []) = Ok (tt, s) /\ states s !! 5 = Some st /\
     sent st = ex_line ++ replicate 79 97 /\ write_pending st = false) /\
  (exists s, dispatch [Accepted 5 true true true (replicate 80 0); Readable 5 [] true] (Server ∅ ∅ []) = Ok (tt, s) /\
     states s = ∅ /\ fds s = {[5]}).
Proof.
  split.
  - eexists. eexists. split; [vm_compute; reflexivity|]. split; [vm_compute; reflexivity|].
    split; vm_compute; reflexivity.
  - eexists. split; [vm_compute; reflexivity|]. split; vm_compute; reflexivity.
Qed.


