(* ===== verification/EchoServer.v ===== *)
(** * The echo server: [src/lib/libevent/server_echo.c]

    Every connection has a [bufferevent] of libevent; its read callback moves what has
    arrived from the input to the output buffer.  The buffers are the class
    [Bufferevent] with the laws the code relies on; which callbacks libevent makes, and
    what has arrived by then, are the events of a run. *)

From stdpp Require Import prelude gmap list.
From Stdlib Require Import ZArith Lia.
From S2P Require Import Prelude.

(** ** libevent *)

Class Bufferevent := {
  bev : Type;
  bufferevent_new : bev;
  bufferevent_read : bev -> nat -> list Z * bev;     (** at most so many bytes *)
  bufferevent_write : bev -> list Z -> bev;
  bev_arrive : bev -> list Z -> bev;                 (** bytes from the network *)
}.

Class BuffereventLaws `{Bufferevent} := {
  input : bev -> list Z;                             (** what has not been read *)
  output : bev -> list Z;                            (** all that was written *)
  buf_new : input bufferevent_new = [] /\ output bufferevent_new = [];
  buf_read b n : (bufferevent_read b n).1 = take n (input b) /\
    input (bufferevent_read b n).2 = drop n (input b) /\ output (bufferevent_read b n).2 = output b;
  buf_write b d : input (bufferevent_write b d) = input b /\ output (bufferevent_write b d) = output b ++ d;
  buf_arrive b d : input (bev_arrive b d) = input b ++ d /\ output (bev_arrive b d) = output b;
}.

Section server.
Context `{Hb : Bufferevent}.

Definition MAX_LINE : nat := 256.

(** The connections with their buffers, and what was printed for which. *)
Record server := Server { conns : gmap Z bev; printed : list (Z * list Z) }.

(** [char line[MAX_LINE+1]]: [line[n] = 0] is inside for [n <= MAX_LINE]. *)
Fixpoint read_loop (fuel : nat) (fd : Z) (b : bev) : M server bev :=
  let '(line, b) := bufferevent_read b MAX_LINE in
  let n := length line in
  if (0 <? n)%nat then
    match fuel with
    | O => no_fuel
    | S fuel =>
        if (n <=? MAX_LINE)%nat then
          _ ← modify (fun s => Server (conns s) (printed s ++ [(fd, cstr (line ++ [0]))]));
          read_loop fuel fd (bufferevent_write b line)
        else throw OutOfBounds
    end
  else mret b.

(** [fuel] bounds the rounds of the loop. *)
Definition read_cb (fuel : nat) (fd : Z) : M server unit :=
  s ← get;
  match conns s !! fd with
  | None => throw Dangling
  | Some b => b ← read_loop fuel fd b; modify (fun s => Server (<[fd := b]> (conns s)) (printed s))
  end.

(** [fd]: what [accept] returns. *)
Definition do_accept (fd : Z) : M server unit :=
  if fd <? 0 then mret tt
  else modify (fun s => Server (<[fd := bufferevent_new]> (conns s)) (printed s)).

(** [bufferevent_free] closes the descriptor ([BEV_OPT_CLOSE_ON_FREE]). *)
Definition error_cb (fd : Z) : M server unit :=
  s ← get;
  match conns s !! fd with
  | None => throw Dangling
  | Some _ => put (Server (delete fd (conns s)) (printed s))
  end.

(** A callback libevent makes: bytes have arrived, the listening socket is ready, a
    connection has ended. *)
Inductive callback := Arrived (fd : Z) (d : list Z) | Accepted (fd : Z) | Ended (fd : Z).

Definition dispatch1 (c : callback) : M server unit :=
  match c with
  | Arrived fd d =>
      _ ← modify (fun s => Server (alter (fun b => bev_arrive b d) fd (conns s)) (printed s));
      read_cb (length d) fd
  | Accepted fd => do_accept fd
  | Ended fd => error_cb fd
  end.

(** [event_base_dispatch] *)
Fixpoint dispatch (cs : list callback) : M server unit :=
  match cs with
  | [] => mret tt
  | c :: cs => _ ← dispatch1 c; dispatch cs
  end.

End server.

(** ** Every connection gets back what it has sent *)

Section spec.
Context `{Hb : Bufferevent, Hl : !BuffereventLaws}.
Implicit Types (s : server) (fd : Z) (m : gmap Z (list Z)).

(** Which callbacks come when: for a connection that is open; a new one has a new
    descriptor. *)
Definition may (c : callback) m : Prop :=
  match c with
  | Arrived fd _ | Ended fd => is_Some (m !! fd)
  | Accepted fd => m !! fd = None
  end.

(** What each open connection has sent. *)
Definition arrives (c : callback) m : gmap Z (list Z) :=
  match c with
  | Arrived fd d => alter (fun x => x ++ d) fd m
  | Accepted fd => if fd <? 0 then m else <[fd := []]> m
  | Ended fd => delete fd m
  end.

Fixpoint all_may (cs : list callback) m : Prop :=
  match cs with [] => True | c :: cs => may c m /\ all_may cs (arrives c m) end.

(** The open connections are those of [m]; nothing is left to read, and all that came
    was written back. *)
Definition echoes m s : Prop :=
  forall fd, match conns s !! fd, m !! fd with
             | Some b, Some x => input b = [] /\ output b = x
             | None, None => True
             | _, _ => False
             end.

Lemma read_loop_ok fuel fd : forall b s, (length (input b) <= fuel)%nat ->
  wp (read_loop fuel fd b) (fun b' s' => conns s' = conns s /\ input b' = [] /\ output b' = output b ++ input b) s.
Proof.
  induction fuel as [|fuel IH]; intros b s Hf; cbn [read_loop]; destruct (buf_read b MAX_LINE) as (H1 & H2 & H3);
    destruct (bufferevent_read b MAX_LINE) as [line b']; simpl in H1, H2, H3; subst line; rewrite length_take.
  - destruct (input b) as [|c r] eqn:E; [|simpl in Hf; lia]. rewrite Nat.min_0_r. simpl. apply wp_ret. rewrite H2, H3, app_nil_r. by rewrite drop_nil.
  - destruct (Nat.ltb_spec 0 (MAX_LINE `min` length (input b))) as [Hlt|Hge].
    + rewrite (proj2 (Nat.leb_le _ _)) by lia. wp_step. eapply wp_intro; [reflexivity|]. destruct (buf_write b' (take MAX_LINE (input b))) as [W1 W2].
      eapply wp_mono; [apply IH; rewrite W1, H2, length_drop; lia|]. simpl. intros b2 s2 (E1 & E2 & E3). split; [done|]. split; [done|].
      by rewrite E3, W2, W1, H2, H3, <- app_assoc, take_drop.
    + apply wp_ret. assert (input b = []) as E by (apply length_zero_iff_nil; unfold MAX_LINE in Hge; lia).
      rewrite H2, H3, E, app_nil_r. by rewrite drop_nil.
Qed.

Lemma dispatch1_ok c m s : echoes m s -> may c m -> wp (dispatch1 c) (fun _ s' => echoes (arrives c m) s') s.
Proof.
  intros He Hc. destruct c as [fd d|fd|fd]; cbn [dispatch1 arrives may] in *.
  - wp_step. eapply wp_intro; [reflexivity|]. unfold read_cb. wp_step. eapply wp_intro; [reflexivity|]. simpl. rewrite lookup_alter_eq.
    destruct Hc as [x Hx]. pose proof (He fd) as Hfd. rewrite Hx in Hfd. destruct (conns s !! fd) as [b|] eqn:Eb; [|done]. simpl. destruct Hfd as [Hi Ho].
    destruct (buf_arrive b d) as [A1 A2]. wp_step. eapply wp_mono; [apply read_loop_ok; by rewrite A1, Hi|]. simpl. intros b' s' (E1 & E2 & E3).
    eapply wp_intro; [reflexivity|]. intros fd'. simpl. rewrite E1. destruct (decide (fd' = fd)) as [->|Hne].
    + rewrite lookup_insert_eq, lookup_alter_eq, Hx. simpl. split; [done|]. by rewrite E3, A1, A2, Hi, Ho.
    + rewrite lookup_insert_ne, !lookup_alter_ne by done. apply He.
  - unfold do_accept. destruct (fd <? 0); [by apply wp_ret|]. eapply wp_intro; [reflexivity|]. intros fd'. simpl.
    destruct (decide (fd' = fd)) as [->|Hne]; [rewrite !lookup_insert_eq; apply buf_new|]. rewrite !lookup_insert_ne by done. apply He.
  - unfold error_cb. wp_step. eapply wp_intro; [reflexivity|]. destruct Hc as [x Hx]. pose proof (He fd) as Hfd. rewrite Hx in Hfd.
    destruct (conns s !! fd) as [b|] eqn:Eb; [|done]. eapply wp_intro; [reflexivity|]. intros fd'. simpl.
    destruct (decide (fd' = fd)) as [->|Hne]; [by rewrite !lookup_delete_eq|]. rewrite !lookup_delete_ne by done. apply He.
Qed.

(** Over any callbacks libevent can make the echo server never faults, its loop ends,
    and after each callback every open connection has been sent exactly the bytes it has
    sent, in order, and no connection what another has sent. *)
Theorem echo_server_echoes cs :
  all_may cs ∅ -> wp (dispatch cs) (fun _ s => echoes (foldl (fun m c => arrives c m) ∅ cs) s) (Server ∅ []).
Proof.
  assert (H : forall cs m s, echoes m s -> all_may cs m -> wp (dispatch cs) (fun _ s => echoes (foldl (fun m c => arrives c m) m cs) s) s).
  { clear cs. induction cs as [|c cs IH]; intros m s He Hm; [by apply wp_ret|]. destruct Hm as [Hc Hm]. cbn [dispatch foldl]. wp_step.
    eapply wp_mono; [by apply dispatch1_ok|]. intros u s' Hs'. by apply IH. }
  intros Hm. by apply H.
Qed.

End spec.

(** ** An instance *)

Definition plain_bev : Bufferevent := {|
  bev := list Z * list Z;
  bufferevent_new := ([], []);
  bufferevent_read b n := (take n b.1, (drop n b.1, b.2));
  bufferevent_write b d := (b.1, b.2 ++ d);
  bev_arrive b d := (b.1 ++ d, b.2);
|}.

Definition plain_bev_laws : @BuffereventLaws plain_bev.
Proof. by apply (Build_BuffereventLaws plain_bev (fun b : list Z * list Z => b.1) (fun b : list Z * list Z => b.2)). Defined.

#[local] Existing Instance plain_bev.
#[local] Existing Instance plain_bev_laws.

(** Two clients; the first sends more than a line takes. *)
Definition ex_callbacks : list callback :=
  [Accepted 7; Accepted 8; Arrived 7 (replicate 300 65); Arrived 8 [66]; Arrived 7 [67]; Ended 8].

Lemma echo_server_echoes_witness :
  wp (dispatch ex_callbacks) (fun _ s => (exists b, conns s !! 7 = Some b /\ output b = replicate 300 65 ++ [67]) /\ conns s !! 8 = None) (Server ∅ []).
Proof.
  eapply wp_mono.
  - apply echo_server_echoes. vm_compute. repeat split; eauto.
  - intros u s He. pose proof (He 7) as H7. pose proof (He 8) as H8.
    replace (foldl (fun m c => arrives c m) ∅ ex_callbacks !! 8) with (@None (list Z)) in H8 by (vm_compute; reflexivity).
    replace (foldl (fun m c => arrives c m) ∅ ex_callbacks !! 7) with (Some (replicate 300 65 ++ [67])) in H7 by (vm_compute; reflexivity).
    split; [|by destruct (conns s !! 8)]. destruct (conns s !! 7) as [b|]; [|destruct H7]. exists b. split; [done|apply H7].
Defined.
