(* ===== verification/HelloServer.v ===== *)
(** * The greeting server and its client: [src/lib/libevent/server_one.c], [client_one.c]

    The server writes a greeting to every connection and ends two seconds after an
    interrupt; the client prints what one [read] gives. *)

From stdpp Require Import prelude gmap list.
From Stdlib Require Import ZArith Lia.
From S2P Require Import Prelude EchoServer.

(** "hello,world" and a newline *)
Definition message : list Z := [104; 101; 108; 108; 111; 44; 119; 111; 114; 108; 100; 10].

Section server.
Context `{Hb : Bufferevent}.

(** The connections, whether the loop was broken, and the delay [event_base_loopexit] was
    given. *)
Record base := Base { conns : gmap Z bev; broken : bool; exit_delay : option Z }.

(** [created]: whether [bufferevent_socket_new] succeeds. *)
Definition listener_cb (fd : Z) (created : bool) (b : base) : base :=
  if created then Base (<[fd := bufferevent_write bufferevent_new message]> (conns b)) (broken b) (exit_delay b)
  else Base (conns b) true (exit_delay b).

Definition signal_cb (b : base) : base := Base (conns b) (broken b) (Some 2).

Inductive callback := Connection (fd : Z) (created : bool) | Interrupt.

(** [event_base_dispatch]; a loop that is broken makes no more callbacks. *)
Fixpoint dispatch (cs : list callback) (b : base) : base :=
  if broken b then b
  else match cs with
       | [] => b
       | Connection fd created :: cs => dispatch cs (listener_cb fd created b)
       | Interrupt :: cs => dispatch cs (signal_cb b)
       end.

(** Every connection that the loop got to is greeted, once, and the end is only announced
    by an interrupt. *)
Lemma greeted `{!BuffereventLaws} cs : forall b,
  (forall fd c, conns b !! fd = Some c -> output c = message) ->
  let b' := dispatch cs b in
  (forall fd c, conns b' !! fd = Some c -> output c = message) /\
  (broken b' = false -> broken b = false /\ forall fd created, Connection fd created ∈ cs -> created = true /\ is_Some (conns b' !! fd)) /\
  (exit_delay b = None -> Interrupt ∉ cs -> exit_delay b' = None).
Proof.
  assert (Hmono : forall cs b fd, is_Some (conns b !! fd) -> is_Some (conns (dispatch cs b) !! fd)).
  { clear. induction cs as [|[fd' []|] cs IH]; intros b fd Hs; simpl; destruct (broken b); try done; apply IH; simpl; try done.
    destruct (decide (fd = fd')) as [->|]; [by rewrite lookup_insert_eq|by rewrite lookup_insert_ne]. }
  assert (Hbr : forall cs b, broken b = true -> dispatch cs b = b) by (intros [|c cs'] b E; simpl; by rewrite E).
  induction cs as [|c cs IH]; intros b Hall b'; unfold b'; cbn [dispatch].
  { destruct (broken b) eqn:E; (split; [done|]; split; [|done]); [by rewrite E|]. intros _. split; [done|]. intros fd created Hin. by apply elem_of_nil in Hin. }
  destruct (broken b) eqn:E; [split; [done|]; split; [by rewrite E|done]|]. destruct c as [fd created|]; unfold listener_cb.
  - destruct created.
    + destruct (IH (Base (<[fd := bufferevent_write bufferevent_new message]> (conns b)) (broken b) (exit_delay b))) as (H1 & H2 & H3).
      { intros fd' c'. simpl. destruct (decide (fd' = fd)) as [->|Hne]; [|rewrite lookup_insert_ne by done; apply Hall].
        rewrite lookup_insert_eq. intros [= <-]. destruct (buf_write bufferevent_new message) as [_ ->]. by rewrite (proj2 buf_new). }
      split; [done|]. split.
      * intros Hb'. destruct (H2 Hb') as [_ H2']. split; [done|]. intros fd' cr [[= -> ->]|Hin]%elem_of_cons; [|by apply H2'].
        split; [done|]. apply Hmono. simpl. by rewrite lookup_insert_eq.
      * intros Hx Hin. apply H3; [done|]. set_solver.
    + rewrite Hbr by done. simpl. split; [done|]. split; [done|]. by intros.
  - destruct (IH (signal_cb b)) as (H1 & H2 & H3); [done|]. split; [done|]. split.
    + intros Hb'. destruct (H2 Hb') as [_ H2']. split; [done|]. intros fd' cr [?|Hin]%elem_of_cons; [done|by apply H2'].
    + intros _ Hin. destruct Hin. by left.
Qed.

End server.

(** ** The client *)

(** [char buf[1024] = {0}; n = read(..); buf[n] = '\0'; printf("%s\n", buf)]; [None]: -1 *)
Definition client_main (received : option (list Z)) : outcome (list Z) :=
  let buf := replicate 1024 0 in
  match received with
  | None => Err OutOfBounds
  | Some d =>
      let d := take 1024 d in
      let buf := d ++ drop (length d) buf in
      if (length d <? 1024)%nat then Ok (cstr (<[length d := 0]> buf) ++ [10]) else Err OutOfBounds
  end.

(** The client prints the greeting, or as much of it as the one [read] gives. *)
Lemma client_greeting n : client_main (Some (take n message)) = Ok (take n message ++ [10]).
Proof. do 13 (destruct n as [|n]; [reflexivity|]). by destruct n. Qed.
