(* ===== verification/ChatServer.v ===== *)
(** * The chat server: [src/lib/pthread/chat_server.c]

    The main thread accepts clients and starts a thread for each; a thread passes
    what its client sends on to all clients.  The table [clnt_socks] and its
    counter are only used under the mutex, so that each critical section is one
    step; the thread's argument is the address of the local [clnt_sock] of [main],
    which a thread reads in a step of its own.  Steps of the threads interleave. *)

From stdpp Require Import prelude list.
From Stdlib Require Import ZArith Lia.
From S2P Require Import Prelude.

Definition MAX_CLNT : nat := 256.

(** The next statement of [main]'s loop. *)
Inductive main_pc := AtAccept | AtAdd | AtCreate.

(** A thread has not read its argument, serves a socket, or has ended. *)
Inductive thread := Created | Serving (clnt_sock : Z) | Ended.

(** [writes] is what was written to which socket. *)
Record chat := Chat {
  clnt_cnt : nat;
  clnt_socks : list Z;
  clnt_sock : Z;
  pc : main_pc;
  threads : list thread;
  writes : list (Z * list Z);
}.

Definition chat_init : chat := Chat 0 (replicate MAX_CLNT 0) 0 AtAccept [] [].

(** ** The table *)

(** [clnt_socks[i]], read and written. *)
Definition sock_at (socks : list Z) (i : nat) : outcome Z :=
  match socks !! i with Some x => Ok x | None => Err OutOfBounds end.

Definition set_sock (socks : list Z) (i : nat) (x : Z) : outcome (list Z) :=
  if (i <? length socks)%nat then Ok (<[i := x]> socks) else Err OutOfBounds.

(** [clnt_socks[clnt_cnt++] = clnt_sock] *)
Definition add_clnt (s : chat) : outcome chat :=
  socks ← set_sock (clnt_socks s) (clnt_cnt s) (clnt_sock s);
  Ok (Chat (S (clnt_cnt s)) socks (clnt_sock s) AtCreate (threads s) (writes s)).

(** [while (i++ < clnt_cnt - 1) clnt_socks[i] = clnt_socks[i + 1];] *)
Fixpoint shift (fuel : nat) (cnt i : nat) (socks : list Z) : outcome (list Z) :=
  if (i <? cnt - 1)%nat then
    match fuel with
    | O => NoFuel
    | S fuel =>
        let i := S i in
        x ← sock_at socks (S i);
        socks ← set_sock socks i x;
        shift fuel cnt i socks
    end
  else Ok socks.

(** The loop over the table, from [i] on. *)
Fixpoint unlist (rounds : nat) (cnt i : nat) (sock : Z) (socks : list Z) : outcome (list Z) :=
  match rounds with
  | O => Ok socks
  | S rounds =>
      x ← sock_at socks i;
      if sock =? x then shift cnt cnt i socks else unlist rounds cnt (S i) sock socks
  end.

Definition remove_clnt (sock : Z) (s : chat) : outcome chat :=
  socks ← unlist (clnt_cnt s) (clnt_cnt s) 0 sock (clnt_socks s);
  Ok (Chat (clnt_cnt s - 1) socks (clnt_sock s) (pc s) (threads s) (writes s)).

(** ** The steps *)

(** [send_msg] *)
Definition send_msg (msg : list Z) (s : chat) : chat :=
  Chat (clnt_cnt s) (clnt_socks s) (clnt_sock s) (pc s) (threads s)
    (writes s ++ ((fun sock => (sock, msg)) <$> take (clnt_cnt s) (clnt_socks s))).

Definition set_thread (t : nat) (th : thread) (s : chat) : chat :=
  Chat (clnt_cnt s) (clnt_socks s) (clnt_sock s) (pc s) (<[t := th]> (threads s)) (writes s).

(** [Accept]: [accept] returns a socket.  [Read]: [read] returns a message,
    [ReadError]: it returns -1, [Leave]: it returns 0. *)
Inductive action :=
| Accept (sock : Z) | Add | Create
| Start (t : nat) | Read (t : nat) (msg : list Z) | ReadError (t : nat) | Leave (t : nat).

(** [None]: the step cannot be taken. *)
Definition step (a : action) (s : chat) : option (outcome chat) :=
  match a with
  | Accept sock =>
      match pc s with
      | AtAccept => Some (Ok (Chat (clnt_cnt s) (clnt_socks s) sock AtAdd (threads s) (writes s)))
      | _ => None
      end
  | Add => match pc s with AtAdd => Some (add_clnt s) | _ => None end
  | Create =>
      match pc s with
      | AtCreate =>
          Some (Ok (Chat (clnt_cnt s) (clnt_socks s) (clnt_sock s) AtAccept (threads s ++ [Created]) (writes s)))
      | _ => None
      end
  | Start t =>
      match threads s !! t with
      | Some Created => Some (Ok (set_thread t (Serving (clnt_sock s)) s))
      | _ => None
      end
  | Read t msg =>
      match threads s !! t with
      | Some (Serving _) => Some (Ok (send_msg msg s))
      | _ => None
      end
  | ReadError t =>      (** [send_msg(msg, -1)] writes [SIZE_MAX] bytes of [msg] *)
      match threads s !! t with
      | Some (Serving _) => Some (if (clnt_cnt s =? 0)%nat then Ok s else Err OutOfBounds)
      | _ => None
      end
  | Leave t =>
      match threads s !! t with
      | Some (Serving sock) => Some (s ← remove_clnt sock s; Ok (set_thread t Ended s))
      | _ => None
      end
  end.

Inductive reach : chat -> Prop :=
| reach_init : reach chat_init
| reach_step s a s' : reach s -> step a s = Some (Ok s') -> reach s'.

(** The steps one after the other, where they can be taken. *)
Fixpoint run_steps (acts : list action) (s : chat) : option (outcome chat) :=
  match acts with
  | [] => Some (Ok s)
  | a :: acts =>
      match step a s with
      | Some (Ok s) => run_steps acts s
      | r => r
      end
  end.

(** ** The table *)

(** The sockets in use. *)
Definition table (s : chat) : list Z := take (clnt_cnt s) (clnt_socks s).

(** Everything behind the entry after [i] moves one place down. *)
Lemma shift_ok cnt : forall fuel i socks, (S i <= cnt)%nat -> (cnt - S i <= fuel)%nat ->
  (cnt < length socks \/ S i = cnt)%nat ->
  exists socks', shift fuel cnt i socks = Ok socks' /\ length socks' = length socks /\
    forall j, socks' !! j = if decide (i < j < cnt)%nat then socks !! S j else socks !! j.
Proof.
  induction fuel as [|fuel IH]; intros i socks Hi Hf Hlen; simpl.
  { rewrite (proj2 (Nat.ltb_ge _ _)) by lia. exists socks. split; [done|]. split; [done|].
    intros j. rewrite decide_False by lia. done. }
  destruct (Nat.ltb_spec i (cnt - 1)) as [Hlt|Hge].
  2: { exists socks. split; [done|]. split; [done|]. intros j. by rewrite decide_False by lia. }
  destruct Hlen as [Hlen|Hlen]; [|lia].
  destruct (lookup_lt_is_Some_2 socks (S (S i))) as [x Hx]; [lia|].
  unfold mbind, outcome_bind, sock_at, set_sock. rewrite Hx, (proj2 (Nat.ltb_lt _ _)) by lia.
  destruct (IH (S i) (<[S i := x]> socks)) as (socks' & E & Hl & Hj); [lia|lia|rewrite length_insert; lia|].
  exists socks'. unfold mbind, outcome_bind in E. split; [done|]. split; [by rewrite Hl, length_insert|].
  intros j. rewrite Hj. destruct (decide (S i < j < cnt)%nat), (decide (i < j < cnt)%nat); try lia.
  - by rewrite list_lookup_insert_ne by lia.
  - assert (j = S i) as -> by lia. by rewrite list_lookup_insert_eq by lia.
  - by rewrite list_lookup_insert_ne by lia.
Qed.

Lemma unlist_ok cnt sock socks : forall rounds i, (i + rounds = cnt)%nat -> (cnt <= length socks)%nat ->
  match list_find (sock =.) (drop i (take cnt socks)) with
  | Some (k, _) => unlist rounds cnt i sock socks = shift cnt cnt (i + k) socks
  | None => unlist rounds cnt i sock socks = Ok socks
  end.
Proof.
  induction rounds as [|rounds IH]; intros i Hi Hl.
  { by rewrite drop_ge by (rewrite length_take; lia). }
  destruct (lookup_lt_is_Some_2 socks i) as [x Hx]; [lia|].
  assert (Hd : drop i (take cnt socks) = x :: drop (S i) (take cnt socks)).
  { apply drop_S. by rewrite lookup_take_lt by lia. }
  rewrite Hd. cbn [list_find unlist]. unfold mbind at 1 2, outcome_bind at 1 2, sock_at. rewrite Hx.
  destruct (Z.eqb_spec sock x) as [->|Hne].
  - rewrite decide_True by done. by rewrite Nat.add_0_r.
  - rewrite decide_False by done. specialize (IH (S i) ltac:(lia) Hl).
    destruct (list_find (sock =.) (drop (S i) (take cnt socks))) as [[k y]|]; simpl; [|done].
    rewrite IH. f_equal. lia.
Qed.

(** The table after entry [k] was to be taken out. *)
Definition without (k : nat) (xs : list Z) : list Z :=
  if decide (S k = length xs) then take k xs else take (S k) xs ++ drop (S (S k)) xs.

Lemma shifted_table cnt k socks socks' :
  (k < cnt)%nat -> (cnt <= length socks)%nat ->
  (forall j, socks' !! j = if decide (k < j < cnt)%nat then socks !! S j else socks !! j) ->
  take (cnt - 1) socks' = without k (take cnt socks).
Proof.
  intros Hk Hl Hj. unfold without. rewrite length_take, Nat.min_l by lia. apply list_eq. intros j.
  destruct (decide (j < cnt - 1)%nat) as [Hlt|Hge].
  - rewrite lookup_take_lt, Hj by lia. destruct (decide (S k = cnt)).
    + rewrite decide_False, !lookup_take_lt by lia. done.
    + destruct (decide (j <= k)%nat).
      * rewrite decide_False, lookup_app_l by (rewrite ?length_take; lia). by rewrite !lookup_take_lt by lia.
      * rewrite decide_True, lookup_app_r by (rewrite ?length_take; lia).
        rewrite lookup_drop, !length_take, Nat.min_l by lia.
        replace (S (S k) + (j - S k))%nat with (S j) by lia. by rewrite lookup_take_lt by lia.
  - rewrite lookup_take_ge by lia. symmetry. apply lookup_ge_None. destruct (decide (S k = cnt)).
    + rewrite !length_take. lia.
    + rewrite length_app, length_drop, !length_take. lia.
Qed.

Lemma remove_ok sock s :
  (0 < clnt_cnt s)%nat -> (clnt_cnt s < length (clnt_socks s))%nat ->
  exists s', remove_clnt sock s = Ok s' /\ clnt_cnt s' = (clnt_cnt s - 1)%nat /\
    table s' = match list_find (sock =.) (table s) with
               | Some (k, _) => without k (table s)
               | None => take (clnt_cnt s - 1) (table s)
               end.
Proof.
  intros H0 Hl. unfold remove_clnt.
  pose proof (unlist_ok (clnt_cnt s) sock (clnt_socks s) (clnt_cnt s) 0 eq_refl ltac:(lia)) as Hu.
  rewrite drop_0 in Hu. fold (table s) in Hu. destruct (list_find (sock =.) (table s)) as [[k y]|] eqn:E;
    rewrite ?Nat.add_0_l in Hu.
  - apply list_find_Some in E as (Hk & _ & _). apply lookup_lt_Some in Hk. unfold table in Hk. rewrite length_take in Hk.
    destruct (shift_ok (clnt_cnt s) (clnt_cnt s) k (clnt_socks s)) as (socks' & Es & _ & Hj); [lia|lia|lia|].
    rewrite Hu, Es. eexists. split; [reflexivity|]. split; [done|]. unfold table at 1. simpl.
    by apply shifted_table; [lia|lia|].
  - rewrite Hu. eexists. split; [reflexivity|]. split; [done|]. unfold table. simpl. rewrite take_take.
    f_equal. lia.
Qed.

(** A client that leaves is not taken out of the table: unless it is the last
    entry, the entry after it is; when it has no entry, the last entry is dropped.
    (The index is advanced before the first entry is moved.) *)
Theorem remove_clnt_table sock s :
  (0 < clnt_cnt s)%nat -> (clnt_cnt s < length (clnt_socks s))%nat ->
  exists s', remove_clnt sock s = Ok s' /\ clnt_cnt s' = (clnt_cnt s - 1)%nat /\
    table s' = match list_find (sock =.) (table s) with
               | Some (k, _) => without k (table s)
               | None => take (clnt_cnt s - 1) (table s)
               end.
Proof. apply remove_ok. Qed.

(** ** The counter *)

Definition active (th : thread) : nat := match th with Ended => 0 | _ => 1 end.
Definition clients (s : chat) : nat :=
  sum_list_with active (threads s) + match pc s with AtCreate => 1 | _ => 0 end.

Record chat_inv (s : chat) : Prop := {
  in_len : length (clnt_socks s) = MAX_CLNT;
  in_cnt : clnt_cnt s = clients s;
  in_max : (clnt_cnt s <= MAX_CLNT)%nat;
}.

Lemma sum_insert t th th' (ths : list thread) : ths !! t = Some th ->
  (sum_list_with active (<[t := th']> ths) + active th = sum_list_with active ths + active th')%nat.
Proof.
  revert t. induction ths as [|x ths IH]; intros [|t] Ht; simpl in *; simplify_eq; [lia|].
  specialize (IH t Ht). lia.
Qed.

Lemma sum_at_least t th (ths : list thread) : ths !! t = Some th -> (active th <= sum_list_with active ths)%nat.
Proof. revert t. induction ths as [|x ths IH]; intros [|t] Ht; simpl in *; simplify_eq; [lia|]. specialize (IH t Ht). lia. Qed.

Lemma unlist_length rounds cnt i sock socks socks' :
  unlist rounds cnt i sock socks = Ok socks' -> length socks' = length socks.
Proof.
  assert (Hs : forall fuel i socks, shift fuel cnt i socks = Ok socks' -> length socks' = length socks).
  { induction fuel as [|fuel IH]; intros j xs; simpl; destruct (_ <? _)%nat; try congruence.
    unfold mbind, outcome_bind, sock_at, set_sock. destruct (xs !! S (S j)); [|done].
    destruct (_ <? _)%nat; [|done]. intros E%IH. by rewrite E, length_insert. }
  revert i. induction rounds as [|rounds IH]; intros i; simpl; [congruence|].
  unfold mbind, outcome_bind, sock_at. destruct (socks !! i); [|done]. case_match; [apply Hs|apply IH].
Qed.

Lemma leave_ok sock s s' :
  remove_clnt sock s = Ok s' -> clnt_cnt s' = (clnt_cnt s - 1)%nat /\
    length (clnt_socks s') = length (clnt_socks s) /\ threads s' = threads s /\ pc s' = pc s.
Proof.
  unfold remove_clnt. destruct (unlist _ _ _ _ _) eqn:E; simpl; try done. intros [= <-]. simpl.
  by apply unlist_length in E.
Qed.

Lemma chat_step_inv a s s' : chat_inv s -> step a s = Some (Ok s') -> chat_inv s'.
Proof.
  intros [Hl Hc Hm] E. unfold clients in Hc.
  destruct a as [sock| | |t|t msg|t|t]; simpl in E.
  - destruct (pc s) eqn:Hpc; simplify_eq. by split; [|unfold clients; simpl|].
  - destruct (pc s) eqn:Hpc; try done. unfold add_clnt, set_sock in E.
    destruct (Nat.ltb_spec (clnt_cnt s) (length (clnt_socks s))); simpl in E; simplify_eq.
    split; unfold clients; simpl; [by rewrite length_insert|lia|lia].
  - destruct (pc s) eqn:Hpc; simplify_eq. split; unfold clients; simpl; [done| |done].
    rewrite sum_list_with_app. simpl. lia.
  - destruct (threads s !! t) as [[]|] eqn:Ht; simplify_eq. split; unfold clients; simpl; [done| |done].
    pose proof (sum_insert t _ (Serving (clnt_sock s)) _ Ht). simpl in *. lia.
  - destruct (threads s !! t) as [[]|] eqn:Ht; simplify_eq. by split.
  - destruct (threads s !! t) as [[]|] eqn:Ht; try done. destruct (clnt_cnt s =? 0)%nat; simplify_eq. by split.
  - destruct (threads s !! t) as [[|sock|]|] eqn:Ht; try done. injection E as E.
    destruct (remove_clnt sock s) as [s1| |] eqn:Er; simpl in E; try done. injection E as <-.
    destruct (leave_ok _ _ _ Er) as (H1 & H2 & H3 & H4). split; unfold clients; simpl.
    + by rewrite H2.
    + rewrite H1, H3, H4. pose proof (sum_insert t _ Ended _ Ht). simpl in *. lia.
    + lia.
Qed.

Lemma shift_fault cnt : forall fuel i socks, (cnt - S i <= fuel)%nat ->
  (exists socks', shift fuel cnt i socks = Ok socks') \/ shift fuel cnt i socks = Err OutOfBounds.
Proof.
  induction fuel as [|fuel IH]; intros i socks Hf; simpl;
    (destruct (Nat.ltb_spec i (cnt - 1)); [|by left; eexists]); [lia|].
  unfold mbind, outcome_bind, sock_at, set_sock. destruct (socks !! S (S i)); [|by right].
  destruct (_ <? _)%nat; [|by right]. apply IH. lia.
Qed.

Lemma unlist_fault cnt sock socks : forall rounds i,
  (exists socks', unlist rounds cnt i sock socks = Ok socks') \/ unlist rounds cnt i sock socks = Err OutOfBounds.
Proof.
  induction rounds as [|rounds IH]; intros i; simpl; [by left; eexists|].
  unfold mbind, outcome_bind, sock_at. destruct (socks !! i); [|by right].
  case_match; [apply shift_fault; lia|apply IH].
Qed.

(** A fault in a reachable state is an access beyond a table that is full, or the
    message of a [read] that failed. *)
Lemma step_fault a s o : chat_inv s -> step a s = Some o ->
  (exists s', o = Ok s') \/ (o = Err OutOfBounds /\ (clnt_cnt s = MAX_CLNT \/ exists t, a = ReadError t)).
Proof.
  intros [Hl Hc Hm] E. unfold clients in Hc. destruct a as [sock| | |t|t msg|t|t]; simpl in E.
  - destruct (pc s); simplify_eq; eauto.
  - destruct (pc s); try done. unfold add_clnt, set_sock in E. injection E as <-.
    destruct (Nat.ltb_spec (clnt_cnt s) (length (clnt_socks s))); simpl; [eauto|]. right. split; [done|left; lia].
  - destruct (pc s); simplify_eq; eauto.
  - destruct (threads s !! t) as [[]|]; simplify_eq; eauto.
  - destruct (threads s !! t) as [[]|]; simplify_eq; eauto.
  - destruct (threads s !! t) as [[]|]; simplify_eq. destruct (clnt_cnt s =? 0)%nat; eauto 6.
  - destruct (threads s !! t) as [[|sock|]|] eqn:Ht; try done. injection E as <-.
    pose proof (sum_at_least _ _ _ Ht) as Hpos. simpl in Hpos.
    destruct (decide (clnt_cnt s = MAX_CLNT)) as [Hfull|Hless].
    + unfold remove_clnt. destruct (unlist_fault (clnt_cnt s) sock (clnt_socks s) (clnt_cnt s) 0) as [[xs ->] | ->];
        simpl; eauto.
    + destruct (remove_ok sock s) as (s1 & -> & _); [lia|lia|]. simpl. eauto.
Qed.

Lemma reach_inv s : reach s -> chat_inv s.
Proof.
  induction 1 as [|s a s' _ IH E]; [|by eapply chat_step_inv]. split; [apply length_replicate|done|]. simpl. lia.
Qed.

(** In every reachable state the counter is the number of clients whose thread
    has not ended; the only faults a step can have are an access beyond the table
    while 256 clients are connected, and the broadcast after a [read] that
    failed. *)
Theorem chat_counts s a o :
  reach s -> step a s = Some o ->
  clnt_cnt s = clients s /\
  ((exists s', o = Ok s') \/ (o = Err OutOfBounds /\ (clnt_cnt s = MAX_CLNT \/ exists t, a = ReadError t))).
Proof. intros Hr%reach_inv E. split; [apply Hr|by eapply step_fault]. Qed.

Lemma chat_counts_witness :
  clnt_cnt chat_init = clients chat_init /\
  ((exists s', Ok (Chat 0 (replicate MAX_CLNT 0) 7 AtAdd [] []) = Ok s') \/
   (Ok (Chat 0 (replicate MAX_CLNT 0) 7 AtAdd [] []) = Err OutOfBounds /\
    (clnt_cnt chat_init = MAX_CLNT \/ exists t, Accept 7 = ReadError t))).
Proof. apply (chat_counts chat_init (Accept 7)); [constructor|reflexivity]. Defined.

(** ** Three clients *)

(** The threads of the clients 7 and 8 start after both have been accepted. *)
Definition ex_race : list action := [Accept 7; Add; Create; Accept 8; Add; Create; Start 0; Start 1].

Definition ex_join (t : nat) (sock : Z) : list action := [Accept sock; Add; Create; Start t].

(** The first of three clients leaves. *)
Definition ex_leave : list action := ex_join 0 7 ++ ex_join 1 8 ++ ex_join 2 9 ++ [Leave 0; Read 1 [1]].

(** Two clients that connect one after the other can both be given the second
    one's socket, so that nobody reads from the first.  And when the first of
    three clients leaves, the second no longer gets any message, while the closed
    socket does. *)
Theorem chat_defects :
  (exists s, run_steps ex_race chat_init = Some (Ok s) /\ threads s = [Serving 8; Serving 8] /\ table s = [7; 8]) /\
  (exists s, run_steps ex_leave chat_init = Some (Ok s) /\ writes s = [(7, [1]); (9, [1])]).
Proof.
  split; eexists; (split; [vm_compute; reflexivity|]); [split|]; vm_compute; reflexivity.
Qed.

Lemma remove_clnt_table_witness :
  let s := Chat 3 ([7; 8; 9] ++ replicate 253 0) 9 AtAccept [] [] in
  exists s', remove_clnt 7 s = Ok s' /\ clnt_cnt s' = 2%nat /\ table s' = [7; 9].
Proof. intros s. apply (remove_clnt_table 7 s); simpl; lia. Defined.
