(* ===== verification/ChatClient.v ===== *)
(** * The chat client: [src/lib/pthread/chat_client.c]

    One thread sends the lines of the standard input with the user's name in front, the
    other prints what the server of ChatServer.v sends.  The threads share nothing that
    either writes after the start, so each is a loop of its own. *)

From stdpp Require Import prelude list.
From Stdlib Require Import ZArith Lia.
From S2P Require Import Prelude Text.

Definition BUF_SIZE : nat := 100.
Definition NAME_SIZE : nat := 20.

(** [sprintf(name, "[%s]", argv[3])] *)
Definition set_name (arg : list Z) : outcome (list Z) :=
  let name := [91] ++ arg ++ [93] in
  if (length name <? NAME_SIZE)%nat then Ok name else Err OutOfBounds.

(** ** [send_msg] *)

(** [fgets(msg, n + 1, stdin)]: at most [n] characters, up to a newline, and the rest of
    the input. *)
Fixpoint fgets_line (n : nat) (s : list Z) : list Z * list Z :=
  match n, s with
  | S n, c :: s => if c =? NEWLINE then ([c], s) else let '(l, r) := fgets_line n s in (c :: l, r)
  | _, _ => ([], s)
  end.

(** At the end of the input [msg] is left as it is. *)
Definition fgets (msg s : list Z) : list Z * list Z :=
  match s with [] => (msg, []) | _ => fgets_line (BUF_SIZE - 1) s end.

(** [q] or [Q] and a newline *)
Definition is_quit (msg : list Z) : bool := bool_decide (msg = [113; NEWLINE]) || bool_decide (msg = [81; NEWLINE]).

Record sender := Sender { msg : list Z; stdin : list Z; socket_open : bool; written : list (list Z) }.

(** A round; [false]: the process has ended. *)
Definition send_round (name : list Z) : M sender bool :=
  s ← get;
  let '(m, rest) := fgets (msg s) (stdin s) in
  if is_quit m then _ ← put (Sender m rest false (written s)); mret false
  else
    let name_msg := name ++ [SPACE] ++ m in
    if (length name_msg <? NAME_SIZE + BUF_SIZE)%nat then
      _ ← put (Sender m rest (socket_open s) (written s ++ [name_msg])); mret true
    else throw OutOfBounds.

(** The first [n] rounds *)
Fixpoint send_msg (n : nat) (name : list Z) : M sender bool :=
  match n with
  | O => mret true
  | S n => go ← send_round name; if go : bool then send_msg n name else mret false
  end.

(** ** [recv_msg] *)

(** What [read] gives ([None]: -1); the text printed, and whether the thread is still
    there. *)
Fixpoint recv_msg (rs : list (option (list Z))) : outcome (list Z * bool) :=
  match rs with
  | [] => Ok ([], true)
  | None :: _ => Ok ([], false)
  | Some d :: rs =>
      if (length d <? NAME_SIZE + BUF_SIZE)%nat then
        '(out, go) ← recv_msg rs; Ok (cstr (d ++ [0]) ++ out, go)
      else Err OutOfBounds
  end.

(** [argv] without the name of the program: the address, the port, the name; the
    exchange on the connection is the two loops. *)
Definition chat_client_name (argv : list (list Z)) : option (outcome (list Z)) :=
  match argv with [_; _; name] => Some (set_name name) | _ => None end.

(** ** What is sent *)

Lemma fgets_line_spec n s : s = (fgets_line n s).1 ++ (fgets_line n s).2 /\ (length (fgets_line n s).1 <= n)%nat /\
  ((0 < n)%nat -> s <> [] -> (fgets_line n s).1 <> []).
Proof.
  revert s. induction n as [|n IH]; intros [|c s]; simpl; try (split; [done|]; split; [lia|]; intros; (done || lia)).
  destruct (c =? NEWLINE); simpl; [split; [done|]; split; [lia|done]|]. destruct (IH s) as (H1 & H2 & _).
  destruct (fgets_line n s) as [l r]. simpl in *. split; [by rewrite <- H1|]. split; [lia|done].
Qed.

(** The input as the calls of [fgets] take it. *)
Fixpoint chunks (fuel : nat) (s : list Z) : list (list Z) :=
  match fuel, s with
  | S fuel, _ :: _ => (fgets_line (BUF_SIZE - 1) s).1 :: chunks fuel (fgets_line (BUF_SIZE - 1) s).2
  | _, _ => []
  end.

Definition lines (s : list Z) : list (list Z) := chunks (length s) s.

Lemma chunks_fuel f : forall f' s, (length s <= f)%nat -> (length s <= f')%nat -> chunks f s = chunks f' s.
Proof.
  induction f as [|f IH]; intros [|f'] [|c s] H1 H2; simpl in H1, H2; try lia; try done. cbn [chunks].
  destruct (fgets_line_spec (BUF_SIZE - 1) (c :: s)) as (E & _ & Hne). f_equal.
  apply (f_equal length) in E. rewrite length_app in E. specialize (Hne ltac:(unfold BUF_SIZE; lia) ltac:(done)).
  destruct (fgets_line (BUF_SIZE - 1) (c :: s)) as [[|c' l] r]; [done|]. simpl in *. apply IH; lia.
Qed.

Lemma lines_cons s : s <> [] -> lines s = (fgets_line (BUF_SIZE - 1) s).1 :: lines (fgets_line (BUF_SIZE - 1) s).2.
Proof.
  intros Hs. unfold lines. destruct s as [|c s]; [done|]. cbn [length chunks]. f_equal.
  destruct (fgets_line_spec (BUF_SIZE - 1) (c :: s)) as (E & _ & Hne). apply (f_equal length) in E. rewrite length_app in E.
  specialize (Hne ltac:(unfold BUF_SIZE; lia) ltac:(done)). destruct (fgets_line (BUF_SIZE - 1) (c :: s)) as [[|c' l] r]; [done|].
  cbn [fst snd length] in *. apply chunks_fuel; lia.
Qed.

(** Nothing of the input is lost. *)
Lemma concat_lines s : concat (lines s) = s.
Proof.
  induction s as [s IH] using (induction_ltof1 _ length). unfold ltof in IH. destruct (decide (s = [])) as [->|Hs]; [done|].
  rewrite lines_cons by done. destruct (fgets_line_spec (BUF_SIZE - 1) s) as (E & _ & Hne). specialize (Hne ltac:(unfold BUF_SIZE; lia) Hs).
  cbn [concat]. rewrite IH; [done|]. apply (f_equal length) in E. rewrite length_app in E.
  destruct (fgets_line (BUF_SIZE - 1) s) as [[|c l] r]; [done|]. simpl in *. lia.
Qed.

(** The lines that are sent in [n] rounds, and whether the client is still there: up to a
    line that quits; after the end of the input the last line again and again. *)
Fixpoint sends (n : nat) (last : list Z) (ls : list (list Z)) : list (list Z) * bool :=
  match n with
  | O => ([], true)
  | S n =>
      let m := default last (head ls) in
      if is_quit m then ([], false) else let '(r, go) := sends n m (tail ls) in (m :: r, go)
  end.

Lemma send_msg_ok name n : forall s,
  (length name < NAME_SIZE)%nat -> (length (msg s) < BUF_SIZE)%nat -> socket_open s = true ->
  wp (send_msg n name) (fun go s' => let o := sends n (msg s) (lines (stdin s)) in
    go = o.2 /\ written s' = written s ++ ((fun m => name ++ [SPACE] ++ m) <$> o.1) /\ socket_open s' = go) s.
Proof.
  induction n as [|n IH]; intros s Hname Hm Ho; cbn [send_msg sends]; [apply wp_ret; by rewrite app_nil_r|].
  unfold send_round. wp_step. wp_step. eapply wp_intro; [reflexivity|]. cbn beta.
  assert (Hf : exists m rest, fgets (msg s) (stdin s) = (m, rest) /\ m = default (msg s) (head (lines (stdin s))) /\
    lines rest = tail (lines (stdin s)) /\ (length m < BUF_SIZE)%nat).
  { unfold fgets. destruct (stdin s) as [|c r] eqn:E; [by exists (msg s), []|].
    rewrite lines_cons by done. destruct (fgets_line_spec (BUF_SIZE - 1) (c :: r)) as (_ & Hl & _).
    destruct (fgets_line (BUF_SIZE - 1) (c :: r)) as [m rest]. exists m, rest. simpl in *. split; [done|]. split; [done|]. split; [done|]. unfold BUF_SIZE. lia. }
  destruct Hf as (m & rest & -> & Em & El & Hl). rewrite <- Em, <- El. destruct (is_quit m) eqn:Eq.
  - wp_step. eapply wp_intro; [reflexivity|]. do 2 apply wp_ret. simpl. by rewrite app_nil_r.
  - rewrite (proj2 (Nat.ltb_lt _ _)) by (rewrite !length_app; simpl; unfold NAME_SIZE, BUF_SIZE in *; lia). wp_step. eapply wp_intro; [reflexivity|].
    apply wp_ret. cbv iota. eapply wp_mono; [apply IH; [done|done|done]|]. simpl. destruct (sends n m (lines rest)) as [r go]. simpl.
    intros go' s' (-> & H2 & H3). split; [done|]. split; [|done]. by rewrite H2, <- app_assoc.
Qed.

(** The client of a user with a name of at most 17 characters never overflows a buffer:
    it sends each line of the input (in pieces of at most 99 characters) after the name,
    once and in order, until a line quits; then the socket is closed. *)
Lemma chat_client_sends arg name input n :
  set_name arg = Ok name ->
  (length arg <= 17)%nat /\
  wp (send_msg n name) (fun go s => let o := sends n [] (lines input) in
    go = o.2 /\ written s = (fun m => name ++ [SPACE] ++ m) <$> o.1 /\ socket_open s = go) (Sender [] input true []).
Proof.
  unfold set_name. destruct (Nat.ltb_spec (length ([91] ++ arg ++ [93])) NAME_SIZE) as [H|H]; intros [= <-]. split.
  - rewrite !length_app in H. simpl in H. unfold NAME_SIZE in H. lia.
  - eapply wp_mono; [apply send_msg_ok; [done|simpl; unfold BUF_SIZE; lia|done]|]. done.
Qed.

(** After the end of the input the last line is sent again in every round. *)
Lemma sends_flood n m : is_quit m = false -> sends n m [] = (replicate n m, true).
Proof. induction n as [|n IH]; intros Hm; [done|]. cbn [sends default head hd_error tail]. simpl. by rewrite Hm, IH. Qed.

(** When the server has closed the connection the other thread reads nothing, for ever. *)
Lemma recv_spins n : recv_msg (replicate n (Some [])) = Ok ([], true).
Proof. induction n as [|n IH]; [done|]. simpl. by rewrite IH. Qed.
