(* ===== verification/Epoll.v ===== *)
(** * What the epoll programs use of the kernel

    The open descriptors, and the events an epoll descriptor waits for on each of
    them, as [epoll_ctl] and [close] change them. *)

From stdpp Require Import prelude gmap.
From Stdlib Require Import ZArith Lia.
From S2P Require Import Prelude.

(** ** [sys/epoll.h] *)

Definition EPOLLIN : Z := 1.
Definition EPOLLOUT : Z := 4.
Definition EPOLLERR : Z := 8.
Definition EPOLLHUP : Z := 16.
Definition EPOLLONESHOT : Z := 2 ^ 30.
Definition EPOLLET : Z := 2 ^ 31.

(** The masks that the client and the server use. *)
Definition ALL_EVENTS : Z := Z.lor EPOLLIN (Z.lor EPOLLOUT (Z.lor EPOLLERR EPOLLHUP)).
Definition READ_EVENTS : Z := Z.lor EPOLLIN (Z.lor EPOLLERR EPOLLHUP).
Definition WRITE_EVENTS : Z := Z.lor EPOLLOUT (Z.lor EPOLLERR EPOLLHUP).

(** [events & bit] as a condition *)
Definition has (events bit : Z) : bool := negb (Z.land events bit =? 0).

Record kernel := Kernel { open_fds : gset Z; interest : gmap Z Z }.

Inductive ctl := EPOLL_CTL_ADD | EPOLL_CTL_MOD | EPOLL_CTL_DEL.

(** The result, and the kernel after the call. *)
Definition epoll_ctl (op : ctl) (fd events : Z) (k : kernel) : Z * kernel :=
  match op, interest k !! fd with
  | EPOLL_CTL_ADD, None =>
      if decide (fd ∈ open_fds k) then (0, Kernel (open_fds k) (<[fd := events]> (interest k))) else (-1, k)
  | EPOLL_CTL_ADD, Some _ => (-1, k)
  | EPOLL_CTL_MOD, Some _ => (0, Kernel (open_fds k) (<[fd := events]> (interest k)))
  | EPOLL_CTL_DEL, Some _ => (0, Kernel (open_fds k) (delete fd (interest k)))
  | _, None => (-1, k)
  end.

(** A descriptor that is closed is not waited for any more. *)
Definition close (fd : Z) (k : kernel) : Z * kernel :=
  if decide (fd ∈ open_fds k) then (0, Kernel (open_fds k ∖ {[fd]}) (delete fd (interest k))) else (-1, k).

Definition opened (fd : Z) (k : kernel) : kernel := Kernel ({[fd]} ∪ open_fds k) (interest k).

(** What [epoll_wait] may report: some of the events asked for, an error or a hang-up. *)
Definition reports (k : kernel) (fd revents : Z) : Prop :=
  exists events, interest k !! fd = Some events /\ revents <> 0 /\
    Z.land revents (Z.lor events (Z.lor EPOLLERR EPOLLHUP)) = revents.

(** A bit that was not asked for is not reported. *)
Lemma reports_not k fd revents events bit :
  reports k fd revents -> interest k !! fd = Some events ->
  Z.land (Z.lor events (Z.lor EPOLLERR EPOLLHUP)) bit = 0 -> has revents bit = false.
Proof.
  intros (ev & Hev & _ & Hsub) Hfd Hbit. rewrite Hev in Hfd. injection Hfd as ->. unfold has.
  rewrite <- Hsub, <- Z.land_assoc, Hbit, Z.land_0_r. done.
Qed.

(** Descriptors that are waited for are open. *)
Definition kernel_ok (k : kernel) : Prop := forall fd, is_Some (interest k !! fd) -> fd ∈ open_fds k.

Lemma mod_ok fd events k :
  is_Some (interest k !! fd) ->
  epoll_ctl EPOLL_CTL_MOD fd events k = (0, Kernel (open_fds k) (<[fd := events]> (interest k))).
Proof. intros [ev E]. unfold epoll_ctl. by rewrite E. Qed.

Lemma del_ok fd events k :
  is_Some (interest k !! fd) ->
  epoll_ctl EPOLL_CTL_DEL fd events k = (0, Kernel (open_fds k) (delete fd (interest k))).
Proof. intros [ev E]. unfold epoll_ctl. by rewrite E. Qed.

Lemma add_ok fd events k :
  fd ∈ open_fds k -> interest k !! fd = None ->
  epoll_ctl EPOLL_CTL_ADD fd events k = (0, Kernel (open_fds k) (<[fd := events]> (interest k))).
Proof. intros Hfd E. unfold epoll_ctl. by rewrite E, decide_True. Qed.

Lemma kernel_ok_none k fd : kernel_ok k -> fd ∉ open_fds k -> interest k !! fd = None.
Proof. intros Hk Hfd. destruct (interest k !! fd) eqn:E; [|done]. destruct Hfd. apply Hk. eauto. Qed.

(** ** Taking turns: [n] rounds of two turns each *)

Fixpoint rounds (n : nat) : list bool :=
  match n with O => [] | S n => rounds n ++ [true; false] end.

Lemma rounds_S n : rounds n ++ [true] ++ [false] = rounds (S n).
Proof. done. Qed.
