(* ===== verification/EpollServer.v ===== *)
(** * The epoll server: [src/lib/epoll/epollserver.cpp]

    [ListenThread] accepts connections and has them waited for; [Run] receives a
    message on a connection, then sends one, and so on in turn.  A message is what
    one [recv] returns, as it is for the code.  The two threads share nothing but
    the kernel's table, and each step uses it once: a run is a list of steps of
    either. *)

From stdpp Require Import prelude gmap list.
From Stdlib Require Import ZArith Lia.
From S2P Require Import Prelude Epoll.

Definition BUFFER_SIZE : nat := 1024.

(** A message received on a connection, or sent. *)
Inductive entry := Got (fd : Z) (msg : list Z) | Replied (fd : Z).

Record server := Server { kern : kernel; log : list entry }.

Definition set_kern (k : kernel) (s : server) : server := Server k (log s).
Definition add_log (e : entry) (s : server) : server := Server (kern s) (log s ++ [e]).

Definition ctl_fd (op : ctl) (fd events : Z) : M server Z := fun s =>
  let '(r, k) := epoll_ctl op fd events (kern s) in Ok (r, set_kern k s).

(** [printf] with [%s] of the zeroed buffer after [recv]: there must be a NUL in it. *)
Definition print_buffer (msg : list Z) : M server unit :=
  if decide (0 ∈ msg) then mret tt
  else if (length msg <? BUFFER_SIZE)%nat then mret tt else throw OutOfBounds.

(** [ListenThread], after [accept] has returned [client_socket] *)
Definition accept_client (client_socket : Z) : M server unit :=
  if client_socket <? 0 then mret tt
  else
    _ ← modify (fun s => set_kern (opened client_socket (kern s)) s);
    _ ← ctl_fd EPOLL_CTL_ADD client_socket READ_EVENTS;
    mret tt.

(** [Run], for an event; [received] is what [recv] stores ([None]: -1), [sendsize]
    what [send] returns. *)
Definition run_event (fd events : Z) (received : option (list Z)) (sendsize : Z) : M server unit :=
  if has events EPOLLIN then
    match received with
    | None | Some [] => _ ← ctl_fd EPOLL_CTL_DEL fd 0; mret tt
    | Some msg =>
        _ ← modify (add_log (Got fd msg));
        _ ← print_buffer msg;
        _ ← ctl_fd EPOLL_CTL_MOD fd WRITE_EVENTS; mret tt
    end
  else if has events EPOLLOUT then
    if sendsize <=? 0 then _ ← ctl_fd EPOLL_CTL_DEL fd 0; mret tt
    else
      _ ← modify (add_log (Replied fd));
      _ ← ctl_fd EPOLL_CTL_MOD fd READ_EVENTS; mret tt
  else _ ← ctl_fd EPOLL_CTL_DEL fd events; mret tt.

Inductive action :=
| Accept (client_socket : Z)
| Event (fd events : Z) (received : option (list Z)) (sendsize : Z).

Definition step (a : action) : M server unit :=
  match a with
  | Accept fd => accept_client fd
  | Event fd events received sendsize => run_event fd events received sendsize
  end.

Fixpoint run (l : list action) : M server unit :=
  match l with [] => mret tt | a :: l => _ ← step a; run l end.

(** ** Taking turns *)

(** What happened on a connection: [true] for a message received. *)
Definition turns (fd : Z) (l : list entry) : list bool :=
  omap (fun e => match e with
                 | Got fd' _ => if decide (fd' = fd) then Some true else None
                 | Replied fd' => if decide (fd' = fd) then Some false else None
                 end) l.

(** A connection that is waited for: it has had whole rounds and it is to be read,
    or it has been read and is to be written. *)
Definition in_turn (fd events : Z) (l : list entry) : Prop :=
  (events = READ_EVENTS /\ exists n, turns fd l = rounds n) \/
  (events = WRITE_EVENTS /\ exists n, turns fd l = rounds n ++ [true]).

Record server_inv (s : server) : Prop := {
  si_kernel : kernel_ok (kern s);
  si_turn fd events : interest (kern s) !! fd = Some events -> in_turn fd events (log s);
  si_known fd : turns fd (log s) <> [] -> fd ∈ open_fds (kern s);
}.

(** What can happen: [accept] returns a descriptor that is not open, [epoll_wait]
    reports what was asked for, and a message is shorter than the buffer. *)
Definition possible (s : server) (a : action) : Prop :=
  match a with
  | Accept fd => fd ∉ open_fds (kern s)
  | Event fd events received _ => reports (kern s) fd events /\
      forall msg, received = Some msg -> (length msg < BUFFER_SIZE)%nat
  end.

Fixpoint all_possible (s : server) (l : list action) : Prop :=
  match l with
  | [] => True
  | a :: l => possible s a /\ forall u s', step a s = Ok (u, s') -> all_possible s' l
  end.

Lemma server_turns_app fd l l' : turns fd (l ++ l') = turns fd l ++ turns fd l'.
Proof. apply omap_app. Qed.

(** The table after a call on a connection, and what was logged of it. *)
Lemma server_inv_table s fd events l :
  server_inv s -> is_Some (interest (kern s) !! fd) -> in_turn fd events (log s ++ l) ->
  (forall fd', fd' <> fd -> turns fd' l = []) ->
  server_inv (Server (Kernel (open_fds (kern s)) (<[fd := events]> (interest (kern s)))) (log s ++ l)).
Proof.
  intros [Hk Ht Ho] Hfd Hin Hl. split; simpl.
  - intros fd' Hfd'. simpl in *. apply Hk. destruct (decide (fd' = fd)) as [->|]; [done|]. by rewrite lookup_insert_ne in Hfd'.
  - intros fd' ev E. destruct (decide (fd' = fd)) as [->|Hne]; [rewrite lookup_insert_eq in E; by simplify_eq|].
    rewrite lookup_insert_ne in E by done. unfold in_turn. rewrite server_turns_app, Hl, app_nil_r by done. by apply Ht.
  - intros fd'. destruct (decide (fd' = fd)) as [->|Hne]; [intros _; by apply Hk|].
    rewrite server_turns_app, Hl, app_nil_r by done. apply Ho.
Qed.

Lemma server_inv_del s fd :
  server_inv s -> server_inv (set_kern (Kernel (open_fds (kern s)) (delete fd (interest (kern s)))) s).
Proof.
  intros [Hk Ht Ho]. split; simpl; [|intros fd' ev E; apply lookup_delete_Some in E as [_ E]; by apply Ht|done].
  intros fd' [ev E]. simpl in E. apply lookup_delete_Some in E as [_ E]. apply Hk. by exists ev.
Qed.

Lemma del_inv s fd events : server_inv s -> is_Some (interest (kern s) !! fd) ->
  wp (_ ← ctl_fd EPOLL_CTL_DEL fd events; mret tt) (fun _ s' => server_inv s' /\ open_fds (kern s') = open_fds (kern s)) s.
Proof.
  intros Hs Hfd. wp_step. unfold ctl_fd. eapply wp_intro; [by rewrite del_ok by done|]. apply wp_ret.
  split; [by apply server_inv_del|done].
Qed.

Lemma mod_inv s fd events e :
  server_inv s -> is_Some (interest (kern s) !! fd) -> in_turn fd events (log s ++ [e]) ->
  (forall fd', fd' <> fd -> turns fd' [e] = []) ->
  wp (_ ← ctl_fd EPOLL_CTL_MOD fd events; mret tt)
    (fun _ s' => server_inv s' /\ open_fds (kern s') = open_fds (kern s)) (add_log e s).
Proof.
  intros Hs Hfd Hin He. wp_step. unfold ctl_fd. eapply wp_intro; [by rewrite mod_ok by done|]. apply wp_ret.
  split; [by apply (server_inv_table s fd events [e])|done].
Qed.

Lemma turns_got_other (fd fd' : Z) m : fd' <> fd -> turns fd' [Got fd m] = [].
Proof. intros Hne. unfold turns. simpl. by rewrite decide_False by done. Qed.

Lemma turns_replied_other (fd fd' : Z) : fd' <> fd -> turns fd' [Replied fd] = [].
Proof. intros Hne. unfold turns. simpl. by rewrite decide_False by done. Qed.

Lemma run_event_ok s fd events received sendsize :
  server_inv s -> possible s (Event fd events received sendsize) ->
  wp (run_event fd events received sendsize) (fun _ s' =>
    server_inv s' /\ open_fds (kern s') = open_fds (kern s)) s.
Proof.
  intros Hs [Hrep Hlen]. pose proof Hrep as (ev & Hev & _ & _).
  assert (Hsome : is_Some (interest (kern s) !! fd)) by eauto.
  pose proof (si_turn _ Hs fd ev Hev) as Hturn. unfold run_event.
  destruct (has events EPOLLIN) eqn:Hin.
  - destruct Hturn as [(-> & n & Hn)|(-> & _)]; [|by rewrite (reports_not _ _ _ _ _ Hrep Hev) in Hin].
    destruct received as [[|b msg]|]; [by apply del_inv| |by apply del_inv].
    wp_step. eapply wp_intro; [reflexivity|]. cbn beta. wp_step. unfold print_buffer.
    assert (Hp : wp (if decide (0 ∈ b :: msg) then mret tt
      else if (length (b :: msg) <? BUFFER_SIZE)%nat then mret tt else throw OutOfBounds)
      (fun _ s' => s' = add_log (Got fd (b :: msg)) s) (add_log (Got fd (b :: msg)) s)).
    { destruct (decide _); [by apply wp_ret|]. rewrite (proj2 (Nat.ltb_lt _ _)); [by apply wp_ret|by apply Hlen]. }
    eapply wp_mono; [exact Hp|]. intros u s' ->. apply mod_inv; [done|done| |intros; by apply turns_got_other].
    right. split; [done|]. exists n. rewrite server_turns_app, Hn. unfold turns. simpl. by rewrite decide_True.
  - destruct (has events EPOLLOUT) eqn:Hout; [|by apply del_inv].
    destruct Hturn as [(-> & _)|(-> & n & Hn)]; [by rewrite (reports_not _ _ _ _ _ Hrep Hev) in Hout|].
    destruct (sendsize <=? 0); [by apply del_inv|]. wp_step. eapply wp_intro; [reflexivity|]. cbn beta.
    apply mod_inv; [done|done| |intros; by apply turns_replied_other].
    left. split; [done|]. exists (S n). rewrite server_turns_app, Hn. unfold turns. simpl. rewrite decide_True by done.
    by rewrite <- app_assoc.
Qed.

Lemma accept_client_ok s fd :
  server_inv s -> possible s (Accept fd) ->
  wp (accept_client fd) (fun _ s' => server_inv s' /\ open_fds (kern s) ⊆ open_fds (kern s')) s.
Proof.
  intros Hs Hfd. unfold accept_client. destruct (fd <? 0); [by apply wp_ret|]. simpl in Hfd.
  pose proof (kernel_ok_none _ _ (si_kernel _ Hs) Hfd) as Hnone.
  wp_step. eapply wp_intro; [reflexivity|]. cbn beta. wp_step. unfold ctl_fd.
  eapply wp_intro; [rewrite add_ok by (done || set_solver); reflexivity|]. apply wp_ret. split; [|simpl; set_solver].
  destruct Hs as [Hk Ht Ho]. split; simpl.
  - intros fd'. simpl. destruct (decide (fd' = fd)) as [->|]; [set_solver|]. rewrite lookup_insert_ne by done.
    intros H. specialize (Hk fd' H). set_solver.
  - intros fd' ev. destruct (decide (fd' = fd)) as [->|]; [|rewrite lookup_insert_ne by done; apply Ht].
    rewrite lookup_insert_eq. intros [= <-]. left. split; [done|]. exists 0%nat. simpl.
    destruct (turns fd (log s)) eqn:E; [done|]. destruct Hfd. apply Ho. by rewrite E.
  - intros fd' H. specialize (Ho fd' H). set_solver.
Qed.

Lemma step_ok s a :
  server_inv s -> possible s a ->
  wp (step a) (fun _ s' => server_inv s' /\ open_fds (kern s) ⊆ open_fds (kern s')) s.
Proof.
  intros Hs Hp. destruct a; [by apply accept_client_ok|].
  eapply wp_mono; [by apply run_event_ok|]. intros u s' [Hs' ->]. done.
Qed.

Lemma run_ok l : forall s,
  server_inv s -> all_possible s l ->
  wp (run l) (fun _ s' => server_inv s' /\ open_fds (kern s) ⊆ open_fds (kern s')) s.
Proof.
  induction l as [|a l IH]; intros s Hs Hp; [by apply wp_ret|]. destruct Hp as [Ha Hl]. simpl. wp_step.
  destruct (wp_inv _ _ _ (step_ok s a Hs Ha)) as (u & s1 & E & Hs1 & Ho1). eapply wp_intro; [exact E|].
  eapply wp_mono; [apply IH; [done|by eapply Hl]|]. intros u' s' [Hs' Ho']. split; [done|set_solver].
Qed.

(** C22: whatever the clients do, as long as no message fills the buffer, the server
    never faults; on every connection it receives and sends in turn, receiving
    first; it waits for the one whose turn it is, and never closes a connection. *)
Theorem epoll_server_turns fds l :
  let s0 := Server (Kernel fds ∅) [] in
  all_possible s0 l ->
  wp (run l) (fun _ s =>
    (forall fd events, interest (kern s) !! fd = Some events -> in_turn fd events (log s)) /\
    (forall fd events, interest (kern s) !! fd = Some events -> fd ∈ open_fds (kern s)) /\
    fds ⊆ open_fds (kern s) /\ forall fd, turns fd (log s) <> [] -> fd ∈ open_fds (kern s)) s0.
Proof.
  intros s0 Hp. eapply wp_mono; [apply run_ok; [|exact Hp]|].
  - split; simpl; [intros fd [ev E]; simpl in E; by rewrite lookup_empty in E|intros fd ev E; by rewrite lookup_empty in E|done].
  - intros u s [[Hk Ht Ho] Hsub]. split; [done|]. split; [|by split]. intros fd ev E. apply Hk. eauto.
Qed.

(** A client connects, sends three bytes, gets its answer and leaves. *)
Definition ex_actions : list action :=
  [Accept 5; Event 5 EPOLLIN (Some [104; 105; 10]) 0; Event 5 EPOLLOUT None 20; Event 5 EPOLLIN (Some []) 0].

Lemma epoll_server_turns_witness :
  wp (run ex_actions) (fun _ s => turns 5 (log s) = [true; false] -> 5 ∈ open_fds (kern s)) (Server (Kernel ∅ ∅) []).
Proof.
  eapply wp_mono.
  - apply (epoll_server_turns ∅ ex_actions). simpl. split; [set_solver|]. intros u s E. vm_compute in E. simplify_eq.
    split; [split; [by eexists|by intros msg [= <-]; simpl; unfold BUFFER_SIZE; lia]|]. intros u' s E. vm_compute in E. simplify_eq.
    split; [split; [by eexists|done]|]. intros u'' s E. vm_compute in E. simplify_eq.
    split; [split; [by eexists|by intros msg [= <-]; simpl; unfold BUFFER_SIZE; lia]|]. done.
  - intros u s (_ & _ & _ & Ho) E. apply Ho. by rewrite E.
Defined.

(** A message that fills the buffer without a NUL is printed past its end. *)
Lemma full_buffer_faults : run [Accept 5; Event 5 EPOLLIN (Some (replicate 1024 97)) 0] (Server (Kernel ∅ ∅) []) = Err OutOfBounds.
Proof. vm_compute. reflexivity. Qed.
