(* ===== verification/EpollClient.v ===== *)
(** * The epoll client: [src/lib/epoll/epollclient.cpp], [epollclient.h]

    A number of users, each with a connection to the server: a user sends its
    message, waits for an answer, sends its message again, and so on.  What
    [socket], [send], [recv] and [epoll_wait] return are parameters; [connect],
    whose result the code ignores, and the output are left out, but for the
    message that is printed with [%s]. *)

From stdpp Require Import prelude gmap list strings pretty.
From Stdlib Require Import ZArith Lia.
From S2P Require Import Prelude Epoll.

Definition MAX_SOCKFD_COUNT : Z := 65536.
Definition BUFFER_SIZE : nat := 1024.

(** [EPOLL_USER_STATUS_EM] *)
Inductive status := FREE | CONNECT_OK | SEND_OK | RECV_OK.

#[global] Instance status_eq_dec : EqDecision status.
Proof. solve_decision. Defined.

Record UserStatus := User {
  iUserStatus : status;
  iSockFd : Z;
  cSendbuff : string;
  iBuffLen : Z;
  uEpollEvents : Z;
}.

Definition set_status st u := User st (iSockFd u) (cSendbuff u) (iBuffLen u) (uEpollEvents u).
Definition set_sockfd fd u := User (iUserStatus u) fd (cSendbuff u) (iBuffLen u) (uEpollEvents u).
Definition set_events ev u := User (iUserStatus u) (iSockFd u) (cSendbuff u) (iBuffLen u) ev.

(** A message of a user that is sent, or received. *)
Inductive entry := Sent (user : Z) | Received (user : Z) (msg : list Z).

(** The object, the kernel, the local [buffer] of [RunFun], and what was sent and
    received. [m_iSockFd_UserId] has the entries that are not -1. *)
Record client := Client {
  m_pAllUserStatus : list UserStatus;
  m_iSockFd_UserId : gmap Z Z;
  kern : kernel;
  buffer : list Z;
  log : list entry;
}.

Definition set_users v c := Client v (m_iSockFd_UserId c) (kern c) (buffer c) (log c).
Definition set_map v c := Client (m_pAllUserStatus c) v (kern c) (buffer c) (log c).
Definition set_kern v c := Client (m_pAllUserStatus c) (m_iSockFd_UserId c) v (buffer c) (log c).
Definition set_buffer v c := Client (m_pAllUserStatus c) (m_iSockFd_UserId c) (kern c) v (log c).
Definition add_log e c := Client (m_pAllUserStatus c) (m_iSockFd_UserId c) (kern c) (buffer c) (log c ++ [e]).

(** [m_pAllUserStatus[i]] *)
Definition user (i : Z) : M client UserStatus := fun c =>
  match (if 0 <=? i then m_pAllUserStatus c !! Z.to_nat i else None) with
  | Some u => Ok (u, c)
  | None => Err OutOfBounds
  end.

Definition update_user (i : Z) (f : UserStatus -> UserStatus) : M client unit :=
  u ← user i; modify (fun c => set_users (<[Z.to_nat i := f u]> (m_pAllUserStatus c)) c).

Definition in_range (fd : Z) : bool := (0 <=? fd) && (fd <? MAX_SOCKFD_COUNT).

Definition user_of (fd : Z) : M client Z := fun c =>
  if in_range fd then Ok (default (-1) (m_iSockFd_UserId c !! fd), c) else Err OutOfBounds.

Definition set_user_of (fd i : Z) : M client unit := fun c =>
  if in_range fd then Ok (tt, set_map (<[fd := i]> (m_iSockFd_UserId c)) c) else Err OutOfBounds.

Definition ctl_fd (op : ctl) (fd events : Z) : M client Z := fun c =>
  let '(r, k) := epoll_ctl op fd events (kern c) in Ok (r, set_kern k c).

Definition close_fd (fd : Z) : M client Z := fun c =>
  let '(r, k) := close fd (kern c) in Ok (r, set_kern k c).

(** ** The operations *)

(** The text of a user; a double quote is 34, a newline 10. *)
Definition hello (i : nat) : string :=
  "client: " +:+ pretty (N.of_nat i) +:+ " send message " +:+ String (Ascii.ascii_of_nat 34) "hello server!" +:+
  String (Ascii.ascii_of_nat 34) (String (Ascii.ascii_of_nat 10) EmptyString).

Definition new_user (i : nat) : UserStatus :=
  User FREE (-1) (hello i) (Z.of_nat (String.length (hello i)) + 1) 0.

(** The constructor; [mem]: whether [malloc] returns memory *)
Definition EpollClient (iUserCount : nat) (mem : bool) (k : kernel) : outcome client :=
  if mem || (iUserCount =? 0)%nat then
    Ok (Client (new_user <$> seq 0 iUserCount) ∅ k (replicate BUFFER_SIZE 0) [])
  else Err NullDeref.

(** [fd] is what [socket] returns. *)
Definition ConnectToServer (iUserId fd : Z) : M client Z :=
  _ ← update_user iUserId (set_sockfd fd);
  if fd <? 0 then _ ← update_user iUserId (set_sockfd (-1)); mret (-1)
  else
    _ ← modify (fun c => set_kern (opened fd (kern c)) c);
    _ ← update_user iUserId (set_status CONNECT_OK);
    u ← user iUserId;
    mret (iSockFd u).

(** [sent] is what [send] returns. *)
Definition SendToServerData (iUserId sent : Z) : M client Z :=
  u ← user iUserId;
  if decide (iUserStatus u = CONNECT_OK \/ iUserStatus u = RECV_OK) then
    if sent <? 0 then mret sent
    else
      _ ← modify (add_log (Sent iUserId));
      _ ← update_user iUserId (set_status SEND_OK);
      mret sent
  else mret (-1).

(** [printf] with [%s] of the buffer *)
Definition print_buffer : M client unit :=
  c ← get; if decide (0 ∈ buffer c) then mret tt else throw OutOfBounds.

(** [received] is what [recv] stores; [None]: -1. *)
Definition RecvFromServer (iUserId : Z) (received : option (list Z)) : M client Z :=
  u ← user iUserId;
  if decide (iUserStatus u = SEND_OK) then
    match received with
    | None => mret (-1)
    | Some [] => mret 0
    | Some msg =>
        _ ← modify (fun c => set_buffer (msg ++ drop (length msg) (buffer c)) c);
        _ ← print_buffer;
        _ ← modify (add_log (Received iUserId msg));
        _ ← update_user iUserId (set_status RECV_OK);
        mret (Z.of_nat (length msg))
    end
  else mret (-1).

Definition CloseUser (iUserId : Z) : M client bool :=
  u ← user iUserId;
  _ ← close_fd (iSockFd u);
  _ ← update_user iUserId (set_status FREE);
  _ ← update_user iUserId (set_sockfd (-1));
  mret true.

Definition DelEpoll (fd : Z) : M client bool :=
  if 0 <? fd then
    r ← ctl_fd EPOLL_CTL_DEL fd 0;
    _ ← set_user_of fd (-1);
    mret (r =? 0)
  else mret true.

(** [RunFun]: a user connects *)
Definition connect_user (iuserid fd : Z) : M client unit :=
  isocketfd ← ConnectToServer iuserid fd;
  _ ← set_user_of isocketfd iuserid;
  _ ← update_user iuserid (set_events ALL_EVENTS);
  _ ← ctl_fd EPOLL_CTL_ADD isocketfd ALL_EVENTS;
  mret tt.

Fixpoint connect_all (iuserid : Z) (fds : list Z) : M client unit :=
  match fds with
  | [] => mret tt
  | fd :: fds => _ ← connect_user iuserid fd; connect_all (iuserid + 1) fds
  end.

(** An event, with what [send] or [recv] returns for it. *)
Record event := Event { e_fd : Z; e_events : Z; e_sent : Z; e_received : option (list Z) }.

Definition drop_user (fd iuserid : Z) : M client unit :=
  _ ← DelEpoll fd; _ ← CloseUser iuserid; mret tt.

Definition run_event (e : event) : M client unit :=
  let fd := e_fd e in
  iuserid ← user_of fd;
  if has (e_events e) EPOLLOUT then
    iret ← SendToServerData iuserid (e_sent e);
    if 0 <? iret then _ ← ctl_fd EPOLL_CTL_MOD fd READ_EVENTS; mret tt else drop_user fd iuserid
  else if has (e_events e) EPOLLIN then
    ilen ← RecvFromServer iuserid (e_received e);
    if 0 <? ilen then
      _ ← set_user_of fd iuserid;
      _ ← ctl_fd EPOLL_CTL_MOD fd WRITE_EVENTS; mret tt
    else drop_user fd iuserid
  else drop_user fd iuserid.

Fixpoint run_events (es : list event) : M client unit :=
  match es with [] => mret tt | e :: es => _ ← run_event e; run_events es end.

(** The rounds of [while (1)]. *)
Fixpoint run_loop (waits : list (list event)) : M client unit :=
  match waits with
  | [] => mret tt
  | es :: waits =>
      _ ← modify (set_buffer (replicate BUFFER_SIZE 0));
      _ ← run_events es;
      run_loop waits
  end.

(** [fds] is what [socket] returns for each user. *)
Definition RunFun (fds : list Z) (waits : list (list event)) : M client unit :=
  _ ← connect_all 0 fds; run_loop waits.

(** ** Taking turns *)

(** What happened to a user: [true] for a message sent. *)
Definition turns (i : Z) (l : list entry) : list bool :=
  omap (fun e => match e with
                 | Sent j => if decide (j = i) then Some true else None
                 | Received j _ => if decide (j = i) then Some false else None
                 end) l.

(** What a user in a state is waited for, and has done. *)
Definition awaits (st : status) : Z :=
  match st with FREE => 0 | CONNECT_OK => ALL_EVENTS | SEND_OK => READ_EVENTS | RECV_OK => WRITE_EVENTS end.

Definition has_done (st : status) (l : list bool) : Prop :=
  match st with
  | FREE => exists n, l = rounds n \/ l = rounds n ++ [true]
  | CONNECT_OK => l = []
  | SEND_OK => exists n, l = rounds n ++ [true]
  | RECV_OK => exists n, l = rounds (S n)
  end.

Definition user_ok (c : client) (i : nat) (u : UserStatus) : Prop :=
  has_done (iUserStatus u) (turns (Z.of_nat i) (log c)) /\
  match iUserStatus u with
  | FREE => iSockFd u = -1
  | st => in_range (iSockFd u) = true /\ m_iSockFd_UserId c !! iSockFd u = Some (Z.of_nat i) /\
          interest (kern c) !! iSockFd u = Some (awaits st)
  end.

Record client_inv (c : client) : Prop := {
  ci_kernel : kernel_ok (kern c);
  ci_buffer : length (buffer c) = BUFFER_SIZE /\ buffer c !! (BUFFER_SIZE - 1)%nat = Some 0;
  ci_users i u : m_pAllUserStatus c !! i = Some u -> user_ok c i u;
  ci_known fd : is_Some (interest (kern c) !! fd) ->
    exists i u, m_pAllUserStatus c !! i = Some u /\ iSockFd u = fd /\ iUserStatus u <> FREE;
}.

Lemma turns_app i l l' : turns i (l ++ l') = turns i l ++ turns i l'.
Proof. apply omap_app. Qed.

Lemma user_fd c i u : user_ok c i u -> iUserStatus u <> FREE ->
  in_range (iSockFd u) = true /\ m_iSockFd_UserId c !! iSockFd u = Some (Z.of_nat i) /\
  interest (kern c) !! iSockFd u = Some (awaits (iUserStatus u)).
Proof. intros [_ Hu] Hst. by destruct (iUserStatus u). Qed.

(** What changes for a user leaves the others as they are. *)
Lemma user_other c c' i j u v :
  user_ok c i u -> iUserStatus u <> FREE -> i <> j -> user_ok c j v ->
  turns (Z.of_nat j) (log c') = turns (Z.of_nat j) (log c) ->
  (forall fd, fd <> iSockFd u -> m_iSockFd_UserId c' !! fd = m_iSockFd_UserId c !! fd /\
     interest (kern c') !! fd = interest (kern c) !! fd) ->
  user_ok c' j v.
Proof.
  intros Hu Hst Hij Hv Hlog Hoth. destruct (user_fd c i u Hu Hst) as (_ & Hmap & _).
  destruct Hv as [Hd Hv]. split; [by rewrite Hlog|].
  assert (Hne : iUserStatus v <> FREE -> iSockFd v <> iSockFd u).
  { intros Hsv E. destruct (iUserStatus v); [done|..]; destruct Hv as (_ & Hm & _); rewrite E, Hmap in Hm; simplify_eq; lia. }
  destruct (iUserStatus v); [done|..]; (destruct (Hoth (iSockFd v)) as [-> ->]; [by apply Hne|done]).
Qed.

(** A user takes its turn. *)
Lemma client_inv_turn c i u st b e :
  client_inv c -> m_pAllUserStatus c !! i = Some u -> iUserStatus u <> FREE -> st <> FREE ->
  length b = BUFFER_SIZE /\ b !! (BUFFER_SIZE - 1)%nat = Some 0 ->
  has_done st (turns (Z.of_nat i) (log c) ++ turns (Z.of_nat i) [e]) ->
  (forall j, j <> Z.of_nat i -> turns j [e] = []) ->
  client_inv (Client (<[i := set_status st u]> (m_pAllUserStatus c)) (<[iSockFd u := Z.of_nat i]> (m_iSockFd_UserId c))
    (Kernel (open_fds (kern c)) (<[iSockFd u := awaits st]> (interest (kern c)))) b (log c ++ [e])).
Proof.
  intros [Hk Hb Hus Hkn] Hu Hst Hst' Hb' Hdone Hoth. pose proof (Hus i u Hu) as Hok.
  destruct (user_fd c i u Hok Hst) as (Hr & Hm & Hi). split; simpl.
  - intros fd. simpl. destruct (decide (fd = iSockFd u)) as [->|]; [intros _; apply Hk; eauto|].
    rewrite lookup_insert_ne by done. apply Hk.
  - done.
  - intros j v Hv. destruct (decide (j = i)) as [->|Hne].
    + rewrite list_lookup_insert_eq in Hv by (by eapply lookup_lt_Some). simplify_eq. split; simpl.
      * by rewrite turns_app.
      * destruct st; [done|..]; by rewrite !lookup_insert_eq.
    + rewrite list_lookup_insert_ne in Hv by done. eapply (user_other c _ i j u v); eauto; simpl.
      * rewrite turns_app, Hoth by lia. by rewrite app_nil_r.
      * intros fd Hfd. by rewrite !lookup_insert_ne by done.
  - intros fd Hfd. destruct (decide (fd = iSockFd u)) as [->|Hne].
    + exists i, (set_status st u). split; [by rewrite list_lookup_insert_eq by (by eapply lookup_lt_Some)|done].
    + rewrite lookup_insert_ne in Hfd by done. destruct (Hkn fd Hfd) as (j & v & Hv & <- & Hsv).
      exists j, v. split; [|done]. rewrite list_lookup_insert_ne; [done|]. intros <-. by simplify_eq.
Qed.

(** A user is dropped. *)
Lemma client_inv_drop c i u l m :
  client_inv c -> m_pAllUserStatus c !! i = Some u -> iUserStatus u <> FREE ->
  has_done FREE (turns (Z.of_nat i) (log c) ++ turns (Z.of_nat i) l) ->
  (forall j, j <> Z.of_nat i -> turns j l = []) ->
  (forall fd, fd <> iSockFd u -> m !! fd = m_iSockFd_UserId c !! fd) ->
  client_inv (Client (<[i := set_sockfd (-1) (set_status FREE u)]> (m_pAllUserStatus c)) m
    (Kernel (open_fds (kern c) ∖ {[iSockFd u]}) (delete (iSockFd u) (interest (kern c)))) (buffer c) (log c ++ l)).
Proof.
  intros [Hk Hb Hus Hkn] Hu Hst Hdone Hoth Hm. pose proof (Hus i u Hu) as Hok. split; simpl.
  - intros fd [ev E]. simpl in *. apply lookup_delete_Some in E as [Hne E].
    assert (Hin : fd ∈ open_fds (kern c)) by (apply Hk; eauto). set_solver.
  - done.
  - intros j v Hv. destruct (decide (j = i)) as [->|Hne].
    + rewrite list_lookup_insert_eq in Hv by (by eapply lookup_lt_Some). simplify_eq. split; simpl; [|done].
      by rewrite turns_app.
    + rewrite list_lookup_insert_ne in Hv by done. eapply (user_other c _ i j u v); eauto; simpl.
      * rewrite turns_app, Hoth by lia. by rewrite app_nil_r.
      * intros fd Hfd. rewrite lookup_delete_ne by done. by rewrite Hm.
  - intros fd [ev E]. apply lookup_delete_Some in E as [Hne E].
    destruct (Hkn fd) as (j & v & Hv & <- & Hsv); [eauto|].
    exists j, v. split; [|done]. rewrite list_lookup_insert_ne; [done|]. intros <-. by simplify_eq.
Qed.

(** ** The operations *)

Lemma user_run c i u : m_pAllUserStatus c !! i = Some u -> user (Z.of_nat i) c = Ok (u, c).
Proof. intros Hu. unfold user. rewrite (proj2 (Z.leb_le _ _)) by lia. by rewrite Nat2Z.id, Hu. Qed.

Lemma update_user_run c i u f : m_pAllUserStatus c !! i = Some u ->
  update_user (Z.of_nat i) f c = Ok (tt, set_users (<[i := f u]> (m_pAllUserStatus c)) c).
Proof.
  intros Hu. unfold update_user. rewrite (bind_ok _ _ _ _ _ (user_run c i u Hu)). unfold modify. by rewrite Nat2Z.id.
Qed.

Lemma wp_user c i u Q : m_pAllUserStatus c !! i = Some u -> Q u c -> wp (user (Z.of_nat i)) Q c.
Proof. intros Hu HQ. eapply wp_intro; [by apply user_run|done]. Qed.

Lemma wp_update_user c i u f Q : m_pAllUserStatus c !! i = Some u ->
  Q tt (set_users (<[i := f u]> (m_pAllUserStatus c)) c) -> wp (update_user (Z.of_nat i) f) Q c.
Proof. intros Hu HQ. eapply wp_intro; [by apply update_user_run|done]. Qed.

Lemma lookup_updated c i u v : m_pAllUserStatus c !! i = Some u -> <[i := v]> (m_pAllUserStatus c) !! i = Some v.
Proof. intros Hu. apply list_lookup_insert_eq. by eapply lookup_lt_Some. Qed.

(** From here on a user [i] of a client [c] is dropped, after it may have sent. *)
Lemma drop_user_ok c i u u1 l c1 :
  client_inv c -> m_pAllUserStatus c !! i = Some u -> iUserStatus u <> FREE ->
  set_sockfd (-1) (set_status FREE u1) = set_sockfd (-1) (set_status FREE u) -> iSockFd u1 = iSockFd u ->
  c1 = Client (<[i := u1]> (m_pAllUserStatus c)) (m_iSockFd_UserId c) (kern c) (buffer c) (log c ++ l) ->
  has_done FREE (turns (Z.of_nat i) (log c) ++ turns (Z.of_nat i) l) -> (forall j, j <> Z.of_nat i -> turns j l = []) ->
  wp (drop_user (iSockFd u) (Z.of_nat i)) (fun _ c' => client_inv c' /\
    forall fd, fd <> iSockFd u -> interest (kern c') !! fd = interest (kern c) !! fd) c1.
Proof.
  intros Hc Hu Hst Hsame Hfd -> Hdone Hoth. destruct (user_fd c i u (ci_users _ Hc i u Hu) Hst) as (Hr & Hmap & Hint).
  assert (Hopen : iSockFd u ∈ open_fds (kern c)) by (apply (ci_kernel _ Hc); eauto). unfold drop_user. wp_step.
  assert (HD : exists b m k, DelEpoll (iSockFd u)
      (Client (<[i := u1]> (m_pAllUserStatus c)) (m_iSockFd_UserId c) (kern c) (buffer c) (log c ++ l))
    = Ok (b, Client (<[i := u1]> (m_pAllUserStatus c)) m k (buffer c) (log c ++ l)) /\
    (forall fd, fd <> iSockFd u -> m !! fd = m_iSockFd_UserId c !! fd) /\
    open_fds k = open_fds (kern c) /\ delete (iSockFd u) (interest k) = delete (iSockFd u) (interest (kern c))).
  { unfold DelEpoll. destruct (0 <? iSockFd u); [|by eexists _, _, _].
    eexists _, _, _. split.
    { unfold mbind, M_bind, ctl_fd. simpl kern. rewrite del_ok by eauto. unfold set_user_of. rewrite Hr. reflexivity. }
    split; [intros fd Hne; by rewrite lookup_insert_ne|]. split; [done|apply delete_delete_eq]. }
  destruct HD as (b & m & k & E & Hm & Hok & Hik). eapply wp_intro; [exact E|]. wp_step. unfold CloseUser. wp_step.
  pose proof (lookup_updated c i u u1 Hu) as Hl.
  eapply wp_user; [exact Hl|]. wp_step. rewrite Hfd.
  assert (Ecl : close (iSockFd u) k = (0, Kernel (open_fds k ∖ {[iSockFd u]}) (delete (iSockFd u) (interest k)))).
  { unfold close. by rewrite decide_True by (by rewrite Hok). }
  eapply wp_intro; [unfold close_fd; simpl kern; rewrite Ecl, Hok; reflexivity|]. wp_step. eapply wp_update_user; [exact Hl|]. wp_step.
  eapply wp_update_user; [simpl; apply list_lookup_insert_eq; rewrite length_insert; by eapply lookup_lt_Some|].
  do 2 apply wp_ret. unfold set_users, set_kern. simpl. rewrite !list_insert_insert_eq, Hsame, Hik.
  split; [by apply client_inv_drop|]. intros fd Hne. by rewrite lookup_delete_ne.
Qed.

(** The same, of a user that has not sent. *)
Lemma drop_user_now c i u :
  client_inv c -> m_pAllUserStatus c !! i = Some u -> iUserStatus u <> FREE ->
  wp (drop_user (iSockFd u) (Z.of_nat i)) (fun _ c' => client_inv c' /\
    forall fd, fd <> iSockFd u -> interest (kern c') !! fd = interest (kern c) !! fd) c.
Proof.
  intros Hc Hu Hst. apply (drop_user_ok c i u u [] c); try done.
  - rewrite list_insert_id, app_nil_r by done. by destruct c.
  - rewrite app_nil_r. destruct (ci_users _ Hc i u Hu) as [Hd _]. unfold has_done in *.
    destruct (iUserStatus u); [done|exists 0%nat; by left|destruct Hd as [n ->]; exists n; by right|destruct Hd as [n ->]; exists (S n); by left].
Qed.

(** The conversation goes on. *)
Lemma may_send st l : has_done st l -> st = CONNECT_OK \/ st = RECV_OK -> has_done SEND_OK (l ++ [true]).
Proof. intros Hd [-> | ->]; simpl in *; [subst; by exists 0%nat|]. destruct Hd as [n ->]. by exists (S n). Qed.

Lemma may_receive l : has_done SEND_OK l -> has_done RECV_OK (l ++ [false]).
Proof. intros [n ->]. exists n. rewrite <- app_assoc. done. Qed.

Lemma turns_sent i : turns i [Sent i] = [true] /\ forall j, j <> i -> turns j [Sent i] = [].
Proof. unfold turns. simpl. rewrite decide_True by done. split; [done|]. intros j Hj. by rewrite decide_False. Qed.

Lemma turns_received i m : turns i [Received i m] = [false] /\ forall j, j <> i -> turns j [Received i m] = [].
Proof. unfold turns. simpl. rewrite decide_True by done. split; [done|]. intros j Hj. by rewrite decide_False. Qed.

Lemma send_event c i u sent :
  client_inv c -> m_pAllUserStatus c !! i = Some u -> iUserStatus u = CONNECT_OK \/ iUserStatus u = RECV_OK ->
  wp (iret ← SendToServerData (Z.of_nat i) sent;
      if 0 <? iret then _ ← ctl_fd EPOLL_CTL_MOD (iSockFd u) READ_EVENTS; mret tt else drop_user (iSockFd u) (Z.of_nat i))
    (fun _ c' => client_inv c' /\ forall fd, fd <> iSockFd u -> interest (kern c') !! fd = interest (kern c) !! fd) c.
Proof.
  intros Hc Hu Hst. assert (Hf : iUserStatus u <> FREE) by (by destruct Hst as [-> | ->]).
  pose proof (ci_users _ Hc i u Hu) as Hok. destruct (user_fd c i u Hok Hf) as (Hr & Hm & Hi).
  destruct (turns_sent (Z.of_nat i)) as [Ht Hto]. destruct Hok as [Hd _].
  wp_step. unfold SendToServerData. wp_step. eapply wp_user; [exact Hu|]. rewrite decide_True by done.
  destruct (Z.ltb_spec sent 0).
  { apply wp_ret. rewrite (proj2 (Z.ltb_ge _ _)) by lia. by apply drop_user_now. }
  wp_step. eapply wp_intro; [reflexivity|]. wp_step. eapply wp_update_user; [exact Hu|]. apply wp_ret.
  destruct (Z.ltb_spec 0 sent).
  - wp_step. eapply wp_intro; [unfold ctl_fd; simpl kern; rewrite mod_ok by eauto; reflexivity|]. apply wp_ret.
    split; [|intros fd Hne; simpl; by rewrite lookup_insert_ne].
    unfold set_kern, set_users, add_log. simpl. rewrite <- (insert_id (m_iSockFd_UserId c) (iSockFd u) (Z.of_nat i)) by done.
    apply (client_inv_turn c i u SEND_OK); try done; [apply Hc|]. rewrite Ht. by eapply may_send.
  - eapply (drop_user_ok c i u (set_status SEND_OK u) [Sent (Z.of_nat i)]); try done.
    rewrite Ht. destruct (may_send _ _ Hd Hst) as [n Hn]. exists n. by right.
Qed.

Lemma recv_event c i u received :
  client_inv c -> m_pAllUserStatus c !! i = Some u -> iUserStatus u <> FREE ->
  (forall msg, received = Some msg -> (length msg < BUFFER_SIZE)%nat) ->
  wp (ilen ← RecvFromServer (Z.of_nat i) received;
      if 0 <? ilen then
        _ ← set_user_of (iSockFd u) (Z.of_nat i);
        _ ← ctl_fd EPOLL_CTL_MOD (iSockFd u) WRITE_EVENTS; mret tt
      else drop_user (iSockFd u) (Z.of_nat i))
    (fun _ c' => client_inv c' /\ forall fd, fd <> iSockFd u -> interest (kern c') !! fd = interest (kern c) !! fd) c.
Proof.
  intros Hc Hu Hf Hlen. pose proof (ci_users _ Hc i u Hu) as Hok. destruct (user_fd c i u Hok Hf) as (Hr & Hm & Hi).
  wp_step. unfold RecvFromServer. wp_step. eapply wp_user; [exact Hu|].
  destruct (decide (iUserStatus u = SEND_OK)) as [Hst|]; [|apply wp_ret; by apply drop_user_now].
  destruct received as [[|b msg]|]; [apply wp_ret; by apply drop_user_now| |apply wp_ret; by apply drop_user_now].
  specialize (Hlen _ eq_refl). destruct (ci_buffer _ Hc) as [Hbl Hb0].
  set (buf := (b :: msg) ++ drop (length (b :: msg)) (buffer c)).
  assert (Hbuf : length buf = BUFFER_SIZE /\ buf !! (BUFFER_SIZE - 1)%nat = Some 0).
  { unfold buf. rewrite length_app, length_drop, Hbl. split; [lia|]. rewrite lookup_app_r by lia.
    rewrite lookup_drop. rewrite <- Hb0. f_equal. lia. }
  wp_step. eapply wp_intro; [reflexivity|]. wp_step. unfold print_buffer. wp_step. eapply wp_intro; [reflexivity|].
  cbn beta. rewrite decide_True by (apply list_elem_of_lookup; exists (BUFFER_SIZE - 1)%nat; apply Hbuf).
  apply wp_ret. wp_step. eapply wp_intro; [reflexivity|]. wp_step. eapply wp_update_user; [exact Hu|]. apply wp_ret.
  rewrite (proj2 (Z.ltb_lt _ _)) by (simpl; lia). wp_step.
  eapply wp_intro; [unfold set_user_of; rewrite Hr; reflexivity|]. wp_step.
  eapply wp_intro; [unfold ctl_fd; simpl kern; rewrite mod_ok by eauto; reflexivity|]. apply wp_ret.
  split; [|intros fd Hne; simpl; by rewrite lookup_insert_ne]. unfold set_kern, set_map, set_users, add_log, set_buffer. simpl.
  destruct (turns_received (Z.of_nat i) (b :: msg)) as [Ht Hto].
  apply (client_inv_turn c i u RECV_OK); try done. rewrite Ht. apply may_receive. destruct Hok as [Hd _]. by rewrite Hst in Hd.
Qed.

Lemma run_event_turn c e :
  client_inv c -> reports (kern c) (e_fd e) (e_events e) ->
  (forall msg, e_received e = Some msg -> (length msg < BUFFER_SIZE)%nat) ->
  wp (run_event e) (fun _ c' => client_inv c' /\
    forall fd, fd <> e_fd e -> interest (kern c') !! fd = interest (kern c) !! fd) c.
Proof.
  intros Hc Hrep Hlen. pose proof Hrep as (ev & Hev & _ & _).
  destruct (ci_known _ Hc (e_fd e)) as (i & u & Hu & Hfd & Hf); [eauto|].
  pose proof (ci_users _ Hc i u Hu) as Hok. destruct (user_fd c i u Hok Hf) as (Hr & Hm & Hi).
  unfold run_event. rewrite <- Hfd in *. wp_step.
  eapply wp_intro; [unfold user_of; rewrite Hr, Hm; reflexivity|]. cbn beta. simpl default.
  destruct (has (e_events e) EPOLLOUT) eqn:Hout.
  - apply send_event; [done|done|]. destruct (iUserStatus u) eqn:Est; [done|by left| |by right].
    by rewrite (reports_not _ _ _ _ _ Hrep Hi) in Hout.
  - destruct (has (e_events e) EPOLLIN); [by apply recv_event|by apply drop_user_now].
Qed.

(** ** The runs *)

(** What [epoll_wait] may return: one report for each of some descriptors.  A message
    is shorter than the buffer. *)
Definition batch (c : client) (es : list event) : Prop :=
  NoDup (e_fd <$> es) /\ Forall (fun e => reports (kern c) (e_fd e) (e_events e)) es /\
  Forall (fun e => forall msg, e_received e = Some msg -> (length msg < BUFFER_SIZE)%nat) es.

Lemma run_events_ok es : forall c,
  client_inv c -> batch c es -> wp (run_events es) (fun _ => client_inv) c.
Proof.
  induction es as [|e es IH]; intros c Hc (Hnd & Hrep & Hlen); [by apply wp_ret|]. simpl. wp_step.
  apply NoDup_cons in Hnd as [Hn Hnd]. apply Forall_cons in Hrep as [He Hrep]. apply Forall_cons in Hlen as [Hl Hlen].
  eapply wp_mono; [by apply run_event_turn|]. intros u c' [Hc' Hoth]. apply IH; [done|]. split_and!; [done| |done].
  rewrite Forall_forall in *. intros e' He'. destruct (Hrep e' He') as (ev & Hev & Hrest). exists ev.
  split; [|done]. rewrite Hoth; [done|]. intros E. apply Hn. rewrite <- E. by apply list_elem_of_fmap_2.
Qed.

Lemma client_inv_buffer c b :
  client_inv c -> length b = BUFFER_SIZE /\ b !! (BUFFER_SIZE - 1)%nat = Some 0 -> client_inv (set_buffer b c).
Proof. intros [Hk _ Hus Hkn] Hb. split; simpl; [done|done| |done]. intros i u Hu. apply (Hus i u Hu). Qed.

Lemma zeroed : length (replicate BUFFER_SIZE (A:=Z) 0) = BUFFER_SIZE /\ replicate BUFFER_SIZE (A:=Z) 0 !! (BUFFER_SIZE - 1)%nat = Some 0.
Proof. split; [apply length_replicate|]. apply lookup_replicate. split; [done|]. unfold BUFFER_SIZE. lia. Qed.

Fixpoint possible (c : client) (waits : list (list event)) : Prop :=
  match waits with
  | [] => True
  | es :: waits => batch c es /\
      forall u c', run_events es (set_buffer (replicate BUFFER_SIZE 0) c) = Ok (u, c') -> possible c' waits
  end.

Lemma run_loop_ok waits : forall c, client_inv c -> possible c waits -> wp (run_loop waits) (fun _ => client_inv) c.
Proof.
  induction waits as [|es waits IH]; intros c Hc Hp; [by apply wp_ret|]. destruct Hp as [Hb Hp]. simpl.
  wp_step. eapply wp_intro; [reflexivity|]. wp_step.
  destruct (wp_inv _ _ _ (run_events_ok es (set_buffer (replicate BUFFER_SIZE 0) c)
    (client_inv_buffer c _ Hc zeroed) Hb)) as (u & c' & E & Hc'). eapply wp_intro; [exact E|]. apply IH; [done|]. by eapply Hp.
Qed.

(** A user connects: before, it has done nothing. *)
Lemma connect_user_ok c i u fd :
  client_inv c -> m_pAllUserStatus c !! i = Some u -> iUserStatus u = FREE -> turns (Z.of_nat i) (log c) = [] ->
  in_range fd = true -> fd ∉ open_fds (kern c) ->
  wp (connect_user (Z.of_nat i) fd) (fun _ c' => client_inv c' /\ open_fds (kern c') = {[fd]} ∪ open_fds (kern c) /\
    log c' = log c /\ forall j, j <> i -> m_pAllUserStatus c' !! j = m_pAllUserStatus c !! j) c.
Proof.
  intros Hc Hu Hst Ht Hr Hfd. pose proof (kernel_ok_none _ _ (ci_kernel _ Hc) Hfd) as Hnone.
  assert (Hlt : (i < length (m_pAllUserStatus c))%nat) by (by eapply lookup_lt_Some).
  assert (Hpos : 0 <= fd) by (unfold in_range in Hr; destruct (Z.leb_spec 0 fd); [done|by simpl in Hr]).
  unfold connect_user, ConnectToServer. wp_step. wp_step. eapply wp_update_user; [exact Hu|].
  rewrite (proj2 (Z.ltb_ge _ _)) by done. wp_step. eapply wp_intro; [reflexivity|]. wp_step.
  eapply wp_update_user; [simpl; by apply list_lookup_insert_eq|]. wp_step.
  eapply wp_user; [simpl; rewrite list_insert_insert_eq; by apply list_lookup_insert_eq|]. apply wp_ret. simpl iSockFd.
  wp_step. eapply wp_intro; [unfold set_user_of; rewrite Hr; reflexivity|]. wp_step.
  eapply wp_update_user; [simpl; rewrite list_insert_insert_eq; by apply list_lookup_insert_eq|]. wp_step.
  eapply wp_intro; [unfold ctl_fd; simpl kern; rewrite add_ok by (done || (simpl; set_solver)); reflexivity|]. apply wp_ret.
  unfold set_kern, set_map, set_users. simpl. rewrite !list_insert_insert_eq.
  split; [|split; [done|split; [done|intros j Hj; by rewrite list_lookup_insert_ne]]].
  destruct Hc as [Hk Hb Hus Hkn]. split; simpl; [|done| |].
  - intros fd'. simpl. destruct (decide (fd' = fd)) as [->|]; [set_solver|]. rewrite lookup_insert_ne by done.
    intros H. specialize (Hk fd' H). set_solver.
  - intros j v Hv. destruct (decide (j = i)) as [->|Hne].
    + rewrite list_lookup_insert_eq in Hv by done. simplify_eq. split; simpl; [done|]. by rewrite !lookup_insert_eq.
    + rewrite list_lookup_insert_ne in Hv by done. destruct (Hus j v Hv) as [Hd Hv']. split; [done|].
      destruct (iUserStatus v); [done|..]; destruct Hv' as (Hr' & Hm' & Hi'); simpl;
        (rewrite !lookup_insert_ne; [done|congruence|congruence]).
  - intros fd' Hfd'. destruct (decide (fd' = fd)) as [->|Hne].
    + eexists i, _. split; [by apply list_lookup_insert_eq|done].
    + rewrite lookup_insert_ne in Hfd' by done. destruct (Hkn fd' Hfd') as (j & v & Hv & <- & Hsv).
      exists j, v. split; [|done]. rewrite list_lookup_insert_ne; [done|]. intros <-. congruence.
Qed.

Lemma connect_all_ok fds : forall i c,
  client_inv c -> log c = [] -> NoDup fds -> Forall (fun fd => in_range fd = true /\ fd ∉ open_fds (kern c)) fds ->
  (forall j, (i <= j < i + length fds)%nat -> exists u, m_pAllUserStatus c !! j = Some u /\ iUserStatus u = FREE) ->
  wp (connect_all (Z.of_nat i) fds) (fun _ => client_inv) c.
Proof.
  induction fds as [|fd fds IH]; intros i c Hc Hl Hnd Hfds Hus; [by apply wp_ret|]. simpl. wp_step.
  apply NoDup_cons in Hnd as [Hn Hnd]. apply Forall_cons in Hfds as [[Hr Ho] Hfds].
  destruct (Hus i) as (u & Hu & Hst); [simpl; lia|].
  eapply wp_mono; [apply (connect_user_ok c i u fd); try done; by rewrite Hl|].
  intros v c' (Hc' & Ho' & Hl' & Hoth). replace (Z.of_nat i + 1) with (Z.of_nat (S i)) by lia.
  apply IH; [done|congruence|done| |].
  - rewrite Forall_forall in *. intros fd' Hfd'. destruct (Hfds fd' Hfd') as [Hr' Hn']. split; [done|].
    rewrite Ho'. intros Hin. apply elem_of_union in Hin as [Hin|Hin]; [|done]. apply elem_of_singleton in Hin. subst. done.
  - intros j Hj. destruct (Hus j) as (w & Hw & Hsw); [simpl; lia|]. exists w. split; [|done]. rewrite Hoth by lia. done.
Qed.

(** C21: a client whose sockets are new and whose messages do not fill the buffer
    never faults: no user is looked up for a descriptor that has none, and nothing
    is done for a user that is not its turn.  Every user that is not dropped sends
    and receives in turn, sending first, is waited for accordingly, and its
    descriptor leads back to it. *)
Theorem epoll_client_turns n fds waits ofds c0 :
  EpollClient n true (Kernel ofds ∅) = Ok c0 ->
  length fds = n -> NoDup fds -> Forall (fun fd => in_range fd = true /\ fd ∉ ofds) fds ->
  (forall c1, connect_all 0 fds c0 = Ok (tt, c1) -> possible c1 waits) ->
  wp (RunFun fds waits) (fun _ c => forall i u, m_pAllUserStatus c !! i = Some u -> user_ok c i u) c0.
Proof.
  intros [= <-] Hn Hnd Hfds Hp. set (c0 := Client _ _ _ _ _) in *.
  assert (Hnew : forall i u, m_pAllUserStatus c0 !! i = Some u -> u = new_user i).
  { intros i u Hu. simpl in Hu. apply list_lookup_fmap_Some in Hu as (j & -> & Hj). by apply lookup_seq in Hj as [-> _]. }
  assert (Hc0 : client_inv c0).
  { split; [intros fd [ev E]; simpl in E; by rewrite lookup_empty in E|apply zeroed| |].
    - intros i u Hu. rewrite (Hnew i u Hu). split; simpl; [exists 0%nat; by left|done].
    - intros fd [ev E]. simpl in E. by rewrite lookup_empty in E. }
  unfold RunFun. wp_step.
  destruct (wp_inv _ _ _ (connect_all_ok fds 0 c0 Hc0 eq_refl Hnd Hfds ltac:(
    intros j Hj; exists (new_user j); split; [|done]; simpl; apply list_lookup_fmap_Some; exists j; split; [done|];
    apply lookup_seq; lia))) as ([] & c1 & E & Hc1).
  eapply wp_intro; [exact E|]. eapply wp_mono; [apply run_loop_ok; [done|by apply Hp]|].
  intros u c Hc. apply Hc.
Qed.

(** Two users; the second one's connection is lost after it has sent. *)
Definition ex_waits : list (list event) :=
  [[Event 4 EPOLLOUT 45 None; Event 5 EPOLLOUT 45 None];
   [Event 4 EPOLLIN 0 (Some [79; 75]); Event 5 EPOLLHUP 0 None]].

Definition ex_client : client := Client (new_user <$> seq 0 2) ∅ (Kernel ∅ ∅) (replicate BUFFER_SIZE 0) [].

Lemma epoll_client_turns_witness :
  wp (RunFun [4; 5] ex_waits) (fun _ c => forall u, m_pAllUserStatus c !! 0%nat = Some u -> user_ok c 0 u) ex_client.
Proof.
  eapply wp_mono.
  - apply (epoll_client_turns 2 [4; 5] ex_waits ∅ ex_client); [done|done| | |].
    + apply (bool_decide_unpack _). vm_compute. exact I.
    + repeat constructor; set_solver.
    + intros c1 E. vm_compute in E. simplify_eq. simpl. split.
      * split; [apply (bool_decide_unpack _); vm_compute; exact I|]. split; [|by repeat constructor].
        repeat constructor; by eexists.
      * intros u c' E. vm_compute in E. simplify_eq. split; [|done].
        split; [apply (bool_decide_unpack _); vm_compute; exact I|].
        split; [repeat constructor; by eexists|]. apply Forall_cons. split; [|by apply Forall_singleton].
        intros m Hm. simpl in Hm. simplify_eq. unfold BUFFER_SIZE. simpl. lia.
  - intros u c Hc v Hv. by apply Hc.
Defined.

(** When [socket] fails, the table is written at index -1. *)
Lemma socket_failure_faults : RunFun [-1] [] (Client [new_user 0] ∅ (Kernel ∅ ∅) (replicate BUFFER_SIZE 0) []) = Err OutOfBounds.
Proof. vm_compute. reflexivity. Qed.
