(* ===== verification/EpollSystem.v ===== *)
(** * The epoll client and server together: [src/lib/epoll]

    The users of EpollClient.v with the server of EpollServer.v, over stream sockets: what
    one side sends arrives in order, and a [recv] takes any number of the bytes that have
    arrived, but fewer than fill its buffer.  A [send] takes the whole message.  Either
    process moves at any time; an event is one that its [epoll_wait] may report. *)

From stdpp Require Import prelude gmap list strings.
From Stdlib Require Import ZArith Lia.
From S2P Require Import Prelude Text Epoll EpollServer EpollClient.

(** ** The system *)

Definition bytes_of (s : string) : list Z := (fun c => Z.of_N (Ascii.N_of_ascii c)) <$> String.list_ascii_of_string s.

(** The bytes of [cSendbuff] that a user sends, and those the server answers. *)
Definition text (u : UserStatus) : list Z := bytes_of (cSendbuff u) ++ [0].
Definition reply (fd : Z) : list Z := bytes_of "Hello,client fd: " ++ fmt_d 0 fd ++ [NEWLINE; 0].

(** The connection of a user: the descriptor of the server once it has accepted, and the
    bytes under way to the server and to the client. *)
Record conn := Conn { c_server : option Z; c_up : list Z; c_down : list Z }.

Record system := System { cl : client; sv : EpollServer.server; conns : list conn }.

Inductive move :=
| Clears                                     (** the [memset] before [epoll_wait] *)
| Accepts (i : nat) (fd : Z)
| ClientSends (i : nat) (events : Z)
| ClientReceives (i : nat) (events : Z) (chunk : list Z)
| ServerReceives (i : nat) (events : Z) (chunk : list Z)
| ServerSends (i : nat) (events : Z).

Definition client_event (i : nat) (f : UserStatus -> event) (g : UserStatus -> conn -> conn) (s : system) : outcome system :=
  match m_pAllUserStatus (cl s) !! i with
  | Some u => '(_, c) ← run_event (f u) (cl s); Ok (System c (sv s) (alter (g u) i (conns s)))
  | None => Err OutOfBounds
  end.

Definition server_event (i : nat) (events : Z) (received : option (list Z)) (sent : Z -> list Z) (s : system) : outcome system :=
  match conns s !! i ≫= c_server with
  | Some fd =>
      '(_, v) ← EpollServer.run_event fd events received (Z.of_nat (length (sent fd))) (sv s);
      Ok (System (cl s) v (alter (fun k => Conn (c_server k) (drop (length (default [] received)) (c_up k)) (c_down k ++ sent fd)) i (conns s)))
  | None => Err OutOfBounds
  end.

Definition perform (m : move) (s : system) : outcome system :=
  match m with
  | Clears => Ok (System (set_buffer (replicate BUFFER_SIZE 0) (cl s)) (sv s) (conns s))
  | Accepts i fd =>
      '(_, v) ← accept_client fd (sv s);
      Ok (System (cl s) v (alter (fun k => Conn (Some fd) (c_up k) (c_down k)) i (conns s)))
  | ClientSends i events =>
      client_event i (fun u => Event (iSockFd u) events (iBuffLen u) None)
        (fun u k => Conn (c_server k) (c_up k ++ text u) (c_down k)) s
  | ClientReceives i events chunk =>
      client_event i (fun u => Event (iSockFd u) events 0 (Some chunk))
        (fun u k => Conn (c_server k) (c_up k) (drop (length chunk) (c_down k))) s
  | ServerReceives i events chunk => server_event i events (Some chunk) (fun _ => []) s
  | ServerSends i events => server_event i events None reply s
  end.

Definition arrived (q chunk : list Z) : Prop := chunk `prefix_of` q /\ (0 < length chunk < BUFFER_SIZE)%nat.

(** What the kernel may report: data to read only when bytes have arrived. *)
Definition allowed (m : move) (s : system) : Prop :=
  match m with
  | Clears => True
  | Accepts i fd => 0 <= fd /\ fd ∉ open_fds (EpollServer.kern (sv s)) /\ exists k, conns s !! i = Some k /\ c_server k = None
  | ClientSends i events => exists u,
      m_pAllUserStatus (cl s) !! i = Some u /\ reports (kern (cl s)) (iSockFd u) events /\ has events EPOLLOUT = true
  | ClientReceives i events chunk => exists u k,
      m_pAllUserStatus (cl s) !! i = Some u /\ conns s !! i = Some k /\ reports (kern (cl s)) (iSockFd u) events /\
      has events EPOLLOUT = false /\ has events EPOLLIN = true /\ arrived (c_down k) chunk
  | ServerReceives i events chunk => exists k fd,
      conns s !! i = Some k /\ c_server k = Some fd /\ reports (EpollServer.kern (sv s)) fd events /\
      has events EPOLLIN = true /\ arrived (c_up k) chunk
  | ServerSends i events => exists k fd,
      conns s !! i = Some k /\ c_server k = Some fd /\ reports (EpollServer.kern (sv s)) fd events /\
      has events EPOLLIN = false /\ has events EPOLLOUT = true
  end.

(** The users have connected, on descriptors [fds]; the server has accepted none yet. *)
Definition starts (n : nat) (fds : list Z) (ofds sfds : gset Z) (s : system) : Prop :=
  exists c0, EpollClient n true (Kernel ofds ∅) = Ok c0 /\ connect_all 0 fds c0 = Ok (tt, cl s) /\
    sv s = EpollServer.Server (Kernel sfds ∅) [] /\ conns s = replicate n (Conn None [] []).

Inductive reachable (s0 : system) : system -> Prop :=
| reach_start : reachable s0 s0
| reach_move s m s' : reachable s0 s -> allowed m s -> perform m s = Ok s' -> reachable s0 s'.

(** ** What was sent and received *)

Definition sent_bytes (i : nat) (t : list Z) (l : list entry) : list Z :=
  l ≫= fun e => match e with Sent j => if decide (j = Z.of_nat i) then t else [] | _ => [] end.
Definition received_bytes (i : nat) (l : list entry) : list Z :=
  l ≫= fun e => match e with Received j m => if decide (j = Z.of_nat i) then m else [] | _ => [] end.
Definition got_bytes (fd : Z) (l : list EpollServer.entry) : list Z :=
  l ≫= fun e => match e with Got fd' m => if decide (fd' = fd) then m else [] | _ => [] end.
Definition replied_bytes (fd : Z) (l : list EpollServer.entry) : list Z :=
  l ≫= fun e => match e with Replied fd' => if decide (fd' = fd) then reply fd else [] | _ => [] end.

(** A connection in order.  The client waits for an answer and the server for a request
    only while bytes are under way. *)
Definition conn_ok (s : system) (i : nat) (u : UserStatus) (k : conn) : Prop :=
  iUserStatus u <> FREE /\ (cSendbuff u = hello i /\ iBuffLen u = Z.of_nat (length (text u))) /\
  match c_server k with
  | None =>
      c_down k = [] /\ iUserStatus u <> RECV_OK /\ (iUserStatus u = CONNECT_OK -> c_up k = []) /\
      c_up k = sent_bytes i (text u) (log (cl s)) /\ received_bytes i (log (cl s)) = []
  | Some fd =>
      (exists events, interest (EpollServer.kern (sv s)) !! fd = Some events /\ (events = READ_EVENTS \/ events = WRITE_EVENTS) /\
        (iUserStatus u = CONNECT_OK -> c_up k = [] /\ c_down k = [] /\ events = READ_EVENTS) /\
        (iUserStatus u = SEND_OK -> events = READ_EVENTS -> c_up k <> [] \/ c_down k <> [])) /\
      got_bytes fd (EpollServer.log (sv s)) ++ c_up k = sent_bytes i (text u) (log (cl s)) /\
      received_bytes i (log (cl s)) ++ c_down k = replied_bytes fd (EpollServer.log (sv s))
  end.

Record sys_inv (s : system) : Prop := {
  sy_client : client_inv (cl s);
  sy_server : server_inv (sv s);
  sy_length : length (conns s) = length (m_pAllUserStatus (cl s));
  sy_conn i u k : m_pAllUserStatus (cl s) !! i = Some u -> conns s !! i = Some k -> conn_ok s i u k;
  sy_distinct i j k k' fd : conns s !! i = Some k -> conns s !! j = Some k' ->
    c_server k = Some fd -> c_server k' = Some fd -> i = j;
}.

(** ** The handlers on an event that is in turn *)

Lemma server_receives v fd events chunk n :
  is_Some (interest (EpollServer.kern v) !! fd) -> has events EPOLLIN = true -> (0 < length chunk < BUFFER_SIZE)%nat ->
  EpollServer.run_event fd events (Some chunk) n v =
    Ok (tt, EpollServer.Server (Kernel (open_fds (EpollServer.kern v)) (<[fd := WRITE_EVENTS]> (interest (EpollServer.kern v))))
              (EpollServer.log v ++ [Got fd chunk])).
Proof.
  intros Hi Hin Hl. unfold EpollServer.run_event. rewrite Hin. destruct chunk as [|b chunk]; [simpl in Hl; lia|].
  assert (Hp : forall v, EpollServer.print_buffer (b :: chunk) v = Ok (tt, v)).
  { intros v'. unfold EpollServer.print_buffer. destruct (decide _); [done|]. by rewrite (proj2 (Nat.ltb_lt _ _)) by (unfold EpollServer.BUFFER_SIZE, BUFFER_SIZE in *; lia). }
  unfold mbind, M_bind, modify. rewrite Hp. unfold EpollServer.ctl_fd. cbn [EpollServer.kern EpollServer.add_log]. by rewrite mod_ok by done.
Qed.

Lemma server_sends v fd events received n :
  is_Some (interest (EpollServer.kern v) !! fd) -> has events EPOLLIN = false -> has events EPOLLOUT = true -> 0 < n ->
  EpollServer.run_event fd events received n v =
    Ok (tt, EpollServer.Server (Kernel (open_fds (EpollServer.kern v)) (<[fd := READ_EVENTS]> (interest (EpollServer.kern v))))
              (EpollServer.log v ++ [Replied fd])).
Proof.
  intros Hi Hin Hout Hn. unfold EpollServer.run_event. rewrite Hin, Hout, (proj2 (Z.leb_gt _ _)) by lia.
  unfold mbind, M_bind, modify, EpollServer.ctl_fd. cbn [EpollServer.kern EpollServer.add_log]. by rewrite mod_ok by done.
Qed.

Lemma server_accepts v fd :
  0 <= fd -> fd ∉ open_fds (EpollServer.kern v) -> kernel_ok (EpollServer.kern v) ->
  accept_client fd v =
    Ok (tt, EpollServer.Server (Kernel ({[fd]} ∪ open_fds (EpollServer.kern v)) (<[fd := READ_EVENTS]> (interest (EpollServer.kern v)))) (EpollServer.log v)).
Proof.
  intros Hfd Hn Hk. unfold accept_client. rewrite (proj2 (Z.ltb_ge _ _)) by done. unfold mbind, M_bind, modify, EpollServer.ctl_fd.
  cbn [EpollServer.kern EpollServer.set_kern opened open_fds interest]. rewrite add_ok; [done|simpl; set_solver|simpl; by apply kernel_ok_none].
Qed.

(** A user that is waited for. *)
Lemma client_sends c i u events received :
  client_inv c -> m_pAllUserStatus c !! i = Some u -> iUserStatus u = CONNECT_OK \/ iUserStatus u = RECV_OK ->
  has events EPOLLOUT = true -> 0 < iBuffLen u ->
  run_event (Event (iSockFd u) events (iBuffLen u) received) c =
    Ok (tt, Client (<[i := set_status SEND_OK u]> (m_pAllUserStatus c)) (m_iSockFd_UserId c)
              (Kernel (open_fds (kern c)) (<[iSockFd u := READ_EVENTS]> (interest (kern c)))) (buffer c) (log c ++ [Sent (Z.of_nat i)])).
Proof.
  intros Hc Hu Hst Hout Hl. assert (Hf : iUserStatus u <> FREE) by (by destruct Hst as [-> | ->]).
  destruct (user_fd c i u (ci_users _ Hc i u Hu) Hf) as (Hr & Hm & Hi).
  unfold run_event. cbn [e_fd e_events e_sent]. unfold user_of at 1, mbind, M_bind. rewrite Hr, Hm, Hout. cbn [default].
  assert (HS : SendToServerData (Z.of_nat i) (iBuffLen u) c =
    Ok (iBuffLen u, set_users (<[i := set_status SEND_OK u]> (m_pAllUserStatus c)) (add_log (Sent (Z.of_nat i)) c))).
  { unfold SendToServerData. rewrite (bind_ok _ _ _ _ _ (user_run c i u Hu)), decide_True by done. rewrite (proj2 (Z.ltb_ge _ _)) by lia.
    unfold mbind, M_bind, modify. by rewrite (update_user_run (add_log (Sent (Z.of_nat i)) c) i u) by done. }
  cbn [from_option id]. rewrite HS, (proj2 (Z.ltb_lt _ _)) by lia. unfold ctl_fd. cbn [kern set_users add_log]. by rewrite mod_ok by eauto.
Qed.

Lemma client_receives c i u events chunk n :
  client_inv c -> m_pAllUserStatus c !! i = Some u -> iUserStatus u = SEND_OK ->
  has events EPOLLOUT = false -> has events EPOLLIN = true -> (0 < length chunk < BUFFER_SIZE)%nat ->
  run_event (Event (iSockFd u) events n (Some chunk)) c =
    Ok (tt, Client (<[i := set_status RECV_OK u]> (m_pAllUserStatus c)) (<[iSockFd u := Z.of_nat i]> (m_iSockFd_UserId c))
              (Kernel (open_fds (kern c)) (<[iSockFd u := WRITE_EVENTS]> (interest (kern c)))) (chunk ++ drop (length chunk) (buffer c))
              (log c ++ [Received (Z.of_nat i) chunk])).
Proof.
  intros Hc Hu Hst Hout Hin Hl. assert (Hf : iUserStatus u <> FREE) by (by rewrite Hst).
  destruct (user_fd c i u (ci_users _ Hc i u Hu) Hf) as (Hr & Hm & Hi). destruct (ci_buffer _ Hc) as [Hbl Hb0].
  unfold run_event. cbn [e_fd e_events e_received]. unfold user_of at 1, mbind, M_bind. rewrite Hr, Hm, Hout, Hin. cbn [default from_option id].
  destruct chunk as [|b chunk]; [simpl in Hl; lia|]. set (buf := (b :: chunk) ++ drop (length (b :: chunk)) (buffer c)).
  assert (H0 : 0 ∈ buf).
  { apply list_elem_of_lookup. exists (BUFFER_SIZE - 1)%nat. unfold buf. rewrite lookup_app_r by lia. rewrite lookup_drop, <- Hb0. f_equal. lia. }
  assert (HR : RecvFromServer (Z.of_nat i) (Some (b :: chunk)) c =
    Ok (Z.of_nat (length (b :: chunk)), set_users (<[i := set_status RECV_OK u]> (m_pAllUserStatus c)) (add_log (Received (Z.of_nat i) (b :: chunk)) (set_buffer buf c)))).
  { unfold RecvFromServer. rewrite (bind_ok _ _ _ _ _ (user_run c i u Hu)), decide_True by done.
    unfold mbind, M_bind, modify, print_buffer, get. fold buf. cbn [buffer set_buffer].
    unfold mbind, M_bind. cbn [buffer set_buffer]. rewrite decide_True by done. unfold mret, M_ret.
    by rewrite (update_user_run (add_log (Received (Z.of_nat i) (b :: chunk)) (set_buffer buf c)) i u) by done. }
  rewrite HR. rewrite (proj2 (Z.ltb_lt _ _)) by (simpl; lia). unfold set_user_of. rewrite Hr. unfold ctl_fd. cbn [kern set_map set_users add_log set_buffer].
  by rewrite mod_ok by eauto.
Qed.

(** ** Every move keeps the connections in order *)

Lemma alter_at {A} (f : A -> A) (l : list A) : forall i k, l !! i = Some k -> alter f i l = <[i := f k]> l.
Proof. induction l as [|x l IH]; intros [|i] k E; simplify_eq/=; [done|]. f_equal. by apply IH. Qed.

Lemma sent_bytes_app i t l l' : sent_bytes i t (l ++ l') = sent_bytes i t l ++ sent_bytes i t l'.
Proof. apply bind_app. Qed.
Lemma received_bytes_app i l l' : received_bytes i (l ++ l') = received_bytes i l ++ received_bytes i l'.
Proof. apply bind_app. Qed.
Lemma got_bytes_app fd l l' : got_bytes fd (l ++ l') = got_bytes fd l ++ got_bytes fd l'.
Proof. apply bind_app. Qed.
Lemma replied_bytes_app fd l l' : replied_bytes fd (l ++ l') = replied_bytes fd l ++ replied_bytes fd l'.
Proof. apply bind_app. Qed.

(** Nothing was received or sent on a descriptor that has had no turn. *)
Lemma no_turns fd l : EpollServer.turns fd l = [] -> got_bytes fd l = [] /\ replied_bytes fd l = [].
Proof.
  induction l as [|[fd' m|fd'] l IH]; [done|..]; unfold EpollServer.turns, got_bytes, replied_bytes in *; simpl; case_decide; try done; intros H;
    destruct (IH H) as [-> ->]; done.
Qed.

(** What a connection needs of the rest of the system. *)
Lemma conn_ok_frame s s' j u k :
  conn_ok s j u k ->
  sent_bytes j (text u) (log (cl s')) = sent_bytes j (text u) (log (cl s)) ->
  received_bytes j (log (cl s')) = received_bytes j (log (cl s)) ->
  (forall fd, c_server k = Some fd ->
    interest (EpollServer.kern (sv s')) !! fd = interest (EpollServer.kern (sv s)) !! fd /\
    got_bytes fd (EpollServer.log (sv s')) = got_bytes fd (EpollServer.log (sv s)) /\
    replied_bytes fd (EpollServer.log (sv s')) = replied_bytes fd (EpollServer.log (sv s))) ->
  conn_ok s' j u k.
Proof.
  intros (Hf & Hl & Hk) Es Er Hfd. split; [done|]. split; [done|]. destruct (c_server k) as [fd|]; [|by rewrite Es, Er].
  destruct (Hfd fd eq_refl) as (-> & -> & ->). by rewrite Es, Er.
Qed.

Lemma sys_inv_move s s' i u k v k' :
  sys_inv s -> m_pAllUserStatus (cl s) !! i = Some u -> conns s !! i = Some k ->
  m_pAllUserStatus (cl s') = <[i := v]> (m_pAllUserStatus (cl s)) -> conns s' = <[i := k']> (conns s) ->
  client_inv (cl s') -> server_inv (sv s') -> conn_ok s' i v k' ->
  (c_server k' = c_server k \/ exists fd, c_server k' = Some fd /\ interest (EpollServer.kern (sv s)) !! fd = None) ->
  (forall j w q, j <> i -> m_pAllUserStatus (cl s) !! j = Some w -> conns s !! j = Some q -> conn_ok s j w q -> conn_ok s' j w q) ->
  sys_inv s'.
Proof.
  intros [Hc Hv Hlen Hok Hd] Hu Hk Eu Ek Hc' Hv' Hi Hnew Hoth. split; [done|done| | |].
  - rewrite Eu, Ek, !length_insert. done.
  - intros j w q Hw Hq. rewrite Eu in Hw. rewrite Ek in Hq. destruct (decide (j = i)) as [->|Hne].
    + rewrite list_lookup_insert_eq in Hw by (by eapply lookup_lt_Some). rewrite list_lookup_insert_eq in Hq by (by eapply lookup_lt_Some). by simplify_eq.
    + rewrite list_lookup_insert_ne in Hw by done. rewrite list_lookup_insert_ne in Hq by done. apply Hoth; [done..|]. by apply Hok.
  - assert (Hfresh : forall j q fd, j <> i -> conns s !! j = Some q -> c_server q = Some fd -> c_server k' <> Some fd).
    { intros j q fd Hne Hq Hs Hs'. destruct Hnew as [E|(fd' & E & Hnone)].
      - apply Hne. apply (Hd j i q k fd); [done..|congruence].
      - assert (fd' = fd) as -> by congruence. destruct (lookup_lt_is_Some_2 (m_pAllUserStatus (cl s)) j) as [w Hw];
          [rewrite <- Hlen; by eapply lookup_lt_Some|]. destruct (Hok j w q Hw Hq) as (_ & _ & Hs2). rewrite Hs in Hs2.
        destruct Hs2 as ((ev & Hev & _) & _). congruence. }
    intros j j' q q' fd Hq Hq' Hs Hs'. rewrite Ek in Hq, Hq'.
    destruct (decide (j = i)) as [->|Hne], (decide (j' = i)) as [->|Hne']; [done|..].
    + rewrite list_lookup_insert_eq in Hq by (by eapply lookup_lt_Some). rewrite list_lookup_insert_ne in Hq' by done. simplify_eq. by destruct (Hfresh j' q' fd).
    + rewrite list_lookup_insert_ne in Hq by done. rewrite list_lookup_insert_eq in Hq' by (by eapply lookup_lt_Some). simplify_eq. by destruct (Hfresh j q fd).
    + rewrite list_lookup_insert_ne in Hq by done. rewrite list_lookup_insert_ne in Hq' by done. by eapply Hd.
Qed.

Lemma wp_ok {S A} (c : M S A) Q s a s' : wp c Q s -> c s = Ok (a, s') -> Q a s'.
Proof. unfold wp. by intros H E; rewrite E in H. Qed.

Lemma text_not_nil u : text u <> [].
Proof. unfold text. by destruct (bytes_of _). Qed.

Lemma reply_length fd : (0 < length (reply fd))%nat.
Proof. unfold reply. rewrite !length_app. simpl. lia. Qed.

(** *** The moves *)

Definition moves_to (m : move) (s : system) : Prop := exists s', perform m s = Ok s' /\ sys_inv s'.

Lemma clears_ok s : sys_inv s -> moves_to Clears s.
Proof.
  intros [Hc Hv Hlen Hok Hd]. eexists. split; [reflexivity|]. split; simpl; [|done..]. by apply client_inv_buffer; [|apply zeroed].
Qed.

Lemma accepts_ok s i fd : sys_inv s -> allowed (Accepts i fd) s -> moves_to (Accepts i fd) s.
Proof.
  intros Hs (Hfd & Hopen & k & Hk & Hnone). pose proof Hs as [Hc Hv Hlen Hok Hd]. pose proof (si_kernel _ Hv) as Hkern.
  destruct (lookup_lt_is_Some_2 (m_pAllUserStatus (cl s)) i) as [u Hu]; [rewrite <- Hlen; by eapply lookup_lt_Some|].
  pose proof (server_accepts (sv s) fd Hfd Hopen Hkern) as E. pose proof (wp_ok _ _ _ _ _ (accept_client_ok (sv s) fd Hv Hopen) E) as [Hv' _].
  assert (Hint : interest (EpollServer.kern (sv s)) !! fd = None) by (by apply kernel_ok_none).
  assert (Ht : EpollServer.turns fd (EpollServer.log (sv s)) = []).
  { destruct (EpollServer.turns fd _) eqn:Et; [done|]. destruct Hopen. apply (si_known _ Hv). by rewrite Et. }
  destruct (no_turns fd _ Ht) as [Hgot Hrep].
  eexists. split; [cbn [perform]; rewrite E; reflexivity|]. rewrite (alter_at _ _ i k Hk).
  eapply (sys_inv_move s _ i u k u); try done.
  - cbn [cl]. by rewrite list_insert_id.
  - destruct (Hok i u k Hu Hk) as (Hf & Hl & Hcn). rewrite Hnone in Hcn. destruct Hcn as (Hdown & Hr & Hup & Hsent & Hrecv).
    split; [done|]. split; [done|]. cbn [c_server c_up c_down sv cl EpollServer.kern EpollServer.log interest]. rewrite lookup_insert_eq, Hgot, Hrep, Hdown, Hrecv.
    split; [|by split]. exists READ_EVENTS. split; [done|]. split; [by left|]. split; [intros Est; by rewrite (Hup Est)|].
    intros Est _. left. rewrite Hsent. intros E0. destruct (ci_users _ Hc i u Hu) as [Hdone _]. rewrite Est in Hdone. destruct Hdone as [n Hn].
    assert (Hs0 : forall l, sent_bytes i (text u) l = [] -> turns (Z.of_nat i) l = replicate (length (turns (Z.of_nat i) l)) false).
    { clear. induction l as [|[j|j m] l IH]; [done|..]; unfold sent_bytes, turns in *; simpl; case_decide; simpl; try done.
      - intros Ea. apply app_eq_nil in Ea as [Ea _]. by destruct (text_not_nil u).
      - intros Ea. f_equal. by apply IH. }
    specialize (Hs0 _ E0). rewrite Hn in Hs0. assert (Hin : true ∈ rounds n ++ [true]) by set_solver. rewrite Hs0 in Hin.
    apply elem_of_replicate in Hin as [? _]. done.
  - right. by exists fd.
  - intros j w q Hne Hw Hq Hcq. eapply conn_ok_frame; [exact Hcq|done|done|]. intros fd' Hs'. cbn [sv EpollServer.kern EpollServer.log interest].
    split; [|done]. rewrite lookup_insert_ne; [done|]. intros <-. destruct Hcq as (_ & _ & Hcq). rewrite Hs' in Hcq. destruct Hcq as ((ev & Hev & _) & _). congruence.
Qed.

(** What the moves log of their own connection, and not of another. *)
Lemma sent_bytes_one i j t : sent_bytes i t [Sent (Z.of_nat j)] = if decide (j = i) then t else [].
Proof. unfold sent_bytes. simpl. rewrite app_nil_r. repeat case_decide; try done; lia. Qed.
Lemma received_bytes_one i j m : received_bytes i [Received (Z.of_nat j) m] = if decide (j = i) then m else [].
Proof. unfold received_bytes. simpl. rewrite app_nil_r. repeat case_decide; try done; lia. Qed.
Lemma got_bytes_one fd fd' m : got_bytes fd [Got fd' m] = if decide (fd' = fd) then m else [].
Proof. unfold got_bytes. simpl. by rewrite app_nil_r. Qed.
Lemma replied_bytes_one fd fd' : replied_bytes fd [Replied fd'] = if decide (fd' = fd) then reply fd else [].
Proof. unfold replied_bytes. simpl. by rewrite app_nil_r. Qed.

Lemma received_bytes_sent i l j : received_bytes i (l ++ [Sent j]) = received_bytes i l.
Proof. rewrite received_bytes_app. apply app_nil_r. Qed.
Lemma sent_bytes_received i t l j m : sent_bytes i t (l ++ [Received j m]) = sent_bytes i t l.
Proof. rewrite sent_bytes_app. apply app_nil_r. Qed.
Lemma replied_bytes_got fd l fd' m : replied_bytes fd (l ++ [Got fd' m]) = replied_bytes fd l.
Proof. rewrite replied_bytes_app. apply app_nil_r. Qed.
Lemma got_bytes_replied fd l fd' : got_bytes fd (l ++ [Replied fd']) = got_bytes fd l.
Proof. rewrite got_bytes_app. apply app_nil_r. Qed.

(** The user of an event that is reported, and its state. *)
Lemma event_user s i u events :
  sys_inv s -> m_pAllUserStatus (cl s) !! i = Some u -> reports (kern (cl s)) (iSockFd u) events ->
  exists k, conns s !! i = Some k /\ conn_ok s i u k /\ interest (kern (cl s)) !! iSockFd u = Some (awaits (iUserStatus u)) /\ 0 < iBuffLen u.
Proof.
  intros [Hc Hv Hlen Hok Hd] Hu Hrep. destruct (lookup_lt_is_Some_2 (conns s) i) as [k Hk]; [rewrite Hlen; by eapply lookup_lt_Some|].
  pose proof (Hok i u k Hu Hk) as Hcn. exists k. split; [done|]. split; [done|]. destruct Hcn as (Hf & Hl & _).
  destruct (user_fd _ i u (ci_users _ Hc i u Hu) Hf) as (_ & _ & Hi). split; [done|]. destruct Hl as [_ ->]. pose proof (text_not_nil u). destruct (text u); [done|simpl; lia].
Qed.

Lemma client_sends_ok s i events : sys_inv s -> allowed (ClientSends i events) s -> moves_to (ClientSends i events) s.
Proof.
  intros Hs (u & Hu & Hrep & Hout). pose proof Hs as [Hc Hv Hlen Hok Hd].
  destruct (event_user s i u events Hs Hu Hrep) as (k & Hk & (Hf & Hl & Hcn) & Hi & Hpos).
  assert (Hst : iUserStatus u = CONNECT_OK \/ iUserStatus u = RECV_OK).
  { destruct (iUserStatus u) eqn:Est; [done|by left| |by right]. by rewrite (reports_not _ _ _ _ _ Hrep Hi) in Hout. }
  pose proof (client_sends (cl s) i u events None Hc Hu Hst Hout Hpos) as E.
  assert (Hlen' : forall msg, e_received (Event (iSockFd u) events (iBuffLen u) None) = Some msg -> (length msg < BUFFER_SIZE)%nat) by done.
  pose proof (wp_ok _ _ _ _ _ (run_event_turn (cl s) (Event (iSockFd u) events (iBuffLen u) None) Hc Hrep Hlen') E) as [Hc' _].
  eexists. split; [cbn [perform]; unfold client_event; rewrite Hu, E; reflexivity|]. rewrite (alter_at _ _ i k Hk).
  eapply (sys_inv_move s _ i u k (set_status SEND_OK u)); try done; [|by left|].
  - split; [done|]. split; [done|]. cbn [c_server c_up c_down sv cl log]. change (text (set_status SEND_OK u)) with (text u).
    rewrite received_bytes_sent, sent_bytes_app, sent_bytes_one, decide_True by done.
    destruct (c_server k) as [fd|].
    + destruct Hcn as ((ev & Hev & Hrw & _ & _) & Hg & Hr). rewrite app_assoc, Hg. split; [|done]. exists ev. split; [done|]. split; [done|]. split; [done|].
      intros _ _. left. intros [_ ?]%app_eq_nil. by destruct (text_not_nil u).
    + destruct Hcn as (H1 & H2 & H3 & H4 & H5). rewrite H4. done.
  - intros j w q Hne Hw Hq Hcq. eapply conn_ok_frame; [exact Hcq| | |done]; cbn [cl log].
    + by rewrite sent_bytes_app, sent_bytes_one, decide_False, app_nil_r by done.
    + apply received_bytes_sent.
Qed.

Lemma client_receives_ok s i events chunk :
  sys_inv s -> allowed (ClientReceives i events chunk) s -> moves_to (ClientReceives i events chunk) s.
Proof.
  intros Hs (u & k & Hu & Hk & Hrep & Hout & Hin & [rest Hdown] & Hlc). pose proof Hs as [Hc Hv Hlen Hok Hd].
  destruct (event_user s i u events Hs Hu Hrep) as (k' & Hk' & (Hf & Hl & Hcn) & Hi & Hpos). assert (k' = k) as -> by congruence.
  assert (Hne : c_down k <> []) by (rewrite Hdown; destruct chunk; [simpl in Hlc; lia|done]).
  destruct (c_server k) as [fd|] eqn:Esv; [|by destruct Hcn as (? & _)].
  destruct Hcn as ((ev & Hev & Hrw & Hco & Hsend) & Hg & Hr).
  assert (Hst : iUserStatus u = SEND_OK).
  { destruct (iUserStatus u) eqn:Est; [done|by destruct (Hco eq_refl) as (_ & ? & _)|done|].
    by rewrite (reports_not _ _ _ _ _ Hrep Hi) in Hin. }
  pose proof (client_receives (cl s) i u events chunk 0 Hc Hu Hst Hout Hin Hlc) as E.
  assert (Hlen' : forall msg, e_received (Event (iSockFd u) events 0 (Some chunk)) = Some msg -> (length msg < BUFFER_SIZE)%nat)
    by (intros msg [= <-]; apply Hlc).
  pose proof (wp_ok _ _ _ _ _ (run_event_turn (cl s) (Event (iSockFd u) events 0 (Some chunk)) Hc Hrep Hlen') E) as [Hc' _].
  eexists. split; [cbn [perform]; unfold client_event; rewrite Hu, E; reflexivity|]. rewrite (alter_at _ _ i k Hk).
  eapply (sys_inv_move s _ i u k (set_status RECV_OK u)); try done; [|by left|].
  - split; [done|]. split; [done|]. cbn [c_server c_up c_down sv cl log]. change (text (set_status RECV_OK u)) with (text u).
    rewrite Esv, sent_bytes_received, received_bytes_app, received_bytes_one, decide_True by done.
    rewrite Hdown, drop_app_length, <- app_assoc, <- Hdown. split; [|done]. exists ev. split; [done|]. split; [done|]. split; done.
  - intros j w q Hj Hw Hq Hcq. eapply conn_ok_frame; [exact Hcq| | |done]; cbn [cl log].
    + apply sent_bytes_received.
    + by rewrite received_bytes_app, received_bytes_one, decide_False, app_nil_r by done.
Qed.

Lemma server_receives_ok s i events chunk :
  sys_inv s -> allowed (ServerReceives i events chunk) s -> moves_to (ServerReceives i events chunk) s.
Proof.
  intros Hs (k & fd & Hk & Esv & Hrep & Hin & [rest Hup] & Hlc). pose proof Hs as [Hc Hv Hlen Hok Hd].
  destruct (lookup_lt_is_Some_2 (m_pAllUserStatus (cl s)) i) as [u Hu]; [rewrite <- Hlen; by eapply lookup_lt_Some|].
  destruct (Hok i u k Hu Hk) as (Hf & Hl & Hcn). rewrite Esv in Hcn. destruct Hcn as ((ev & Hev & Hrw & Hco & Hsend) & Hg & Hr).
  assert (Hne : c_up k <> []) by (rewrite Hup; destruct chunk; [simpl in Hlc; lia|done]).
  assert (Hsome : is_Some (interest (EpollServer.kern (sv s)) !! fd)) by eauto.
  pose proof (server_receives (sv s) fd events chunk 0 Hsome Hin Hlc) as E.
  assert (Hposs : EpollServer.possible (sv s) (EpollServer.Event fd events (Some chunk) 0)) by (split; [done|]; intros msg [= <-]; apply Hlc).
  pose proof (wp_ok _ _ _ _ _ (EpollServer.run_event_ok (sv s) fd events (Some chunk) 0 Hv Hposs) E) as [Hv' _].
  eexists. split; [cbn [perform]; unfold server_event; rewrite Hk; cbn [mbind option_bind]; rewrite Esv; change (Z.of_nat (length [])) with 0; rewrite E; reflexivity|].
  rewrite (alter_at _ _ i k Hk). eapply (sys_inv_move s _ i u k u); try done.
  - cbn [cl]. by rewrite list_insert_id.
  - split; [done|]. split; [done|]. cbn [c_server c_up c_down sv cl EpollServer.kern EpollServer.log interest default]. rewrite Esv, lookup_insert_eq.
    rewrite replied_bytes_got, got_bytes_app, got_bytes_one, decide_True, app_nil_r by done. cbn [from_option id]. rewrite Hup, drop_app_length, <- app_assoc, <- Hup.
    split; [|done]. exists WRITE_EVENTS. split; [done|]. split; [by right|]. split; [intros Est; by destruct (Hco Est) as (? & _)|done].
  - by left.
  - intros j w q Hj Hw Hq Hcq. eapply conn_ok_frame; [exact Hcq|done|done|]. intros fd' Hs'. cbn [sv EpollServer.kern EpollServer.log interest].
    assert (Hdf : fd <> fd') by (intros <-; apply Hj; by apply (Hd j i q k fd)).
    rewrite lookup_insert_ne, replied_bytes_got, got_bytes_app, got_bytes_one, decide_False, app_nil_r by done. done.
Qed.

Lemma server_sends_ok s i events : sys_inv s -> allowed (ServerSends i events) s -> moves_to (ServerSends i events) s.
Proof.
  intros Hs (k & fd & Hk & Esv & Hrep & Hin & Hout). pose proof Hs as [Hc Hv Hlen Hok Hd].
  destruct (lookup_lt_is_Some_2 (m_pAllUserStatus (cl s)) i) as [u Hu]; [rewrite <- Hlen; by eapply lookup_lt_Some|].
  destruct (Hok i u k Hu Hk) as (Hf & Hl & Hcn). rewrite Esv in Hcn. destruct Hcn as ((ev & Hev & Hrw & Hco & Hsend) & Hg & Hr).
  assert (Hsome : is_Some (interest (EpollServer.kern (sv s)) !! fd)) by eauto. pose proof (reply_length fd) as Hrl.
  pose proof (server_sends (sv s) fd events None (Z.of_nat (length (reply fd))) Hsome Hin Hout ltac:(lia)) as E.
  assert (Hposs : EpollServer.possible (sv s) (EpollServer.Event fd events None (Z.of_nat (length (reply fd))))) by done.
  pose proof (wp_ok _ _ _ _ _ (EpollServer.run_event_ok (sv s) fd events None _ Hv Hposs) E) as [Hv' _].
  eexists. split; [cbn [perform]; unfold server_event; rewrite Hk; cbn [mbind option_bind]; rewrite Esv, E; reflexivity|].
  rewrite (alter_at _ _ i k Hk). eapply (sys_inv_move s _ i u k u); try done.
  - cbn [cl]. by rewrite list_insert_id.
  - split; [done|]. split; [done|]. cbn [c_server c_up c_down sv cl EpollServer.kern EpollServer.log interest default from_option id length]. rewrite Esv, lookup_insert_eq, drop_0.
    rewrite got_bytes_replied, replied_bytes_app, replied_bytes_one, decide_True by done. rewrite app_assoc, Hr.
    split; [|done]. exists READ_EVENTS. split; [done|]. split; [by left|]. split.
    + intros Est. destruct (Hco Est) as (_ & _ & ->). by rewrite (reports_not _ _ _ _ _ Hrep Hev) in Hout.
    + intros _ _. right. intros [_ E0]%app_eq_nil. rewrite E0 in Hrl. simpl in Hrl. lia.
  - by left.
  - intros j w q Hj Hw Hq Hcq. eapply conn_ok_frame; [exact Hcq|done|done|]. intros fd' Hs'. cbn [sv EpollServer.kern EpollServer.log interest].
    assert (Hdf : fd <> fd') by (intros <-; apply Hj; by apply (Hd j i q k fd)).
    rewrite lookup_insert_ne, got_bytes_replied, replied_bytes_app, replied_bytes_one, decide_False, app_nil_r by done. done.
Qed.

Lemma move_ok s m : sys_inv s -> allowed m s -> moves_to m s.
Proof.
  destruct m; [intros Hs _; by apply clears_ok|apply accepts_ok|apply client_sends_ok|apply client_receives_ok|apply server_receives_ok|apply server_sends_ok].
Qed.

(** ** The start *)

Lemma connect_user_run c i u fd :
  client_inv c -> m_pAllUserStatus c !! i = Some u -> in_range fd = true -> fd ∉ open_fds (kern c) ->
  exists m k, connect_user (Z.of_nat i) fd c =
    Ok (tt, Client (<[i := set_events ALL_EVENTS (set_status CONNECT_OK (set_sockfd fd u))]> (m_pAllUserStatus c)) m k (buffer c) (log c)).
Proof.
  intros Hc Hu Hr Hfd. assert (Hpos : 0 <= fd) by (unfold in_range in Hr; destruct (Z.leb_spec 0 fd); [done|by simpl in Hr]).
  assert (Hlt : (i < length (m_pAllUserStatus c))%nat) by (by eapply lookup_lt_Some).
  assert (Hat : forall c' l v f, m_pAllUserStatus c' = <[i := v]> l -> (i < length l)%nat ->
    update_user (Z.of_nat i) f c' = Ok (tt, set_users (<[i := f v]> l) c')).
  { intros c' l v f E Hl. rewrite (update_user_run c' i v) by (rewrite E; by apply list_lookup_insert_eq). by rewrite E, list_insert_insert_eq. }
  unfold connect_user, ConnectToServer. unfold mbind, M_bind. rewrite (update_user_run c i u) by done. rewrite (proj2 (Z.ltb_ge _ _)) by done.
  unfold modify. erewrite Hat by (reflexivity || done).
  erewrite user_run by (cbn; by apply list_lookup_insert_eq). unfold mret, M_ret. cbn [iSockFd set_status set_sockfd].
  unfold set_user_of. rewrite Hr. erewrite Hat by (reflexivity || done). unfold ctl_fd. cbn [kern].
  destruct (epoll_ctl _ _ _ _) as [r k']. by eexists _, _.
Qed.

Lemma connect_all_users fds : forall i c c',
  client_inv c -> log c = [] -> NoDup fds -> Forall (fun fd => in_range fd = true /\ fd ∉ open_fds (kern c)) fds ->
  (forall j, (i <= j < i + length fds)%nat -> m_pAllUserStatus c !! j = Some (new_user j)) ->
  connect_all (Z.of_nat i) fds c = Ok (tt, c') ->
  client_inv c' /\ log c' = [] /\ length (m_pAllUserStatus c') = length (m_pAllUserStatus c) /\
  (forall j, (j < i)%nat -> m_pAllUserStatus c' !! j = m_pAllUserStatus c !! j) /\
  (forall j, (i <= j < i + length fds)%nat -> exists u, m_pAllUserStatus c' !! j = Some u /\ iUserStatus u = CONNECT_OK /\
    cSendbuff u = hello j /\ iBuffLen u = Z.of_nat (length (text u))).
Proof.
  induction fds as [|fd fds IH]; intros i c c' Hc Hl Hnd Hfds Hus E.
  { simpl in E. injection E as <-. do 4 (split; [done|]). intros j Hj. simpl in Hj. lia. }
  apply NoDup_cons in Hnd as [Hn Hnd]. apply Forall_cons in Hfds as [[Hr Ho] Hfds].
  pose proof (Hus i ltac:(simpl; lia)) as Hu. destruct (connect_user_run c i (new_user i) fd Hc Hu Hr Ho) as (m & k & E1).
  set (c1 := Client _ m k _ _) in E1.
  pose proof (wp_ok _ _ _ _ _ (connect_user_ok c i (new_user i) fd Hc Hu eq_refl ltac:(by rewrite Hl) Hr Ho) E1) as (Hc1 & Ho1 & Hl1 & _).
  cbn [connect_all] in E. rewrite (bind_ok _ _ _ _ _ E1) in E. replace (Z.of_nat i + 1) with (Z.of_nat (S i)) in E by lia.
  destruct (IH (S i) c1 c' Hc1 ltac:(congruence) Hnd) as (H1 & H2 & H3 & H4 & H5); [| |exact E|].
  - rewrite Forall_forall in *. intros fd' Hfd'. destruct (Hfds fd' Hfd') as [Hr' Hn']. split; [done|]. rewrite Ho1. set_solver.
  - intros j Hj. unfold c1. cbn [m_pAllUserStatus]. rewrite list_lookup_insert_ne by lia. apply Hus. simpl. lia.
  - split; [done|]. split; [done|]. split; [rewrite H3; unfold c1; cbn [m_pAllUserStatus]; by rewrite length_insert|]. split.
    + intros j Hj. rewrite H4 by lia. unfold c1. cbn [m_pAllUserStatus]. by rewrite list_lookup_insert_ne by lia.
    + intros j Hj. simpl in Hj. destruct (decide (j = i)) as [->|Hne]; [|apply H5; lia].
      eexists. split; [rewrite H4 by lia; unfold c1; cbn [m_pAllUserStatus]; apply list_lookup_insert_eq; by eapply lookup_lt_Some|].
      split; [done|]. split; [done|]. unfold text. cbn [iBuffLen cSendbuff set_events set_status set_sockfd new_user].
      rewrite length_app, Nat2Z.inj_add. unfold bytes_of. rewrite length_fmap. f_equal. f_equal.
      generalize (hello i). intros x. induction x as [|a x IHx]; [done|]. simpl. by rewrite IHx.
Qed.

Definition created (n : nat) (ofds : gset Z) : client := Client (new_user <$> seq 0 n) ∅ (Kernel ofds ∅) (replicate BUFFER_SIZE 0) [].

Lemma sys_created_inv n ofds : client_inv (created n ofds).
Proof.
  split; [intros fd [ev E]; simpl in E; by rewrite lookup_empty in E|apply zeroed| |].
  - intros i u Hu. simpl in Hu. apply list_lookup_fmap_Some in Hu as (j & -> & Hj). split; simpl; [exists 0%nat; by left|done].
  - intros fd [ev E]. simpl in E. by rewrite lookup_empty in E.
Qed.

Lemma server_start_inv sfds : server_inv (EpollServer.Server (Kernel sfds ∅) []).
Proof. split; simpl; [intros fd [ev E]; simpl in E; by rewrite lookup_empty in E|intros fd ev E; by rewrite lookup_empty in E|done]. Qed.

Lemma perform_length m s s' : perform m s = Ok s' -> length (conns s') = length (conns s).
Proof.
  destruct m; cbn [perform]; unfold client_event, server_event, mbind, outcome_bind; intros E; repeat (case_match; try discriminate E);
    injection E as <-; cbn [conns]; by rewrite ?length_alter.
Qed.

Lemma sys_start_inv n fds ofds sfds s0 :
  length fds = n -> NoDup fds -> Forall (fun fd => in_range fd = true /\ fd ∉ ofds) fds -> starts n fds ofds sfds s0 -> sys_inv s0.
Proof.
  intros Hn Hnd Hfds (c0 & Ec & E & Hsv & Hcs). assert (c0 = created n ofds) as -> by (by injection Ec).
  destruct (connect_all_users fds 0 (created n ofds) (cl s0) (sys_created_inv n ofds) eq_refl Hnd Hfds) as (Hc & Hl & Hlen & _ & Hus); [|exact E|].
  { intros j Hj. unfold created. cbn [m_pAllUserStatus]. rewrite list_lookup_fmap, lookup_seq_lt by lia. done. }
  unfold created in Hlen. cbn [m_pAllUserStatus] in Hlen. rewrite length_fmap, length_seq in Hlen. split.
  - done.
  - rewrite Hsv. apply server_start_inv.
  - by rewrite Hcs, length_replicate, Hlen.
  - intros i u k Hu Hk. rewrite Hcs in Hk. apply lookup_replicate in Hk as [-> Hi].
    destruct (Hus i) as (u' & Hu' & Hst & Htx & Hb); [lia|]. simplify_eq. split; [by rewrite Hst|]. split; [done|]. cbn [c_server c_down c_up].
    rewrite Hl. split; [done|]. split; [by rewrite Hst|]. done.
  - intros i j k k' fd Hk _ Hs. rewrite Hcs in Hk. apply lookup_replicate in Hk as [-> _]. done.
Qed.

Lemma sys_reachable_inv s0 s : sys_inv s0 -> reachable s0 s -> sys_inv s.
Proof.
  intros H0 Hr. induction Hr as [|s m s' Hr IH Ha E]; [done|]. destruct (move_ok s m IH Ha) as (s1 & E1 & H1). rewrite E1 in E. by simplify_eq.
Qed.

(** ** No connection comes to a stop *)

(** The connection a move is about. *)
Definition about (m : move) : option nat :=
  match m with
  | Clears => None
  | Accepts i _ | ClientSends i _ | ClientReceives i _ _ | ServerReceives i _ _ | ServerSends i _ => Some i
  end.

Lemma new_descriptor (X : gset Z) : exists fd, 0 <= fd /\ fd ∉ X.
Proof.
  exists (Z.of_nat (fresh (fin_sets.set_map Z.to_nat X : gset nat))). split; [lia|]. intros Hin.
  apply (is_fresh (fin_sets.set_map Z.to_nat X : gset nat)). apply elem_of_map. eexists. split; [|exact Hin]. by rewrite Nat2Z.id.
Qed.

Lemma first_byte q : q <> [] -> arrived q (take 1 q).
Proof. intros Hq. destruct q as [|b q]; [done|]. split; [by exists q|]. simpl. unfold BUFFER_SIZE. lia. Qed.

Lemma can_move s i : sys_inv s -> (i < length (conns s))%nat -> exists m, about m = Some i /\ allowed m s.
Proof.
  intros [Hc Hv Hlen Hok Hd] Hi. destruct (lookup_lt_is_Some_2 (conns s) i Hi) as [k Hk].
  destruct (lookup_lt_is_Some_2 (m_pAllUserStatus (cl s)) i) as [u Hu]; [by rewrite <- Hlen|].
  destruct (Hok i u k Hu Hk) as (Hf & _ & Hcn). destruct (user_fd _ i u (ci_users _ Hc i u Hu) Hf) as (_ & _ & Hint).
  destruct (c_server k) as [fd|] eqn:Esv.
  2: { destruct (new_descriptor (open_fds (EpollServer.kern (sv s)))) as (fd & Hfd & Hnew). exists (Accepts i fd). split; [done|]. split; [done|]. split; [done|]. by exists k. }
  destruct Hcn as ((ev & Hev & [-> | ->] & Hco & Hsend) & _ & _).
  2: { exists (ServerSends i EPOLLOUT). split; [done|]. exists k, fd. split_and!; try done. by exists WRITE_EVENTS. }
  assert (Hcs : iUserStatus u <> SEND_OK -> exists m, about m = Some i /\ allowed m s).
  { intros Hns. exists (ClientSends i EPOLLOUT). split; [done|]. exists u. split; [done|]. split; [|done]. exists (awaits (iUserStatus u)). split; [done|].
    by destruct (iUserStatus u). }
  destruct (decide (iUserStatus u = SEND_OK)) as [Est|Hns]; [|by apply Hcs].
  destruct (Hsend Est eq_refl) as [Hq|Hq].
  - exists (ServerReceives i EPOLLIN (take 1 (c_up k))). split; [done|]. exists k, fd. split_and!; try done; [by exists READ_EVENTS|by apply first_byte].
  - exists (ClientReceives i EPOLLIN (take 1 (c_down k))). split; [done|]. exists u, k. split_and!; try done; [|by apply first_byte].
    rewrite Est in Hint. by exists READ_EVENTS.
Qed.

(** C9: the epoll client and server together, over every interleaving and however the
    bytes of a message are split or run together, as long as no [recv] fills its buffer:
    no event makes a handler fault and no user is ever dropped; on every connection
    something can always happen next, so no connection comes to a stop; and the server has
    received of each user, in order and without loss, the texts the user has sent, up to the
    bytes under way, and the user the answers the server has given. *)
Theorem epoll_session n fds ofds sfds s0 s :
  length fds = n -> NoDup fds -> Forall (fun fd => in_range fd = true /\ fd ∉ ofds) fds ->
  starts n fds ofds sfds s0 -> reachable s0 s ->
  (forall m, allowed m s -> exists s', perform m s = Ok s') /\
  (forall i, (i < n)%nat -> exists m, about m = Some i /\ allowed m s) /\
  (forall i, (i < n)%nat -> exists u k, m_pAllUserStatus (cl s) !! i = Some u /\ conns s !! i = Some k /\
    iUserStatus u <> FREE /\ text u = bytes_of (hello i) ++ [0] /\
    match c_server k with
    | None => c_up k = sent_bytes i (text u) (log (cl s)) /\ received_bytes i (log (cl s)) = [] /\ c_down k = []
    | Some fd => got_bytes fd (EpollServer.log (sv s)) ++ c_up k = sent_bytes i (text u) (log (cl s)) /\
                 received_bytes i (log (cl s)) ++ c_down k = replied_bytes fd (EpollServer.log (sv s))
    end).
Proof.
  intros Hn Hnd Hfds Hst Hr. pose proof (sys_start_inv n fds ofds sfds s0 Hn Hnd Hfds Hst) as H0. pose proof (sys_reachable_inv s0 s H0 Hr) as Hs.
  assert (Hl : length (conns s) = n).
  { clear Hs. assert (Hl0 : length (conns s0) = n) by (destruct Hst as (c0 & _ & _ & _ & ->); apply length_replicate). rewrite <- Hl0.
    induction Hr as [|s m s' Hr IH Ha E]; [done|]. rewrite <- IH. by eapply perform_length. }
  split; [|split].
  - intros m Ha. destruct (move_ok s m Hs Ha) as (s' & E & _). by exists s'.
  - intros i Hi. apply can_move; [done|by rewrite Hl].
  - intros i Hi. destruct (lookup_lt_is_Some_2 (conns s) i) as [k Hk]; [by rewrite Hl|].
    destruct (lookup_lt_is_Some_2 (m_pAllUserStatus (cl s)) i) as [u Hu]; [by rewrite <- (sy_length _ Hs), Hl|].
    exists u, k. split; [done|]. split; [done|]. destruct (sy_conn _ Hs i u k Hu Hk) as (Hf & [Ht _] & Hcn). split; [done|].
    split; [unfold text; by rewrite Ht|]. destruct (c_server k); [apply Hcn|]. tauto.
Qed.

(** One user, which has sent its text. *)
Definition ex_client : client := match connect_all 0 [5] (created 1 ∅) with Ok (_, c) => c | _ => created 1 ∅ end.
Definition ex_start : system := System ex_client (EpollServer.Server (Kernel ∅ ∅) []) [Conn None [] []].
Definition ex_sent : system := match perform (ClientSends 0 EPOLLOUT) ex_start with Ok s => s | _ => ex_start end.

Lemma epoll_session_witness :
  c_up <$> conns ex_sent = [bytes_of (hello 0) ++ [0]] /\ exists m, about m = Some 0%nat /\ allowed m ex_sent.
Proof.
  assert (Hst : starts 1 [5] ∅ ∅ ex_start) by (exists (created 1 ∅); split_and!; reflexivity).
  assert (Ha : allowed (ClientSends 0 EPOLLOUT) ex_start).
  { exists (User CONNECT_OK 5 (hello 0) (Z.of_nat (String.length (hello 0)) + 1) ALL_EVENTS). split; [reflexivity|]. split; [|reflexivity].
    exists ALL_EVENTS. split; [reflexivity|]. split; [discriminate|reflexivity]. }
  assert (Hr : reachable ex_start ex_sent) by (eapply (reach_move _ _ _ _ (reach_start _) Ha); reflexivity).
  split; [vm_compute; reflexivity|].
  apply (proj1 (proj2 (epoll_session 1 [5] ∅ ∅ ex_start ex_sent eq_refl ltac:(apply NoDup_singleton) ltac:(repeat constructor; set_solver) Hst Hr))). lia.
Defined.
