(* ===== verification/EpollModes.v ===== *)
(** * Level- and edge-triggered epoll: [src/lib/epoll/diff_LT_ET.c]

    Two ways to treat the same events: [lt] reads once per event and relies on the
    event coming again, [et] reads until nothing is left.  A connection has the
    bytes that have arrived and not been read, and whether the peer has closed it. *)

From stdpp Require Import prelude gmap list.
From Stdlib Require Import ZArith Lia.
From S2P Require Import Prelude Epoll.

Definition BUFFER_SIZE : nat := 10.

(** What is printed for a descriptor. *)
Inductive output := Triggered (fd : Z) | Content (fd : Z) (bytes : list Z) | ReadLater (fd : Z) | SomethingElse (fd : Z).

Record net := Net { kern : kernel; arrived : gmap Z (list Z * bool); out : list output }.

Definition set_kern k s := Net k (arrived s) (out s).
Definition print (o : output) : M net unit := modify (fun s => Net (kern s) (arrived s) (out s ++ [o])).

(** [recv] of a nonblocking descriptor: bytes, the end (0), EAGAIN, another error. *)
Inductive received := Bytes (bs : list Z) | Eof | Again | Failed.

Definition recv (fd : Z) (n : nat) : M net received := fun s =>
  if decide (fd ∈ open_fds (kern s)) then
    match arrived s !! fd with
    | Some ([], true) => Ok (Eof, s)
    | Some ([], false) => Ok (Again, s)
    | Some (bs, closed) => Ok (Bytes (take n bs), Net (kern s) (<[fd := (drop n bs, closed)]> (arrived s)) (out s))
    | None => Ok (Failed, s)
    end
  else Ok (Failed, s).

(** The result is what [close] returns: -1 for a descriptor that is not open. *)
Definition close_fd (fd : Z) : M net Z := fun s =>
  let '(r, k) := close fd (kern s) in Ok (r, set_kern k s).

Definition addfd (fd : Z) (enable_et : bool) : M net unit := fun s =>
  let events := if enable_et then Z.lor EPOLLIN EPOLLET else EPOLLIN in
  Ok (tt, set_kern (epoll_ctl EPOLL_CTL_ADD fd events (kern s)).2 s).

(** [accept]: a new connection, or -1. *)
Definition accept (connfd : Z) : M net unit :=
  if 0 <=? connfd then modify (fun s => Net (opened connfd (kern s)) (<[connfd := ([], false)]> (arrived s)) (out s))
  else mret tt.

(** A descriptor that is ready; [connfd] is what [accept] returns. *)
Record ready := Ready { r_fd : Z; r_events : Z; connfd : Z }.

Section modes.
Context (listenfd : Z).

(** ** [lt] *)

Definition lt_read (fd : Z) : M net unit :=
  _ ← print (Triggered fd);
  ret ← recv fd (BUFFER_SIZE - 1);
  match ret with
  | Bytes bs => print (Content fd bs)
  | _ => _ ← close_fd fd; mret tt
  end.

Definition lt_event (e : ready) : M net unit :=
  if r_fd e =? listenfd then _ ← accept (connfd e); addfd (connfd e) false
  else if has (r_events e) EPOLLIN then lt_read (r_fd e)
  else print (SomethingElse (r_fd e)).

Fixpoint lt (events : list ready) : M net unit :=
  match events with [] => mret tt | e :: events => _ ← lt_event e; lt events end.

(** ** [et] *)

(** [while (1)]; the result of the last [close], if there was one. *)
Fixpoint et_read (fuel : nat) (fd : Z) (closed : option Z) : M net (option Z) :=
  ret ← recv fd (BUFFER_SIZE - 1);
  match ret with
  | Again => _ ← print (ReadLater fd); mret closed
  | Failed => r ← close_fd fd; mret (Some r)
  | Eof =>
      r ← close_fd fd;
      match fuel with O => no_fuel | S fuel => et_read fuel fd (Some r) end
  | Bytes bs =>
      _ ← print (Content fd bs);
      match fuel with O => no_fuel | S fuel => et_read fuel fd closed end
  end.

Definition et_event (fuel : nat) (e : ready) : M net unit :=
  if r_fd e =? listenfd then _ ← accept (connfd e); addfd (connfd e) true
  else if has (r_events e) EPOLLIN then
    _ ← print (Triggered (r_fd e)); _ ← et_read fuel (r_fd e) None; mret tt
  else print (SomethingElse (r_fd e)).

Fixpoint et (fuel : nat) (events : list ready) : M net unit :=
  match events with [] => mret tt | e :: events => _ ← et_event fuel e; et fuel events end.

(** ** The two modes do the same *)

(** What is printed of a connection. *)
Definition contents (fd : Z) (os : list output) : list (list Z) :=
  omap (fun o => match o with Content fd' bs => if decide (fd' = fd) then Some bs else None | _ => None end) os.

(** A connection: open, with these bytes. *)
Record conn_is (fd : Z) (bs : list Z) (closed : bool) (s : net) : Prop := {
  cn_open : fd ∈ open_fds (kern s);
  cn_bytes : arrived s !! fd = Some (bs, closed);
}.

(** The pieces in which bytes are read. *)
Fixpoint pieces (fuel : nat) (bs : list Z) : list (list Z) :=
  match fuel, bs with
  | S fuel, _ :: _ => take (BUFFER_SIZE - 1) bs :: pieces fuel (drop (BUFFER_SIZE - 1) bs)
  | _, _ => []
  end.

Lemma contents_app fd os os' : contents fd (os ++ os') = contents fd os ++ contents fd os'.
Proof. apply omap_app. Qed.

Definition pieces_of (bs : list Z) : list (list Z) := pieces (length bs) bs.

Lemma pieces_fuel fuel : forall fuel' bs, (length bs <= fuel)%nat -> (length bs <= fuel')%nat -> pieces fuel bs = pieces fuel' bs.
Proof.
  induction fuel as [|fuel IH]; intros [|fuel'] [|b bs] H1 H2; simpl in H1, H2; try done; try lia. cbn [pieces]. f_equal.
  apply IH; rewrite length_drop; simpl; lia.
Qed.

Lemma pieces_cons b bs :
  pieces_of (b :: bs) = take (BUFFER_SIZE - 1) (b :: bs) :: pieces_of (drop (BUFFER_SIZE - 1) (b :: bs)).
Proof.
  unfold pieces_of at 1. cbn [length pieces]. f_equal. apply pieces_fuel; [rewrite length_drop; simpl; lia|done].
Qed.

(** Together the pieces are the bytes, and each is shorter than the buffer. *)
Lemma pieces_join fuel : forall bs, (length bs <= fuel)%nat ->
  concat (pieces fuel bs) = bs /\ Forall (fun p => p <> [] /\ (length p < BUFFER_SIZE)%nat) (pieces fuel bs).
Proof.
  induction fuel as [|fuel IH]; intros [|b bs] Hlen; simpl in Hlen; [done|lia|done|]. cbn [pieces].
  destruct (IH (drop (BUFFER_SIZE - 1) (b :: bs))) as [Hc Hf]; [rewrite length_drop; simpl; lia|]. split.
  - cbn [concat]. by rewrite Hc, take_drop.
  - constructor; [|done]. split; [done|]. rewrite length_take. unfold BUFFER_SIZE. lia.
Qed.

Lemma recv_bytes fd b bs closed s :
  conn_is fd (b :: bs) closed s ->
  exists s', recv fd (BUFFER_SIZE - 1) s = Ok (Bytes (take (BUFFER_SIZE - 1) (b :: bs)), s') /\ out s' = out s /\
    conn_is fd (drop (BUFFER_SIZE - 1) (b :: bs)) closed s'.
Proof.
  intros [Ho Hb]. eexists. unfold recv. rewrite decide_True, Hb by done. split; [reflexivity|]. split; [done|].
  split; simpl; [done|]. by rewrite lookup_insert_eq.
Qed.

Lemma recv_none fd closed s :
  conn_is fd [] closed s -> recv fd (BUFFER_SIZE - 1) s = Ok (if closed then Eof else Again, s).
Proof. intros [Ho Hb]. unfold recv. rewrite decide_True, Hb by done. by destruct closed. Qed.

Lemma print_conn fd bs closed o s : conn_is fd bs closed s ->
  exists s', print o s = Ok (tt, s') /\ conn_is fd bs closed s' /\ out s' = out s ++ [o].
Proof. intros [Ho Hb]. eexists. split; [reflexivity|]. by split. Qed.

Lemma close_conn fd bs closed s : conn_is fd bs closed s ->
  exists s', close_fd fd s = Ok (0, s') /\ out s' = out s /\ fd ∉ open_fds (kern s').
Proof.
  intros [Ho _]. eexists. unfold close_fd, close. rewrite decide_True by done. split; [reflexivity|]. split; [done|]. simpl. set_solver.
Qed.

Lemma contents_content fd bs os : contents fd (os ++ [Content fd bs]) = contents fd os ++ [bs].
Proof. rewrite contents_app. unfold contents at 2. simpl. by rewrite decide_True. Qed.

(** [et_read] prints all pieces; a connection that the peer has closed is closed, and
    then closed again. *)
Lemma et_read_ok fd closed fuel : forall bs s r0,
  conn_is fd bs closed s -> (length bs < fuel)%nat ->
  wp (et_read fuel fd r0) (fun r s' => contents fd (out s') = contents fd (out s) ++ pieces_of bs /\
    if closed then r = Some (-1) /\ fd ∉ open_fds (kern s') else r = r0 /\ conn_is fd [] false s') s.
Proof.
  induction fuel as [|fuel IH]; intros bs s r0 Hc Hlen; [lia|]. destruct bs as [|b bs]; cbn [et_read]; wp_step.
  - eapply wp_intro; [by apply recv_none|]. destruct closed.
    + wp_step. destruct (close_conn _ _ _ _ Hc) as (s1 & E1 & Ho1 & Hn1). eapply wp_intro; [exact E1|].
      assert (Er : recv fd (BUFFER_SIZE - 1) s1 = Ok (Failed, s1)) by (unfold recv; by rewrite decide_False).
      assert (Ec : close_fd fd s1 = Ok (-1, s1)).
      { unfold close_fd, close. rewrite decide_False by done. by destruct s1. }
      cbn beta iota. destruct fuel; cbn [et_read]; wp_step; (eapply wp_intro; [exact Er|]); cbn beta iota; wp_step; (eapply wp_intro; [exact Ec|]);
        apply wp_ret; rewrite Ho1; unfold pieces_of; simpl; by rewrite app_nil_r.
    + wp_step. destruct (print_conn _ _ _ (ReadLater fd) _ Hc) as (s1 & E1 & Hc1 & Ho1). eapply wp_intro; [exact E1|].
      apply wp_ret. rewrite Ho1, contents_app. by split.
  - destruct (recv_bytes _ _ _ _ _ Hc) as (s1 & E1 & Ho1 & Hc1). eapply wp_intro; [exact E1|]. cbn beta iota. wp_step.
    destruct (print_conn _ _ _ (Content fd (take (BUFFER_SIZE - 1) (b :: bs))) _ Hc1) as (s2 & E2 & Hc2 & Ho2).
    eapply wp_intro; [exact E2|]. eapply wp_mono; [apply (IH _ s2 r0 Hc2); rewrite length_drop; simpl in *; lia|].
    intros r s3 [Ho3 Hr]. split; [|done]. rewrite Ho3, Ho2, contents_content, Ho1, pieces_cons, <- app_assoc. done.
Qed.

(** The rounds in which [lt] is told of the connection. *)
Definition level_events (fd : Z) (bs : list Z) (closed : bool) : list ready :=
  replicate (length (pieces_of bs) + if closed then 1 else 0) (Ready fd EPOLLIN (-1)).

Lemma lt_round fd bs closed s : fd <> listenfd -> conn_is fd bs closed s -> bs <> [] \/ closed = true ->
  wp (lt_event (Ready fd EPOLLIN (-1))) (fun _ s' =>
    match bs with
    | [] => contents fd (out s') = contents fd (out s) /\ fd ∉ open_fds (kern s')
    | _ => contents fd (out s') = contents fd (out s) ++ [take (BUFFER_SIZE - 1) bs] /\
           conn_is fd (drop (BUFFER_SIZE - 1) bs) closed s'
    end) s.
Proof.
  intros Hfd Hc Hready. unfold lt_event, lt_read. simpl. rewrite (proj2 (Z.eqb_neq _ _)) by done. wp_step.
  destruct (print_conn _ _ _ (Triggered fd) _ Hc) as (s1 & E1 & Hc1 & Ho1). eapply wp_intro; [exact E1|]. wp_step.
  assert (H1 : contents fd (out s1) = contents fd (out s)) by (rewrite Ho1, contents_app; simpl; by rewrite app_nil_r).
  destruct bs as [|b bs].
  - destruct Hready as [?| ->]; [done|]. eapply wp_intro; [by apply recv_none|]. cbn beta iota. wp_step.
    destruct (close_conn _ _ _ _ Hc1) as (s2 & E2 & Ho2 & Hn2). eapply wp_intro; [exact E2|]. apply wp_ret. by rewrite Ho2.
  - destruct (recv_bytes _ _ _ _ _ Hc1) as (s2 & E2 & Ho2 & Hc2). eapply wp_intro; [exact E2|]. cbn beta iota.
    destruct (print_conn _ _ _ (Content fd (take (BUFFER_SIZE - 1) (b :: bs))) _ Hc2) as (s3 & E3 & Hc3 & Ho3).
    eapply wp_intro; [exact E3|]. split; [|done]. by rewrite Ho3, contents_content, Ho2, H1.
Qed.

Lemma lt_ok fd closed n : forall bs s, fd <> listenfd -> conn_is fd bs closed s -> (length bs <= n)%nat ->
  wp (lt (level_events fd bs closed)) (fun _ s' => contents fd (out s') = contents fd (out s) ++ pieces_of bs /\
    if closed then fd ∉ open_fds (kern s') else conn_is fd [] false s') s.
Proof.
  induction n as [|n IH]; intros [|b bs] s Hfd Hc Hlen; simpl in Hlen; try lia.
  1,2: unfold level_events, pieces_of; simpl; destruct closed; simpl; [wp_step|apply wp_ret; by rewrite app_nil_r];
    (eapply wp_mono; [by apply (lt_round fd [] true); [..|right]|]); intros u s1 [E Hn]; apply wp_ret; by rewrite E, app_nil_r.
  unfold level_events. rewrite pieces_cons. cbn [length Nat.add replicate lt]. wp_step.
  eapply wp_mono; [by apply (lt_round fd (b :: bs) closed); [..|left]|]. intros u s1 [Ho1 Hc1].
  eapply wp_mono; [apply (IH (drop (BUFFER_SIZE - 1) (b :: bs)) s1 Hfd Hc1); rewrite length_drop; simpl; lia|].
  intros u' s2 [Ho2 Hr]. split; [|done]. by rewrite Ho2, Ho1, <- app_assoc.
Qed.

End modes.

(** C23: an event that [et] treats once, and the events that [lt] is told of until the
    connection has nothing left, print the same pieces of what has arrived; together
    these are exactly the bytes, each fits the buffer with its NUL, and in both modes
    the connection is then closed if and only if the peer has closed it. *)
Theorem lt_et_equivalent listenfd fd bs closed s :
  fd <> listenfd -> conn_is fd bs closed s ->
  exists ps, concat ps = bs /\ Forall (fun p => p <> [] /\ (length p < BUFFER_SIZE)%nat) ps /\
  wp (et listenfd (S (length bs)) [Ready fd EPOLLIN (-1)]) (fun _ s' =>
    contents fd (out s') = contents fd (out s) ++ ps /\
    if closed then fd ∉ open_fds (kern s') else conn_is fd [] false s') s /\
  wp (lt listenfd (level_events fd bs closed)) (fun _ s' =>
    contents fd (out s') = contents fd (out s) ++ ps /\
    if closed then fd ∉ open_fds (kern s') else conn_is fd [] false s') s.
Proof.
  intros Hfd Hc. exists (pieces_of bs). destruct (pieces_join (length bs) bs) as [Hj Hp]; [done|].
  split; [done|]. split; [done|]. split; [|by eapply lt_ok].
  simpl. wp_step. unfold et_event. simpl. rewrite (proj2 (Z.eqb_neq _ _)) by done. wp_step.
  destruct (print_conn _ _ _ (Triggered fd) _ Hc) as (s1 & E1 & Hc1 & Ho1). eapply wp_intro; [exact E1|]. wp_step.
  eapply wp_mono; [apply (et_read_ok fd closed (S (length bs)) bs s1 None Hc1); lia|].
  intros r s2 [Ho2 Hr]. do 2 apply wp_ret. rewrite Ho2, Ho1, contents_app. simpl. rewrite app_nil_r. split; [done|].
  by destruct closed, Hr.
Qed.

Definition ex_net (closed : bool) : net :=
  Net (Kernel {[5]} {[5 := EPOLLIN]}) {[5 := ([1; 2; 3; 4; 5; 6; 7; 8; 9; 10; 11], closed)]} [].

Lemma lt_et_equivalent_witness :
  exists ps, concat ps = [1; 2; 3; 4; 5; 6; 7; 8; 9; 10; 11] /\
  wp (et 3 12 [Ready 5 EPOLLIN (-1)]) (fun _ s => contents 5 (out s) = ps) (ex_net true) /\
  wp (lt 3 (level_events 5 [1; 2; 3; 4; 5; 6; 7; 8; 9; 10; 11] true)) (fun _ s => contents 5 (out s) = ps) (ex_net true).
Proof.
  destruct (lt_et_equivalent 3 5 [1; 2; 3; 4; 5; 6; 7; 8; 9; 10; 11] true (ex_net true)) as (ps & Hc & _ & Het & Hlt).
  - done.
  - split; [set_solver|done].
  - exists ps. split; [done|]. split; (eapply wp_mono; [eassumption|]); by intros u s [-> _].
Defined.
