(* ===== verification/EpollOneshot.v ===== *)
(** * A thread per ready connection: [src/lib/epoll/test_epolloneshot.c]

    The main thread waits with epoll and starts a worker for each connection that is
    readable; EPOLLONESHOT keeps the connection from being reported again until its
    worker has read everything and asks for it.  The main thread takes the events
    one [epoll_wait] returns one after the other; the threads interleave. *)

From stdpp Require Import prelude gmap list.
From Stdlib Require Import ZArith Lia.
From S2P Require Import Prelude Text Epoll.

(** [typedef enum {true=1,false=2} bool;] *)
Definition c_true : Z := 1.
Definition c_false : Z := 2.

(** A worker: it has not read its argument, it serves a connection, or it is past
    its last use of one. *)
Inductive thread := Starting | Serving (sockfd : Z) | Ended.

#[global] Instance thread_eq_dec : EqDecision thread.
Proof. solve_decision. Defined.

(** [arg] is [fds_for_new_worker.sockfd], the variable whose address every worker is
    given; [accepted] what [accept] has returned; [printed] what the workers print of their
    buffers, [None] where [printf] reads past what [recv] has written. *)
Record main_t := Main {
  kern : kernel;
  queue : list (Z * Z);
  arg : option Z;
  threads : list thread;
  accepted : list Z;
  printed : list (option (list Z));
}.

Definition set_kern v s := Main v (queue s) (arg s) (threads s) (accepted s) (printed s).
Definition set_threads v s := Main (kern s) (queue s) (arg s) v (accepted s) (printed s).
Definition set_printed v s := Main (kern s) (queue s) (arg s) (threads s) (accepted s) v.

Definition addfd (fd oneshot : Z) (k : kernel) : kernel :=
  let events := Z.lor EPOLLIN EPOLLET in
  let events := if oneshot =? 0 then events else Z.lor events EPOLLONESHOT in
  (epoll_ctl EPOLL_CTL_ADD fd events k).2.

Definition reset_oneshot (fd : Z) (k : kernel) : kernel :=
  (epoll_ctl EPOLL_CTL_MOD fd (Z.lor (Z.lor EPOLLIN EPOLLET) EPOLLONESHOT) k).2.

(** ** [epoll_wait] *)

(** With EPOLLONESHOT, a report leaves no event to wait for. *)
Definition disarm (events : Z) : Z :=
  if has events EPOLLONESHOT then Z.land events (Z.lor EPOLLET EPOLLONESHOT) else events.

Definition deliver (k : kernel) (fd : Z) : kernel := Kernel (open_fds k) (alter disarm fd (interest k)).

Definition reportable (k : kernel) (e : Z * Z) : bool :=
  match interest k !! e.1 with
  | Some events => has events EPOLLIN && negb (e.2 =? 0) &&
      (Z.land e.2 (Z.lor events (Z.lor EPOLLERR EPOLLHUP)) =? e.2)
  | None => false
  end.

(** ** Steps *)

(** [Bytes bs]: [recv] has written [bs] to the buffer, and no NUL behind it. *)
Inductive received := Bytes (bs : list Z) | Eof | Again | Failed.

Inductive action := Wait (es : list (Z * Z)) | Handle (connfd : Z) | Take (t : nat) | Recv (t : nat) (r : received).

Section program.
Context (listenfd : Z).

(** The main thread treats an event; [accept] returns [connfd]. *)
Definition handle (fd events connfd : Z) (q : list (Z * Z)) (s : main_t) : main_t :=
  if fd =? listenfd then
    let k := if 0 <=? connfd then opened connfd (kern s) else kern s in
    Main (addfd connfd c_true k) q (arg s) (threads s) (accepted s ++ [connfd]) (printed s)
  else if has events EPOLLIN then Main (kern s) q (Some fd) (threads s ++ [Starting]) (accepted s) (printed s)
  else Main (kern s) q (arg s) (threads s) (accepted s) (printed s).

(** After [recv] has returned. *)
Definition serve (t : nat) (fd : Z) (r : received) (s : main_t) : main_t :=
  match r with
  | Bytes bs => set_printed (printed s ++ [printed_text bs]) s
  | Failed => s
  | Eof => set_threads (<[t := Ended]> (threads s)) (set_kern (close fd (kern s)).2 s)
  | Again => set_threads (<[t := Ended]> (threads s)) (set_kern (reset_oneshot fd (kern s)) s)
  end.

(** [None]: the step cannot be made in this state. *)
Definition step (a : action) (s : main_t) : option (outcome main_t) :=
  match a with
  | Wait es =>
      match queue s with
      | [] =>
          if decide (NoDup es.*1) then
            if forallb (reportable (kern s)) es then
              Some (Ok (Main (foldl deliver (kern s) es.*1) es (arg s) (threads s) (accepted s) (printed s)))
            else None
          else None
      | _ => None
      end
  | Handle connfd =>
      match queue s with
      | [] => None
      | (fd, events) :: q =>
          if decide (connfd ∈ open_fds (kern s)) then None else Some (Ok (handle fd events connfd q s))
      end
  | Take t =>
      match threads s !! t with
      | Some Starting =>
          match arg s with
          | Some fd => Some (Ok (set_threads (<[t := Serving fd]> (threads s)) s))
          | None => Some (Err Uninitialised)
          end
      | _ => None
      end
  | Recv t r =>
      match threads s !! t with
      | Some (Serving fd) => Some (Ok (serve t fd r s))
      | _ => None
      end
  end.

(** The listening socket is added with [false]. *)
Definition main_init (fds : gset Z) : main_t := Main (addfd listenfd c_false (Kernel fds ∅)) [] None [] [] [].

Inductive reach (fds : gset Z) : main_t -> Prop :=
| reach_init : reach fds (main_init fds)
| reach_step s a s' : reach fds s -> step a s = Some (Ok s') -> reach fds s'.

(** ** At most one worker *)

Definition ARMED : Z := Z.lor (Z.lor EPOLLIN EPOLLET) EPOLLONESHOT.
Definition DISARMED : Z := Z.lor EPOLLET EPOLLONESHOT.

(** The events of a descriptor that are to come, or to be treated. *)
Definition armed (k : kernel) (fd : Z) : nat := if decide (interest k !! fd = Some ARMED) then 1 else 0.
Definition queued (q : list (Z * Z)) (fd : Z) : nat := length (filter (fun e => e.1 = fd) q).
Definition live (ts : list thread) : nat := length (filter (fun t => t <> Ended) ts).

Record main_inv (s : main_t) : Prop := {
  mi_open : listenfd ∈ open_fds (kern s) /\ kernel_ok (kern s);
  mi_masks fd events : interest (kern s) !! fd = Some events -> events = ARMED \/ events = DISARMED;
  mi_listen : (armed (kern s) listenfd + queued (queue s) listenfd + length (accepted s) <= 1)%nat;
  mi_conn fd : fd <> listenfd -> is_Some (interest (kern s) !! fd) \/ (0 < queued (queue s) fd)%nat -> fd ∈ accepted s;
  mi_live fd : fd <> listenfd -> (armed (kern s) fd + queued (queue s) fd + live (threads s) <= 1)%nat;
  mi_served fd : fd <> listenfd -> Serving fd ∈ threads s -> fd ∈ accepted s;
  mi_arg : match arg s with Some fd => fd ∈ accepted s | None => threads s = [] end;
  mi_not_listen : listenfd ∉ accepted s;
  mi_serving : Serving listenfd ∉ threads s;
}.

Lemma one_accepted s fd fd' : main_inv s -> fd ∈ accepted s -> fd' ∈ accepted s -> fd = fd'.
Proof.
  intros Hs. pose proof (mi_listen _ Hs). destruct (accepted s) as [|a [|b l]]; simpl in *; [by intros ?%elem_of_nil| |lia].
  intros [->|?%elem_of_nil]%elem_of_cons [->|?%elem_of_nil]%elem_of_cons; done.
Qed.

Lemma queued_cons e q fd : queued (e :: q) fd = ((if decide (e.1 = fd) then 1 else 0) + queued q fd)%nat.
Proof. unfold queued. rewrite filter_cons. by destruct (decide (e.1 = fd)). Qed.

Lemma queued_pos q fd : (0 < queued q fd)%nat -> fd ∈ q.*1.
Proof.
  unfold queued. destruct (filter _ q) as [|e l] eqn:E; simpl; [lia|]. intros _.
  assert (He : e ∈ filter (fun e => e.1 = fd) q) by (rewrite E; by left).
  apply list_elem_of_filter in He as [<- He]. by apply list_elem_of_fmap_2.
Qed.

Lemma queued_nodup q fd : NoDup q.*1 -> (queued q fd <= if decide (fd ∈ q.*1) then 1 else 0)%nat.
Proof.
  induction q as [|e q IH]; intros Hnd; [unfold queued; simpl; lia|]. rewrite fmap_cons in *. apply NoDup_cons in Hnd as [Hn Hnd].
  rewrite queued_cons. specialize (IH Hnd). destruct (decide (e.1 = fd)) as [<-|Hne].
  - rewrite decide_False in IH by done. rewrite decide_True by (by left). lia.
  - destruct (decide (fd ∈ q.*1)); [by rewrite decide_True by (by right)|].
    rewrite decide_False; [lia|]. by intros [?|?]%elem_of_cons.
Qed.

Lemma live_app ts t : t <> Ended -> live (ts ++ [t]) = S (live ts).
Proof. intros Ht. unfold live. rewrite filter_app, length_app, filter_cons_True by done. simpl. lia. Qed.

Lemma live_same ts i t t' : ts !! i = Some t -> t <> Ended -> t' <> Ended -> live (<[i := t']> ts) = live ts.
Proof.
  intros Hi Ht Ht'. unfold live. rewrite <- (take_drop_middle ts i t Hi) at 2. rewrite insert_take_drop by (by eapply lookup_lt_Some).
  rewrite !filter_app, !length_app, !filter_cons_True by done. done.
Qed.

Lemma live_end ts i t : ts !! i = Some t -> t <> Ended -> live ts = S (live (<[i := Ended]> ts)).
Proof.
  intros Hi Ht. unfold live. rewrite <- (take_drop_middle ts i t Hi) at 1. rewrite insert_take_drop by (by eapply lookup_lt_Some).
  rewrite !filter_app, !length_app, filter_cons_True, filter_cons_False by (done || by intros []). simpl. lia.
Qed.

(** A report takes the event away. *)
Lemma deliver_lookup fds : forall k fd, NoDup fds ->
  interest (foldl deliver k fds) !! fd = (if decide (fd ∈ fds) then disarm <$> interest k !! fd else interest k !! fd) /\
  open_fds (foldl deliver k fds) = open_fds k.
Proof.
  induction fds as [|f fds IH]; intros k fd Hnd; [done|]. apply NoDup_cons in Hnd as [Hn Hnd]. simpl.
  destruct (IH (deliver k f) fd Hnd) as [-> ->]. split; [|done]. unfold deliver. simpl.
  destruct (decide (f = fd)) as [->|Hne].
  - rewrite decide_False by done. rewrite decide_True by (by left). apply lookup_alter_eq.
  - rewrite lookup_alter_ne by done. destruct (decide (fd ∈ fds)) as [Hin|Hin].
    + by rewrite decide_True by (by right).
    + rewrite decide_False; [done|]. by intros [?|?]%elem_of_cons.
Qed.

Lemma disarm_masks events : events = ARMED \/ events = DISARMED -> disarm events = DISARMED.
Proof. by intros [-> | ->]. Qed.

Lemma reportable_armed k e events :
  reportable k e = true -> interest k !! e.1 = Some events -> events = ARMED \/ events = DISARMED -> events = ARMED.
Proof. unfold reportable. intros H E. rewrite E in H. intros [->| ->]; [done|]. by vm_compute in H. Qed.

Lemma armed_0 k fd : interest k !! fd <> Some ARMED -> armed k fd = 0%nat.
Proof. intros H. unfold armed. by rewrite decide_False. Qed.

(** [epoll_wait] moves events from the kernel to the queue. *)
Lemma wait_inv s es :
  main_inv s -> queue s = [] -> NoDup es.*1 -> forallb (reportable (kern s)) es = true ->
  main_inv (Main (foldl deliver (kern s) es.*1) es (arg s) (threads s) (accepted s) (printed s)).
Proof.
  intros Hs Hq Hnd Hrep. rewrite forallb_forall in Hrep.
  assert (Hlk : forall fd, interest (foldl deliver (kern s) es.*1) !! fd
    = if decide (fd ∈ es.*1) then disarm <$> interest (kern s) !! fd else interest (kern s) !! fd)
    by (intros fd; apply (deliver_lookup _ _ _ Hnd)).
  assert (Harm : forall fd, fd ∈ es.*1 -> interest (kern s) !! fd = Some ARMED).
  { intros fd (e & -> & He)%list_elem_of_fmap. pose proof (Hrep e (proj1 (list_elem_of_In _ _) He)) as Hr.
    destruct (interest (kern s) !! e.1) as [ev|] eqn:E; [|unfold reportable in Hr; by rewrite E in Hr].
    f_equal. eapply reportable_armed; [exact Hr|exact E|]. by eapply (mi_masks _ Hs). }
  assert (Hmove : forall fd, (armed (foldl deliver (kern s) es.*1) fd + queued es fd <= armed (kern s) fd)%nat).
  { intros fd. pose proof (queued_nodup es fd Hnd) as Hle. unfold armed. rewrite Hlk. destruct (decide (fd ∈ es.*1)) as [Hin|Hin].
    - rewrite (Harm fd Hin). destruct (decide (disarm <$> Some ARMED = Some ARMED)) as [E|_]; [by vm_compute in E|].
      destruct (decide (Some ARMED = Some ARMED)); [lia|done].
    - lia. }
  destruct Hs as [[Ho Hk] Hma Hli Hco Hlv Hsv Har Hnl Hsl]. rewrite Hq in *. unfold queued in Hli, Hlv. simpl in Hli, Hlv.
  split; simpl; [split|..]; try done.
  - by rewrite (proj2 (deliver_lookup _ _ 0 Hnd)).
  - intros fd. rewrite (proj2 (deliver_lookup _ _ 0 Hnd)), Hlk. intros H. apply Hk.
    destruct (decide _); [|done]. by apply fmap_is_Some in H.
  - intros fd ev E. rewrite Hlk in E. destruct (decide (fd ∈ es.*1)); [|by eapply Hma].
    apply fmap_Some in E as (ev' & E & ->). right. apply disarm_masks. by eapply Hma.
  - specialize (Hmove listenfd). lia.
  - intros fd Hfd [H|H].
    + rewrite Hlk in H. apply Hco; [done|]. left. destruct (decide _); [by apply fmap_is_Some in H|done].
    + apply Hco; [done|]. left. rewrite (Harm fd); [eauto|]. by apply queued_pos.
  - intros fd Hfd. specialize (Hmove fd). specialize (Hlv fd Hfd). lia.
Qed.

(** A connection is accepted: it is the first one. *)
Lemma accept_inv s events connfd q :
  main_inv s -> queue s = (listenfd, events) :: q -> connfd ∉ open_fds (kern s) -> main_inv (handle listenfd events connfd q s).
Proof.
  intros Hs Hq Hnew. destruct Hs as [[Ho Hk] Hma Hli Hco Hlv Hsv Har Hnl Hsl] eqn:Es. clear Es.
  rewrite Hq, queued_cons in Hli. simpl in Hli. rewrite decide_True in Hli by done.
  assert (Hacc : accepted s = []) by (destruct (accepted s); [done|simpl in Hli; lia]). rewrite Hacc in *.
  assert (Hts : threads s = []) by (destruct (arg s); [by apply elem_of_nil in Har|done]).
  assert (Hnone : forall fd, fd <> listenfd -> interest (kern s) !! fd = None /\ queued q fd = 0%nat).
  { intros fd Hfd. split.
    - destruct (interest (kern s) !! fd) eqn:E; [|done]. destruct (elem_of_nil fd (A := Z)) as [H _]. destruct H. apply Hco; eauto.
    - destruct (queued q fd) eqn:E; [done|]. destruct (elem_of_nil fd (A := Z)) as [H _]. destruct H. apply Hco; [done|].
      right. rewrite Hq, queued_cons. simpl. lia. }
  assert (Hne : connfd <> listenfd) by (by intros ->). destruct (Hnone connfd Hne) as [Hcn _].
  unfold handle. rewrite Z.eqb_refl.
  assert (Hmain : exists k, addfd connfd c_true (if 0 <=? connfd then opened connfd (kern s) else kern s) = k /\
    open_fds (kern s) ⊆ open_fds k /\ kernel_ok k /\
    forall fd, interest k !! fd = interest (kern s) !! fd \/ (fd = connfd /\ interest k !! fd = Some ARMED)).
  { eexists. split; [reflexivity|]. unfold addfd. destruct (0 <=? connfd).
    - rewrite add_ok by (done || (simpl; set_solver)). simpl. split; [set_solver|]. split.
      + intros fd. simpl. destruct (decide (fd = connfd)) as [->|]; [set_solver|]. rewrite lookup_insert_ne by done.
        intros H. specialize (Hk fd H). set_solver.
      + intros fd. destruct (decide (fd = connfd)) as [->|]; [right; by rewrite lookup_insert_eq|left; by rewrite lookup_insert_ne].
    - unfold epoll_ctl. rewrite Hcn, decide_False by done. simpl. split; [done|]. split; [done|]. by left. }
  destruct Hmain as (k & -> & Hsub & Hk' & Hint). split; simpl; rewrite ?Hacc, ?Hts; simpl.
  - split; [set_solver|done].
  - intros fd ev E. destruct (Hint fd) as [H|[-> H]]; [rewrite H in E; by eapply Hma|rewrite H in E; left; by simplify_eq].
  - destruct (Hint listenfd) as [H|[? _]]; [|done]. unfold armed in *. rewrite H. lia.
  - intros fd Hfd H. destruct (Hnone fd Hfd) as [Hn1 Hn2]. destruct (Hint fd) as [E|[-> _]]; [|by left].
    rewrite E, Hn1, Hn2 in H. destruct H as [[? ?]|?]; [done|lia].
  - intros fd Hfd. destruct (Hnone fd Hfd) as [Hn1 Hn2]. rewrite Hn2. unfold armed, live. simpl. destruct (decide _); lia.
  - intros fd _ H. by apply elem_of_nil in H.
  - destruct (arg s); [by apply elem_of_nil in Har|done].
  - intros [?|H]%elem_of_cons; [done|]. by apply elem_of_nil in H.
  - by intros ?%elem_of_nil.
Qed.

(** A worker is started for a connection: there is none yet. *)
Lemma start_inv s fd events connfd q :
  main_inv s -> queue s = (fd, events) :: q -> fd <> listenfd -> main_inv (handle fd events connfd q s).
Proof.
  intros Hs Hq Hfd. pose proof (fun f => queued_cons (fd, events) q f) as Hqc. simpl in Hqc.
  assert (Hacc : fd ∈ accepted s).
  { apply (mi_conn _ Hs fd Hfd). right. rewrite Hq, Hqc, decide_True by done. lia. }
  assert (Hle : forall f, (queued q f <= queued (queue s) f)%nat) by (intros f; rewrite Hq, Hqc; lia).
  unfold handle. rewrite (proj2 (Z.eqb_neq _ _)) by done.
  assert (Hrest : forall f, f <> listenfd -> is_Some (interest (kern s) !! f) \/ (0 < queued q f)%nat -> f ∈ accepted s).
  { intros f Hf [H|H]; apply (mi_conn _ Hs f Hf); [by left|]. right. specialize (Hle f). lia. }
  destruct (has events EPOLLIN).
  - pose proof (mi_live _ Hs fd Hfd) as Hl. rewrite Hq, Hqc, decide_True in Hl by done.
    destruct Hs as [Hok Hma Hli Hco Hlv Hsv Har Hnl Hsl] eqn:Es. split; simpl; try done.
    + specialize (Hle listenfd). lia.
    + intros f Hf. rewrite live_app by done. destruct (decide (f = fd)) as [->|Hne]; [lia|].
      assert (Hz : armed (kern s) f = 0%nat /\ queued q f = 0%nat).
      { split.
        - apply armed_0. intros E. destruct Hne. eapply (one_accepted s); [done| |done]. apply Hrest; [done|]. left. by rewrite E.
        - destruct (queued q f) eqn:E; [done|]. destruct Hne. eapply (one_accepted s); [done| |done]. apply Hrest; [done|]. right. lia. }
      destruct Hz as [-> ->]. lia.
    + intros f Hf [H|H]%elem_of_app; [by apply Hsv|]. by apply list_elem_of_singleton in H.
    + intros [H|H]%elem_of_app; [done|]. by apply list_elem_of_singleton in H.
  - destruct Hs as [Hok Hma Hli Hco Hlv Hsv Har Hnl Hsl]. split; simpl; try done; [specialize (Hle listenfd); lia|].
    intros f Hf. specialize (Hle f). specialize (Hlv f Hf). lia.
Qed.

Lemma take_inv s t fd :
  main_inv s -> threads s !! t = Some Starting -> arg s = Some fd ->
  main_inv (set_threads (<[t := Serving fd]> (threads s)) s).
Proof.
  intros Hs Ht Ha. destruct Hs as [Hok Hma Hli Hco Hlv Hsv Har Hnl Hsl]. rewrite Ha in Har. split; simpl; try done.
  - intros f Hf. rewrite (live_same _ _ Starting) by done. by apply Hlv.
  - intros f Hf H. apply list_elem_of_lookup in H as [j Hj]. destruct (decide (j = t)) as [->|Hne].
    + rewrite list_lookup_insert_eq in Hj by (by eapply lookup_lt_Some). by simplify_eq.
    + rewrite list_lookup_insert_ne in Hj by done. apply Hsv; [done|]. apply list_elem_of_lookup. eauto.
  - by rewrite Ha.
  - intros H. apply list_elem_of_lookup in H as [j Hj]. destruct (decide (j = t)) as [->|Hne].
    + rewrite list_lookup_insert_eq in Hj by (by eapply lookup_lt_Some). by simplify_eq.
    + rewrite list_lookup_insert_ne in Hj by done. apply Hsl. apply list_elem_of_lookup. eauto.
Qed.

Lemma served_other (ts : list thread) t fd : Serving fd ∈ <[t := Ended]> ts -> Serving fd ∈ ts.
Proof.
  intros H. apply list_elem_of_lookup in H as [j Hj]. apply list_elem_of_lookup. exists j.
  destruct (decide (j = t)) as [->|Hne]; [|by rewrite list_lookup_insert_ne in Hj].
  destruct (decide (t < length ts)%nat) as [Hlt|]; [by rewrite list_lookup_insert_eq in Hj by done|].
  by rewrite list_insert_ge in Hj by lia.
Qed.

(** A worker ends: its connection may be reported again, or is closed. *)
Lemma end_inv s t fd k :
  main_inv s -> threads s !! t = Some (Serving fd) ->
  open_fds (kern s) ∖ {[fd]} ⊆ open_fds k -> kernel_ok k ->
  (forall f, f <> fd -> interest k !! f = interest (kern s) !! f) ->
  (interest k !! fd = None \/ (is_Some (interest (kern s) !! fd) /\ interest k !! fd = Some ARMED)) ->
  main_inv (set_threads (<[t := Ended]> (threads s)) (set_kern k s)).
Proof.
  intros Hs Ht Hopen Hk Hoth Hfd. assert (Hin : Serving fd ∈ threads s) by (apply list_elem_of_lookup; eauto).
  assert (Hlis : fd <> listenfd) by (intros ->; by apply (mi_serving _ Hs)).
  assert (Hend : live (threads s) = S (live (<[t := Ended]> (threads s)))) by (by eapply live_end).
  destruct Hs as [[Ho Hko] Hma Hli Hco Hlv Hsv Har Hnl Hsl]. split; simpl.
  - split; [|done]. apply Hopen. set_solver.
  - intros f ev E. destruct (decide (f = fd)) as [->|Hne]; [|rewrite Hoth in E by done; by eapply Hma].
    destruct Hfd as [Hfd|[_ Hfd]]; rewrite Hfd in E; [done|]. left. by simplify_eq.
  - unfold armed in *. by rewrite Hoth by done.
  - intros f Hf H. apply Hco; [done|]. destruct (decide (f = fd)) as [->|Hne]; [|by rewrite Hoth in H].
    destruct H as [H|H]; [|by right]. left. destruct Hfd as [Hfd|[Hs _]]; [|done]. rewrite Hfd in H. by destruct H.
  - intros f Hf. specialize (Hlv f Hf). rewrite Hend in Hlv. unfold armed in *. destruct (decide (f = fd)) as [->|Hne].
    + destruct (decide (interest k !! fd = Some ARMED)); lia.
    + rewrite Hoth by done. lia.
  - intros f Hf H. apply Hsv; [done|]. by eapply served_other.
  - destruct (arg s); [done|]. rewrite Har in Ht. done.
  - done.
  - intros H. apply Hsl. by eapply served_other.
Qed.

Lemma serve_inv s t fd r : main_inv s -> threads s !! t = Some (Serving fd) -> main_inv (serve t fd r s).
Proof.
  intros Hs Ht. destruct (mi_open _ Hs) as [_ Hk]. destruct r; simpl; [by destruct Hs| | |done]; apply (end_inv s t fd); try done.
  - unfold close. destruct (decide _); simpl; set_solver.
  - unfold close. destruct (decide _); simpl; [|done]. intros f [ev E]. simpl in *. apply lookup_delete_Some in E as [Hne E].
    assert (f ∈ open_fds (kern s)) by (apply Hk; eauto). set_solver.
  - intros f Hf. unfold close. destruct (decide _); simpl; [|done]. by rewrite lookup_delete_ne.
  - left. unfold close. destruct (decide _); simpl; [apply lookup_delete_eq|]. by apply kernel_ok_none.
  - unfold reset_oneshot, epoll_ctl. destruct (interest (kern s) !! fd); simpl; set_solver.
  - unfold reset_oneshot, epoll_ctl. destruct (interest (kern s) !! fd) eqn:E; simpl; [|done]. intros f. simpl.
    destruct (decide (f = fd)) as [->|]; [intros _; apply Hk; eauto|]. rewrite lookup_insert_ne by done. apply Hk.
  - intros f Hf. unfold reset_oneshot, epoll_ctl. destruct (interest (kern s) !! fd); simpl; [|done]. by rewrite lookup_insert_ne.
  - unfold reset_oneshot, epoll_ctl. destruct (interest (kern s) !! fd) eqn:E; simpl; [right|by left].
    split; [eauto|]. by rewrite lookup_insert_eq.
Qed.

Lemma oneshot_step s a o : main_inv s -> step a s = Some o -> exists s', o = Ok s' /\ main_inv s'.
Proof.
  intros Hs E. destruct a as [es|connfd|t|t r]; simpl in E.
  - destruct (queue s) eqn:Hq; [|done]. destruct (decide (NoDup es.*1)) as [Hnd|]; [|done].
    destruct (forallb _ es) eqn:Hr; [|done]. simplify_eq. eexists. split; [done|]. by apply wait_inv.
  - destruct (queue s) as [|[fd events] q] eqn:Hq; [done|]. destruct (decide (connfd ∈ open_fds (kern s))); [done|].
    simplify_eq. eexists. split; [done|].
    destruct (decide (fd = listenfd)) as [->|]; [by apply accept_inv|by apply start_inv].
  - destruct (threads s !! t) as [[| |]|] eqn:Ht; try done. pose proof (mi_arg _ Hs) as Ha.
    destruct (arg s) as [fd|] eqn:Earg; [|by rewrite Ha in Ht]. simplify_eq. eexists. split; [done|]. by apply take_inv.
  - destruct (threads s !! t) as [[|fd|]|] eqn:Ht; try done. simplify_eq. eexists. split; [done|]. by apply serve_inv.
Qed.

Lemma init_inv fds : listenfd ∈ fds -> main_inv (main_init fds).
Proof.
  intros Hl. unfold main_init, addfd. rewrite add_ok by done. simpl. split; simpl.
  - split; [done|]. intros fd. simpl. destruct (decide (fd = listenfd)) as [->|]; [done|].
    rewrite lookup_insert_ne, lookup_empty by done. by intros [? ?].
  - intros fd ev E. destruct (decide (fd = listenfd)) as [->|]; [|by rewrite lookup_insert_ne, lookup_empty in E].
    rewrite lookup_insert_eq in E. left. by simplify_eq.
  - unfold armed, queued. simpl. destruct (decide _); lia.
  - intros fd Hfd [H|H]; [|unfold queued in H; simpl in H; lia]. rewrite lookup_insert_ne, lookup_empty in H by done. by destruct H.
  - intros fd Hfd. rewrite armed_0; [unfold queued, live; simpl; lia|]. simpl. by rewrite lookup_insert_ne, lookup_empty.
  - intros fd _ H. by apply elem_of_nil in H.
  - done.
  - by intros ?%elem_of_nil.
  - by intros ?%elem_of_nil.
Qed.

Lemma oneshot_inv fds s : listenfd ∈ fds -> reach fds s -> main_inv s.
Proof.
  intros Hl. induction 1 as [|s a s' _ IH E]; [by apply init_inv|].
  destruct (oneshot_step s a _ IH E) as (s1 & [= <-] & Hs1). done.
Qed.

End program.

(** C10: in every reachable state at most one worker uses a connection, and it is the
    accepted one; no worker reads its argument before it is set.  (The [printf] of line 70
    can read past what was received: that is recorded in [printed].)  But [accept] is called at most once in a run: the [bool] of this file has
    [false = 2], so that the listening socket is added with EPOLLONESHOT, and it is
    never added again. *)
Theorem oneshot_exclusive listenfd fds s a o :
  listenfd ∈ fds -> reach listenfd fds s -> step listenfd a s = Some o ->
  (live (threads s) <= 1)%nat /\ (forall fd, Serving fd ∈ threads s -> fd ∈ accepted s) /\
  (length (accepted s) <= 1)%nat /\ exists s', o = Ok s'.
Proof.
  intros Hl Hr E. pose proof (oneshot_inv listenfd fds s Hl Hr) as Hs.
  pose proof (mi_live _ _ Hs (listenfd + 1) ltac:(lia)). pose proof (mi_listen _ _ Hs).
  split; [lia|]. split; [|split; [lia|]].
  - intros fd Hfd. apply (mi_served _ _ Hs); [|done]. intros ->. by apply (mi_serving _ _ Hs).
  - destruct (oneshot_step listenfd s a o Hs E) as (s' & -> & _). eauto.
Qed.

(** A run in which the second client waits for ever. *)
Definition ex_steps : list action := [Wait [(3, EPOLLIN)]; Handle 5; Wait [(5, EPOLLIN)]; Handle (-1); Take 0].

Fixpoint run_steps (l : list action) (s : main_t) : option (outcome main_t) :=
  match l with
  | [] => Some (Ok s)
  | a :: l => match step 3 a s with Some (Ok s') => run_steps l s' | r => r end
  end.

Lemma run_steps_reach fds l : forall s s', reach 3 fds s -> run_steps l s = Some (Ok s') -> reach 3 fds s'.
Proof.
  induction l as [|a l IH]; intros s s' Hr E; simpl in E; [by simplify_eq|].
  destruct (step 3 a s) as [[s1| |]|] eqn:E1; try done. eapply IH; [|exact E]. by eapply reach_step.
Qed.

Definition ex_state : main_t :=
  Main (Kernel {[3; 5]} {[3 := DISARMED; 5 := DISARMED]}) [] (Some 5) [Serving 5] [5] [].

Lemma oneshot_exclusive_witness :
  (live (threads ex_state) <= 1)%nat /\ (length (accepted ex_state) <= 1)%nat /\ step 3 (Wait [(3, EPOLLIN)]) ex_state = None.
Proof.
  destruct (oneshot_exclusive 3 {[3]} ex_state (Recv 0 Again) (Ok (serve 0 5 Again ex_state))) as (Hl & _ & Ha & _).
  - set_solver.
  - eapply (run_steps_reach _ ex_steps); [apply reach_init|vm_compute; reflexivity].
  - reflexivity.
  - split; [exact Hl|]. split; [exact Ha|vm_compute; reflexivity].
Defined.
