(* ===== verification/CurlEpoll.v ===== *)
(** * A transfer driven by epoll or poll: [src/lib/libcurl/curl_epoll.c]

    libcurl tells the program through callbacks which sockets to watch and how long; the
    program waits and tells libcurl which socket is ready.  What libcurl does in a call
    (the sockets it opens and closes, the callbacks it makes, the number of transfers left)
    is the event of a round; the kernel is that of Epoll.v. *)

From stdpp Require Import prelude gmap.
From Stdlib Require Import ZArith Lia.
From S2P Require Import Prelude Epoll.

Definition CURL_POLL_IN : Z := 1.
Definition CURL_POLL_OUT : Z := 2.
Definition CURL_POLL_INOUT : Z := 3.
Definition CURL_POLL_REMOVE : Z := 4.
Definition CURL_SOCKET_TIMEOUT : Z := -1.
Definition POLLIN : Z := 1.
Definition POLLOUT : Z := 4.

(** The global variables with the kernel, and the sockets given to
    [curl_multi_socket_action]. *)
Record curl := Curl {
  kern : kernel;
  pollfd_fd : Z;
  pollfd_events : Z;
  timeout : Z;
  running_handles : Z;
  actions : list Z;
}.

Definition set_kern v s := Curl v (pollfd_fd s) (pollfd_events s) (timeout s) (running_handles s) (actions s).
Definition set_pollfd fd ev s := Curl (kern s) fd ev (timeout s) (running_handles s) (actions s).

(** [long] to [int] *)
Definition to_int (z : Z) : Z := (z + 2 ^ 31) mod 2 ^ 32 - 2 ^ 31.

Definition ctl_call (op : ctl) (fd events : Z) : M curl Z := fun s =>
  let '(r, k) := epoll_ctl op fd events (kern s) in Ok (r, set_kern k s).

(** After a failed call on [fd]: is it [EBADF]? *)
Definition is_EBADF (fd : Z) : M curl bool := fun s => Ok (bool_decide (fd ∉ open_fds (kern s)), s).

(** [false]: [error] has ended the program. *)
Definition socketCallback (fd action : Z) : M curl bool :=
  _ ← modify (set_pollfd fd 0);
  if action =? CURL_POLL_REMOVE then
    _ ← modify (set_pollfd (-1) 0);
    res ← ctl_call EPOLL_CTL_DEL fd 0;
    bad ← is_EBADF fd;
    mret (negb ((res =? -1) && negb bad))
  else
    let input := (action =? CURL_POLL_IN) || (action =? CURL_POLL_INOUT) in
    let output := (action =? CURL_POLL_OUT) || (action =? CURL_POLL_INOUT) in
    let pevents := Z.lor (if input then POLLIN else 0) (if output then POLLOUT else 0) in
    let events := Z.lor (if input then EPOLLIN else 0) (if output then EPOLLOUT else 0) in
    _ ← modify (set_pollfd fd pevents);
    if negb (events =? 0) then
      res ← ctl_call EPOLL_CTL_ADD fd events;
      res ← (if res =? -1 then ctl_call EPOLL_CTL_MOD fd events else mret res);
      mret (negb (res =? -1))
    else mret true.

Definition timerCallback (timeout_ms : Z) : M curl unit :=
  modify (fun s => Curl (kern s) (pollfd_fd s) (pollfd_events s) (to_int timeout_ms) (running_handles s) (actions s)).

(** What libcurl does during a call. *)
Inductive act := Opens (fd : Z) | Closes (fd : Z) | Socket (fd action : Z) | Timer (ms : Z).

Definition do_act (a : act) : M curl bool :=
  match a with
  | Opens fd => _ ← modify (fun s => set_kern (opened fd (kern s)) s); mret true
  | Closes fd => _ ← modify (fun s => set_kern (close fd (kern s)).2 s); mret true
  | Socket fd action => socketCallback fd action
  | Timer ms => _ ← timerCallback ms; mret true
  end.

Fixpoint do_acts (l : list act) : M curl bool :=
  match l with
  | [] => mret true
  | a :: l => go ← do_act a; if go : bool then do_acts l else mret false
  end.

(** [curl_multi_socket_action(multi, socket, 0, &running_handles)] *)
Definition socket_action (socket : Z) (l : list act) (running : Z) : M curl bool :=
  _ ← modify (fun s => Curl (kern s) (pollfd_fd s) (pollfd_events s) (timeout s) (running_handles s) (actions s ++ [socket]));
  go ← do_acts l;
  _ ← modify (fun s => Curl (kern s) (pollfd_fd s) (pollfd_events s) (timeout s) running (actions s));
  mret go.

(** What [epoll_wait] or [poll] returns, and what libcurl then does. *)
Inductive wait := WaitError | WaitTimeout (l : list act) (running : Z) | WaitReady (fd : Z) (l : list act) (running : Z).

Definition curl_round (usePoll : bool) (w : wait) : M curl bool :=
  match w with
  | WaitError => mret false
  | WaitTimeout l running => socket_action CURL_SOCKET_TIMEOUT l running
  | WaitReady fd l running =>
      s ← get; socket_action (if usePoll then pollfd_fd s else fd) l running
  end.

(** How the program ends, or that it waits. *)
Inductive result := Exit0 | Exit1 | Waiting.

Fixpoint curl_loop (usePoll : bool) (ws : list wait) : M curl result :=
  s ← get;
  if 0 <? running_handles s then
    match ws with
    | [] => mret Waiting
    | w :: ws => go ← curl_round usePoll w; if go : bool then curl_loop usePoll ws else mret Exit1
    end
  else mret Exit0.

(** [l]: what libcurl does in [curl_multi_add_handle]. *)
Definition curl_main (usePoll : bool) (l : list act) (ws : list wait) : M curl result :=
  go ← do_acts l;
  _ ← modify (fun s => Curl (kern s) (pollfd_fd s) (pollfd_events s) (timeout s) 1 (actions s));
  if go : bool then curl_loop usePoll ws else mret Exit1.

Definition curl_init : curl := Curl (Kernel ∅ ∅) (-1) 0 (-1) 0 [].

(** ** What libcurl wants *)

(** The sockets to watch, and for what. *)
Definition want (a : act) (w : gmap Z Z) : gmap Z Z :=
  match a with
  | Socket fd action => if decide (action = CURL_POLL_REMOVE) then delete fd w else <[fd := action]> w
  | Closes fd => delete fd w
  | _ => w
  end.

(** As events of epoll. *)
Definition mask (action : Z) : Z :=
  if decide (action = CURL_POLL_IN) then EPOLLIN else if decide (action = CURL_POLL_OUT) then EPOLLOUT else Z.lor EPOLLIN EPOLLOUT.

(** What libcurl may do: it opens and closes its sockets, asks to watch an open one for
    input, output or both, and takes back what it asked for or has closed. *)
Definition legal (a : act) (k : kernel) : Prop :=
  match a with
  | Opens fd => fd ∉ open_fds k
  | Closes fd => fd ∈ open_fds k
  | Socket fd action =>
      (action = CURL_POLL_IN \/ action = CURL_POLL_OUT \/ action = CURL_POLL_INOUT) /\ fd ∈ open_fds k \/
      action = CURL_POLL_REMOVE /\ (is_Some (interest k !! fd) \/ fd ∉ open_fds k)
  | Timer _ => True
  end.

Fixpoint all_legal (l : list act) (s : curl) : Prop :=
  match l with
  | [] => True
  | a :: l => legal a (kern s) /\ match do_act a s with Ok (_, s') => all_legal l s' | _ => True end
  end.

(** [w] is watched. *)
Record watches (w : gmap Z Z) (s : curl) : Prop := {
  wa_interest : interest (kern s) = mask <$> w;
  wa_kernel : kernel_ok (kern s);
}.

Lemma watch_ok fd action w s :
  watches w s -> fd ∈ open_fds (kern s) -> action = CURL_POLL_IN \/ action = CURL_POLL_OUT \/ action = CURL_POLL_INOUT ->
  wp (socketCallback fd action) (fun go s' => go = true /\ watches (<[fd := action]> w) s' /\
    running_handles s' = running_handles s /\ actions s' = actions s) s.
Proof.
  intros [Hw Hk] Hfd Ha. unfold socketCallback. wp_step. eapply wp_intro; [reflexivity|].
  assert (Hev : exists ev pev, (if action =? CURL_POLL_REMOVE then True else False) = False /\
    Z.lor (if (action =? CURL_POLL_IN) || (action =? CURL_POLL_INOUT) then EPOLLIN else 0)
      (if (action =? CURL_POLL_OUT) || (action =? CURL_POLL_INOUT) then EPOLLOUT else 0) = ev /\
    ev = mask action /\ (ev =? 0) = false /\
    Z.lor (if (action =? CURL_POLL_IN) || (action =? CURL_POLL_INOUT) then POLLIN else 0)
      (if (action =? CURL_POLL_OUT) || (action =? CURL_POLL_INOUT) then POLLOUT else 0) = pev).
  { destruct Ha as [->|[->| ->]]; by eexists _, _. }
  destruct Hev as (ev & pev & Hrem & -> & -> & H0 & ->). assert (action =? CURL_POLL_REMOVE = false) as -> by (destruct Ha as [->|[->| ->]]; done).
  wp_step. eapply wp_intro; [reflexivity|]. rewrite H0. cbn [negb]. wp_step.
  assert (Hins : watches (<[fd := action]> w) (set_kern (Kernel (open_fds (kern s)) (<[fd := mask action]> (interest (kern s)))) (set_pollfd fd pev s))).
  { split; simpl; [by rewrite fmap_insert, Hw|]. intros fd' Hfd'. simpl in *.
    destruct (decide (fd' = fd)) as [->|Hne]; [done|]. rewrite lookup_insert_ne in Hfd' by done. by apply Hk. }
  destruct (interest (kern s) !! fd) as [old|] eqn:E.
  - eapply wp_intro; [unfold ctl_call, epoll_ctl; simpl; rewrite E; reflexivity|]. simpl. wp_step.
    eapply wp_intro; [unfold ctl_call, epoll_ctl; simpl; rewrite E; reflexivity|]. by apply wp_ret.
  - eapply wp_intro; [unfold ctl_call, epoll_ctl; simpl; rewrite E, decide_True by done; reflexivity|]. simpl. wp_step. by apply wp_ret.
Qed.

Lemma unwatch_ok fd w s :
  watches w s -> is_Some (interest (kern s) !! fd) \/ fd ∉ open_fds (kern s) ->
  wp (socketCallback fd CURL_POLL_REMOVE) (fun go s' => go = true /\ watches (delete fd w) s' /\
    running_handles s' = running_handles s /\ actions s' = actions s) s.
Proof.
  intros [Hw Hk] Hfd. unfold socketCallback. wp_step. eapply wp_intro; [reflexivity|]. change (CURL_POLL_REMOVE =? CURL_POLL_REMOVE) with true. cbv iota.
  wp_step. eapply wp_intro; [reflexivity|]. wp_step. destruct (interest (kern s) !! fd) as [old|] eqn:E.
  - eapply wp_intro; [unfold ctl_call, epoll_ctl; simpl; rewrite E; reflexivity|]. wp_step. eapply wp_intro; [reflexivity|]. apply wp_ret.
    split; [done|]. split; [|done]. split; simpl; [by rewrite fmap_delete, Hw|]. intros fd'. simpl. rewrite lookup_delete_is_Some. intros [_ H]. by apply Hk.
  - destruct Hfd as [[? ?]|Hfd]; [done|]. eapply wp_intro; [unfold ctl_call, epoll_ctl; simpl; rewrite E; reflexivity|]. wp_step.
    eapply wp_intro; [reflexivity|]. apply wp_ret. simpl. rewrite bool_decide_true by done. split; [done|]. split; [|done].
    split; simpl; [|done]. rewrite fmap_delete, <- Hw. by rewrite delete_id.
Qed.

Lemma act_ok a w s : watches w s -> legal a (kern s) ->
  wp (do_act a) (fun go s' => go = true /\ watches (want a w) s' /\ running_handles s' = running_handles s /\ actions s' = actions s) s.
Proof.
  intros Hs Hl. destruct a as [fd|fd|fd action|ms]; cbn [do_act want legal] in *.
  - wp_step. eapply wp_intro; [reflexivity|]. apply wp_ret. destruct Hs as [Hw Hk]. split; [done|]. split; [|done]. split; simpl; [done|].
    intros fd' H%Hk. unfold opened. simpl. set_solver.
  - wp_step. eapply wp_intro; [reflexivity|]. apply wp_ret. destruct Hs as [Hw Hk]. split; [done|]. split; [|done]. unfold close.
    rewrite decide_True by done. split; simpl; [by rewrite fmap_delete, Hw|]. intros fd'. simpl. rewrite lookup_delete_is_Some. intros [Hne H%Hk]. set_solver.
  - destruct Hl as [[Ha Hfd]|[-> Hfd]].
    + rewrite decide_False by (destruct Ha as [->|[->| ->]]; done). by apply watch_ok.
    + rewrite decide_True by done. by apply unwatch_ok.
  - wp_step. eapply wp_intro; [reflexivity|]. apply wp_ret. destruct Hs as [Hw Hk]. by split; [|split; [split|]].
Qed.

Lemma acts_ok l : forall w s, watches w s -> all_legal l s ->
  wp (do_acts l) (fun go s' => go = true /\ watches (foldl (fun w a => want a w) w l) s' /\
    running_handles s' = running_handles s /\ actions s' = actions s) s.
Proof.
  induction l as [|a l IH]; intros w s Hs Hl; [by apply wp_ret|]. destruct Hl as [Ha Hl]. cbn [do_acts foldl]. wp_step.
  pose proof (act_ok a w s Hs Ha) as Hact. apply wp_inv in Hact as (go & s' & E & -> & Hs' & Hr & Hac). rewrite E in Hl.
  eapply wp_intro; [exact E|]. cbv iota. eapply wp_mono; [by apply IH|]. intros go s2 (-> & H1 & H2 & H3). split; [done|]. split; [done|]. split; congruence.
Qed.

(** A run: every round reports a socket that is watched, for something it is watched for,
    or nothing. *)
Fixpoint legal_run (ws : list wait) (s : curl) : Prop :=
  match ws with
  | [] => True
  | w :: ws =>
      match w with
      | WaitError => False
      | WaitTimeout l r => all_legal l (Curl (kern s) (pollfd_fd s) (pollfd_events s) (timeout s) (running_handles s) (actions s ++ [CURL_SOCKET_TIMEOUT]))
      | WaitReady fd l r => (exists ev, reports (kern s) fd ev) /\
          all_legal l (Curl (kern s) (pollfd_fd s) (pollfd_events s) (timeout s) (running_handles s) (actions s ++ [fd]))
      end /\ match curl_round false w s with Ok (_, s') => legal_run ws s' | _ => True end
  end.

Definition acts_of (w : wait) : list act := match w with WaitError => [] | WaitTimeout l _ | WaitReady _ l _ => l end.
Definition running_of (w : wait) : Z := match w with WaitError => 0 | WaitTimeout _ r | WaitReady _ _ r => r end.
Definition told (w : wait) : Z := match w with WaitReady fd _ _ => fd | _ => CURL_SOCKET_TIMEOUT end.

(** The rounds until no transfer is left. *)
Fixpoint until_done (running : Z) (ws : list wait) : list wait :=
  if 0 <? running then match ws with [] => [] | w :: ws => w :: until_done (running_of w) ws end else [].

Definition still_running (running : Z) (ws : list wait) : bool := 0 <? default running (last (running_of <$> until_done running ws)).

Definition wants (w : gmap Z Z) (l : list act) : gmap Z Z := foldl (fun w a => want a w) w l.

Lemma curl_loop_ok ws : forall w s, watches w s -> legal_run ws s ->
  wp (curl_loop false ws) (fun r s' =>
    let done := until_done (running_handles s) ws in
    r = (if still_running (running_handles s) ws then Waiting else Exit0) /\
    watches (wants w (done ≫= acts_of)) s' /\ actions s' = actions s ++ (told <$> done)) s.
Proof.
  induction ws as [|x ws IH]; intros w s Hs Hl; cbn [curl_loop until_done]; wp_step; (eapply wp_intro; [reflexivity|]); cbn beta;
    unfold still_running; cbn [until_done]; destruct (0 <? running_handles s) eqn:Er.
  1,2,4: apply wp_ret; simpl; rewrite Er, app_nil_r; done.
  destruct Hl as [Hx Hl]. wp_step.
  assert (Hround : wp (curl_round false x) (fun go s' => go = true /\ watches (wants w (acts_of x)) s' /\ running_handles s' = running_of x /\
    actions s' = actions s ++ [told x]) s).
  { destruct x as [|l r|fd l r]; [done| |destruct Hx as [_ Hx]]; cbn [curl_round].
    - unfold socket_action. wp_step. eapply wp_intro; [reflexivity|]. wp_step. eapply wp_mono; [apply (acts_ok l w); [destruct Hs; by split|exact Hx]|].
      intros go s2 (-> & [H1 H1'] & H2 & H3). wp_step. eapply wp_intro; [reflexivity|]. apply wp_ret. split; [done|]. split; [by split|]. split; [done|]. exact H3.
    - wp_step. eapply wp_intro; [reflexivity|]. unfold socket_action. wp_step. eapply wp_intro; [reflexivity|]. wp_step.
      eapply wp_mono; [apply (acts_ok l w); [destruct Hs; by split|exact Hx]|].
      intros go s2 (-> & [H1 H1'] & H2 & H3). wp_step. eapply wp_intro; [reflexivity|]. apply wp_ret. split; [done|]. split; [by split|]. split; [done|]. exact H3. }
  apply wp_inv in Hround as (go & s' & E & -> & Hs' & Hr & Ha). rewrite E in Hl. eapply wp_intro; [exact E|]. cbv iota.
  eapply wp_mono; [by apply (IH (wants w (acts_of x)))|]. cbn beta zeta. rewrite Hr, Ha. intros res s2 (-> & H1 & H2). split; [|split].
  - unfold still_running. rewrite fmap_cons, last_cons. by destruct (last (running_of <$> until_done (running_of x) ws)).
  - unfold wants in *. rewrite bind_cons, foldl_app. exact H1.
  - rewrite H2, <- app_assoc. done.
Qed.

(** C17: driven by epoll, the program never fails on a callback, whatever libcurl asks
    for; at any time the kernel watches exactly the sockets libcurl wants watched, for
    exactly what it wants; libcurl is told every socket that is ready and every timeout,
    in order; and the program ends, with status 0, as soon as no transfer is left. *)
Theorem curl_epoll_watches l ws :
  all_legal l curl_init ->
  (forall s', do_acts l curl_init = Ok (true, s') -> legal_run ws (Curl (kern s') (pollfd_fd s') (pollfd_events s') (timeout s') 1 (actions s'))) ->
  let done := until_done 1 ws in
  wp (curl_main false l ws) (fun r s =>
    r = (if still_running 1 ws then Waiting else Exit0) /\
    interest (kern s) = mask <$> wants ∅ (l ++ (done ≫= acts_of)) /\ actions s = told <$> done) curl_init.
Proof.
  intros Hl Hrun done. unfold curl_main. wp_step.
  assert (H0 : watches ∅ curl_init) by (split; simpl; [by rewrite fmap_empty|]; intros fd [? ?]; done).
  pose proof (acts_ok l ∅ curl_init H0 Hl) as Hacts. apply wp_inv in Hacts as (go & s' & E & -> & [H1 H1'] & H2 & H3). eapply wp_intro; [exact E|]. wp_step.
  eapply wp_intro; [reflexivity|]. cbv iota. eapply wp_mono; [apply (curl_loop_ok ws (wants ∅ l)); [by split|by apply Hrun]|].
  simpl. intros r s (-> & [H4 _] & H5). split; [done|]. rewrite H3 in H5. split; [|exact H5]. rewrite H4. unfold wants. by rewrite foldl_app.
Qed.

(** ** An example, and poll *)

Definition ex_acts : list act := [Opens 5; Socket 5 CURL_POLL_OUT; Timer 100].
Definition ex_waits : list wait := [WaitReady 5 [Socket 5 CURL_POLL_IN] 1; WaitTimeout [Timer (-1)] 1; WaitReady 5 [Socket 5 CURL_POLL_REMOVE; Closes 5] 0].

Lemma curl_epoll_watches_witness :
  wp (curl_main false ex_acts ex_waits) (fun r s => r = Exit0 /\ interest (kern s) = ∅ /\ actions s = [5; -1; 5]) curl_init.
Proof.
  eapply wp_mono.
  - apply (curl_epoll_watches ex_acts ex_waits).
    + vm_compute. repeat split; first [discriminate | (intros H; discriminate H) | idtac]; auto.
    + intros s' [= <-]. cbn [legal_run ex_waits].
      split; [split; [exists EPOLLOUT, EPOLLOUT; vm_compute; repeat split; discriminate|]|].
      { vm_compute. repeat split; auto. }
      vm_compute. split; [repeat split|]. split; [split; [exists 1, 1; vm_compute; repeat split; discriminate|]|done].
      repeat split. right. split; [done|]. left. by eexists.
  - intros r s (-> & Hi & Ha). split; [reflexivity|]. rewrite Hi, Ha. split; [vm_compute; reflexivity|reflexivity].
Defined.

(** Driven by poll, the program watches one socket only, the one of the last callback: here
    none, although libcurl still wants socket 5. *)
Lemma poll_forgets :
  let l := [Opens 5; Socket 5 CURL_POLL_IN; Opens 6; Socket 6 CURL_POLL_IN; Socket 6 CURL_POLL_REMOVE] in
  exists s, do_acts l curl_init = Ok (true, s) /\ pollfd_fd s = -1 /\ wants ∅ l !! 5 = Some CURL_POLL_IN.
Proof. eexists. split; [vm_compute; reflexivity|]. by vm_compute. Qed.
