(* ===== verification/Kvmsg.v ===== *)
(** * Key-value messages: [src/lib/zeromq/clone/kvsimple.c]

    A [kvmsg_t] is a key frame, a sequence frame and a body frame.  The messages,
    sockets and hash table of libzmq and czmq are not part of the sources: they
    are the operations of the classes [Zmq] and [Zhash], and what the code relies
    on of their documented behaviour are the classes [ZmqLaws] and [ZhashLaws].
    Both have a concrete instance at the end. *)

From stdpp Require Import prelude gmap list.
From Stdlib Require Import ZArith Lia.
From S2P Require Import Prelude.

(** ** libzmq *)

(** Bytes are integers from 0 to 255. *)
Class Zmq := {
  zmsg : Type;
  zsocket : Type;
  znet : Type;                                  (** the state of the sockets *)
  zmq_msg_init : zmsg;
  zmq_msg_init_size : nat -> zmsg;
  zmq_msg_data : zmsg -> list Z;                (** with its size *)
  zmq_msg_write : zmsg -> list Z -> zmsg;       (** [memcpy] to [zmq_msg_data] *)
  zmq_msg_copy : zmsg -> zmsg;
  zmq_msg_send : zsocket -> zmsg -> bool -> M znet Z;   (** with or without [ZMQ_SNDMORE] *)
  zmq_msg_recv : zsocket -> M znet (option zmsg);       (** [None]: -1 *)
  zsocket_rcvmore : zsocket -> M znet Z;
}.

(** A socket [i] receives, in order and unchanged, the frames sent on a socket
    it is connected to; [rcvmore] tells of the last frame received. *)
Class ZmqLaws `{Zmq} := {
  inbox : znet -> zsocket -> list (list Z * bool);
  connected : zsocket -> zsocket -> Prop;
  data_init : zmq_msg_data zmq_msg_init = [];
  data_init_size n : length (zmq_msg_data (zmq_msg_init_size n)) = n;
  data_write m bs : length bs = length (zmq_msg_data m) -> zmq_msg_data (zmq_msg_write m bs) = bs;
  data_copy m : zmq_msg_data (zmq_msg_copy m) = zmq_msg_data m;
  send_ok o i m more s :
    connected o i ->
    wp (zmq_msg_send o m more) (fun _ s' => inbox s' i = inbox s i ++ [(zmq_msg_data m, more)]) s;
  send_other o j m more s :
    ~ connected o j -> wp (zmq_msg_send o m more) (fun _ s' => inbox s' j = inbox s j) s;
  recv_ok i d more rest s :
    inbox s i = (d, more) :: rest ->
    wp (zmq_msg_recv i) (fun r s' =>
      (exists m, r = Some m /\ zmq_msg_data m = d) /\ inbox s' i = rest /\
      zsocket_rcvmore i s' = Ok (if more then 1 else 0, s') /\
      forall j, j <> i -> inbox s' j = inbox s j) s;
}.

(** ** Data *)

Definition KVMSG_KEY_MAX : nat := 255.
Definition FRAME_KEY : nat := 0.
Definition FRAME_SEQ : nat := 1.
Definition FRAME_BODY : nat := 2.
Definition KVMSG_FRAMES : nat := 3.

Section kvmsg.
Context `{Zmq}.

(** [struct _kvmsg]; a frame that was never initialised is [None]. *)
Record kvmsg_t := Kvmsg {
  present : list bool;
  frame : list (option zmsg);
  key : list Z;
}.

(** What [zmalloc] returns: zeroed memory. *)
Definition kvmsg_zero : kvmsg_t :=
  Kvmsg (replicate KVMSG_FRAMES false) (replicate KVMSG_FRAMES None) (replicate (S KVMSG_KEY_MAX) 0).

(** The memory of the messages (its trace is the log of [zmq_msg_close]) and
    the sockets. *)
Record kstate := KState { k_mem : store kvmsg_t zmsg; k_net : znet }.

Definition in_mem {X} (c : M (store kvmsg_t zmsg) X) : M kstate X := fun s =>
  match c (k_mem s) with
  | Ok (x, m) => Ok (x, KState m (k_net s))
  | Err f => Err f
  | NoFuel => NoFuel
  end.

Definition in_net {X} (c : M znet X) : M kstate X := fun s =>
  match c (k_net s) with
  | Ok (x, n) => Ok (x, KState (k_mem s) n)
  | Err f => Err f
  | NoFuel => NoFuel
  end.

Definition not_null (p : ptr) : bool := match p with Some _ => true | None => false end.

Definition has (k : kvmsg_t) (n : nat) : bool := nth n (present k) false.

(** [&self->frame[n]], used as an initialised message *)
Definition frame_of (k : kvmsg_t) (n : nat) : M kstate zmsg :=
  match nth n (frame k) None with Some m => mret m | None => throw Uninitialised end.

(** A new message in frame [n], which is then present. *)
Definition set_frame (n : nat) (m : zmsg) (k : kvmsg_t) : kvmsg_t :=
  Kvmsg (<[n := true]> (present k)) (<[n := Some m]> (frame k)) (key k).

Definition set_keybuf (bs : list Z) (k : kvmsg_t) : kvmsg_t := Kvmsg (present k) (frame k) bs.

Definition zmq_msg_close (m : zmsg) : M kstate unit := in_mem (call_destroy m).

(** [if (self->present[n]) zmq_msg_close(&self->frame[n]);] *)
Definition close_frame (k : kvmsg_t) (n : nat) : M kstate unit :=
  if has k n then m ← frame_of k n; zmq_msg_close m else mret tt.

(** ** The sequence number: 64-bit signed arithmetic *)

Definition INT64_MAX : Z := 2 ^ 63 - 1.
Definition int64_of {S} (z : Z) : M S Z :=
  if (- 2 ^ 63 <=? z) && (z <=? INT64_MAX) then mret z else throw SignedOverflow.

(** The shifts that [kvmsg_set_sequence] and [kvmsg_sequence] use. *)
Definition set_shifts : list Z := [56; 48; 40; 32; 24; 16; 8; 0].
Definition get_shifts : list Z := [56; 48; 40; 32; 24; 26; 8; 0].

Definition sequence_bytes (sequence : Z) : list Z :=
  map (fun sh => Z.land (Z.shiftr sequence sh) 255) set_shifts.

(** [acc + ((int64_t)(source[0]) << 56) + ...] *)
Fixpoint sum_bytes {S} (acc : Z) (source shifts : list Z) : M S Z :=
  match source, shifts with
  | b :: source, sh :: shifts =>
      t ← int64_of (Z.shiftl b sh);
      acc ← int64_of (acc + t);
      sum_bytes acc source shifts
  | _, _ => mret acc
  end.

Definition kvmsg_sequence (self : ptr) : M kstate Z :=
  _ ← assert (not_null self);
  k ← in_mem (load self);
  if has k FRAME_SEQ then
    m ← frame_of k FRAME_SEQ;
    _ ← assert (length (zmq_msg_data m) =? 8)%nat;
    sum_bytes 0 (zmq_msg_data m) get_shifts
  else mret 0.

Definition kvmsg_set_sequence (self : ptr) (sequence : Z) : M kstate unit :=
  _ ← assert (not_null self);
  k ← in_mem (load self);
  _ ← close_frame k FRAME_SEQ;
  let msg := zmq_msg_write (zmq_msg_init_size 8) (sequence_bytes sequence) in
  in_mem (update self (set_frame FRAME_SEQ msg)).

(** ** Creation and destruction *)

(** [zmalloc] stops the program when there is no memory. *)
Definition kvmsg_new (sequence : Z) : M kstate ptr :=
  self ← in_mem (malloc kvmsg_zero);
  match self with
  | None => throw AssertFailed
  | Some _ => _ ← kvmsg_set_sequence self sequence; mret self
  end.

Fixpoint close_frames (k : kvmsg_t) (ns : list nat) : M kstate unit :=
  match ns with
  | [] => mret tt
  | n :: ns => _ ← close_frame k n; close_frames k ns
  end.

Definition kvmsg_free (p : ptr) : M kstate unit :=
  match p with
  | None => mret tt
  | Some _ =>
      k ← in_mem (load p);
      _ ← close_frames k (seq 0 KVMSG_FRAMES);
      in_mem (free p)
  end.

(** [kvmsg_destroy(&self)]; the result is the new value of [self]. *)
Definition kvmsg_destroy (self : ptr) : M kstate ptr :=
  match self with
  | None => mret NULL
  | Some _ => _ ← kvmsg_free self; mret NULL
  end.

(** ** Sending and receiving *)

Fixpoint recv_loop (self : ptr) (socket : zsocket) (ns : list nat) : M kstate ptr :=
  match ns with
  | [] => mret self
  | n :: ns =>
      k ← in_mem (load self);
      _ ← close_frame k n;
      _ ← in_mem (update self (set_frame n zmq_msg_init));
      r ← in_net (zmq_msg_recv socket);
      match r with
      | None => kvmsg_destroy self
      | Some m =>
          _ ← in_mem (update self (set_frame n m));
          let rcvmore := if (n <? KVMSG_FRAMES - 1)%nat then 1 else 0 in
          more ← in_net (zsocket_rcvmore socket);
          if more =? rcvmore then recv_loop self socket ns else kvmsg_destroy self
      end
  end.

Definition kvmsg_recv (socket : zsocket) : M kstate ptr :=
  self ← kvmsg_new 0;
  recv_loop self socket (seq 0 KVMSG_FRAMES).

Fixpoint send_loop (self : ptr) (socket : zsocket) (ns : list nat) : M kstate unit :=
  match ns with
  | [] => mret tt
  | n :: ns =>
      k ← in_mem (load self);
      copy ← (if has k n then m ← frame_of k n; mret (zmq_msg_copy m) else mret zmq_msg_init);
      _ ← in_net (zmq_msg_send socket copy (n <? KVMSG_FRAMES - 1)%nat);
      _ ← zmq_msg_close copy;
      send_loop self socket ns
  end.

Definition kvmsg_send (self : ptr) (socket : zsocket) : M kstate unit :=
  _ ← assert (not_null self);
  send_loop self socket (seq 0 KVMSG_FRAMES).

(** ** The key *)

(** [memcpy(self->key, data, size); self->key[size] = 0;] *)
Definition fill (bs buf : list Z) : list Z := bs ++ 0 :: drop (S (length bs)) buf.

(** The result is the string [self->key], or NULL. *)
Definition kvmsg_key (self : ptr) : M kstate (option (list Z)) :=
  _ ← assert (not_null self);
  k ← in_mem (load self);
  if has k FRAME_KEY then
    if nth 0 (key k) 0 =? 0 then
      m ← frame_of k FRAME_KEY;
      let buf := fill (take KVMSG_KEY_MAX (zmq_msg_data m)) (key k) in
      _ ← in_mem (update self (set_keybuf buf));
      mret (Some (cstr buf))
    else mret (Some (cstr (key k)))
  else mret None.

(** A frame is replaced by a message of the given bytes. *)
Definition put_frame (self : ptr) (n : nat) (bs : list Z) : M kstate unit :=
  _ ← assert (not_null self);
  k ← in_mem (load self);
  _ ← close_frame k n;
  in_mem (update self (set_frame n (zmq_msg_write (zmq_msg_init_size (length bs)) bs))).

Definition kvmsg_set_key (self : ptr) (k : list Z) : M kstate unit := put_frame self FRAME_KEY k.

(** [vsnprintf(value, 255, ...)]: at most 254 characters of what the format
    gives. *)
Definition kvmsg_fmt_key (self : ptr) (formatted : list Z) : M kstate unit :=
  kvmsg_set_key self (take (KVMSG_KEY_MAX - 1) formatted).

(** ** The body *)

Definition kvmsg_body (self : ptr) : M kstate (option (list Z)) :=
  _ ← assert (not_null self);
  k ← in_mem (load self);
  if has k FRAME_BODY then m ← frame_of k FRAME_BODY; mret (Some (zmq_msg_data m)) else mret None.

Definition kvmsg_set_body (self : ptr) (body : list Z) : M kstate unit := put_frame self FRAME_BODY body.

Definition kvmsg_fmt_body (self : ptr) (formatted : list Z) : M kstate unit :=
  kvmsg_set_body self (take 254 formatted).

Definition kvmsg_size (self : ptr) : M kstate Z :=
  _ ← assert (not_null self);
  k ← in_mem (load self);
  if has k FRAME_BODY then m ← frame_of k FRAME_BODY; mret (Z.of_nat (length (zmq_msg_data m)))
  else mret 0.

(** What [kvmsg_dump] prints: sequence, key, size, body. *)
Definition kvmsg_dump (self : ptr) : M kstate (option (Z * option (list Z) * Z * list Z)) :=
  match self with
  | None => mret None
  | Some _ =>
      size ← kvmsg_size self;
      body ← kvmsg_body self;
      sequence ← kvmsg_sequence self;
      k ← kvmsg_key self;
      mret (Some (sequence, k, size, default [] body))
  end.

End kvmsg.

(** ** czmq's hash table *)

(** A table of messages; [free_item] is how the callback set by [zhash_freefn]
    frees an item. *)
Class Zhash `{Zmq} := {
  zhash_t : Type;
  zhash_update : (ptr -> M kstate unit) -> zhash_t -> list Z -> loc -> M kstate zhash_t;
  zhash_freefn : zhash_t -> list Z -> zhash_t;
}.

(** [view h !! k]: the item under a key, and whether it has a free callback.
    An update frees the item it replaces, when it has a callback. *)
Class ZhashLaws `{Zhash} := {
  view : zhash_t -> gmap (list Z) (loc * bool);
  update_ok f h k i Q s :
    (forall h', (exists b, view h' = <[k := (i, b)]> (view h)) ->
       match view h !! k with
       | Some (old, true) => wp (f (Some old)) (fun _ => Q h') s
       | _ => Q h' s
       end) ->
    wp (zhash_update f h k i) Q s;
  freefn_ok h k i b :
    view h !! k = Some (i, b) -> view (zhash_freefn h k) = <[k := (i, true)]> (view h);
}.

Section store.
Context `{Zhash}.

(** [kvmsg_store(&self, hash)]; the result is the new [self] and the table. *)
Definition kvmsg_store (self : ptr) (hash : zhash_t) : M kstate (ptr * zhash_t) :=
  match self with
  | None => mret (NULL, hash)
  | Some l =>
      k ← in_mem (load self);
      hash ←
        (if has k FRAME_KEY && has k FRAME_BODY then
           k1 ← kvmsg_key self;
           hash ← zhash_update kvmsg_free hash (default [] k1) l;
           k2 ← kvmsg_key self;
           mret (zhash_freefn hash (default [] k2))
         else mret hash);
      mret (NULL, hash)
  end.

End store.

(** ** Well-formed messages and what they hold *)

Section spec.
Context `{Hz : Zmq, Hl : !ZmqLaws}.
Implicit Types (k : kvmsg_t) (s : kstate) (l : loc) (n : nat).

Record kv_ok k : Prop := {
  ok_present : length (present k) = KVMSG_FRAMES;
  ok_frame : length (frame k) = KVMSG_FRAMES;
  ok_key : length (key k) = S KVMSG_KEY_MAX;
  ok_init n : has k n = true -> is_Some (nth n (frame k) None);
}.

(** The bytes of a frame, if it is present. *)
Definition content k n : option (list Z) :=
  if has k n then zmq_msg_data <$> nth n (frame k) None else None.

(** The heap is [h], nothing else changed but the sockets and the log. *)
Definition heap_is (s s' : kstate) (h : gmap loc kvmsg_t) : Prop :=
  cells (k_mem s') = h /\ oracle (k_mem s') = oracle (k_mem s).

Lemma wp_in_mem {X} (c : M (store kvmsg_t zmsg) X) Q s :
  wp c (fun x m => Q x (KState m (k_net s))) (k_mem s) -> wp (in_mem c) Q s.
Proof. unfold wp, in_mem. by destruct (c (k_mem s)) as [[]| |]. Qed.

Lemma wp_in_net {X} (c : M znet X) Q s :
  wp c (fun x t => Q x (KState (k_mem s) t)) (k_net s) -> wp (in_net c) Q s.
Proof. unfold wp, in_net. by destruct (c (k_net s)) as [[]| |]. Qed.

Lemma wp_self l Q s : Q tt s -> wp (assert (not_null (Some l))) Q s.
Proof. done. Qed.

Lemma wp_load_self l k Q s :
  cells (k_mem s) !! l = Some k -> Q k s -> wp (in_mem (load (Some l))) Q s.
Proof. intros Hk HQ. apply wp_in_mem. eapply wp_load; [done|]. by destruct s. Qed.

Lemma wp_update_self l k f Q s :
  cells (k_mem s) !! l = Some k ->
  (forall s', heap_is s s' (<[l := f k]> (cells (k_mem s))) -> k_net s' = k_net s -> Q tt s') ->
  wp (in_mem (update (Some l) f)) Q s.
Proof. intros Hk HQ. apply wp_in_mem. eapply wp_update; [done|]. by apply HQ. Qed.

Lemma frame_of_ok k n s :
  kv_ok k -> has k n = true ->
  exists m, frame_of k n s = Ok (m, s) /\ nth n (frame k) None = Some m.
Proof.
  intros Hok Hn. destruct (ok_init _ Hok n Hn) as [m Hm]. exists m. unfold frame_of. by rewrite Hm.
Qed.

Lemma wp_close_frame k n Q s :
  kv_ok k -> (forall s', heap_is s s' (cells (k_mem s)) -> k_net s' = k_net s -> Q tt s') ->
  wp (close_frame k n) Q s.
Proof.
  intros Hok HQ. unfold close_frame. destruct (has k n) eqn:Hn; [|by apply wp_ret, HQ].
  destruct (frame_of_ok k n s Hok Hn) as (m & E & _). wp_step. eapply wp_intro; [exact E|].
  unfold zmq_msg_close. apply wp_in_mem. by apply HQ.
Qed.

Lemma has_insert n n' k m :
  kv_ok k -> (n < KVMSG_FRAMES)%nat ->
  has (set_frame n m k) n' = if decide (n = n') then true else has k n'.
Proof.
  intros Hok Hn. unfold has, set_frame. simpl. rewrite !nth_lookup. case_decide as Hd.
  - subst. rewrite list_lookup_insert_eq; [done|]. by rewrite (ok_present _ Hok).
  - by rewrite list_lookup_insert_ne.
Qed.

Lemma nth_frame_insert n n' k m :
  kv_ok k -> (n < KVMSG_FRAMES)%nat ->
  nth n' (frame (set_frame n m k)) None = if decide (n = n') then Some m else nth n' (frame k) None.
Proof.
  intros Hok Hn. unfold set_frame. simpl. rewrite !nth_lookup. case_decide as Hd.
  - subst. rewrite list_lookup_insert_eq; [done|]. by rewrite (ok_frame _ Hok).
  - by rewrite list_lookup_insert_ne.
Qed.

Lemma set_frame_ok n m k : kv_ok k -> (n < KVMSG_FRAMES)%nat -> kv_ok (set_frame n m k).
Proof.
  intros Hok Hn. split; simpl; rewrite ?length_insert; try apply Hok.
  intros n'. rewrite has_insert by done. pose proof (nth_frame_insert n n' k m Hok Hn) as E.
  simpl in E. rewrite E. case_decide; [eauto|]. apply Hok.
Qed.

Lemma content_set_frame n n' m k :
  kv_ok k -> (n < KVMSG_FRAMES)%nat ->
  content (set_frame n m k) n' = if decide (n = n') then Some (zmq_msg_data m) else content k n'.
Proof.
  intros Hok Hn. unfold content. rewrite has_insert, nth_frame_insert by done. by case_decide.
Qed.

Lemma kvmsg_zero_ok : kv_ok kvmsg_zero.
Proof. split; try done. intros n. unfold has. do 4 (destruct n as [|n]; [done|]). done. Qed.

(** ** Frames are replaced *)

Lemma put_frame_ok l k n bs s :
  cells (k_mem s) !! l = Some k -> kv_ok k -> (n < KVMSG_FRAMES)%nat ->
  wp (put_frame (Some l) n bs) (fun _ s' =>
    k_net s' = k_net s /\
    exists m, heap_is s s' (<[l := set_frame n m k]> (cells (k_mem s))) /\ zmq_msg_data m = bs) s.
Proof.
  intros Hk Hok Hn. unfold put_frame. wp_step. apply wp_self. wp_step.
  eapply wp_load_self; [done|].
  wp_step. apply wp_close_frame; [done|]. intros s1 [Hh1 Ho1] Hn1.
  eapply wp_update_self; [by rewrite Hh1|]. intros s2 [Hh2 Ho2] Hn2.
  split; [congruence|]. eexists. split; [split; [rewrite Hh2, Hh1; reflexivity|congruence]|].
  apply data_write. by rewrite data_init_size.
Qed.

Lemma set_sequence_ok l k q s :
  cells (k_mem s) !! l = Some k -> kv_ok k ->
  wp (kvmsg_set_sequence (Some l) q) (fun _ s' =>
    k_net s' = k_net s /\
    exists m, heap_is s s' (<[l := set_frame FRAME_SEQ m k]> (cells (k_mem s))) /\
      zmq_msg_data m = sequence_bytes q) s.
Proof. intros Hk Hok. by apply (put_frame_ok l k FRAME_SEQ (sequence_bytes q)); [..|unfold FRAME_SEQ, KVMSG_FRAMES; lia]. Qed.

Lemma kvmsg_new_ok q s :
  may_alloc (k_mem s) = true ->
  wp (kvmsg_new q) (fun r s' =>
    k_net s' = k_net s /\ exists l k, r = Some l /\ cells (k_mem s) !! l = None /\
      cells (k_mem s') = <[l := k]> (cells (k_mem s)) /\ oracle (k_mem s') = tail (oracle (k_mem s)) /\
      kv_ok k /\ key k = key kvmsg_zero /\
      content k FRAME_SEQ = Some (sequence_bytes q) /\
      forall n, n <> FRAME_SEQ -> content k n = None) s.
Proof.
  intros Ha. unfold kvmsg_new. wp_step. apply wp_in_mem, wp_malloc; [|by rewrite Ha].
  intros _ l Hfr. wp_step.
  eapply wp_mono; [eapply (set_sequence_ok l kvmsg_zero); [apply lookup_insert_eq|apply kvmsg_zero_ok]|].
  intros _ s' (Hn & m & [Hh Ho] & Hm). apply wp_ret. simpl in *. split; [done|].
  exists l, (set_frame FRAME_SEQ m kvmsg_zero).
  assert (Hs : (FRAME_SEQ < KVMSG_FRAMES)%nat) by (unfold FRAME_SEQ, KVMSG_FRAMES; lia).
  split_and!; try done.
  - by rewrite Hh, insert_insert_eq.
  - apply set_frame_ok; [apply kvmsg_zero_ok|done].
  - rewrite content_set_frame by (done || apply kvmsg_zero_ok). rewrite decide_True by done. by rewrite Hm.
  - intros n Hne. rewrite content_set_frame by (done || apply kvmsg_zero_ok).
    rewrite decide_False by done. unfold content, has. do 4 (destruct n as [|n]; [done|]). done.
Qed.

(** ** Sending and receiving *)

(** What is sent for a frame: an absent frame goes out empty. *)
Definition sent k n : list Z := default [] (content k n).

Lemma send_loop_ok o i l k ns : forall s,
  connected o i -> cells (k_mem s) !! l = Some k -> kv_ok k ->
  wp (send_loop (Some l) o ns) (fun _ s' =>
    heap_is s s' (cells (k_mem s)) /\
    inbox (k_net s') i
    = inbox (k_net s) i ++ map (fun n => (sent k n, (n <? KVMSG_FRAMES - 1)%nat)) ns) s.
Proof.
  induction ns as [|n ns IH]; intros s Hc Hk Hok; simpl.
  { apply wp_ret. by rewrite app_nil_r. }
  wp_step. eapply wp_load_self; [done|]. wp_step.
  assert (Hcopy : exists m, zmq_msg_data m = sent k n /\
    (if has k n then m ← frame_of k n; mret (zmq_msg_copy m) else mret zmq_msg_init) s = Ok (m, s)).
  { unfold sent, content. destruct (has k n) eqn:Hn; [|exists zmq_msg_init; by rewrite data_init].
    destruct (frame_of_ok k n s Hok Hn) as (m & E & Em). exists (zmq_msg_copy m).
    rewrite Em. simpl. rewrite data_copy. split; [done|]. by rewrite (bind_ok _ _ _ _ _ E). }
  destruct Hcopy as (m & Hd & E). eapply wp_intro; [exact E|].
  wp_step. apply wp_in_net. eapply wp_mono; [by eapply send_ok|]. intros rc t Ht. cbn beta in Ht.
  wp_step. unfold zmq_msg_close. apply wp_in_mem. eapply wp_intro; [reflexivity|]. cbn beta.
  eapply wp_mono; [by apply IH|]. intros _ s' [[Hh Ho] Hi]. simpl in *. split; [done|].
  by rewrite Hi, Ht, Hd, <- app_assoc.
Qed.

(** The other sockets receive nothing. *)
Lemma send_loop_other o j l k ns : forall s,
  ~ connected o j -> cells (k_mem s) !! l = Some k -> kv_ok k ->
  wp (send_loop (Some l) o ns) (fun _ s' =>
    heap_is s s' (cells (k_mem s)) /\ inbox (k_net s') j = inbox (k_net s) j) s.
Proof.
  induction ns as [|n ns IH]; intros s Hc Hk Hok; simpl; [by apply wp_ret|].
  wp_step. eapply wp_load_self; [done|]. wp_step.
  assert (Hcopy : exists m,
    (if has k n then m ← frame_of k n; mret (zmq_msg_copy m) else mret zmq_msg_init) s = Ok (m, s)).
  { destruct (has k n) eqn:Hn; [|by eexists]. destruct (frame_of_ok k n s Hok Hn) as (m & E & _).
    eexists. by rewrite (bind_ok _ _ _ _ _ E). }
  destruct Hcopy as (m & E). eapply wp_intro; [exact E|].
  wp_step. apply wp_in_net. eapply wp_mono; [by eapply send_other|]. intros rc t Ht. cbn beta in Ht.
  wp_step. unfold zmq_msg_close. apply wp_in_mem. eapply wp_intro; [reflexivity|]. cbn beta.
  eapply wp_mono; [by apply IH|]. intros _ s' [[Hh Ho] Hi]. simpl in *. split; [done|]. by rewrite Hi, Ht.
Qed.

Lemma recv_loop_ok i l d ns rest : forall k s,
  cells (k_mem s) !! l = Some k -> kv_ok k -> NoDup ns ->
  Forall (fun n => (n < KVMSG_FRAMES)%nat) ns ->
  inbox (k_net s) i = map (fun n => (d n, (n <? KVMSG_FRAMES - 1)%nat)) ns ++ rest ->
  wp (recv_loop (Some l) i ns) (fun r s' =>
    r = Some l /\ inbox (k_net s') i = rest /\
    (forall j, j <> i -> inbox (k_net s') j = inbox (k_net s) j) /\
    exists k', heap_is s s' (<[l := k']> (cells (k_mem s))) /\ kv_ok k' /\ key k' = key k /\
      forall n, content k' n = if decide (n ∈ ns) then Some (d n) else content k n) s.
Proof.
  induction ns as [|n ns IH]; intros k s Hk Hok Hnd Hlt Hin; cbn [recv_loop].
  { apply wp_ret. split; [done|]. split; [done|]. split; [done|]. exists k. split_and!; try done.
    by rewrite insert_id. }
  apply NoDup_cons in Hnd as [Hnn Hnd]. apply Forall_cons in Hlt as [Hn Hlt].
  wp_step. eapply wp_load_self; [done|]. wp_step. apply wp_close_frame; [done|].
  intros s1 [Hh1 Ho1] Hn1. wp_step. eapply wp_update_self; [by rewrite Hh1|].
  intros s2 [Hh2 Ho2] Hn2. wp_step. apply wp_in_net. cbn [map app] in Hin.
  eapply wp_mono; [eapply recv_ok; by rewrite Hn2, Hn1|].
  intros r t ((m & -> & Hm) & Hrest & Hmore & Hoth). wp_step.
  eapply (wp_update_self l (set_frame n zmq_msg_init k)).
  { simpl. by rewrite Hh2, Hh1, lookup_insert_eq. }
  intros s3 [Hh3 Ho3] Hn3. simpl in Hh3, Ho3, Hn3.
  wp_step. apply wp_in_net. rewrite Hn3. eapply wp_intro; [exact Hmore|].
  rewrite Z.eqb_refl.
  set (k1 := set_frame n m (set_frame n zmq_msg_init k)) in *.
  assert (Hok1 : kv_ok k1) by (by apply set_frame_ok; [apply set_frame_ok|]).
  assert (Hh4 : cells (k_mem s3) = <[l := k1]> (cells (k_mem s))).
  { by rewrite Hh3, Hh2, Hh1, !insert_insert_eq. }
  eapply wp_mono; [apply (IH k1); simpl; [by rewrite Hh4, lookup_insert_eq|done|done|done|done]|].
  intros r s' (-> & Hi & Hoth' & k' & [Hh' Ho'] & Hok' & Hkey' & Hc'). simpl in *.
  split; [done|]. split; [done|]. split.
  { intros j Hj. rewrite Hoth' by done. rewrite Hoth by done. congruence. }
  exists k'.
  split; [split; [by rewrite Hh', Hh4, insert_insert_eq|congruence]|].
  split; [done|]. split; [done|].
  - intros n'. rewrite Hc'. unfold k1.
    rewrite !content_set_frame by (try apply set_frame_ok; done).
    destruct (decide (n' ∈ ns)) as [Hi'|Hi'].
    + by rewrite decide_True by (by apply elem_of_cons; right).
    + destruct (decide (n = n')) as [->|Hne].
      * rewrite decide_True by (by apply elem_of_cons; left). by rewrite Hm.
      * rewrite decide_False; [done|]. by intros [?|?]%elem_of_cons.
Qed.

(** The frames of a message on the wire. *)
Definition wire (d : nat -> list Z) : list (list Z * bool) :=
  map (fun n => (d n, (n <? KVMSG_FRAMES - 1)%nat)) (seq 0 KVMSG_FRAMES).

Lemma recv_msg_ok i d rest s :
  inbox (k_net s) i = wire d ++ rest -> may_alloc (k_mem s) = true ->
  wp (kvmsg_recv i) (fun r s' =>
    inbox (k_net s') i = rest /\ (forall j, j <> i -> inbox (k_net s') j = inbox (k_net s) j) /\
    oracle (k_mem s') = tail (oracle (k_mem s)) /\
    exists l k, r = Some l /\ cells (k_mem s) !! l = None /\ kv_ok k /\
      cells (k_mem s') = <[l := k]> (cells (k_mem s)) /\ key k = key kvmsg_zero /\
      forall n, (n < KVMSG_FRAMES)%nat -> content k n = Some (d n)) s.
Proof.
  intros Hin Ha. unfold kvmsg_recv. wp_step. eapply wp_mono; [by apply kvmsg_new_ok|].
  intros r s2 (Hn2 & l & k2 & -> & Hfr & Hh2 & Ho2 & Hok2 & Hkey & _ & _).
  eapply wp_mono.
  { apply (recv_loop_ok i l d _ rest k2); [by rewrite Hh2, lookup_insert_eq|done|apply NoDup_seq| |by rewrite Hn2].
    repeat constructor. }
  intros r s3 (-> & Hi & Hoth & k' & [Hh' Ho'] & Hok' & Hkey' & Hc'). split; [done|].
  split; [intros j Hj; rewrite Hoth by done; congruence|]. split; [congruence|].
  exists l, k'. split_and!; try done; [by rewrite Hh', Hh2, insert_insert_eq|congruence|].
  intros n Hn. rewrite Hc', decide_True; [done|]. apply elem_of_seq. unfold KVMSG_FRAMES in *. lia.
Qed.

(** C31: a message that is sent and received arrives as a new message with the
    same sequence, key and body (a frame that is absent arrives empty), and the
    sender keeps its own. *)
Theorem kvmsg_send_recv o i l k s :
  connected o i -> cells (k_mem s) !! l = Some k -> kv_ok k ->
  inbox (k_net s) i = [] -> may_alloc (k_mem s) = true ->
  wp (_ ← kvmsg_send (Some l) o; kvmsg_recv i) (fun r s' =>
    inbox (k_net s') i = [] /\
    exists l' k', r = Some l' /\ cells (k_mem s) !! l' = None /\ kv_ok k' /\
      cells (k_mem s') = <[l' := k']> (cells (k_mem s)) /\
      key k' = key kvmsg_zero /\
      forall n, (n < KVMSG_FRAMES)%nat -> content k' n = Some (default [] (content k n))) s.
Proof.
  intros Hc Hk Hok Hin Ha. wp_step. unfold kvmsg_send. wp_step. apply wp_self.
  eapply wp_mono; [by eapply send_loop_ok|]. intros _ s1 [[Hh1 Ho1] Hi1].
  rewrite Hin in Hi1. simpl app in Hi1.
  eapply wp_mono; [apply (recv_msg_ok i (sent k) []); [by rewrite app_nil_r|unfold may_alloc in *; by rewrite Ho1]|].
  intros r s2 (Hi & _ & _ & l' & k' & -> & Hfr & Hok' & Hh2 & Hkey & Hcont). rewrite Hh1 in Hfr, Hh2.
  split; [done|]. by exists l', k'.
Qed.

(** ** The sequence number *)

(** The byte that [kvmsg_sequence] shifts by 26 instead of 16. *)
Definition byte5 (q : Z) : Z := Z.land (Z.shiftr q 16) 255.

Lemma byte_div q sh : 0 <= sh -> Z.land (Z.shiftr q sh) 255 = (q / 2 ^ sh) mod 256.
Proof. intros. rewrite Z.shiftr_div_pow2 by done. by apply (Z.land_ones _ 8). Qed.

Lemma int64_ok {S} z (s : S) : 0 <= z <= INT64_MAX -> int64_of z s = Ok (z, s).
Proof.
  intros Hz0. unfold int64_of. rewrite (proj2 (Z.leb_le _ _)) by (unfold INT64_MAX in *; lia).
  by rewrite (proj2 (Z.leb_le _ _)) by lia.
Qed.

(** The sum of the shifted bytes, without the checks. *)
Fixpoint shifted_sum (bs shs : list Z) : Z :=
  match bs, shs with
  | b :: bs, sh :: shs => b * 2 ^ sh + shifted_sum bs shs
  | _, _ => 0
  end.

Lemma shifted_sum_nonneg bs shs :
  Forall (fun b => 0 <= b) bs -> 0 <= shifted_sum bs shs.
Proof.
  intros HF. revert shs. induction HF as [|b bs Hb HF IH]; intros [|sh shs]; simpl; try lia.
  specialize (IH shs). pose proof (Z.pow_nonneg 2 sh). nia.
Qed.

Lemma sum_bytes_ok {S} bs shs : forall acc (s : S),
  Forall (fun b => 0 <= b) bs -> Forall (fun sh => 0 <= sh) shs -> 0 <= acc ->
  acc + shifted_sum bs shs <= INT64_MAX ->
  sum_bytes acc bs shs s = Ok (acc + shifted_sum bs shs, s).
Proof.
  revert shs. induction bs as [|b bs IH]; intros [|sh shs] acc s Hb Hs Ha Hm; simpl in *;
    try (by rewrite Z.add_0_r).
  apply Forall_cons in Hb as [Hb HF]. apply Forall_cons in Hs as [Hsh Hs].
  pose proof (shifted_sum_nonneg bs shs HF). pose proof (Z.pow_nonneg 2 sh ltac:(lia)).
  assert (0 <= b * 2 ^ sh) by nia.
  rewrite (bind_ok _ _ _ (b * 2 ^ sh) s) by (rewrite Z.shiftl_mul_pow2 by done; apply int64_ok; lia).
  rewrite (bind_ok _ _ _ (acc + b * 2 ^ sh) s) by (apply int64_ok; lia).
  rewrite IH by (done || lia). by rewrite Z.add_assoc.
Qed.

Lemma sequence_sum q :
  0 <= q < 2 ^ 63 ->
  shifted_sum (sequence_bytes q) get_shifts = q + byte5 q * (2 ^ 26 - 2 ^ 16) /\
  Forall (fun b => 0 <= b) (sequence_bytes q).
Proof.
  intros Hq. unfold sequence_bytes, set_shifts, byte5. cbn [map].
  rewrite !byte_div by lia. split.
  - unfold get_shifts. cbn [shifted_sum]. Z.to_euclidean_division_equations. lia.
  - repeat constructor; apply Z.mod_pos_bound; lia.
Qed.

(** The number [kvmsg_sequence] reads where [kvmsg_set_sequence] wrote [q]. *)
Definition decoded (q : Z) : Z := q + byte5 q * (2 ^ 26 - 2 ^ 16).

Lemma byte5_range q : 0 <= q -> 0 <= byte5 q < 256.
Proof. intros. unfold byte5. rewrite byte_div by lia. apply Z.mod_pos_bound. lia. Qed.

Lemma sequence_ok l k q s :
  cells (k_mem s) !! l = Some k -> kv_ok k -> content k FRAME_SEQ = Some (sequence_bytes q) -> 0 <= q < 2 ^ 62 ->
  wp (kvmsg_sequence (Some l)) (fun r s' => r = decoded q /\ s' = s) s.
Proof.
  intros Hk Hok Hc Hq. unfold kvmsg_sequence. wp_step. apply wp_self. wp_step. eapply wp_load_self; [done|].
  unfold content in Hc. destruct (has k FRAME_SEQ) eqn:Hh; [|done].
  destruct (frame_of_ok k FRAME_SEQ s Hok Hh) as (m & E & Em). rewrite Em in Hc. simpl in Hc. injection Hc as Hm.
  wp_step. eapply wp_intro; [exact E|]. rewrite Hm. wp_step. apply wp_ret.
  destruct (sequence_sum q ltac:(lia)) as [Hsum Hnn]. pose proof (byte5_range q ltac:(lia)).
  eapply wp_intro; [apply sum_bytes_ok; [done|by repeat (constructor; [lia|])|done|]|].
  - rewrite Hsum. unfold INT64_MAX. lia.
  - by rewrite Z.add_0_l, Hsum.
Qed.

(** Reading a sequence number back gives the number that was set plus its
    third byte times [2^26 - 2^16]: the numbers below 65536 survive, and every
    number whose third byte is not zero comes back wrong. *)
Theorem kvmsg_sequence_set l k q s :
  cells (k_mem s) !! l = Some k -> kv_ok k -> 0 <= q < 2 ^ 62 ->
  wp (_ ← kvmsg_set_sequence (Some l) q; kvmsg_sequence (Some l))
    (fun r _ => r = q + byte5 q * (2 ^ 26 - 2 ^ 16) /\ (r = q <-> byte5 q = 0)) s.
Proof.
  intros Hk Hok Hq. wp_step. eapply wp_mono; [by eapply set_sequence_ok|].
  intros _ s1 (_ & m & [Hh _] & Hm).
  assert (Hs : (FRAME_SEQ < KVMSG_FRAMES)%nat) by (unfold FRAME_SEQ, KVMSG_FRAMES; lia).
  eapply wp_mono; [eapply (sequence_ok l (set_frame FRAME_SEQ m k) q); [| | |done]|].
  - by rewrite Hh, lookup_insert_eq.
  - by apply set_frame_ok.
  - by rewrite content_set_frame, decide_True, Hm by done.
  - intros r s2 [-> _]. unfold decoded. pose proof (byte5_range q ltac:(lia)). lia.
Qed.

(** ** The key *)

Lemma cstr_app bs rest : ~ In 0 bs -> cstr (bs ++ 0 :: rest) = bs.
Proof.
  induction bs as [|b bs IH]; intros Hn; [done|]. simpl in *.
  destruct (Z.eqb_spec b 0); [tauto|]. rewrite IH by tauto. done.
Qed.

Lemma cstr_prefix bs rest : cstr (bs ++ 0 :: rest) = cstr bs.
Proof. induction bs as [|b bs IH]; [done|]. simpl. by destruct (b =? 0); [|rewrite IH]. Qed.

(** The string [kvmsg_key] returns, and the message after it. *)
Definition key_of k : list Z :=
  if nth 0 (key k) 0 =? 0 then cstr (take KVMSG_KEY_MAX (default [] (content k FRAME_KEY)))
  else cstr (key k).

Definition cached k : kvmsg_t :=
  if nth 0 (key k) 0 =? 0 then
    set_keybuf (fill (take KVMSG_KEY_MAX (default [] (content k FRAME_KEY))) (key k)) k
  else k.

Lemma content_cached k n : content (cached k) n = content k n.
Proof. unfold cached. by destruct (_ =? _). Qed.

Lemma key_of_cached k : key_of (cached k) = key_of k.
Proof.
  unfold key_of. rewrite content_cached. unfold cached.
  destruct (nth 0 (key k) 0 =? 0) eqn:E; [|by rewrite E]. simpl. unfold fill.
  set (t := take _ _). destruct t as [|b t']; [done|]. simpl.
  destruct (Z.eqb_spec b 0); [done|]. by rewrite cstr_prefix.
Qed.

Lemma fill_fill bs buf : fill bs (fill bs buf) = fill bs buf.
Proof.
  unfold fill. do 2 f_equal. set (rest := drop _ buf).
  assert (E : bs ++ 0 :: rest = (bs ++ [0]) ++ rest) by (by rewrite <- app_assoc).
  rewrite E, drop_app_length'; [done|]. rewrite length_app. simpl. lia.
Qed.

Lemma cached_cached k : cached (cached k) = cached k.
Proof.
  unfold cached at 1. rewrite content_cached. destruct (_ =? _) eqn:E; [|done].
  unfold cached in *. destruct (nth 0 (key k) 0 =? 0) eqn:E0; [|congruence].
  unfold set_keybuf. simpl. by rewrite fill_fill.
Qed.

Lemma cached_ok k : kv_ok k -> kv_ok (cached k).
Proof.
  intros Hok. unfold cached. destruct (_ =? _); [|done].
  split; simpl; try apply Hok. unfold fill. rewrite length_app. simpl.
  rewrite length_drop, length_take, (ok_key _ Hok). lia.
Qed.

Lemma kvmsg_key_ok l k s :
  cells (k_mem s) !! l = Some k -> kv_ok k -> has k FRAME_KEY = true ->
  wp (kvmsg_key (Some l)) (fun r s' =>
    r = Some (key_of k) /\ k_net s' = k_net s /\ trace (k_mem s') = trace (k_mem s) /\
    heap_is s s' (<[l := cached k]> (cells (k_mem s)))) s.
Proof.
  intros Hk Hok Hh. unfold kvmsg_key. wp_step. apply wp_self. wp_step.
  eapply wp_load_self; [done|]. rewrite Hh. unfold key_of, cached, content. rewrite Hh.
  destruct (nth 0 (key k) 0 =? 0).
  - destruct (frame_of_ok k FRAME_KEY s Hok Hh) as (m & E & Em). wp_step.
    eapply wp_intro; [exact E|]. rewrite Em. simpl default. wp_step.
    apply wp_in_mem. eapply wp_update; [done|]. apply wp_ret.
    split; [unfold fill; by rewrite cstr_prefix|]. done.
  - apply wp_ret. split_and!; try done. by rewrite insert_id.
Qed.

(** A key that fits is read back as it was set, as long as no key was read
    before. *)
Lemma kvmsg_key_set l k bs s :
  cells (k_mem s) !! l = Some k -> kv_ok k -> nth 0 (key k) 0 = 0 ->
  ~ In 0 bs -> (length bs <= KVMSG_KEY_MAX)%nat ->
  wp (_ ← kvmsg_set_key (Some l) bs; kvmsg_key (Some l)) (fun r _ => r = Some bs) s.
Proof.
  intros Hk Hok H0 Hn Hlen. assert (Hs : (FRAME_KEY < KVMSG_FRAMES)%nat) by (unfold FRAME_KEY, KVMSG_FRAMES; lia).
  wp_step. eapply wp_mono; [by apply (put_frame_ok l k FRAME_KEY bs)|].
  intros _ s1 (_ & m & [Hh _] & Hm).
  eapply wp_mono; [apply (kvmsg_key_ok l (set_frame FRAME_KEY m k))|].
  - by rewrite Hh, lookup_insert_eq.
  - by apply set_frame_ok.
  - by rewrite has_insert, decide_True.
  - intros r s2 (-> & _). unfold key_of. simpl. rewrite H0. simpl.
    pose proof (content_set_frame FRAME_KEY FRAME_KEY m k Hok Hs) as E.
    unfold FRAME_KEY in *. rewrite E. simpl. rewrite Hm, take_ge by done.
    f_equal. rewrite <- (app_nil_r bs) at 1. rewrite <- (cstr_app bs [] Hn) at 2. by rewrite cstr_prefix, app_nil_r.
Qed.

(** Once a non-empty key was read, setting another key does not change what
    [kvmsg_key] returns. *)
Lemma kvmsg_key_stale l k bs s :
  cells (k_mem s) !! l = Some k -> kv_ok k -> nth 0 (key k) 0 <> 0 ->
  wp (_ ← kvmsg_set_key (Some l) bs; kvmsg_key (Some l)) (fun r _ => r = Some (cstr (key k))) s.
Proof.
  intros Hk Hok H0. assert (Hs : (FRAME_KEY < KVMSG_FRAMES)%nat) by (unfold FRAME_KEY, KVMSG_FRAMES; lia).
  wp_step. eapply wp_mono; [by apply (put_frame_ok l k FRAME_KEY bs)|].
  intros _ s1 (_ & m & [Hh _] & Hm).
  eapply wp_mono; [apply (kvmsg_key_ok l (set_frame FRAME_KEY m k))|].
  - by rewrite Hh, lookup_insert_eq.
  - by apply set_frame_ok.
  - by rewrite has_insert, decide_True.
  - intros r s2 (-> & _). unfold key_of. simpl. by rewrite (proj2 (Z.eqb_neq _ _) H0).
Qed.

End spec.

(** ** Freeing and storing *)

Section store_spec.
Context `{Hz : Zmq, Hl : !ZmqLaws, Hh : !Zhash, Hhl : !ZhashLaws}.
Implicit Types (k : kvmsg_t) (s : kstate) (l : loc).

(** The messages of the frames that are present, in order. *)
Definition present_msgs k (ns : list nat) : list zmsg :=
  omap (fun n => if has k n then nth n (frame k) None else None) ns.

Lemma close_frames_ok k ns : forall s,
  kv_ok k ->
  wp (close_frames k ns) (fun _ s' =>
    k_net s' = k_net s /\ heap_is s s' (cells (k_mem s)) /\
    trace (k_mem s') = trace (k_mem s) ++ present_msgs k ns) s.
Proof.
  induction ns as [|n ns IH]; intros s Hok; cbn [close_frames].
  { apply wp_ret. by rewrite app_nil_r. }
  wp_step. unfold close_frame. unfold present_msgs. csimpl. destruct (has k n) eqn:Hn.
  - destruct (frame_of_ok k n s Hok Hn) as (m & E & Em). wp_step. eapply wp_intro; [exact E|].
    unfold zmq_msg_close. apply wp_in_mem. eapply wp_intro; [reflexivity|]. cbn beta.
    eapply wp_mono; [by apply IH|]. intros _ s' (Hn' & Hh' & Ht). simpl in *.
    rewrite Em. split; [done|]. split; [done|]. by rewrite Ht, <- app_assoc.
  - apply wp_ret. by apply IH.
Qed.

Lemma kvmsg_free_ok l k s :
  cells (k_mem s) !! l = Some k -> kv_ok k ->
  wp (kvmsg_free (Some l)) (fun _ s' =>
    k_net s' = k_net s /\ heap_is s s' (delete l (cells (k_mem s))) /\
    trace (k_mem s') = trace (k_mem s) ++ present_msgs k (seq 0 KVMSG_FRAMES)) s.
Proof.
  intros Hk Hok. unfold kvmsg_free. wp_step. eapply wp_load_self; [done|]. wp_step.
  eapply wp_mono; [by apply close_frames_ok|]. intros _ s1 (Hn & [Hh1 Ho] & Ht).
  apply wp_in_mem. eapply wp_free; [by rewrite Hh1|]. simpl. rewrite Hh1. done.
Qed.

(** The message that a key replaces, if there is one. *)
Definition replaced (hash : zhash_t) (K : list Z) : option loc :=
  match view hash !! K with Some (old, true) => Some old | _ => None end.

Definition drop_cell {X} (o : option loc) (h : gmap loc X) : gmap loc X :=
  match o with Some l => delete l h | None => h end.

(** The second half of [kvmsg_store]: the callback is set under the same key. *)
Lemma store_freefn l k h' b v s2 :
  kv_ok k -> view h' = <[key_of k := (l, b)]> v ->
  cells (k_mem s2) !! l = Some (cached k) -> has k FRAME_KEY = true ->
  wp (k2 ← kvmsg_key (Some l); mret (zhash_freefn h' (default [] k2))) (fun hash' s' =>
    view hash' = <[key_of k := (l, true)]> v /\ k_net s' = k_net s2 /\
    cells (k_mem s') = cells (k_mem s2) /\ trace (k_mem s') = trace (k_mem s2) /\
    oracle (k_mem s') = oracle (k_mem s2)) s2.
Proof.
  intros Hok Hv Hc Hkey. wp_step. eapply wp_mono.
  { apply (kvmsg_key_ok l (cached k)); [done|by apply cached_ok|].
    unfold cached. by destruct (_ =? _). }
  intros r s3 (-> & Hn3 & Ht3 & [Hh3 Ho3]). apply wp_ret. simpl. rewrite key_of_cached.
  split_and!; [|done| |done|done].
  - erewrite freefn_ok by (rewrite Hv; apply lookup_insert_eq). by rewrite Hv, insert_insert_eq.
  - rewrite Hh3, cached_cached. by rewrite insert_id.
Qed.

Lemma store_ok l k hash s :
  cells (k_mem s) !! l = Some k -> kv_ok k ->
  (forall o, replaced hash (key_of k) = Some o ->
     o <> l /\ exists ko, cells (k_mem s) !! o = Some ko /\ kv_ok ko) ->
  wp (kvmsg_store (Some l) hash) (fun r s' =>
    oracle (k_mem s') = oracle (k_mem s) /\ r.1 = NULL /\ k_net s' = k_net s /\
    if has k FRAME_KEY && has k FRAME_BODY then
      view r.2 = <[key_of k := (l, true)]> (view hash) /\
      cells (k_mem s') = <[l := cached k]> (drop_cell (replaced hash (key_of k)) (cells (k_mem s))) /\
      trace (k_mem s') = trace (k_mem s) ++
        match replaced hash (key_of k) ≫= fun o => cells (k_mem s) !! o with
        | Some ko => present_msgs ko (seq 0 KVMSG_FRAMES)
        | None => []
        end
    else r.2 = hash /\ s' = s) s.
Proof.
  intros Hk Hok Hold. unfold kvmsg_store. wp_step. eapply wp_load_self; [done|].
  destruct (has k FRAME_KEY) eqn:Hkey; simpl andb; [|by do 2 wp_step].
  destruct (has k FRAME_BODY); [|by do 2 wp_step].
  wp_step. wp_step. eapply wp_mono; [by apply kvmsg_key_ok|].
  intros r s1 (-> & Hn1 & Ht1 & [Hh1 Ho1]). simpl default. wp_step. apply update_ok.
  intros h' [b Hv].
  pose proof (fun s2 Hc => store_freefn l k h' b (view hash) s2 Hok Hv Hc Hkey) as Hrest.
  unfold replaced in *. destruct (view hash !! key_of k) as [[old [|]]|] eqn:Eold.
  - destruct (Hold old eq_refl) as (Hne & ko & Hko & Hoko).
    eapply wp_mono; [apply (kvmsg_free_ok old ko); [|done]|].
    { rewrite Hh1. by rewrite lookup_insert_ne. }
    intros _ s2 (Hn2 & [Hh2 Ho2] & Ht2).
    eapply wp_mono; [apply Hrest; rewrite Hh2, Hh1, lookup_delete_ne by done; apply lookup_insert_eq|].
    intros hash' s3 (Hv3 & Hn3 & Hh3 & Ht3 & Ho3). apply wp_ret. simpl in *. rewrite Hko.
    split_and!; [congruence|done|congruence|done| |].
    + rewrite Hh3, Hh2, Hh1. by rewrite delete_insert_ne.
    + by rewrite Ht3, Ht2, Ht1.
  - eapply wp_mono; [apply Hrest; rewrite Hh1; apply lookup_insert_eq|].
    intros hash' s3 (Hv3 & Hn3 & Hh3 & Ht3 & Ho3). apply wp_ret. simpl in *. rewrite app_nil_r.
    split_and!; [congruence|done|congruence|done|congruence|congruence].
  - eapply wp_mono; [apply Hrest; rewrite Hh1; apply lookup_insert_eq|].
    intros hash' s3 (Hv3 & Hn3 & Hh3 & Ht3 & Ho3). apply wp_ret. simpl in *. rewrite app_nil_r.
    split_and!; [congruence|done|congruence|done|congruence|congruence].
Qed.

(** [kvmsg_store] gives the message to the table under its key when it has
    a key and a body: the message the table had there is freed and its frames are
    closed, and the caller's pointer becomes NULL.  Without a key or a body the
    pointer becomes NULL all the same and the message stays allocated. *)
Theorem kvmsg_store_correct l k hash s :
  cells (k_mem s) !! l = Some k -> kv_ok k ->
  (forall o, replaced hash (key_of k) = Some o ->
     o <> l /\ exists ko, cells (k_mem s) !! o = Some ko /\ kv_ok ko) ->
  wp (kvmsg_store (Some l) hash) (fun r s' =>
    r.1 = NULL /\ k_net s' = k_net s /\
    if has k FRAME_KEY && has k FRAME_BODY then
      view r.2 = <[key_of k := (l, true)]> (view hash) /\
      cells (k_mem s') = <[l := cached k]> (drop_cell (replaced hash (key_of k)) (cells (k_mem s))) /\
      trace (k_mem s') = trace (k_mem s) ++
        match replaced hash (key_of k) ≫= fun o => cells (k_mem s) !! o with
        | Some ko => present_msgs ko (seq 0 KVMSG_FRAMES)
        | None => []
        end
    else r.2 = hash /\ s' = s) s.
Proof. intros Hk Hok Ho. eapply wp_mono; [by eapply store_ok|]. by intros r s' [_ H]. Qed.

End store_spec.

(** ** Instances, and witnesses *)

(** A message is its bytes; one channel, with the flag of the last frame. *)
#[local] Instance ex_zmq : Zmq := {|
  zmsg := list Z;
  zsocket := unit;
  znet := list (list Z * bool) * bool;
  zmq_msg_init := [];
  zmq_msg_init_size n := replicate n 0;
  zmq_msg_data m := m;
  zmq_msg_write _ bs := bs;
  zmq_msg_copy m := m;
  zmq_msg_send _ m more := fun s => Ok (Z.of_nat (length m), (s.1 ++ [(m, more)], s.2));
  zmq_msg_recv _ := fun s =>
    match s.1 with
    | [] => Ok (None, s)
    | (m, more) :: rest => Ok (Some m, (rest, more))
    end;
  zsocket_rcvmore _ := fun s => Ok (if s.2 : bool then 1 else 0, s);
|}.

#[local] Program Instance ex_zmq_laws : ZmqLaws := {|
  inbox s _ := s.1;
  connected _ _ := True;
|}.
Next Obligation. done. Qed.
Next Obligation. intros n. simpl. apply length_replicate. Qed.
Next Obligation. done. Qed.
Next Obligation. done. Qed.
Next Obligation. done. Qed.
Next Obligation. intros o j m more s Hn. by destruct Hn. Qed.
Next Obligation.
  intros i d more rest [ib mo] E. simpl in *. subst. unfold wp. simpl.
  split; [eauto|]. split; [done|]. split; [done|]. intros [] Hj. by destruct i.
Qed.

#[local] Instance ex_zhash `{Zmq} : Zhash := {|
  zhash_t := gmap (list Z) (loc * bool);
  zhash_update f h k i :=
    _ ← match h !! k with Some (old, true) => f (Some old) | _ => mret tt end;
    mret (<[k := (i, match h !! k with Some (_, b) => b | None => false end)]> h);
  zhash_freefn h k :=
    match h !! k with Some (i, _) => <[k := (i, true)]> h | None => h end;
|}.

#[local] Program Instance ex_zhash_laws `{Zmq} : ZhashLaws := {| view h := h |}.
Next Obligation.
  intros H f h k i Q s HQ. simpl in *. wp_step.
  specialize (HQ (<[k := (i, match h !! k with Some (_, b) => b | None => false end)]> h)
                ltac:(by eexists)).
  destruct (h !! k) as [[old [|]]|]; try by apply HQ.
Qed.
Next Obligation. intros H h k i b E. simpl in *. by rewrite E. Qed.

Definition ex_socket : @zsocket ex_zmq := tt.

Definition ex_kvmsg : @kvmsg_t ex_zmq :=
  Kvmsg [true; true; true] [Some [107; 101; 121]; Some (sequence_bytes 1); Some [98; 111; 100; 121]]
    (replicate 256 0).

Definition ex_kstate : @kstate ex_zmq :=
  KState (Store {[1%positive := ex_kvmsg; 2%positive := ex_kvmsg]} [] []) ([], false).

Definition ex_hash : @zhash_t ex_zmq ex_zhash := {[ [107; 101; 121] := (2%positive, true) ]}.

Lemma ex_kvmsg_ok : kv_ok ex_kvmsg.
Proof. split; try done. intros n. unfold has. do 3 (destruct n as [|n]; [simpl; eauto|]). by destruct n. Qed.

Lemma kvmsg_send_recv_witness :
  wp (_ ← kvmsg_send (Some 1%positive) ex_socket; kvmsg_recv ex_socket) (fun r s' =>
    exists l' k', r = Some l' /\ cells (k_mem s') !! l' = Some k' /\
      content k' FRAME_BODY = Some [98; 111; 100; 121]) ex_kstate.
Proof.
  eapply wp_mono.
  - apply (kvmsg_send_recv ex_socket ex_socket 1%positive ex_kvmsg ex_kstate); try done.
    apply ex_kvmsg_ok.
  - intros r s' (_ & l' & k' & -> & _ & _ & Hh & _ & Hc). exists l', k'. split; [done|].
    split; [by rewrite Hh, lookup_insert_eq|]. apply (Hc FRAME_BODY). unfold FRAME_BODY, KVMSG_FRAMES. lia.
Defined.

Lemma kvmsg_sequence_set_witness :
  wp (_ ← kvmsg_set_sequence (Some 1%positive) 65536; kvmsg_sequence (Some 1%positive))
    (fun r _ => r = 67108864) ex_kstate.
Proof.
  eapply wp_mono.
  - apply (kvmsg_sequence_set 1%positive ex_kvmsg 65536 ex_kstate); [done|apply ex_kvmsg_ok|lia].
  - intros r _ [-> _]. reflexivity.
Defined.

Lemma kvmsg_store_correct_witness :
  wp (kvmsg_store (Some 1%positive) ex_hash) (fun r s' =>
    r.1 = NULL /\ cells (k_mem s') !! 2%positive = None) ex_kstate.
Proof.
  eapply wp_mono.
  - apply (kvmsg_store_correct 1%positive ex_kvmsg _ ex_kstate); [done|apply ex_kvmsg_ok|].
    intros o Ho. vm_compute in Ho. simplify_eq. split; [done|]. exists ex_kvmsg. split; [done|apply ex_kvmsg_ok].
  - intros r s' (Hr & _ & _ & Hh & _). split; [done|]. rewrite Hh. vm_compute. reflexivity.
Defined.
