(* ===== verification/Clone.v ===== *)
(** * The clone pattern: [src/lib/zeromq/clone/clonesrv2.c], [clonecli2.c],
    [clonesrv1.c], [clonecli1.c]

    A server publishes numbered updates of a table of key-value messages; a client
    asks for a snapshot of the table, and applies the updates that are newer.  All
    programs are written with the operations of Kvmsg.v, on its memory and its
    sockets. *)

From stdpp Require Import prelude gmap list.
From Stdlib Require Import ZArith Lia.
From S2P Require Import Prelude Kvmsg.

(** "KTHXBAI" and "ICANHAZ?" *)
Definition KTHXBAI : list Z := [75; 84; 72; 88; 66; 65; 73].
Definition ICANHAZ : list Z := [73; 67; 65; 78; 72; 65; 90; 63].

(** The items of a table in the order of [zhash_foreach]. *)
Class ZhashItems `{Zhash} := { zhash_items : zhash_t -> list loc }.

Class ZhashItemsLaws `{ZhashItems, !ZhashLaws} := {
  zhash_items_ok h : zhash_items h ≡ₚ (fun Klb => Klb.2.1) <$> map_to_list (view h);
}.

Section programs.
Context `{ZhashItems}.

(** [zstr_send] *)
Definition zstr_send (socket : zsocket) (str : list Z) : M kstate unit :=
  _ ← in_net (zmq_msg_send socket (zmq_msg_write (zmq_msg_init_size (length str)) str) false); mret tt.

(** ** [clonecli2.c] *)

(** [streq(kvmsg_key(kvmsg), str)] *)
Definition key_is (kvmsg : ptr) (str : list Z) : M kstate bool :=
  k ← kvmsg_key kvmsg;
  match k with Some k => mret (bool_decide (k = str)) | None => throw NullDeref end.

(** The first loop: the snapshot is stored up to the message with the key
    KTHXBAI. *)
Fixpoint snapshot_loop (fuel : nat) (snapshot : zsocket) (kvmap : zhash_t) (sequence : Z)
  : M kstate (zhash_t * Z) :=
  kvmsg ← kvmsg_recv snapshot;
  match kvmsg with
  | None => mret (kvmap, sequence)
  | Some _ =>
      last ← key_is kvmsg KTHXBAI;
      if last : bool then
        sequence ← kvmsg_sequence kvmsg;
        _ ← kvmsg_destroy kvmsg;
        mret (kvmap, sequence)
      else
        '(_, kvmap) ← kvmsg_store kvmsg kvmap;
        match fuel with O => no_fuel | S fuel => snapshot_loop fuel snapshot kvmap sequence end
  end.

(** The second loop; [zctx_interrupted] is seen after [rounds] rounds. *)
Fixpoint update_loop (rounds : nat) (subscriber : zsocket) (kvmap : zhash_t) (sequence : Z)
  : M kstate (zhash_t * Z) :=
  match rounds with
  | O => mret (kvmap, sequence)
  | S rounds =>
      kvmsg ← kvmsg_recv subscriber;
      match kvmsg with
      | None => mret (kvmap, sequence)
      | Some _ =>
          q ← kvmsg_sequence kvmsg;
          if sequence <? q then
            q ← kvmsg_sequence kvmsg;
            '(_, kvmap) ← kvmsg_store kvmsg kvmap;
            update_loop rounds subscriber kvmap q
          else
            _ ← kvmsg_destroy kvmsg;
            update_loop rounds subscriber kvmap sequence
      end
  end.

Definition clonecli2 (fuel rounds : nat) (snapshot subscriber : zsocket) (kvmap : zhash_t)
  : M kstate (zhash_t * Z) :=
  _ ← zstr_send snapshot ICANHAZ;
  '(kvmap, sequence) ← snapshot_loop fuel snapshot kvmap 0;
  update_loop rounds subscriber kvmap sequence.

(** ** [clonecli1.c]: every update is stored

    The state after [rounds] rounds, or at the end of the loop. *)

Fixpoint clonecli1_loop (rounds : nat) (updates : zsocket) (kvmap : zhash_t) (sequence : Z)
  : M kstate (zhash_t * Z) :=
  match rounds with
  | O => mret (kvmap, sequence)
  | S rounds =>
      kvmsg ← kvmsg_recv updates;
      match kvmsg with
      | None => mret (kvmap, sequence)
      | Some _ =>
          '(_, kvmap) ← kvmsg_store kvmsg kvmap;
          sequence ← int64_of (sequence + 1);
          clonecli1_loop rounds updates kvmap sequence
      end
  end.

(** ** The servers *)

(** [kvmsg_new(++sequence)] with the random key and body of a round, printed with
    the format "%d". *)
Definition new_update (sequence : Z) (key body : list Z) : M kstate ptr :=
  kvmsg ← kvmsg_new sequence;
  _ ← kvmsg_fmt_key kvmsg key;
  _ ← kvmsg_fmt_body kvmsg body;
  mret kvmsg.

(** [main] of clonesrv2.c *)
Fixpoint publish_loop (rounds : list (list Z * list Z)) (publisher updates : zsocket) (sequence : Z)
  : M kstate Z :=
  match rounds with
  | [] => mret sequence
  | (key, body) :: rounds =>
      sequence ← int64_of (sequence + 1);
      kvmsg ← new_update sequence key body;
      _ ← kvmsg_send kvmsg publisher;
      _ ← kvmsg_send kvmsg updates;
      _ ← kvmsg_destroy kvmsg;
      publish_loop rounds publisher updates sequence
  end.

(** [main] of clonesrv1.c *)
Fixpoint clonesrv1_loop (rounds : list (list Z * list Z)) (publisher : zsocket) (kvmap : zhash_t) (sequence : Z)
  : M kstate (zhash_t * Z) :=
  match rounds with
  | [] => mret (kvmap, sequence)
  | (key, body) :: rounds =>
      sequence ← int64_of (sequence + 1);
      kvmsg ← new_update sequence key body;
      _ ← kvmsg_send kvmsg publisher;
      '(_, kvmap) ← kvmsg_store kvmsg kvmap;
      clonesrv1_loop rounds publisher kvmap sequence
  end.

(** *** [state_manager] of clonesrv2.c

    Three slips keep this file from compiling; the function is read with [items] for
    [itmes], [errno == ETERM] for [errno = ETERM] and [kvmsg_set_body] for
    [kvsmg_set_body]. *)

(** [zframe_send] *)
Definition send_frame (socket : zsocket) (bs : list Z) (more : bool) : M kstate unit :=
  _ ← in_net (zmq_msg_send socket (zmq_msg_write (zmq_msg_init_size (length bs)) bs) more); mret tt.

Definition s_send_single (snapshot : zsocket) (identity : list Z) (item : loc) : M kstate unit :=
  _ ← send_frame snapshot identity true;
  kvmsg_send (Some item) snapshot.

(** [zhash_foreach(kvmap, s_send_single, &routing)] *)
Fixpoint send_items (snapshot : zsocket) (identity : list Z) (items : list loc) : M kstate unit :=
  match items with
  | [] => mret tt
  | item :: items => _ ← s_send_single snapshot identity item; send_items snapshot identity items
  end.

Definition send_snapshot (snapshot : zsocket) (identity : list Z) (kvmap : zhash_t) (sequence : Z)
  : M kstate unit :=
  _ ← send_items snapshot identity (zhash_items kvmap);
  _ ← send_frame snapshot identity true;
  kvmsg ← kvmsg_new sequence;
  _ ← kvmsg_set_key kvmsg KTHXBAI;
  _ ← kvmsg_set_body kvmsg [];
  _ ← kvmsg_send kvmsg snapshot;
  _ ← kvmsg_destroy kvmsg;
  mret tt.

(** What a round of the loop finds: [zmq_poll] fails with ETERM, an update is at the
    pipe, or a client has sent something: [zframe_recv] returns NULL, or it and
    [zstr_recv] return an identity and a request.  A round that finds both sockets
    ready treats the update first, as two rounds do. *)
Inductive mevent := PollFailed | FromPipe | NoIdentity | Request (identity request : list Z).

(** [None]: the loop is left. *)
Definition manager_round (pipe snapshot : zsocket) (e : mevent) (kvmap : zhash_t) (sequence : Z)
  : M kstate (option (zhash_t * Z)) :=
  match e with
  | PollFailed => mret None
  | FromPipe =>
      kvmsg ← kvmsg_recv pipe;
      match kvmsg with
      | None => mret None
      | Some _ =>
          sequence ← kvmsg_sequence kvmsg;
          '(_, kvmap) ← kvmsg_store kvmsg kvmap;
          mret (Some (kvmap, sequence))
      end
  | NoIdentity => mret None
  | Request identity request =>
      if bool_decide (request = ICANHAZ) then
        _ ← send_snapshot snapshot identity kvmap sequence;
        mret (Some (kvmap, sequence))
      else mret None
  end.

Fixpoint manager_loop (pipe snapshot : zsocket) (es : list mevent) (kvmap : zhash_t) (sequence : Z)
  : M kstate (zhash_t * Z) :=
  match es with
  | [] => mret (kvmap, sequence)
  | e :: es =>
      r ← manager_round pipe snapshot e kvmap sequence;
      match r with
      | None => mret (kvmap, sequence)
      | Some (kvmap, sequence) => manager_loop pipe snapshot es kvmap sequence
      end
  end.

End programs.

(** ** Updates, and the table they make *)

Record kv_update := Update { u_key : list Z; u_seq : Z; u_body : list Z }.

Section abstract.
Implicit Types (u : kv_update) (m : gmap (list Z) (list Z)).

(** The frames of an update. *)
Definition frames u (n : nat) : list Z :=
  match n with O => u_key u | 1%nat => sequence_bytes (u_seq u) | _ => u_body u end.

Definition stream (us : list kv_update) : list (list Z * bool) := us ≫= fun u => wire (frames u).

(** The key under which an update is stored. *)
Definition ukey u : list Z := cstr (take KVMSG_KEY_MAX (u_key u)).

Definition apply_update m u : gmap (list Z) (list Z) := <[ukey u := u_body u]> m.

(** An update that is newer than [q] is applied. *)
Definition newer (mq : gmap (list Z) (list Z) * Z) u : gmap (list Z) (list Z) * Z :=
  if mq.2 <? decoded (u_seq u) then (apply_update mq.1 u, decoded (u_seq u)) else mq.

End abstract.

Section spec.
Context `{Hz : Zmq, Hl : !ZmqLaws, Hh : !Zhash, Hhl : !ZhashLaws, Hit : !ZhashItems, Hitl : !ZhashItemsLaws}.
Implicit Types (s : kstate) (hash : zhash_t) (m : gmap (list Z) (list Z)) (l : loc).

(** A message holds an update. *)
Record message_is (u : kv_update) k : Prop := {
  mi_ok : kv_ok k;
  mi_key : key_of k = ukey u;
  mi_content n : (n < KVMSG_FRAMES)%nat -> content k n = Some (frames u n);
}.

(** The table holds [m]: each item is a message of its own under its key, and the
    table will free it; memory is there. *)
Definition item_is s K (item : option (loc * bool)) (body : option (list Z)) : Prop :=
  match item, body with
  | Some (l, b), Some body => b = true /\ exists k u, cells (k_mem s) !! l = Some k /\ message_is u k /\
      ukey u = K /\ u_body u = body
  | None, None => True
  | _, _ => False
  end.

Record reps hash m s : Prop := {
  rp_items K : item_is s K (view hash !! K) (m !! K);
  rp_memory : oracle (k_mem s) = [];
}.

Lemma reps_loc hash m s K l b :
  reps hash m s -> view hash !! K = Some (l, b) ->
  b = true /\ exists k, cells (k_mem s) !! l = Some k /\ kv_ok k /\ key_of k = K.
Proof.
  intros [Hi _] E. specialize (Hi K). rewrite E in Hi. destruct (m !! K) as [body|]; [|done].
  destruct Hi as (-> & k & u & Hk & [Hok HK _] & <- & _). eauto 10.
Qed.

(** A message that is not in the table comes, changes or goes. *)
Lemma reps_frame hash m s s' l :
  reps hash m s -> cells (k_mem s) !! l = None ->
  (forall l', l' <> l -> cells (k_mem s') !! l' = cells (k_mem s) !! l') -> oracle (k_mem s') = [] ->
  reps hash m s'.
Proof.
  intros [Hi Ho] Hfr Hsame Ho'. split; [|done]. intros K. specialize (Hi K). unfold item_is in *.
  destruct (view hash !! K) as [[l' b]|], (m !! K); try done. destruct Hi as (Hb & k & u & Hk & Hrest).
  split; [done|]. exists k, u. split; [|done]. rewrite Hsame; [done|]. congruence.
Qed.


(** A message that has arrived and is not in the table. *)
Record arrived hash (u : kv_update) l k s : Prop := {
  ar_cell : cells (k_mem s) !! l = Some k;
  ar_message : message_is u k;
  ar_new K b : view hash !! K <> Some (l, b);
}.

Lemma content_has k n d : content k n = Some d -> has k n = true.
Proof. unfold content. by destruct (has k n). Qed.

Lemma frame_key_lt : (FRAME_KEY < KVMSG_FRAMES)%nat.
Proof. unfold FRAME_KEY, KVMSG_FRAMES. lia. Qed.

Lemma frame_body_lt : (FRAME_BODY < KVMSG_FRAMES)%nat.
Proof. unfold FRAME_BODY, KVMSG_FRAMES. lia. Qed.

Lemma recv_update i u rest hash m s :
  inbox (k_net s) i = wire (frames u) ++ rest -> reps hash m s ->
  wp (kvmsg_recv i) (fun r s' => exists l k, r = Some l /\ arrived hash u l k s' /\ reps hash m s' /\
    inbox (k_net s') i = rest /\ forall j, j <> i -> inbox (k_net s') j = inbox (k_net s) j) s.
Proof.
  intros Hin Hr. eapply wp_mono.
  { apply (recv_msg_ok i (frames u) rest); [done|]. unfold may_alloc. by rewrite (rp_memory _ _ _ Hr). }
  intros r s' (Hi & Hoth & Ho & l & k & -> & Hfr & Hok & Hc & Hkey & Hcont).
  exists l, k. split; [done|]. split; [split|].
  - by rewrite Hc, lookup_insert_eq.
  - split; [done| |done]. unfold key_of, ukey. by rewrite Hkey, (Hcont FRAME_KEY) by apply frame_key_lt.
  - intros K b E. destruct (reps_loc _ _ _ _ _ _ Hr E) as (_ & k' & Hk' & _). congruence.
  - split; [|done]. eapply (reps_frame _ _ s _ l); [done|done| |].
    + intros l' Hne. by rewrite Hc, lookup_insert_ne.
    + by rewrite Ho, (rp_memory _ _ _ Hr).
Qed.

(** The messages of the table are untouched when another one changes. *)
Lemma reps_other hash m s s' l :
  reps hash m s -> (forall K b, view hash !! K <> Some (l, b)) ->
  (forall l', l' <> l -> cells (k_mem s') !! l' = cells (k_mem s) !! l') -> oracle (k_mem s') = oracle (k_mem s) ->
  reps hash m s'.
Proof.
  intros [Hi Ho] Hnew Hsame Ho'. split; [|congruence]. intros K. specialize (Hi K). specialize (Hnew K).
  unfold item_is in *. destruct (view hash !! K) as [[l' b]|], (m !! K); try done.
  destruct Hi as (Hb & k & u & Hk & Hrest). split; [done|]. exists k, u. split; [|done]. rewrite Hsame; [done|].
  intros ->. by apply (Hnew b).
Qed.

Lemma message_cached u k : message_is u k -> message_is u (cached k).
Proof.
  intros [Hok Hk Hc]. split; [by apply cached_ok|by rewrite key_of_cached|].
  intros n Hn. rewrite content_cached. by apply Hc.
Qed.

Lemma key_is_ok str hash m u l k s :
  arrived hash u l k s -> reps hash m s ->
  wp (key_is (Some l) str) (fun b s' => b = bool_decide (ukey u = str) /\ k_net s' = k_net s /\
    arrived hash u l (cached k) s' /\ reps hash m s') s.
Proof.
  intros [Hc [Hok Hk Hcont] Hnew] Hr. unfold key_is. wp_step.
  assert (Hkey : has k FRAME_KEY = true)
    by (by eapply content_has, Hcont, frame_key_lt).
  eapply wp_mono; [by apply kvmsg_key_ok|]. intros r s' (-> & Hn & Ht & [Hh' Ho]). apply wp_ret.
  split; [by rewrite Hk|]. split; [done|]. split; [split|].
  - by rewrite Hh', lookup_insert_eq.
  - by apply message_cached.
  - done.
  - eapply reps_other; [done|done| |done]. intros l' Hne. by rewrite Hh', lookup_insert_ne.
Qed.

Lemma sequence_arrived hash m u l k s :
  arrived hash u l k s -> reps hash m s -> 0 <= u_seq u < 2 ^ 62 ->
  wp (kvmsg_sequence (Some l)) (fun q s' => q = decoded (u_seq u) /\ s' = s) s.
Proof.
  intros [Hc [Hok _ Hcont] _] _ Hq. eapply sequence_ok; [done|done| |done].
  apply (Hcont FRAME_SEQ). unfold FRAME_SEQ, KVMSG_FRAMES. lia.
Qed.

Lemma destroy_arrived hash m u l k s :
  arrived hash u l k s -> reps hash m s ->
  wp (kvmsg_destroy (Some l)) (fun _ s' => k_net s' = k_net s /\ reps hash m s') s.
Proof.
  intros [Hc [Hok _ _] Hnew] Hr. unfold kvmsg_destroy. wp_step.
  eapply wp_mono; [by eapply kvmsg_free_ok|]. intros _ s' (Hn & [Hh' Ho] & _). apply wp_ret.
  split; [done|]. eapply reps_other; [done|done| |done]. intros l' Hne. by rewrite Hh', lookup_delete_ne.
Qed.

Lemma store_arrived hash m u l k s :
  arrived hash u l k s -> reps hash m s ->
  wp (kvmsg_store (Some l) hash) (fun r s' => k_net s' = k_net s /\ reps r.2 (apply_update m u) s') s.
Proof.
  intros [Hc [Hok Hk Hcont] Hnew] Hr.
  eapply wp_mono; [apply (store_ok l k hash s Hc Hok)|].
  { unfold replaced. intros o Ho. destruct (view hash !! key_of k) as [[o' [|]]|] eqn:E; simpl in Ho; simplify_eq.
    destruct (reps_loc _ _ _ _ _ _ Hr E) as (_ & ko & Hko & Hoko & _). split; [|eauto]. intros ->. by eapply Hnew. }
  intros [p hash'] s' (Ho & _ & Hn & Hst).
  assert (Hhk : has k FRAME_KEY = true) by (by eapply content_has, Hcont, frame_key_lt).
  assert (Hhb : has k FRAME_BODY = true) by (by eapply content_has, Hcont, frame_body_lt).
  rewrite Hhk, Hhb in Hst. simpl in Hst. destruct Hst as (Hv & Hcells & _). split; [done|]. simpl.
  split; [|rewrite Ho; apply Hr]. intros K. rewrite Hv, Hk. unfold apply_update.
  destruct (decide (K = ukey u)) as [->|Hne].
  - rewrite !lookup_insert_eq. split; [done|]. exists (cached k), u. rewrite Hcells, lookup_insert_eq.
    split; [done|]. split; [by apply message_cached|done].
  - rewrite !lookup_insert_ne by done. pose proof (rp_items _ _ _ Hr K) as Hi. unfold item_is in *.
    destruct (view hash !! K) as [[l' b]|] eqn:El, (m !! K); try done.
    destruct Hi as (Hb & k' & u' & Hk' & Hm' & HK). split; [done|]. exists k', u'. split; [|done].
    rewrite Hcells, lookup_insert_ne by (intros ->; by eapply Hnew). unfold replaced, drop_cell. rewrite Hk.
    destruct (view hash !! ukey u) as [[o [|]]|] eqn:Eo; try done. rewrite lookup_delete_ne; [done|].
    intros ->. destruct (reps_loc _ _ _ _ _ _ Hr Eo) as (_ & ko & Hko & _ & HKo).
    rewrite Hk' in Hko. injection Hko as <-. destruct Hm'. destruct HK. congruence.
Qed.

(** ** The client's loops *)

Lemma stream_cons u us : stream (u :: us) = wire (frames u) ++ stream us.
Proof. done. Qed.

Lemma snapshot_ok i q rest us : forall fuel hash m s seq0,
  inbox (k_net s) i = stream us ++ wire (frames (Update KTHXBAI q [])) ++ rest -> reps hash m s ->
  Forall (fun u => ukey u <> KTHXBAI) us -> (length us <= fuel)%nat -> 0 <= q < 2 ^ 62 ->
  wp (snapshot_loop fuel i hash seq0) (fun r s' => r.2 = decoded q /\ reps r.1 (foldl apply_update m us) s' /\
    inbox (k_net s') i = rest /\ forall j, j <> i -> inbox (k_net s') j = inbox (k_net s) j) s.
Proof.
  induction us as [|u us IH]; intros fuel hash m s seq0 Hin Hr Hus Hf Hq.
  - destruct fuel; cbn [snapshot_loop]; wp_step; (eapply wp_mono; [eapply (recv_update i (Update KTHXBAI q [])); [exact Hin|exact Hr]|]);
      intros r s1 (l & k & -> & Ha & Hr1 & Hi & Hoth); wp_step;
      (eapply wp_mono; [eapply key_is_ok; [exact Ha|exact Hr1]|]); intros b s2 (-> & Hn2 & Ha2 & Hr2);
      rewrite bool_decide_true by done; wp_step;
      (eapply wp_mono; [by eapply sequence_arrived|]); intros q' s3 [-> ->]; wp_step;
      (eapply wp_mono; [by eapply destroy_arrived|]); intros u' s4 [Hn4 Hr4]; apply wp_ret; simpl;
      (split; [done|]); (split; [done|]); rewrite Hn4, Hn2; done.
  - apply Forall_cons in Hus as [Hu Hus]. destruct fuel as [|fuel]; [simpl in Hf; lia|].
    cbn [snapshot_loop]. wp_step. rewrite stream_cons, <- app_assoc in Hin.
    eapply wp_mono; [eapply (recv_update i u); [exact Hin|exact Hr]|]. intros r s1 (l & k & -> & Ha & Hr1 & Hi & Hoth). wp_step.
    eapply wp_mono; [eapply key_is_ok; [exact Ha|exact Hr1]|]. intros b s2 (-> & Hn2 & Ha2 & Hr2).
    rewrite bool_decide_false by done. wp_step. eapply wp_mono; [by eapply store_arrived|].
    intros [p hash'] s3 [Hn3 Hr3]. simpl in Hr3. eapply wp_mono; [eapply (IH fuel hash'); [|done|done|simpl in Hf; lia|done]|].
    + by rewrite Hn3, Hn2.
    + intros r s4 (Hq4 & Hr4 & Hi4 & Hoth4). split; [done|]. split; [done|]. split; [done|].
      intros j Hj. by rewrite Hoth4, Hn3, Hn2, Hoth.
Qed.

Lemma updates_ok i rest us : forall hash mq s,
  inbox (k_net s) i = stream us ++ rest -> reps hash mq.1 s -> Forall (fun u => 0 <= u_seq u < 2 ^ 62) us ->
  wp (update_loop (length us) i hash mq.2) (fun r s' =>
    reps r.1 (foldl newer mq us).1 s' /\ r.2 = (foldl newer mq us).2 /\ inbox (k_net s') i = rest) s.
Proof.
  induction us as [|u us IH]; intros hash mq s Hin Hr Hus; cbn [length update_loop foldl].
  { by apply wp_ret. }
  apply Forall_cons in Hus as [Hu Hus]. rewrite stream_cons, <- app_assoc in Hin. wp_step.
  eapply wp_mono; [eapply (recv_update i u); [exact Hin|exact Hr]|]. intros r s1 (l & k & -> & Ha & Hr1 & Hi & Hoth). wp_step.
  eapply wp_mono; [by eapply sequence_arrived|]. intros q s2 [-> ->]. unfold newer at 2 4.
  destruct (mq.2 <? decoded (u_seq u)).
  - wp_step. eapply wp_mono; [by eapply sequence_arrived|]. intros q' s3 [-> ->]. wp_step.
    eapply wp_mono; [by eapply store_arrived|]. intros [p hash'] s3 [Hn3 Hr3]. simpl in Hr3.
    apply (IH hash' (apply_update mq.1 u, decoded (u_seq u))); [by rewrite Hn3|done|done].
  - wp_step. eapply wp_mono; [by eapply destroy_arrived|]. intros u' s3 [Hn3 Hr3].
    apply (IH hash mq); [by rewrite Hn3|done|done].
Qed.


(** ** The state manager *)

(** What goes to the client of that identity. *)
Definition routed (id : list Z) (us : list kv_update) : list (list Z * bool) :=
  us ≫= fun u => (id, true) :: wire (frames u).

Lemma routed_app id us us' : routed id (us ++ us') = routed id us ++ routed id us'.
Proof. apply bind_app. Qed.

Lemma data_str str : zmq_msg_data (zmq_msg_write (zmq_msg_init_size (length str)) str) = str.
Proof. apply data_write. by rewrite data_init_size. Qed.

Lemma send_frame_ok o i bs more s :
  connected o i ->
  wp (send_frame o bs more) (fun _ s' => k_mem s' = k_mem s /\
    inbox (k_net s') i = inbox (k_net s) i ++ [(bs, more)]) s.
Proof.
  intros Hc. unfold send_frame. wp_step. apply wp_in_net. eapply wp_mono; [by eapply send_ok|].
  intros r t Ht. apply wp_ret. split; [done|]. simpl. by rewrite Ht, data_str.
Qed.

Lemma send_message o i u l k s :
  connected o i -> cells (k_mem s) !! l = Some k -> message_is u k ->
  wp (kvmsg_send (Some l) o) (fun _ s' => heap_is s s' (cells (k_mem s)) /\
    inbox (k_net s') i = inbox (k_net s) i ++ wire (frames u)) s.
Proof.
  intros Hc Hk [Hok _ Hcont]. unfold kvmsg_send. wp_step. apply wp_self.
  eapply wp_mono; [by eapply send_loop_ok|]. intros v s' [Hh' Hi]. split; [done|]. rewrite Hi. f_equal.
  unfold wire. apply map_ext_in. intros n Hn%in_seq. unfold sent. by rewrite Hcont by lia.
Qed.

Lemma send_items_ok o i id ls : forall us s,
  connected o i -> Forall2 (fun l u => exists k, cells (k_mem s) !! l = Some k /\ message_is u k) ls us ->
  wp (send_items o id ls) (fun _ s' => heap_is s s' (cells (k_mem s)) /\
    inbox (k_net s') i = inbox (k_net s) i ++ routed id us) s.
Proof.
  induction ls as [|l ls IH]; intros us s Hc Hall; apply Forall2_cons_inv_l in Hall || apply Forall2_nil_inv_l in Hall.
  - subst. apply wp_ret. by rewrite app_nil_r.
  - destruct Hall as (u & us' & (k & Hk & Hm) & Hall & ->). simpl. wp_step. unfold s_send_single. wp_step.
    eapply wp_mono; [by apply send_frame_ok|]. intros v s1 [Hm1 Hi1].
    eapply wp_mono; [eapply (send_message o i u); [done|by rewrite Hm1|done]|]. intros v' s2 [[Hh2 Ho2] Hi2].
    eapply wp_mono; [apply (IH us'); [done|]|].
    + eapply Forall2_impl; [exact Hall|]. intros l' u' (k' & Hk' & Hm'). exists k'. by rewrite Hh2, Hm1.
    + intros v'' s3 [[Hh3 Ho3] Hi3]. split; [split; congruence|].
      rewrite Hi3, Hi2, Hi1. by rewrite <- !app_assoc.
Qed.

Lemma apply_not_in us : forall m K, K ∉ ukey <$> us -> foldl apply_update m us !! K = m !! K.
Proof.
  induction us as [|u us IH]; intros m K Hn; [done|]. simpl in *. apply not_elem_of_cons in Hn as [Hne Hn].
  rewrite IH by done. unfold apply_update. by rewrite lookup_insert_ne.
Qed.

Lemma apply_in us : forall m u, NoDup (ukey <$> us) -> u ∈ us -> foldl apply_update m us !! ukey u = Some (u_body u).
Proof.
  induction us as [|u0 us IH]; intros m u Hnd Hin; [by apply elem_of_nil in Hin|]. simpl in *.
  apply NoDup_cons in Hnd as [Hn Hnd]. apply elem_of_cons in Hin as [->|Hin]; [|by apply IH].
  rewrite apply_not_in by done. apply lookup_insert_eq.
Qed.

Lemma Forall2_choose {X Y} (P : X -> Y -> Prop) (xs : list X) :
  (forall x, x ∈ xs -> exists y, P x y) -> exists ys, Forall2 P xs ys.
Proof.
  induction xs as [|x xs IH]; intros Hall; [by exists []|].
  destruct (Hall x) as [y Hy]; [by left|]. destruct IH as [ys Hys]; [intros x' ?; apply Hall; by right|].
  exists (y :: ys). by constructor.
Qed.

(** The updates the items of the table hold make the table. *)
Lemma items_hold hash m s :
  reps hash m s -> exists us,
    Forall2 (fun l u => exists k, cells (k_mem s) !! l = Some k /\ message_is u k) (zhash_items hash) us /\
    foldl apply_update ∅ us = m /\ forall u, u ∈ us -> is_Some (m !! ukey u).
Proof.
  intros Hr. destruct (Permutation_map_inv _ _ (zhash_items_ok hash)) as (L & EL & HL).
  assert (Hin : forall K l b, (K, (l, b)) ∈ L <-> view hash !! K = Some (l, b)).
  { intros K l b. rewrite <- elem_of_map_to_list. by rewrite HL. }
  destruct (Forall2_choose (fun Klb u => exists k, cells (k_mem s) !! Klb.2.1 = Some k /\ message_is u k /\
    ukey u = Klb.1 /\ m !! ukey u = Some (u_body u)) L) as [us Hus].
  { intros [K [l b]] Hel%Hin. pose proof (rp_items _ _ _ Hr K) as Hi. rewrite Hel in Hi. unfold item_is in Hi.
    destruct (m !! K) as [body|] eqn:Em; [|done]. destruct Hi as (_ & k & u & Hk & Hm & <- & <-). eauto 10. }
  assert (Hkeys : ukey <$> us = L.*1).
  { clear -Hus. induction Hus as [|[K lb] u L us (k & _ & _ & E & _) _ IH]; [done|]. simpl in E. by rewrite !fmap_cons, IH, E. }
  assert (Hall : forall u, u ∈ us -> m !! ukey u = Some (u_body u)).
  { intros u [n Hn]%list_elem_of_lookup. destruct (Forall2_lookup_r _ _ _ _ _ Hus Hn) as (x & _ & k & _ & _ & _ & E).
    done. }
  exists us. split; [|split].
  - rewrite EL. clear -Hus. induction Hus as [|x u L us (k & Hk & Hm & _) _ IH]; [constructor|]. constructor; eauto.
  - apply map_eq. intros K. destruct (decide (K ∈ ukey <$> us)) as [Hel|Hel].
    + apply list_elem_of_fmap in Hel as (u & -> & Hu). rewrite (Hall u Hu). apply apply_in; [|done].
      rewrite Hkeys, <- HL. apply NoDup_fst_map_to_list.
    + rewrite apply_not_in, lookup_empty by done. pose proof (rp_items _ _ _ Hr K) as Hi. unfold item_is in Hi.
      destruct (view hash !! K) as [[l b]|] eqn:Ev.
      * destruct Hel. rewrite Hkeys. apply list_elem_of_fmap. exists (K, (l, b)). split; [done|]. by apply Hin.
      * by destruct (m !! K).
  - intros u Hu. rewrite (Hall u Hu). eauto.
Qed.

Lemma reps_same hash m s s' : reps hash m s -> heap_is s s' (cells (k_mem s)) -> reps hash m s'.
Proof.
  intros [Hi Ho] [Hc Ho']. split; [|congruence]. intros K. specialize (Hi K). unfold item_is in *.
  destruct (view hash !! K) as [[l b]|], (m !! K); try done. by rewrite Hc.
Qed.

(** A message that the server makes. *)
Lemma new_message q key body hash m s :
  reps hash m s ->
  wp (kvmsg ← kvmsg_new q; _ ← kvmsg_set_key kvmsg key; _ ← kvmsg_set_body kvmsg body; mret kvmsg)
    (fun r s' => k_net s' = k_net s /\ exists l k, r = Some l /\ arrived hash (Update key q body) l k s' /\ reps hash m s') s.
Proof.
  intros Hr. wp_step. eapply wp_mono; [apply kvmsg_new_ok; unfold may_alloc; by rewrite (rp_memory _ _ _ Hr)|].
  intros r s1 (Hn1 & l & k & -> & Hfr & Hc1 & Ho1 & Hok1 & Hkey & Hseq & Hnone).
  wp_step. eapply wp_mono; [eapply (put_frame_ok l k FRAME_KEY); [by rewrite Hc1, lookup_insert_eq|done|apply frame_key_lt]|].
  intros v s2 (Hn2 & m1 & [Hh2 Ho2] & Hm1).
  wp_step. eapply wp_mono; [eapply (put_frame_ok l _ FRAME_BODY); [by rewrite Hh2, lookup_insert_eq| |apply frame_body_lt]|].
  { by apply set_frame_ok; [|apply frame_key_lt]. }
  intros v' s3 (Hn3 & m2 & [Hh3 Ho3] & Hm2). apply wp_ret. split; [congruence|].
  set (k1 := set_frame FRAME_KEY m1 k) in *. set (k2 := set_frame FRAME_BODY m2 k1) in *.
  assert (Hok2 : kv_ok k1) by (apply set_frame_ok; [done|apply frame_key_lt]).
  assert (Hcont : forall n, (n < KVMSG_FRAMES)%nat -> content k2 n = Some (frames (Update key q body) n)).
  { intros n Hn. unfold k2. rewrite content_set_frame by (done || apply frame_body_lt).
    unfold k1. rewrite content_set_frame by (done || apply frame_key_lt).
    unfold FRAME_BODY, FRAME_KEY, KVMSG_FRAMES in *. destruct n as [|[|[|n]]]; [..|lia]; simpl.
    - by rewrite Hm1.
    - exact Hseq.
    - by rewrite Hm2. }
  exists l, k2. split; [done|]. split; [split|].
  - by rewrite Hh3, lookup_insert_eq.
  - split; [apply set_frame_ok; [done|apply frame_body_lt]| |done].
    unfold key_of, ukey. rewrite (Hcont FRAME_KEY) by apply frame_key_lt. simpl. rewrite Hkey. done.
  - intros K b E. destruct (reps_loc _ _ _ _ _ _ Hr E) as (_ & k' & Hk' & _). congruence.
  - eapply (reps_frame _ _ s _ l); [done|done| |rewrite Ho3, Ho2, Ho1, (rp_memory _ _ _ Hr); done].
    intros l' Hne. rewrite Hh3, Hh2, Hc1. by rewrite !lookup_insert_ne by done.
Qed.

(** The message that ends a snapshot. *)
Definition last_update (q : Z) : kv_update := Update KTHXBAI q [].

(** A snapshot: the updates that make the table, in some order, and its number. *)
Lemma send_snapshot_ok o i id q hash m s :
  connected o i -> reps hash m s ->
  wp (send_snapshot o id hash q) (fun _ s' => reps hash m s' /\
    exists us, foldl apply_update ∅ us = m /\ (forall u, u ∈ us -> is_Some (m !! ukey u)) /\
      inbox (k_net s') i = inbox (k_net s) i ++ routed id (us ++ [last_update q])) s.
Proof.
  intros Hc Hr. destruct (items_hold hash m s Hr) as (us & Hus & Hm & Hk). unfold send_snapshot.
  wp_step. eapply wp_mono; [by apply (send_items_ok o i id _ us)|]. intros v s1 [Hs1 Hi1].
  pose proof (reps_same _ _ _ _ Hr Hs1) as Hr1. wp_step. eapply wp_mono; [by apply send_frame_ok|].
  intros v2 s2 [Hm2 Hi2].
  assert (Hr2 : reps hash m s2) by (eapply reps_same; [exact Hr1|split; by rewrite Hm2]).
  destruct (wp_inv _ _ _ (new_message q KTHXBAI [] hash m s2 Hr2)) as (r & s3 & E & Hn3 & l & k & -> & Ha & Hr3).
  assert (Hlast : wp (_ ← kvmsg_send (Some l) o; _ ← kvmsg_destroy (Some l); mret tt) (fun _ s' => reps hash m s' /\
    inbox (k_net s') i = inbox (k_net s) i ++ routed id (us ++ [last_update q])) s3).
  { wp_step. eapply wp_mono; [eapply (send_message o i (last_update q)); [done|apply Ha|apply Ha]|].
    intros v3 s4 [Hs4 Hi4]. wp_step.
    eapply wp_mono; [eapply (destroy_arrived hash m (last_update q) l k)|].
    - destruct Ha as [Hcell Hmsg Hnew]. split; [|done|done]. destruct Hs4 as [-> _]. done.
    - by eapply reps_same.
    - intros v4 s5 [Hn5 Hr5]. apply wp_ret. split; [done|]. rewrite Hn5, Hi4, Hn3, Hi2, Hi1, routed_app, <- !app_assoc. done. }
  revert E Hlast. unfold wp, mbind, M_bind. clear -Hm Hk. destruct (kvmsg_new q s2) as [[p t]| |]; try done.
  destruct (kvmsg_set_key p KTHXBAI t) as [[v t1]| |]; try done.
  destruct (kvmsg_set_body p [] t1) as [[v' t2]| |]; try done.
  intros [= -> ->]. destruct (kvmsg_send (Some l) o s3) as [[w t3]| |]; try done.
  destruct (kvmsg_destroy (Some l) t3) as [[w' t4]| |]; try done. simpl. intros [? ?]. split; [done|]. by exists us.
Qed.


(** ** The publisher *)

Lemma send_elsewhere o j u l k s :
  ~ connected o j -> cells (k_mem s) !! l = Some k -> message_is u k ->
  wp (kvmsg_send (Some l) o) (fun _ s' => inbox (k_net s') j = inbox (k_net s) j) s.
Proof.
  intros Hc Hk [Hok _ _]. unfold kvmsg_send. wp_step. apply wp_self.
  eapply wp_mono; [by eapply send_loop_other|]. by intros v s' [_ Hj].
Qed.

Lemma new_update_ok q key body hash m s :
  reps hash m s ->
  wp (new_update q key body) (fun r s' => k_net s' = k_net s /\
    exists l k, r = Some l /\ arrived hash (Update (take 254 key) q (take 254 body)) l k s' /\ reps hash m s') s.
Proof. intros Hr. by apply (new_message q (take 254 key) (take 254 body)). Qed.

(** The updates of the rounds, after number [n]. *)
Fixpoint published (n : Z) (rounds : list (list Z * list Z)) : list kv_update :=
  match rounds with
  | [] => []
  | (key, body) :: rounds => Update (take 254 key) (n + 1) (take 254 body) :: published (n + 1) rounds
  end.

Lemma published_length rounds : forall n, length (published n rounds) = length rounds.
Proof. induction rounds as [|[key body] rounds IH]; intros n; simpl; [done|by rewrite IH]. Qed.

(** Each update goes to the subscribers and to the state manager. *)
Lemma publish_ok publisher updates sub pipe hash m rounds : forall n s,
  connected publisher sub -> ~ connected publisher pipe -> connected updates pipe -> ~ connected updates sub ->
  0 <= n -> n + Z.of_nat (length rounds) <= INT64_MAX -> reps hash m s ->
  wp (publish_loop rounds publisher updates n) (fun r s' => reps hash m s' /\ r = n + Z.of_nat (length rounds) /\
    inbox (k_net s') sub = inbox (k_net s) sub ++ stream (published n rounds) /\
    inbox (k_net s') pipe = inbox (k_net s) pipe ++ stream (published n rounds)) s.
Proof.
  induction rounds as [|[key body] rounds IH]; intros n s Hps Hpp Hup Hus Hn Hmax Hr; cbn [publish_loop published].
  { apply wp_ret. rewrite !app_nil_r, Z.add_0_r. done. }
  cbn [length] in Hmax. wp_step. eapply wp_intro; [apply int64_ok; lia|]. wp_step.
  eapply wp_mono; [by apply new_update_ok|]. intros r s1 (Hn1 & l & k & -> & Ha & Hr1). wp_step.
  eapply wp_mono.
  { apply wp_and; [eapply (send_message publisher sub); [done|apply Ha..]|eapply (send_elsewhere publisher pipe); [done|apply Ha..]]. }
  intros v s2 [[Hs2 Hi2] Hj2]. pose proof (reps_same _ _ _ _ Hr1 Hs2) as Hr2.
  assert (Hk2 : cells (k_mem s2) !! l = Some k) by (destruct Hs2 as [-> _]; apply Ha). wp_step.
  eapply wp_mono.
  { apply wp_and; [eapply (send_message updates pipe); [done|done|apply Ha]|eapply (send_elsewhere updates sub); [done|done|apply Ha]]. }
  intros v' s3 [[Hs3 Hi3] Hj3]. pose proof (reps_same _ _ _ _ Hr2 Hs3) as Hr3. wp_step.
  eapply wp_mono; [eapply (destroy_arrived hash m (Update (take 254 key) (n + 1) (take 254 body)) l k)|].
  - split; [|apply Ha|apply Ha]. destruct Hs3 as [-> _]. done.
  - done.
  - intros v4 s4 [Hn4 Hr4]. eapply wp_mono; [apply (IH (n + 1)); [done..|lia|lia|done]|].
    intros r s5 (Hr5 & -> & Hsub & Hpipe). split; [done|]. split; [simpl; lia|].
    rewrite !stream_cons, !app_assoc. split; congruence.
Qed.


(** ** The numbers *)

(** Numbers below [2^24] keep their order. *)
Lemma decoded_split q : 0 <= q < 2 ^ 24 -> decoded q = q mod 2 ^ 16 + (q / 2 ^ 16) * 2 ^ 26.
Proof.
  intros Hq. unfold decoded, byte5. rewrite byte_div by lia.
  rewrite (Z.mod_small (q / 2 ^ 16)); [|split; [apply Z.div_pos; lia|apply Z.div_lt_upper_bound; lia]].
  pose proof (Z.div_mod q (2 ^ 16) ltac:(lia)). lia.
Qed.

Lemma decoded_mono a b : 0 <= a -> a < b -> b < 2 ^ 24 -> decoded a < decoded b.
Proof.
  intros Ha Hab Hb. rewrite !decoded_split by lia.
  pose proof (Z.div_mod a (2 ^ 16) ltac:(lia)). pose proof (Z.div_mod b (2 ^ 16) ltac:(lia)).
  pose proof (Z.mod_pos_bound a (2 ^ 16) ltac:(lia)). pose proof (Z.mod_pos_bound b (2 ^ 16) ltac:(lia)).
  pose proof (Z.div_le_mono a b (2 ^ 16) ltac:(lia) ltac:(lia)). lia.
Qed.

(** The number of a snapshot is encoded a second time. *)
Lemma decoded_twice q : 0 <= q < 2 ^ 24 -> decoded (decoded q) = decoded q /\ 0 <= decoded q < 2 ^ 62.
Proof.
  intros Hq. rewrite (decoded_split q Hq).
  pose proof (Z.mod_pos_bound q (2 ^ 16) ltac:(lia)) as Hm.
  assert (Hd : 0 <= q / 2 ^ 16 < 2 ^ 8) by (split; [apply Z.div_pos; lia|apply Z.div_lt_upper_bound; lia]).
  split; [|lia]. unfold decoded at 1, byte5. rewrite byte_div by lia.
  replace ((q mod 2 ^ 16 + q / 2 ^ 16 * 2 ^ 26) / 2 ^ 16) with (q / 2 ^ 16 * 2 ^ 10).
  - replace ((q / 2 ^ 16 * 2 ^ 10) mod 256) with 0; [lia|]. symmetry.
    replace (q / 2 ^ 16 * 2 ^ 10) with (q / 2 ^ 16 * 4 * 256) by lia. apply Z.mod_mul. lia.
  - replace (q / 2 ^ 16 * 2 ^ 26) with (q / 2 ^ 16 * 2 ^ 10 * 2 ^ 16) by lia.
    rewrite Z.div_add by lia. rewrite (Z.div_small (q mod 2 ^ 16)) by lia. lia.
Qed.

(** The updates of a server, from number [n + 1] on. *)
Fixpoint numbered (n : Z) (us : list kv_update) : Prop :=
  match us with [] => True | u :: us => u_seq u = n + 1 /\ numbered (n + 1) us end.

Lemma published_numbered rounds : forall n, numbered n (published n rounds).
Proof. induction rounds as [|[key body] rounds IH]; intros n; simpl; [done|]. by split. Qed.

Lemma numbered_app n us us' : numbered n (us ++ us') <-> numbered n us /\ numbered (n + Z.of_nat (length us)) us'.
Proof.
  revert n. induction us as [|u us IH]; intros n; simpl; [rewrite Z.add_0_r; tauto|].
  rewrite IH. replace (n + 1 + Z.of_nat (length us)) with (n + Z.of_nat (S (length us))) by lia. tauto.
Qed.

Lemma numbered_range n us u : numbered n us -> u ∈ us -> n < u_seq u <= n + Z.of_nat (length us).
Proof.
  revert n. induction us as [|u0 us IH]; intros n Hn Hu; [by apply elem_of_nil in Hu|]. simpl in *.
  destruct Hn as [H0 Hn]. apply elem_of_cons in Hu as [->|Hu]; [lia|]. specialize (IH _ Hn Hu). lia.
Qed.

(** Updates that are not newer change nothing. *)
Lemma newer_old us q : forall m, Forall (fun u => decoded (u_seq u) <= q) us -> foldl newer (m, q) us = (m, q).
Proof.
  induction us as [|u us IH]; intros m Hus; [done|]. apply Forall_cons in Hus as [Hu Hus]. simpl.
  unfold newer at 2. simpl. rewrite (proj2 (Z.ltb_ge _ _)) by done. by apply IH.
Qed.

(** Updates with the next numbers are all applied. *)
Lemma newer_new us : forall n m, 0 <= n -> numbered n us -> n + Z.of_nat (length us) < 2 ^ 24 ->
  foldl newer (m, decoded n) us = (foldl apply_update m us, decoded (n + Z.of_nat (length us))).
Proof.
  induction us as [|u us IH]; intros n m Hn Hnum Hlt; simpl in *; [by rewrite Z.add_0_r|].
  destruct Hnum as [Hu Hnum]. unfold newer at 2. simpl. rewrite Hu, (proj2 (Z.ltb_lt _ _)) by (apply decoded_mono; lia).
  rewrite IH by (done || lia). do 2 f_equal. lia.
Qed.

(** A client that has the table after the first [k] updates, and gets the updates
    from some earlier one on. *)
Lemma newer_catches_up us j k :
  numbered 0 us -> (j <= k <= length us)%nat -> Z.of_nat (length us) < 2 ^ 24 ->
  foldl newer (foldl apply_update ∅ (take k us), decoded (Z.of_nat k)) (drop j us)
  = (foldl apply_update ∅ us, decoded (Z.of_nat (length us))).
Proof.
  intros Hnum Hjk Hlt.
  assert (Hsplit : drop j us = drop j (take k us) ++ drop k us).
  { rewrite <- (take_drop k us) at 1. rewrite drop_app_le; [done|]. rewrite length_take. lia. }
  rewrite <- (take_drop k us) in Hnum. apply numbered_app in Hnum as [Hn1 Hn2].
  rewrite length_take, Nat.min_l, Z.add_0_l in Hn2 by lia.
  rewrite Hsplit, foldl_app, newer_old.
  - rewrite newer_new; [|lia|done|rewrite length_drop; lia]. rewrite <- foldl_app, take_drop, length_drop.
    f_equal. f_equal. lia.
  - apply Forall_forall. intros u Hu.
    assert (Hin : u ∈ take k us) by (rewrite <- (take_drop j (take k us)); apply elem_of_app; by right).
    pose proof (numbered_range _ _ _ Hn1 Hin) as Hr. rewrite length_take, Nat.min_l in Hr by lia.
    destruct (decide (u_seq u = Z.of_nat k)) as [->|]; [lia|].
    pose proof (decoded_mono (u_seq u) (Z.of_nat k)). lia.
Qed.


(** ** Server and client *)

Lemma manager_updates pipe o us rest : forall hash m q s,
  inbox (k_net s) pipe = stream us ++ rest -> reps hash m s -> Forall (fun u => 0 <= u_seq u < 2 ^ 62) us ->
  forall es Q,
  (forall hash' s', reps hash' (foldl apply_update m us) s' -> inbox (k_net s') pipe = rest ->
     (forall j, j <> pipe -> inbox (k_net s') j = inbox (k_net s) j) ->
     wp (manager_loop pipe o es hash' (default q ((fun u => decoded (u_seq u)) <$> last us))) Q s') ->
  wp (manager_loop pipe o (replicate (length us) FromPipe ++ es) hash q) Q s.
Proof.
  induction us as [|u us IH]; intros hash m q s Hin Hr Hus es Q HQ; [by apply HQ|].
  apply Forall_cons in Hus as [Hu Hus]. rewrite stream_cons, <- app_assoc in Hin.
  cbn [length replicate app manager_loop manager_round]. wp_step. wp_step.
  eapply wp_mono; [eapply (recv_update pipe u); [exact Hin|exact Hr]|].
  intros r s1 (l & k & -> & Ha & Hr1 & Hi & Hoth). wp_step.
  eapply wp_mono; [by eapply sequence_arrived|]. intros q' s2 [-> ->]. wp_step.
  eapply wp_mono; [by eapply store_arrived|]. intros [p hash'] s3 [Hn3 Hr3]. apply wp_ret. simpl in Hr3.
  apply (IH hash' (apply_update m u)); [by rewrite Hn3|done|done|].
  intros hash'' s' Hr' Hi' Hoth'. specialize (HQ hash'' s' Hr' Hi').
  assert (El : default (decoded (u_seq u)) ((fun u => decoded (u_seq u)) <$> last us)
    = default q ((fun u => decoded (u_seq u)) <$> last (u :: us))).
  { rewrite last_cons. by destruct (last us). }
  rewrite El. apply HQ. intros j Hj. by rewrite Hoth', Hn3, Hoth.
Qed.

Lemma numbered_last n us : numbered n us ->
  default (decoded n) ((fun u => decoded (u_seq u)) <$> last us) = decoded (n + Z.of_nat (length us)).
Proof.
  revert n. induction us as [|u us IH]; intros n Hn; [by rewrite Z.add_0_r|].
  destruct Hn as [Hu Hn]. specialize (IH _ Hn). rewrite last_cons.
  replace (n + Z.of_nat (length (u :: us))) with (n + 1 + Z.of_nat (length us)) by (simpl; lia). rewrite <- IH.
  destruct (last us); [done|]. simpl. by rewrite Hu.
Qed.

Lemma stream_app us us' : stream (us ++ us') = stream us ++ stream us'.
Proof. apply bind_app. Qed.

Lemma apply_dom us : forall m K, is_Some (foldl apply_update m us !! K) -> is_Some (m !! K) \/ K ∈ ukey <$> us.
Proof.
  intros m K HK. destruct (decide (K ∈ ukey <$> us)) as [|Hn]; [by right|left]. by rewrite apply_not_in in HK.
Qed.

(** The client, from its request on: [connected] sockets are those of the server. *)
Lemma clonecli2_ok snapshot subscriber us snap j k hash s :
  snapshot <> subscriber -> ~ connected snapshot snapshot -> ~ connected snapshot subscriber ->
  numbered 0 us -> (j <= k <= length us)%nat -> Z.of_nat (length us) < 2 ^ 24 ->
  foldl apply_update ∅ snap = foldl apply_update ∅ (take k us) -> Forall (fun u => ukey u <> KTHXBAI) snap ->
  reps hash ∅ s ->
  inbox (k_net s) snapshot = stream (snap ++ [last_update (decoded (Z.of_nat k))]) ->
  inbox (k_net s) subscriber = stream (drop j us) ->
  wp (clonecli2 (length snap) (length us - j) snapshot subscriber hash) (fun r s' =>
    reps r.1 (foldl apply_update ∅ us) s' /\ r.2 = decoded (Z.of_nat (length us))) s.
Proof.
  intros Hne Hns Hnb Hnum Hjk Hlt Hsnap Hkeys Hr Hin Hsub. unfold clonecli2, zstr_send. wp_step. wp_step.
  apply wp_in_net.
  destruct (wp_inv _ _ _ (send_other snapshot snapshot
    (zmq_msg_write (zmq_msg_init_size (length ICANHAZ)) ICANHAZ) false (k_net s) Hns)) as (r & t & E & H1).
  destruct (wp_inv _ _ _ (send_other snapshot subscriber
    (zmq_msg_write (zmq_msg_init_size (length ICANHAZ)) ICANHAZ) false (k_net s) Hnb)) as (r' & t' & E' & H2).
  rewrite E in E'. simplify_eq. eapply wp_intro; [exact E|]. apply wp_ret.
  destruct (decoded_twice (Z.of_nat k) ltac:(lia)) as [Htw Hrange]. wp_step.
  eapply wp_mono; [eapply (snapshot_ok snapshot (decoded (Z.of_nat k)) [] snap); [| |done|done|done]|].
  - simpl. rewrite H1, Hin, stream_app. done.
  - by eapply reps_same.
  - intros [hash1 q] s1 (Hq & Hr1 & _ & Hoth). simpl in Hq, Hr1. subst q. rewrite Hsnap in Hr1. rewrite Htw.
    replace (length us - j)%nat with (length (drop j us)) by (by rewrite length_drop).
    eapply wp_mono; [apply (updates_ok subscriber [] (drop j us) hash1 (foldl apply_update ∅ (take k us), decoded (Z.of_nat k)))|].
    + rewrite Hoth by done. simpl. by rewrite H2, Hsub, app_nil_r.
    + exact Hr1.
    + apply Forall_forall. intros u Hu. assert (Hin' : u ∈ us) by (rewrite <- (take_drop j us); apply elem_of_app; by right).
      pose proof (numbered_range _ _ _ Hnum Hin'). lia.
    + intros r s2 (Hr2 & Hq2 & _). rewrite newer_catches_up in Hr2, Hq2 by done. done.
Qed.

(** A state manager that has applied the first [k] updates when a client asks. *)
Lemma manager_then_client pipe o peer id us j k hash s rest :
  numbered 0 us -> Forall (fun u => ukey u <> KTHXBAI) us -> Z.of_nat (length us) < 2 ^ 24 -> (j <= k <= length us)%nat ->
  connected o peer -> pipe <> peer -> reps hash ∅ s -> inbox (k_net s) pipe = stream (take k us) ++ rest ->
  wp (manager_loop pipe o (replicate k FromPipe ++ [Request id ICANHAZ]) hash 0) (fun r s' =>
    reps r.1 (foldl apply_update ∅ (take k us)) s' /\
    exists snap, inbox (k_net s') peer = inbox (k_net s) peer ++ routed id snap /\
    forall snapshot subscriber hash1 s1,
      snapshot <> subscriber -> ~ connected snapshot snapshot -> ~ connected snapshot subscriber ->
      reps hash1 ∅ s1 -> inbox (k_net s1) snapshot = stream snap -> inbox (k_net s1) subscriber = stream (drop j us) ->
      wp (clonecli2 (length snap - 1) (length us - j) snapshot subscriber hash1) (fun r1 s1' =>
        reps r1.1 (foldl apply_update ∅ us) s1') s1) s.
Proof.
  intros Hnum Hkeys Hlt Hjk Hc Hne Hr Hin.
  assert (Hnk : numbered 0 (take k us)).
  { rewrite <- (take_drop k us) in Hnum. by apply numbered_app in Hnum as [? _]. }
  assert (Hlk : length (take k us) = k) by (rewrite length_take; lia).
  rewrite <- Hlk at 1. eapply manager_updates; [exact Hin|exact Hr| |].
  { apply Forall_forall. intros u Hu. pose proof (numbered_range _ _ _ Hnk Hu). lia. }
  intros hash' s' Hr' _ Hoth. pose proof (numbered_last 0 _ Hnk) as Hlast. rewrite Hlk in Hlast.
  change (decoded 0) with 0 in Hlast. rewrite Hlast. cbn [manager_loop manager_round]. wp_step.
  rewrite bool_decide_true by done. wp_step. eapply wp_mono; [by eapply send_snapshot_ok|].
  intros v s2 (Hr2 & snap & Hsnap & Hdom & Hi2). do 2 apply wp_ret. split; [done|].
  eexists. split; [rewrite Hi2, Hoth by done; done|].
  intros snapshot subscriber hash1 s1 H1 H2 H3 H4 H5 H6.
  replace (length (snap ++ [_]) - 1)%nat with (length snap) by (rewrite length_app; simpl; lia).
  eapply wp_mono; [eapply (clonecli2_ok snapshot subscriber us snap j k); try done|by intros r t [? _]].
  apply Forall_forall. intros u Hu. destruct (Hdom u Hu) as [b Hb].
  destruct (apply_dom (take k us) ∅ (ukey u)) as [[? Hx]|Hx]; [eauto|by rewrite lookup_empty in Hx|].
  apply list_elem_of_fmap in Hx as (u' & -> & Hu'). rewrite Forall_forall in Hkeys. apply Hkeys.
  rewrite <- (take_drop k us). apply elem_of_app. by left.
Qed.

(** A client that got update [2^24 - 1] drops the next one: its number is read as a
    smaller one. *)
Lemma update_dropped subscriber u rest hash m s :
  u_seq u = 2 ^ 24 -> reps hash m s -> inbox (k_net s) subscriber = wire (frames u) ++ rest ->
  wp (update_loop 1 subscriber hash (decoded (2 ^ 24 - 1))) (fun r s' =>
    reps r.1 m s' /\ r.2 = decoded (2 ^ 24 - 1)) s.
Proof.
  intros Hu Hr Hin. eapply wp_mono; [apply (updates_ok subscriber rest [u] hash (m, decoded (2 ^ 24 - 1)))|].
  - by rewrite Hin, stream_cons, <- app_assoc.
  - done.
  - repeat constructor; rewrite Hu; lia.
  - intros r s' (Hr' & Hq & _). simpl in Hr', Hq. unfold newer in Hr', Hq. rewrite Hu in Hr', Hq. done.
Qed.

(** ** The first version: every update is sent and stored *)

Lemma clonesrv1_ok publisher sub rounds : forall hash m n s,
  connected publisher sub -> 0 <= n -> n + Z.of_nat (length rounds) <= INT64_MAX -> reps hash m s ->
  wp (clonesrv1_loop rounds publisher hash n) (fun r s' =>
    reps r.1 (foldl apply_update m (published n rounds)) s' /\ r.2 = n + Z.of_nat (length rounds) /\
    inbox (k_net s') sub = inbox (k_net s) sub ++ stream (published n rounds)) s.
Proof.
  induction rounds as [|[key body] rounds IH]; intros hash m n s Hc Hn Hmax Hr; cbn [clonesrv1_loop published foldl].
  { apply wp_ret. rewrite app_nil_r, Z.add_0_r. done. }
  cbn [length] in Hmax. wp_step. eapply wp_intro; [apply int64_ok; lia|]. wp_step.
  eapply wp_mono; [by apply new_update_ok|]. intros r s1 (Hn1 & l & k & -> & Ha & Hr1). wp_step.
  eapply wp_mono; [eapply (send_message publisher sub); [done|apply Ha..]|]. intros v s2 [Hs2 Hi2].
  pose proof (reps_same _ _ _ _ Hr1 Hs2) as Hr2. wp_step. eapply wp_mono.
  { eapply store_arrived; [|exact Hr2]. split; [destruct Hs2 as [-> _]|..]; apply Ha. }
  intros [p hash'] s3 [Hn3 Hr3]. simpl in Hr3.
  eapply wp_mono; [eapply (IH hash'); [done|lia|lia|exact Hr3]|].
  intros r s4 (Hr4 & -> & Hi4). split; [done|]. split; [simpl; lia|]. rewrite stream_cons, app_assoc. congruence.
Qed.

Lemma clonecli1_ok i us rest : forall hash m n s,
  inbox (k_net s) i = stream us ++ rest -> reps hash m s -> 0 <= n -> n + Z.of_nat (length us) <= INT64_MAX ->
  wp (clonecli1_loop (length us) i hash n) (fun r s' =>
    reps r.1 (foldl apply_update m us) s' /\ r.2 = n + Z.of_nat (length us) /\ inbox (k_net s') i = rest) s.
Proof.
  induction us as [|u us IH]; intros hash m n s Hin Hr Hn Hmax; cbn [length clonecli1_loop foldl] in *.
  { apply wp_ret. rewrite Z.add_0_r. done. }
  rewrite stream_cons, <- app_assoc in Hin. wp_step.
  eapply wp_mono; [eapply (recv_update i u); [exact Hin|exact Hr]|]. intros r s1 (l & k & -> & Ha & Hr1 & Hi & _). wp_step.
  eapply wp_mono; [by eapply store_arrived|]. intros [p hash'] s2 [Hn2 Hr2]. simpl in Hr2. wp_step.
  eapply wp_intro; [apply int64_ok; lia|]. eapply wp_mono; [eapply (IH hash'); [by rewrite Hn2|exact Hr2|lia|lia]|].
  intros r s3 (Hr3 & -> & Hi3). split; [done|]. split; [lia|done].
Qed.

(** ** The theorem *)

(** C7: the server sends each update, in order, to its subscribers and to its state
    manager.  When the state manager has applied the first [k] of them and a client
    asks for a snapshot, the client that gets that snapshot and the published
    updates from the [j]th on, [j <= k], ends with the table that all updates make,
    whatever the order in which the snapshot is sent.  This holds for fewer than
    [2^24] updates, because of how [kvmsg_sequence] reads the number. *)
Theorem clone_consistent rounds publisher updates sub pipe o peer id j k hash :
  let us := published 0 rounds in
  Forall (fun u => ukey u <> KTHXBAI) us -> Z.of_nat (length rounds) < 2 ^ 24 -> (j <= k <= length rounds)%nat ->
  connected publisher sub -> ~ connected publisher pipe -> connected updates pipe -> ~ connected updates sub ->
  connected o peer -> pipe <> peer ->
  (forall m s, reps hash m s ->
     wp (publish_loop rounds publisher updates 0) (fun r s' => reps hash m s' /\ r = Z.of_nat (length rounds) /\
       inbox (k_net s') sub = inbox (k_net s) sub ++ stream us /\
       inbox (k_net s') pipe = inbox (k_net s) pipe ++ stream us) s) /\
  (forall s rest, reps hash ∅ s -> inbox (k_net s) pipe = stream (take k us) ++ rest ->
     wp (manager_loop pipe o (replicate k FromPipe ++ [Request id ICANHAZ]) hash 0) (fun r s' =>
       reps r.1 (foldl apply_update ∅ (take k us)) s' /\
       exists snap, inbox (k_net s') peer = inbox (k_net s) peer ++ routed id snap /\
       forall snapshot subscriber hash1 s1,
         snapshot <> subscriber -> ~ connected snapshot snapshot -> ~ connected snapshot subscriber ->
         reps hash1 ∅ s1 -> inbox (k_net s1) snapshot = stream snap -> inbox (k_net s1) subscriber = stream (drop j us) ->
         wp (clonecli2 (length snap - 1) (length us - j) snapshot subscriber hash1) (fun r1 s1' =>
           reps r1.1 (foldl apply_update ∅ us) s1') s1) s).
Proof.
  intros us Hkeys Hlt Hjk H1 H2 H3 H4 H5 H6.
  assert (Hlen : length us = length rounds) by apply published_length. split.
  - intros m s Hr. apply (publish_ok publisher updates sub pipe hash m rounds 0 s); try done; unfold INT64_MAX; lia.
  - intros s rest Hr Hin. eapply manager_then_client; try done; [apply published_numbered|..]; fold us; rewrite Hlen; done.
Qed.

End spec.

(** ** An instance, and a witness *)

(** Socket [n] is connected to socket [n + 1]. *)
#[local] Instance ex_znet : Zmq := {|
  zmsg := list Z;
  zsocket := nat;
  znet := gmap nat (list (list Z * bool)) * gmap nat bool;
  zmq_msg_init := [];
  zmq_msg_init_size n := replicate n 0;
  zmq_msg_data m := m;
  zmq_msg_write _ bs := bs;
  zmq_msg_copy m := m;
  zmq_msg_send o m more := fun s =>
    Ok (Z.of_nat (length m), (<[S o := default [] (s.1 !! S o) ++ [(m, more)]]> s.1, s.2));
  zmq_msg_recv i := fun s =>
    match default [] (s.1 !! i) with
    | [] => Ok (None, s)
    | (m, more) :: rest => Ok (Some m, (<[i := rest]> s.1, <[i := more]> s.2))
    end;
  zsocket_rcvmore i := fun s => Ok (if default false (s.2 !! i) then 1 else 0, s);
|}.

#[local] Program Instance ex_znet_laws : ZmqLaws := {|
  inbox s i := default [] (s.1 !! i);
  connected o i := i = S o;
|}.
Next Obligation. done. Qed.
Next Obligation. intros n. simpl. apply length_replicate. Qed.
Next Obligation. done. Qed.
Next Obligation. done. Qed.
Next Obligation. intros o i m more s ->. unfold wp. simpl. by rewrite lookup_insert_eq. Qed.
Next Obligation. intros o j m more s Hn. unfold wp. simpl in *. by rewrite lookup_insert_ne. Qed.
Next Obligation.
  intros i d more rest [ib mo] E. simpl in *. unfold wp. simpl. rewrite E. simpl. rewrite !lookup_insert_eq.
  split; [eauto|]. split; [done|]. split; [done|]. intros j Hj. by rewrite lookup_insert_ne.
Qed.

#[local] Existing Instances ex_zhash ex_zhash_laws.

#[local] Instance ex_items : ZhashItems :=
  {| zhash_items h := (fun Klb => Klb.2.1) <$> map_to_list (view h) |}.

#[local] Program Instance ex_items_laws : ZhashItemsLaws.
Next Obligation. done. Qed.

(** The keys "1", "2" and "1" again. *)
Definition ex_rounds : list (list Z * list Z) := [([49], [65]); ([50], [66]); ([49], [67])].

Definition ex_clone (net : gmap nat (list (list Z * bool))) : @kstate ex_znet := KState (Store ∅ [] []) (net, ∅).

Definition ex_table : @zhash_t ex_znet ex_zhash := ∅.

Lemma ex_reps net : reps ex_table ∅ (ex_clone net).
Proof. by split. Qed.

Definition ex_sock (n : nat) : @zsocket ex_znet := n.

(** The server publishes on socket 0 and writes to its state manager on socket 2,
    which answers on socket 4; the client's sockets are 6 and 8. *)
Lemma clone_consistent_witness :
  let us := published 0 ex_rounds in
  wp (manager_loop (ex_sock 3) (ex_sock 4) (replicate 2 FromPipe ++ [Request [7] ICANHAZ]) ex_table 0) (fun r s' =>
    reps r.1 (foldl apply_update ∅ (take 2 us)) s' /\
    exists snap, inbox (k_net s') (ex_sock 5) = routed [7] snap /\
    wp (clonecli2 (length snap - 1) 2 (ex_sock 6) (ex_sock 8) ex_table) (fun r1 s1' =>
      reps r1.1 {[ [49] := [67]; [50] := [66] ]} s1')
      (ex_clone {[6%nat := stream snap; 8%nat := stream (drop 1 us)]}))
    (ex_clone {[3%nat := stream (take 2 us)]}).
Proof.
  intros us.
  destruct (clone_consistent ex_rounds (ex_sock 0) (ex_sock 2) (ex_sock 1) (ex_sock 3) (ex_sock 4) (ex_sock 5) [7] 1 2 ex_table) as [_ Hm];
    [repeat constructor; by vm_compute|by vm_compute|simpl; lia|done|by vm_compute|done|by vm_compute|done|by vm_compute|].
  eapply wp_mono; [apply (Hm _ []); [apply ex_reps|by rewrite app_nil_r]|].
  intros r s' (Hr & snap & Hsnap & Hcl). split; [done|]. exists snap. split; [done|].
  assert (E : foldl apply_update ∅ (published 0 ex_rounds) = {[ [49] := [67]; [50] := [66] ]}) by (vm_compute; reflexivity).
  rewrite <- E. apply (Hcl (ex_sock 6) (ex_sock 8)); [by vm_compute..|apply ex_reps|done|done].
Defined.
