(* ===== verification/Czmq.v ===== *)
(** * What the sources use of czmq

    Frames, multi-frame messages, lists and hash tables of czmq are not part of
    the sources.  Their operations are the class [Czmq], the documented behaviour
    the sources rely on is the class [CzmqLaws]; the last section has a concrete
    instance of both. *)

From stdpp Require Import prelude gmap list.
From Stdlib Require Import ZArith Lia.
From S2P Require Import Prelude.

(** Bytes are integers from 0 to 255; an item of a list or of a table that is a
    pointer is an address. *)
Class Czmq := {
  zframe : Type;
  zframe_data : zframe -> list Z;                     (** with [zframe_size] *)
  zframe_streq : zframe -> list Z -> bool;
  zframe_strdup : zframe -> list Z;
  zframe_strhex : zframe -> list Z;
  zmsg : Type;
  zmsg_new : zmsg;
  zmsg_size : zmsg -> nat;
  zmsg_pop : zmsg -> option zframe * zmsg;
  zmsg_pushstr : zmsg -> list Z -> zmsg;
  zmsg_prepend : zmsg -> zframe -> zmsg;
  zmsg_wrap : zmsg -> zframe -> zmsg;
  zmsg_unwrap : zmsg -> option zframe * zmsg;
  zmsg_dup : zmsg -> zmsg;
  zmsg_first : zmsg -> option zframe;
  zmsg_last : zmsg -> option zframe;
  zmsg_reset_last : zmsg -> list Z -> zmsg;           (** [zframe_reset(zmsg_last(m), ..)] *)
  zmsg_frames : zmsg -> list (list Z);                (** what goes over the wire *)
  zlist : Type -> Type;
  zlist_new {A} : zlist A;
  zlist_append {A} : zlist A -> A -> zlist A;
  zlist_pop {A} : zlist A -> option A * zlist A;
  zlist_remove : zlist loc -> loc -> zlist loc;
  zlist_first {A} : zlist A -> option A * zlist A;    (** moves the cursor *)
  zlist_next {A} : zlist A -> option A * zlist A;
  zlist_size {A} : zlist A -> nat;
  zhash : Type -> Type;
  zhash_new {A} : zhash A;
  zhash_lookup {A} : zhash A -> list Z -> option A;
  zhash_insert {A} : zhash A -> list Z -> A -> zhash A;
  zhash_delete {A} : zhash A -> list Z -> option A * zhash A;  (** and the item to free *)
}.

(** Without the first occurrence. *)
Fixpoint remove1 (x : loc) (xs : list loc) : list loc :=
  match xs with
  | [] => []
  | y :: xs => if decide (x = y) then xs else y :: remove1 x xs
  end.

(** [zmsg_unwrap] takes the first frame, and an empty frame after it. *)
Definition unwrapped (ds : list (list Z)) : list (list Z) :=
  match ds with [] :: ds => ds | ds => ds end.

Definition pops {A B} (data : A -> B) (o : option A) (ds : list B) : Prop :=
  data <$> o = head ds.

Class CzmqLaws `{Czmq} := {
  items {A} : zlist A -> list A;
  ahead {A} : zlist A -> list A;       (** the items after the cursor *)
  entries {A} : zhash A -> gmap (list Z) A;
  streq_ok f s : zframe_streq f s = bool_decide (zframe_data f = s);
  strdup_ok f : zframe_strdup f = cstr (zframe_data f);
  strhex_ok f g : zframe_data f = zframe_data g -> zframe_strhex f = zframe_strhex g;
  strhex_inj f g : zframe_strhex f = zframe_strhex g -> zframe_data f = zframe_data g;
  frames_new : zmsg_frames zmsg_new = [];
  frames_size m : zmsg_size m = length (zmsg_frames m);
  frames_pop m : pops zframe_data (zmsg_pop m).1 (zmsg_frames m) /\
    zmsg_frames (zmsg_pop m).2 = tail (zmsg_frames m);
  frames_pushstr m s : zmsg_frames (zmsg_pushstr m s) = s :: zmsg_frames m;
  frames_prepend m f : zmsg_frames (zmsg_prepend m f) = zframe_data f :: zmsg_frames m;
  frames_wrap m f : zmsg_frames (zmsg_wrap m f) = zframe_data f :: [] :: zmsg_frames m;
  frames_unwrap m : pops zframe_data (zmsg_unwrap m).1 (zmsg_frames m) /\
    zmsg_frames (zmsg_unwrap m).2 = unwrapped (tail (zmsg_frames m));
  frames_dup m : zmsg_frames (zmsg_dup m) = zmsg_frames m;
  frames_first m : zframe_data <$> zmsg_first m = head (zmsg_frames m);
  frames_last m : zframe_data <$> zmsg_last m = last (zmsg_frames m);
  frames_reset_last m s ds d : zmsg_frames m = ds ++ [d] ->
    zmsg_frames (zmsg_reset_last m s) = ds ++ [s];
  items_new {A} : items (A := A) zlist_new = [];
  items_append {A} (l : zlist A) x : items (zlist_append l x) = items l ++ [x];
  items_pop {A} (l : zlist A) : (zlist_pop l).1 = head (items l) /\
    items (zlist_pop l).2 = tail (items l);
  items_remove l x : items (zlist_remove l x) = remove1 x (items l);
  items_first {A} (l : zlist A) : (zlist_first l).1 = head (items l) /\
    items (zlist_first l).2 = items l /\ ahead (zlist_first l).2 = tail (items l);
  items_next {A} (l : zlist A) : (zlist_next l).1 = head (ahead l) /\
    items (zlist_next l).2 = items l /\ ahead (zlist_next l).2 = tail (ahead l);
  items_size {A} (l : zlist A) : zlist_size l = length (items l);
  entries_new {A} : entries (A := A) zhash_new = ∅;
  entries_lookup {A} (h : zhash A) k : zhash_lookup h k = entries h !! k;
  entries_insert {A} (h : zhash A) k x : entries h !! k = None ->
    entries (zhash_insert h k x) = <[k := x]> (entries h);
  entries_delete {A} (h : zhash A) k : (zhash_delete h k).1 = entries h !! k /\
    entries (zhash_delete h k).2 = delete k (entries h);
}.

Section remove1.
Implicit Types (xs : list loc).

Lemma remove1_not_in x xs : x ∉ xs -> remove1 x xs = xs.
Proof.
  induction xs as [|y xs IH]; intros Hn; simpl; [done|].
  rewrite decide_False by set_solver. by rewrite IH by set_solver.
Qed.

Lemma elem_of_remove1 x y xs : NoDup xs -> y ∈ remove1 x xs <-> y ∈ xs /\ y <> x.
Proof.
  induction xs as [|z xs IH]; intros Hnd; simpl; [set_solver|].
  apply NoDup_cons in Hnd as [Hz Hnd]. case_decide as Hd; [subst; set_solver|].
  rewrite !elem_of_cons, IH by done. set_solver.
Qed.

Lemma NoDup_remove1 x xs : NoDup xs -> NoDup (remove1 x xs).
Proof.
  induction xs as [|z xs IH]; intros Hnd; simpl; [done|].
  apply NoDup_cons in Hnd as [Hz Hnd]. case_decide; [done|].
  apply NoDup_cons. split; [|by apply IH]. rewrite elem_of_remove1 by done. set_solver.
Qed.

Lemma length_remove1 x xs : x ∈ xs -> S (length (remove1 x xs)) = length xs.
Proof.
  induction xs as [|y xs IH]; intros Hin; [set_solver|]. simpl.
  case_decide; [done|]. simpl. rewrite IH by set_solver. done.
Qed.

End remove1.

(** ** How the sources use it *)

Section use.
Context `{Czmq}.

(** What [zmq_poll] and [zmsg_recv] return: an error, nothing within the
    time given, no message, a message. *)
Inductive event := PollError | Timeout | RecvNull | Received (msg : zmsg).

(** A frame that was popped and is then used: czmq stops at NULL. *)
Definition frame_arg {S} (f : option zframe) : M S zframe :=
  match f with Some f => mret f | None => throw AssertFailed end.

(** [zctx_t]: its open sockets, the number the next one gets, and what was sent
    on which.  A socket that is closed cannot be used. *)
Record zctx := Ctx {
  sockets : list nat;
  next_socket : nat;
  sent : list (nat * list (list Z));
}.

Definition zctx_new : zctx := Ctx [] 0 [].

Definition zsocket_new : M zctx nat := fun c =>
  Ok (next_socket c, Ctx (next_socket c :: sockets c) (S (next_socket c)) (sent c)).

Definition zsocket_destroy (k : nat) : M zctx unit := fun c =>
  if decide (k ∈ sockets c) then Ok (tt, Ctx (filter (fun j => j <> k) (sockets c)) (next_socket c) (sent c))
  else Err Dangling.

Definition zsocket_send (p : option nat) (msg : zmsg) : M zctx unit := fun c =>
  match p with
  | None => Err NullDeref
  | Some k =>
      if decide (k ∈ sockets c) then Ok (tt, Ctx (sockets c) (next_socket c) (sent c ++ [(k, zmsg_frames msg)]))
      else Err Dangling
  end.

(** It closes the sockets. *)
Definition zctx_destroy : M zctx unit := modify (fun c => Ctx [] (next_socket c) (sent c)).

(** [connect_to_broker] of the clients and the worker: the old socket is closed,
    if there is one, and a new one opened. *)
Definition zsocket_renew (p : option nat) : M zctx nat :=
  _ ← match p with Some k => zsocket_destroy k | None => mret tt end;
  zsocket_new.

End use.

Section use_spec.
Context `{Hcz : Czmq, Hcl : !CzmqLaws}.

Lemma pop_cons m d ds :
  zmsg_frames m = d :: ds ->
  exists f m', zmsg_pop m = (Some f, m') /\ zframe_data f = d /\ zmsg_frames m' = ds.
Proof.
  intros E. destruct (frames_pop m) as [H1 H2]. rewrite E in H1, H2. unfold pops in H1. simpl in *.
  destruct (zmsg_pop m) as [[f|] m']; simpl in *; [|done]. exists f, m'. naive_solver.
Qed.

Lemma unwrap_cons m d ds :
  zmsg_frames m = d :: ds ->
  exists f m', zmsg_unwrap m = (Some f, m') /\ zframe_data f = d /\ zmsg_frames m' = unwrapped ds.
Proof.
  intros E. destruct (frames_unwrap m) as [H1 H2]. rewrite E in H1, H2. unfold pops in H1. simpl in *.
  destruct (zmsg_unwrap m) as [[f|] m']; simpl in *; [|done]. exists f, m'. naive_solver.
Qed.

(** [k] is the one open socket, and the last one opened. *)
Record one_socket (k : nat) (c : zctx) : Prop := {
  os_open : sockets c = [k];
  os_next : next_socket c = S k;
}.

Lemma wp_renew k (Q : nat -> zctx -> Prop) c :
  one_socket k c -> Q (S k) (Ctx [S k] (S (S k)) (sent c)) -> wp (zsocket_renew (Some k)) Q c.
Proof.
  intros [Hs Hn] HQ. unfold zsocket_renew, zsocket_destroy, zsocket_new, wp, mbind, M_bind.
  rewrite decide_True by (rewrite Hs; set_solver). simpl. by rewrite Hs, Hn, filter_cons_False by auto.
Qed.

Lemma wp_zsocket_send k m (Q : unit -> zctx -> Prop) c :
  one_socket k c -> Q tt (Ctx [k] (S k) (sent c ++ [(k, zmsg_frames m)])) -> wp (zsocket_send (Some k) m) Q c.
Proof.
  intros [Hs Hn] HQ. unfold zsocket_send, wp.
  rewrite decide_True by (rewrite Hs; set_solver). by rewrite Hs, Hn.
Qed.

End use_spec.

(** ** An instance *)

(** A frame is its bytes, a message the list of its frames, a list its items and
    the items ahead of the cursor, a table a finite map. *)
Definition plain_czmq : Czmq := {|
  zframe := list Z;
  zframe_data f := f;
  zframe_streq f s := bool_decide (f = s);
  zframe_strdup f := cstr f;
  zframe_strhex f := f;
  zmsg := list (list Z);
  zmsg_new := [];
  zmsg_size m := length m;
  zmsg_pop m := (head m, tail m);
  zmsg_pushstr m s := s :: m;
  zmsg_prepend m f := f :: m;
  zmsg_wrap m f := f :: [] :: m;
  zmsg_unwrap m := (head m, unwrapped (tail m));
  zmsg_dup m := m;
  zmsg_first m := head m;
  zmsg_last m := last m;
  zmsg_reset_last m s := take (length m - 1) m ++ [s];
  zmsg_frames m := m;
  zlist A := (list A * list A)%type;
  zlist_new A := ([], []);
  zlist_append A l x := (l.1 ++ [x], l.2);
  zlist_pop A l := (head l.1, (tail l.1, []));
  zlist_remove l x := (remove1 x l.1, []);
  zlist_first A l := (head l.1, (l.1, tail l.1));
  zlist_next A l := (head l.2, (l.1, tail l.2));
  zlist_size A l := length l.1;
  zhash A := gmap (list Z) A;
  zhash_new A := ∅;
  zhash_lookup A h k := h !! k;
  zhash_insert A h k x := <[k := x]> h;
  zhash_delete A h k := (h !! k, delete k h);
|}.

#[local] Obligation Tactic := try done.

Program Definition plain_czmq_laws : @CzmqLaws plain_czmq := {|
  items A l := l.1;
  ahead A l := l.2;
  entries A h := h;
|}.
Next Obligation. intros m. simpl. unfold pops. by destruct m. Qed.
Next Obligation. intros m. simpl. unfold pops. by destruct m. Qed.
Next Obligation. intros m. simpl. by destruct (head m). Qed.
Next Obligation. intros m. simpl. by destruct (last m). Qed.
Next Obligation.
  intros m s ds d E. simpl in *. rewrite E, length_app. simpl.
  rewrite take_app_length' by lia. done.
Qed.
