(* ===== verification/SpQueue.v ===== *)
(** * The simple pirate queue: [src/lib/zeromq/reliable/spqueue.c]

    Workers announce themselves with a READY message and then answer requests; the
    queue gives each request to the worker that has waited longest.  What [zmq_poll]
    and [zmsg_recv] return are the events of a run. *)

From stdpp Require Import prelude gmap list.
From Stdlib Require Import ZArith Lia.
From S2P Require Import Prelude Czmq.

(** [WORKER_READY] *)
Definition WORKER_READY : Z := 1.

(** A message sent to the clients or to the workers. *)
Inductive entry := ToFrontend (ds : list (list Z)) | ToBackend (ds : list (list Z)).

Section queue.
Context `{Hcz : Czmq}.

Record queue := Queue { workers : zlist zframe; log : list entry }.

(** A round: [zmq_poll] fails, or reports the sockets that are ready with what
    [zmsg_recv] returns on them. *)
Inductive poll := PollError | PollReady (backend frontend : option (option zmsg)).

(** A message of a worker. *)
Definition from_worker (msg : zmsg) : M queue unit :=
  let '(identity, msg) := zmsg_unwrap msg in
  identity ← frame_arg identity;
  _ ← modify (fun s => Queue (zlist_append (workers s) identity) (log s));
  frame ← frame_arg (zmsg_first msg);
  match zframe_data frame with
  | [] => throw OutOfBounds
  | b :: _ =>
      if b =? WORKER_READY then mret tt
      else modify (fun s => Queue (workers s) (log s ++ [ToFrontend (zmsg_frames msg)]))
  end.

(** A request. *)
Definition from_client (msg : zmsg) : M queue unit :=
  s ← get;
  let '(worker, ws) := zlist_pop (workers s) in
  worker ← frame_arg worker;
  put (Queue ws (log s ++ [ToBackend (zmsg_frames (zmsg_wrap msg worker))])).

(** [false]: the loop is left.  The clients are polled only when a worker waits. *)
Definition round (p : poll) : M queue bool :=
  match p with
  | PollError => mret false
  | PollReady backend frontend =>
      s ← get;
      let frontend := if (zlist_size (workers s) =? 0)%nat then None else frontend in
      go ← match backend with
           | None => mret true
           | Some None => mret false
           | Some (Some msg) => _ ← from_worker msg; mret true
           end;
      if go : bool then
        _ ← match frontend with Some (Some msg) => from_client msg | _ => mret tt end;
        mret true
      else mret false
  end.

Fixpoint loop (ps : list poll) : M queue unit :=
  match ps with
  | [] => mret tt
  | p :: ps => go ← round p; if go : bool then loop ps else mret tt
  end.

(** After the loop *)
Fixpoint free_workers (fuel : nat) (ws : zlist zframe) : M queue (zlist zframe) :=
  if (zlist_size ws =? 0)%nat then mret ws
  else
    match fuel with
    | O => no_fuel
    | S fuel => let '(frame, ws) := zlist_pop ws in _ ← frame_arg frame; free_workers fuel ws
    end.

Definition spqueue_main (ps : list poll) : M queue unit :=
  _ ← loop ps;
  s ← get;
  ws ← free_workers (zlist_size (workers s)) (workers s);
  modify (fun s => Queue ws (log s)).

End queue.

(** ** The specification *)

Section spec.
Context `{Hcz : Czmq, Hcl : !CzmqLaws}.

(** What a worker sends: its identity, an empty frame, and READY or an answer. *)
Inductive wmsg := Announce (w : list Z) (rest : list (list Z)) | Answer (w : list Z) (b : Z) (d : list Z) (rest : list (list Z)).

Definition wframes (m : wmsg) : list (list Z) :=
  match m with
  | Announce w rest => w :: [] :: [WORKER_READY] :: rest
  | Answer w b d rest => w :: [] :: (b :: d) :: rest
  end.

Definition wok (m : wmsg) : Prop := match m with Answer _ b _ _ => b <> WORKER_READY | _ => True end.

(** The abstract queue: the waiting workers, the oldest first. *)
Definition spec_worker (m : wmsg) (st : list (list Z) * list entry) : list (list Z) * list entry :=
  match m with
  | Announce w _ => (st.1 ++ [w], st.2)
  | Answer w b d rest => (st.1 ++ [w], st.2 ++ [ToFrontend ((b :: d) :: rest)])
  end.

Definition spec_client (ds : list (list Z)) (st : list (list Z) * list entry) : list (list Z) * list entry :=
  match st.1 with
  | [] => st
  | w :: ws => (ws, st.2 ++ [ToBackend (w :: [] :: ds)])
  end.

(** A round with these messages. *)
Definition spec_round (r : option wmsg * option (list (list Z))) (st : list (list Z) * list entry)
  : list (list Z) * list entry :=
  let ready := match st.1 with [] => false | _ => true end in
  let st := match r.1 with Some m => spec_worker m st | None => st end in
  if ready : bool then match r.2 with Some ds => spec_client ds st | None => st end else st.

Definition is_msg (m : option (option zmsg)) (ds : option (list (list Z))) : Prop :=
  match m, ds with
  | None, None => True
  | Some (Some m), Some ds => zmsg_frames m = ds
  | _, _ => False
  end.

Definition is_round (p : poll) (r : option wmsg * option (list (list Z))) : Prop :=
  match p with
  | PollError => False
  | PollReady b f => is_msg b (wframes <$> r.1) /\ is_msg f r.2 /\ from_option wok True r.1
  end.

(** The queue holds the abstract one. *)
Definition holds (s : queue) (st : list (list Z) * list entry) : Prop :=
  zframe_data <$> items (workers s) = st.1 /\ log s = st.2.

Lemma from_worker_ok m w s st :
  zmsg_frames m = wframes w -> wok w -> holds s st ->
  wp (from_worker m) (fun _ s' => holds s' (spec_worker w st)) s.
Proof.
  intros Hm Hw [Hi Hl]. unfold from_worker.
  assert (Hu : exists w0 ds, wframes w = w0 :: [] :: ds /\ spec_worker w st =
    (st.1 ++ [w0], st.2 ++ match w with Announce _ _ => [] | Answer _ _ _ _ => [ToFrontend ds] end) /\
    exists b d r, ds = (b :: d) :: r /\ (b =? WORKER_READY) = match w with Announce _ _ => true | _ => false end).
  { destruct w as [w0 r|w0 b d r]; simpl.
    - exists w0, ([WORKER_READY] :: r). split; [done|]. rewrite app_nil_r. split; [done|]. by eexists _, _, _.
    - exists w0, ((b :: d) :: r). split; [done|]. split; [done|]. eexists _, _, _. split; [done|]. by apply Z.eqb_neq. }
  destruct Hu as (w0 & ds & Hds & Hspec & b & d & r & Hbd & Hb). rewrite Hds in Hm.
  destruct (unwrap_cons m _ _ Hm) as (f & m' & Eu & Hf & Hm'). rewrite Eu. wp_step. apply wp_ret. wp_step.
  eapply wp_intro; [reflexivity|]. wp_step. simpl in Hm'. pose proof (frames_first m') as Hfirst. rewrite Hm', Hbd in Hfirst.
  destruct (zmsg_first m') as [f1|]; [|done]. simpl in Hfirst. injection Hfirst as Hf1. apply wp_ret. rewrite Hf1, Hb.
  rewrite Hspec. destruct w; [apply wp_ret|eapply wp_intro; [reflexivity|]]; split; simpl; rewrite ?items_append, ?fmap_app, ?app_nil_r;
    simpl; congruence.
Qed.

Lemma from_client_ok m ds s st :
  zmsg_frames m = ds -> holds s st -> st.1 <> [] -> wp (from_client m) (fun _ s' => holds s' (spec_client ds st)) s.
Proof.
  intros Hm [Hi Hl] Hne. unfold from_client. wp_step. eapply wp_intro; [reflexivity|]. cbn beta.
  destruct (items_pop (workers s)) as [H1 H2]. destruct (zlist_pop (workers s)) as [o ws]. simpl in *.
  unfold spec_client. destruct (items (workers s)) as [|f fs]; simpl in *; [by rewrite <- Hi in Hne|]. subst o.
  wp_step. apply wp_ret. eapply wp_intro; [reflexivity|]. rewrite <- Hi. split; simpl; [by rewrite H2|].
  by rewrite frames_wrap, Hm, Hl.
Qed.

Lemma spqueue_round_ok p r s st :
  is_round p r -> holds s st -> wp (round p) (fun go s' => go = true /\ holds s' (spec_round r st)) s.
Proof.
  intros Hr Hh. destruct p as [|b f]; [done|]. destruct r as [rw rf], Hr as (Hb & Hf & Hw). simpl in Hb, Hf, Hw. unfold round. wp_step.
  eapply wp_intro; [reflexivity|]. cbn beta. wp_step.
  assert (Hsz : (zlist_size (workers s) =? 0)%nat = match st.1 with [] => true | _ => false end).
  { rewrite items_size. destruct Hh as [Hi _]. rewrite <- Hi. by destruct (items (workers s)). }
  rewrite Hsz. unfold spec_round. simpl fst. simpl snd.
  assert (Hback : wp (match b with
           | None => mret true
           | Some None => mret false
           | Some (Some msg) => _ ← from_worker msg; mret true
           end) (fun go s' => go = true /\ holds s' (match rw with Some m => spec_worker m st | None => st end)) s).
  { destruct b as [[m|]|], rw as [w|]; try done. wp_step.
    eapply wp_mono; [apply (from_worker_ok m w); [exact Hb|exact Hw|exact Hh]|]. intros u s' Hs'. by apply wp_ret. }
  eapply wp_mono; [exact Hback|]. intros go s1 [-> Hs1]. cbv iota. wp_step.
  set (st1 := match rw with Some m => spec_worker m st | None => st end) in *.
  assert (Hne : st.1 <> [] -> st1.1 <> []).
  { intros H. unfold st1. destruct rw as [[|]|]; simpl; [by destruct (st.1)..|done]. }
  destruct (st.1) as [|w0 ws0] eqn:Est; [by do 2 apply wp_ret|].
  destruct f as [[m|]|], rf as [ds|]; try done.
  eapply wp_mono; [apply (from_client_ok m ds); [done|done|by apply Hne]|]. intros u s2 Hs2. by apply wp_ret.
Qed.

Lemma spqueue_loop_ok ps : forall rs s st,
  Forall2 is_round ps rs -> holds s st -> wp (loop ps) (fun _ s' => holds s' (foldl (fun st r => spec_round r st) st rs)) s.
Proof.
  induction ps as [|p ps IH]; intros rs s st Hall Hh.
  - apply Forall2_nil_inv_l in Hall as ->. by apply wp_ret.
  - apply Forall2_cons_inv_l in Hall as (r & rs' & Hr & Hall & ->). simpl. wp_step.
    eapply wp_mono; [by apply spqueue_round_ok|]. intros go s' [-> Hs']. cbv iota. by apply IH.
Qed.

Lemma free_ok fuel : forall ws (s : queue), (length (items ws) <= fuel)%nat ->
  wp (free_workers fuel ws) (fun ws' s' => items ws' = [] /\ s' = s) s.
Proof.
  induction fuel as [|fuel IH]; intros ws s Hl; cbn [free_workers]; rewrite items_size.
  - destruct (items ws) eqn:E; [by apply wp_ret|simpl in Hl; lia].
  - destruct (items_pop ws) as [H1 H2]. destruct (zlist_pop ws) as [o ws']. simpl in H1, H2.
    destruct (items ws) as [|f fs] eqn:E; [by apply wp_ret|]. simpl in *. subst o. wp_step. apply wp_ret.
    apply IH. rewrite H2. lia.
Qed.

(** ** Each worker gets a request for each message it has sent *)

Definition count {A} `{EqDecision A} (x : A) (l : list A) : nat := length (filter (fun y => y = x) l).

Definition sender (r : option wmsg * option (list (list Z))) : option (list Z) :=
  match r.1 with Some (Announce w _) | Some (Answer w _ _ _) => Some w | None => None end.

Definition receiver (e : entry) : option (list Z) :=
  match e with ToBackend (w :: _) => Some w | _ => None end.

Lemma count_app {A} `{EqDecision A} (x : A) l l' : count x (l ++ l') = (count x l + count x l')%nat.
Proof. unfold count. by rewrite filter_app, length_app. Qed.

Lemma count_cons {A} `{EqDecision A} (x y : A) l : count x (y :: l) = ((if decide (y = x) then 1 else 0) + count x l)%nat.
Proof. unfold count. rewrite filter_cons. by destruct (decide (y = x)). Qed.

(** Requests given, and turns to come. *)
Definition account (w : list Z) (st : list (list Z) * list entry) : nat :=
  (count (Some w) (receiver <$> st.2) + count w st.1)%nat.

Lemma account_worker w m st :
  account w (spec_worker m st) = (account w st + if decide (sender (Some m, None) = Some w) then 1 else 0)%nat.
Proof.
  unfold account. destruct m as [w0 r|w0 b d r]; cbn [spec_worker fst snd];
    rewrite ?fmap_app, !count_app, ?fmap_cons, ?count_cons; unfold sender; cbn [fst receiver];
    repeat case_decide; simplify_eq; unfold count; simpl; lia.
Qed.

Lemma account_client w ds st : account w (spec_client ds st) = account w st.
Proof.
  unfold account, spec_client. destruct st as [[|w0 ws] l]; simpl; [done|]. rewrite fmap_app, count_app. simpl.
  rewrite !count_cons. repeat case_decide; simplify_eq; unfold count; simpl; lia.
Qed.

Lemma account_round w r st :
  account w (spec_round r st) = (account w st + if decide (sender r = Some w) then 1 else 0)%nat.
Proof.
  unfold spec_round. destruct r as [[m|] f]; cbn [fst snd].
  - pose proof (account_worker w m st) as H. assert (E : sender (Some m, f) = sender (Some m, None)) by done. rewrite E.
    destruct (st.1); [done|]. destruct f; [by rewrite account_client|done].
  - rewrite decide_False by done. rewrite Nat.add_0_r. destruct (st.1); [done|]. destruct f; [by rewrite account_client|done].
Qed.

Lemma account_rounds w rs : forall st,
  account w (foldl (fun st r => spec_round r st) st rs) = (account w st + count (Some w) (sender <$> rs))%nat.
Proof.
  induction rs as [|r rs IH]; intros st; [unfold count; simpl; lia|]. rewrite fmap_cons, count_cons. simpl.
  rewrite IH, account_round. lia.
Qed.

(** C13: with workers that keep to their protocol the queue never faults, and gives
    each request to the worker that has waited longest, passing the answers on.  No
    worker has more than one request at a time: it has been given one for each of
    its messages, but for those it is still waiting for.  All its frames are freed at
    the end. *)
Theorem spqueue_lru ps rs :
  Forall2 is_round ps rs ->
  wp (spqueue_main ps) (fun _ s =>
    let st := foldl (fun st r => spec_round r st) ([], []) rs in
    log s = st.2 /\ items (workers s) = [] /\
    forall w, (count (Some w) (receiver <$> log s) + count w st.1 = count (Some w) (sender <$> rs))%nat) (Queue zlist_new []).
Proof.
  intros Hall. unfold spqueue_main. wp_step. eapply wp_mono.
  { apply (spqueue_loop_ok ps rs _ ([], [])); [done|]. split; simpl; [by rewrite items_new|done]. }
  intros u s [Hi Hl]. wp_step. eapply wp_intro; [reflexivity|]. cbn beta. wp_step.
  eapply wp_mono; [apply free_ok; by rewrite items_size|]. intros ws s' [Hws ->]. eapply wp_intro; [reflexivity|]. simpl.
  split; [done|]. split; [done|]. intros w. rewrite Hl. pose proof (account_rounds w rs ([], [])) as H. unfold account in H. simpl in H.
  exact H.
Qed.

End spec.

(** A worker announces itself, a client asks, the worker answers. *)
Definition ex_rounds : list (option wmsg * option (list (list Z))) :=
  [(Some (Announce [7] []), None); (None, Some [[9]; []; [1; 2]]); (Some (Answer [7] 9 [] [[]; [3; 4]]), None)].

Definition ex_polls : list (@poll plain_czmq) :=
  [PollReady (Some (Some ([[7]; []; [1]] : @zmsg plain_czmq))) None;
   PollReady None (Some (Some ([[9]; []; [1; 2]] : @zmsg plain_czmq)));
   PollReady (Some (Some ([[7]; []; [9]; []; [3; 4]] : @zmsg plain_czmq))) None].

Lemma spqueue_lru_witness :
  wp (spqueue_main ex_polls) (fun _ s => log s = [ToBackend [[7]; []; [9]; []; [1; 2]]; ToFrontend [[9]; []; [3; 4]]])
    (Queue (@zlist_new plain_czmq _) []).
Proof.
  eapply wp_mono.
  - apply (@spqueue_lru plain_czmq plain_czmq_laws ex_polls ex_rounds).
    repeat (apply Forall2_cons; split); try apply Forall2_nil; done.
  - intros u s [E _]. rewrite E. reflexivity.
Defined.

(** An answer for a client whose identity begins with the byte 1 is taken for READY
    and lost. *)
Lemma answer_lost :
  exists s, @loop plain_czmq [PollReady (Some (Some ([[7]; []; [1; 5]; []; [3; 4]] : @zmsg plain_czmq))) None]
    (Queue (@zlist_new plain_czmq _) []) = Ok (tt, s) /\ log s = [].
Proof. by eexists. Qed.
