(* ===== verification/SpWorker.v ===== *)
(** * The simple pirate worker: [src/lib/zeromq/reliable/spworker.c]

    The worker of the queue in SpQueue.v announces itself with READY and then sends every
    request back; now and then it pretends to crash or to be overloaded.  A round is an
    event: what [zmsg_recv] returns, what the two calls of [randof] return, and
    [zctx_interrupted] after the sleep. *)

From stdpp Require Import prelude list.
From Stdlib Require Import ZArith Lia.
From S2P Require Import Prelude Czmq Text SpQueue.

Section worker.
Context `{Hcz : Czmq}.

Inductive wround := WNull | WMsg (msg : zmsg) (rand1 rand2 : Z) (interrupted : bool).

(** [cycles] and what was sent. *)
Record wstate := WState { cycles : Z; wire : list (list (list Z)) }.

(** [sprintf] of two numbers into [char identity[10]] *)
Definition worker_identity (rand1 rand2 : Z) : outcome (list Z) :=
  let identity := fmt_X 4 rand1 ++ [MINUS] ++ fmt_X 4 rand2 in
  if (length identity <? 10)%nat then Ok identity else Err OutOfBounds.

(** [false]: the loop is left. *)
Definition worker_round (r : wround) : M wstate bool :=
  match r with
  | WNull => mret false
  | WMsg msg rand1 rand2 interrupted =>
      s ← get;
      c ← int_of (cycles s + 1);
      _ ← put (WState c (wire s));
      if (3 <? c) && (rand1 =? 0) then mret false
      else if (3 <? c) && (rand2 =? 0) && interrupted then mret false
      else _ ← modify (fun s => WState (cycles s) (wire s ++ [zmsg_frames msg])); mret true
  end.

Fixpoint worker_loop (rs : list wround) : M wstate unit :=
  match rs with
  | [] => mret tt
  | r :: rs => go ← worker_round r; if go : bool then worker_loop rs else mret tt
  end.

Definition spworker_main (rs : list wround) : M wstate unit :=
  _ ← modify (fun s => WState 0 (wire s ++ [[[WORKER_READY]]]));
  worker_loop rs.

(** Whether a round, the [c]th from 0, ends the worker. *)
Definition ends (c : nat) (r : wround) : bool :=
  match r with
  | WNull => true
  | WMsg _ r1 r2 i => bool_decide (3 <= c)%nat && ((r1 =? 0) || ((r2 =? 0) && i))
  end.

(** The requests it answers. *)
Fixpoint answered (c : nat) (rs : list wround) : list (list (list Z)) :=
  match rs with
  | (WMsg m _ _ _ as r) :: rs => if ends c r then [] else zmsg_frames m :: answered (S c) rs
  | _ => []
  end.

Lemma worker_loop_ok rs : forall c s,
  cycles s = Z.of_nat c -> Z.of_nat (c + length rs) <= INT_MAX ->
  wp (worker_loop rs) (fun _ s' => wire s' = wire s ++ answered c rs) s.
Proof.
  induction rs as [|r rs IH]; intros c s Hc Hn; simpl in Hn; cbn [worker_loop answered]; [apply wp_ret; by rewrite app_nil_r|].
  wp_step. destruct r as [|m r1 r2 i]; cbn [worker_round ends]; [do 2 apply wp_ret; by rewrite app_nil_r|].
  wp_step. eapply wp_intro; [reflexivity|]. wp_step. rewrite Hc. apply wp_int_of; [unfold INT_MIN; lia|]. wp_step.
  eapply wp_intro; [reflexivity|]. assert (H3 : (3 <? Z.of_nat c + 1) = bool_decide (3 <= c)%nat) by (case_bool_decide; lia). rewrite H3.
  destruct (bool_decide (3 <= c)%nat), (r1 =? 0); simpl; try (do 2 apply wp_ret; by rewrite app_nil_r).
  all: try (destruct (r2 =? 0), i; simpl; try (do 2 apply wp_ret; by rewrite app_nil_r)).
  all: wp_step; (eapply wp_intro; [reflexivity|]); apply wp_ret; cbv iota.
  all: eapply wp_mono; [apply (IH (S c)); simpl; [lia|lia]|]; simpl; intros u s' ->; by rewrite <- app_assoc.
Qed.

(** The worker sends READY and then each request as its answer, in order, until it ends. *)
Lemma spworker_ok rs :
  Z.of_nat (length rs) <= INT_MAX ->
  wp (spworker_main rs) (fun _ s => wire s = [[WORKER_READY]] :: answered 0 rs) (WState 0 []).
Proof.
  intros Hn. unfold spworker_main. wp_step. eapply wp_intro; [reflexivity|].
  eapply wp_mono; [apply (worker_loop_ok rs 0); [done|simpl; lia]|]. simpl. intros u s ->. done.
Qed.

(** What the queue receives: its socket puts the identity and an empty frame first. *)
Definition at_queue (identity : list Z) (m : list (list Z)) : list (list Z) := identity :: [] :: m.

(** A request begins with the identity of a client, which is not empty and does not begin
    with the byte of READY. *)
Definition has_client (r : wround) : Prop :=
  match r with
  | WMsg m _ _ _ => exists b d rest, zmsg_frames m = (b :: d) :: rest /\ b <> WORKER_READY
  | WNull => True
  end.

(** With such requests the worker keeps to the protocol the queue relies on. *)
Lemma spworker_obeys identity rs :
  Z.of_nat (length rs) <= INT_MAX -> Forall has_client rs ->
  wp (spworker_main rs) (fun _ s => Forall (fun m => exists x, wok x /\ at_queue identity m = wframes x) (wire s)) (WState 0 []).
Proof.
  intros Hn HF. eapply wp_mono; [by apply spworker_ok|]. intros u s ->. constructor; [by exists (Announce identity [])|].
  clear Hn. generalize 0%nat. induction HF as [|r rs Hr HF IH]; intros c; cbn [answered]; [apply Forall_nil_2|].
  destruct r as [|m r1 r2 i]; [apply Forall_nil_2|]. destruct (ends _ _); [apply Forall_nil_2|]. constructor; [|apply IH]. destruct Hr as (b & d & rest & -> & Hb). exists (Answer identity b d rest). by split.
Qed.

End worker.

(** The identity takes nine characters when the numbers are below 0x10000. *)
Lemma worker_identity_ok r1 r2 : 0 <= r1 < 65536 -> 0 <= r2 < 65536 -> exists id, worker_identity r1 r2 = Ok id /\ length id = 9%nat.
Proof.
  intros H1 H2. assert (Hl : forall r, 0 <= r < 65536 -> length (fmt_X 4 r) = 4%nat)
    by (intros r Hr; apply length_fmt_X; [change (16 ^ Z.of_nat 4) with 65536; lia|lia]).
  unfold worker_identity. rewrite !length_app, (Hl r1), (Hl r2) by done. simpl.
  eexists. split; [reflexivity|]. by rewrite length_app, (Hl r1), length_cons, (Hl r2).
Qed.
