(* ===== verification/PpQueue.v ===== *)
(** * The paranoid pirate queue: [src/lib/zeromq/reliable/ppqueue.c]

    Workers announce themselves, answer requests and send heartbeats; the queue keeps
    those it has heard from, gives each request to the one that has waited longest,
    sends heartbeats itself and forgets a worker that is silent for too long.  What
    [zmq_poll] and [zmsg_recv] return are the events of a run, the clock is a
    parameter, the [worker_t] objects live in a heap.

    The file does not compile and is read with two slips corrected: [zlist_size(worker)]
    is the size of [workers] and [zmq_poll] has the timeout [HEARTBEAT_INTERVAL] (line
    94).  Line 29 assigns [self_p] to [self] where [*self_p] is meant: a parameter,
    [meant], says which of the two the program has.  As it is written every run in which
    a worker is heard from faults; as it is meant the queue implements its
    specification. *)

From stdpp Require Import prelude gmap list.
From Stdlib Require Import ZArith Lia Sorting.Sorted.
From S2P Require Import Prelude Czmq.

Definition HEARTBEAT_LIVENESS : Z := 3.
Definition HEARTBEAT_INTERVAL : Z := 1000.
Definition PPP_READY : Z := 1.
Definition PPP_HEARTBEAT : Z := 2.

(** A message sent to the clients or to the workers. *)
Inductive entry := ToFrontend (ds : list (list Z)) | ToBackend (ds : list (list Z)).

(** [int64_t], whose overflow is undefined, and [uint64_t]. *)
Definition int64_of {S} (z : Z) : M S Z :=
  if (- 2 ^ 63 <=? z) && (z <? 2 ^ 63) then mret z else throw SignedOverflow.
Definition uint64 (z : Z) : Z := z mod 2 ^ 64.

Section queue.
Context `{Hcz : Czmq}.
(** Whether line 29 reads [self = *self_p]. *)
Context (meant : bool).
Context (clock : nat -> Z).

Record worker_t := MkWorker { identity : option zframe; id_string : list Z; expiry : Z }.

(** The list of [main], the heap, what was sent, [heartbeat_at], and how often the
    clock was read. *)
Record queue := Queue {
  workers : zlist loc;
  heap : gmap loc worker_t;
  log : list entry;
  heartbeat_at : Z;
  ticks : nat;
}.

Definition set_workers v s := Queue v (heap s) (log s) (heartbeat_at s) (ticks s).
Definition set_heap v s := Queue (workers s) v (log s) (heartbeat_at s) (ticks s).
Definition set_log v s := Queue (workers s) (heap s) v (heartbeat_at s) (ticks s).
Definition set_heartbeat v s := Queue (workers s) (heap s) (log s) v (ticks s).

Definition zclock_time : M queue Z := fun s =>
  Ok (clock (ticks s), Queue (workers s) (heap s) (log s) (heartbeat_at s) (S (ticks s))).

Definition load_w (l : loc) : M queue worker_t := fun s =>
  match heap s !! l with Some w => Ok (w, s) | None => Err Dangling end.

(** Sending a message without frames sends nothing. *)
Definition zmsg_send (to : list (list Z) -> entry) (ds : list (list Z)) : M queue unit :=
  match ds with [] => mret tt | _ => modify (fun s => set_log (log s ++ [to ds]) s) end.

Definition s_worker_new (identity : option zframe) : M queue loc :=
  identity ← frame_arg identity;
  now ← zclock_time;
  expiry ← int64_of (now + HEARTBEAT_INTERVAL * HEARTBEAT_LIVENESS);
  s ← get;
  let l := fresh (dom (heap s)) in
  _ ← put (set_heap (<[l := MkWorker (Some identity) (zframe_strhex identity) expiry]> (heap s)) s);
  mret l.

(** [worker_t *self = self_p] makes [self] point to the caller's variable [worker], a
    pointer, which is then read as a [worker_t]: past its end, and with the
    [worker_t] itself for a frame. *)
Definition s_worker_destroy (self : loc) : M queue unit :=
  if meant then
    _ ← load_w self;
    modify (fun s => set_heap (delete self (heap s)) s)
  else throw OutOfBounds.

(** [zlist_first] and [zlist_next] move the cursor of the list. *)
Definition first_worker : M queue (option loc) := fun s =>
  let '(w, ws) := zlist_first (workers s) in Ok (w, set_workers ws s).
Definition next_worker : M queue (option loc) := fun s =>
  let '(w, ws) := zlist_next (workers s) in Ok (w, set_workers ws s).

Fixpoint ready_loop (fuel : nat) (self : worker_t) (worker : option loc) : M queue unit :=
  match worker, fuel with
  | None, _ => mret tt
  | Some _, O => no_fuel
  | Some worker, S fuel =>
      w ← load_w worker;
      if bool_decide (id_string self = id_string w) then
        _ ← modify (fun s => set_workers (zlist_remove (workers s) worker) s);
        s_worker_destroy worker
      else
        next ← next_worker;
        ready_loop fuel self next
  end.

Definition s_worker_ready (self : loc) : M queue unit :=
  s ← get;
  worker ← first_worker;
  w ← load_w self;
  _ ← ready_loop (zlist_size (workers s)) w worker;
  modify (fun s => set_workers (zlist_append (workers s) self) s).

Definition s_workers_next : M queue (option zframe) :=
  s ← get;
  let '(worker, ws) := zlist_pop (workers s) in
  _ ← put (set_workers ws s);
  match worker with
  | None => throw AssertFailed
  | Some worker =>
      w ← load_w worker;
      let frame := identity w in
      _ ← modify (fun s => set_heap (<[worker := MkWorker None (id_string w) (expiry w)]> (heap s)) s);
      _ ← s_worker_destroy worker;
      mret frame
  end.

Fixpoint purge_loop (fuel : nat) (worker : option loc) : M queue unit :=
  match worker, fuel with
  | None, _ => mret tt
  | Some _, O => no_fuel
  | Some worker, S fuel =>
      now ← zclock_time;
      w ← load_w worker;
      if now <? expiry w then mret tt
      else
        _ ← modify (fun s => set_workers (zlist_remove (workers s) worker) s);
        _ ← s_worker_destroy worker;
        worker ← first_worker;
        purge_loop fuel worker
  end.

Definition s_workers_purge : M queue unit :=
  s ← get;
  worker ← first_worker;
  purge_loop (zlist_size (workers s)) worker.

(** ** [main] *)

(** A round: [zmq_poll] fails, or reports the sockets that are ready with what
    [zmsg_recv] returns on them. *)
Inductive poll := PollError | PollReady (backend frontend : option (option zmsg)).

(** A message of a worker.  A single frame that is neither READY nor a heartbeat is
    printed and dropped like them. *)
Definition from_worker (msg : zmsg) : M queue unit :=
  let '(identity, msg) := zmsg_unwrap msg in
  worker ← s_worker_new identity;
  _ ← s_worker_ready worker;
  if (zmsg_size msg =? 1)%nat then
    frame ← frame_arg (zmsg_first msg);
    match zframe_data frame with [] => throw OutOfBounds | _ => mret tt end
  else zmsg_send ToFrontend (zmsg_frames msg).

(** A request. *)
Definition from_client (msg : zmsg) : M queue unit :=
  identity ← s_workers_next;
  identity ← frame_arg identity;
  zmsg_send ToBackend (zmsg_frames (zmsg_prepend msg identity)).

Fixpoint heartbeat_loop (fuel : nat) (worker : option loc) : M queue unit :=
  match worker, fuel with
  | None, _ => mret tt
  | Some _, O => no_fuel
  | Some worker, S fuel =>
      w ← load_w worker;
      identity ← frame_arg (identity w);
      _ ← zmsg_send ToBackend [zframe_data identity; [PPP_HEARTBEAT]];
      next ← next_worker;
      heartbeat_loop fuel next
  end.

Definition heartbeats : M queue unit :=
  now ← zclock_time;
  s ← get;
  if heartbeat_at s <=? uint64 now then
    worker ← first_worker;
    _ ← heartbeat_loop (zlist_size (workers s)) worker;
    now ← zclock_time;
    at_ ← int64_of (now + HEARTBEAT_INTERVAL);
    modify (set_heartbeat (uint64 at_))
  else mret tt.

(** [false]: the loop is left.  The clients are polled only when a worker waits. *)
Definition round (p : poll) : M queue bool :=
  match p with
  | PollError => mret false
  | PollReady backend frontend =>
      s ← get;
      let frontend := if (zlist_size (workers s) =? 0)%nat then None else frontend in
      go ← match backend with
           | None => mret true
           | Some None => mret false
           | Some (Some msg) => _ ← from_worker msg; mret true
           end;
      if negb go then mret false
      else
        go ← match frontend with
             | None => mret true
             | Some None => mret false
             | Some (Some msg) => _ ← from_client msg; mret true
             end;
        if negb go then mret false
        else _ ← heartbeats; _ ← s_workers_purge; mret true
  end.

Fixpoint loop (ps : list poll) : M queue unit :=
  match ps with
  | [] => mret tt
  | p :: ps => go ← round p; if go : bool then loop ps else mret tt
  end.

(** After the loop *)
Fixpoint free_workers (fuel : nat) : M queue unit :=
  s ← get;
  if (zlist_size (workers s) =? 0)%nat then mret tt
  else
    match fuel with
    | O => no_fuel
    | S fuel =>
        let '(worker, ws) := zlist_pop (workers s) in
        _ ← put (set_workers ws s);
        _ ← match worker with Some worker => s_worker_destroy worker | None => mret tt end;
        free_workers fuel
    end.

Definition queue_init : M queue unit :=
  now ← zclock_time;
  at_ ← int64_of (now + HEARTBEAT_INTERVAL);
  modify (set_heartbeat (uint64 at_)).

Definition ppqueue_main (ps : list poll) : M queue unit :=
  _ ← queue_init;
  _ ← loop ps;
  s ← get;
  free_workers (zlist_size (workers s)).

End queue.

(** ** The specification *)

(** A waiting worker and the time at which it is forgotten; when each worker that has
    not been given a request since was last heard from; what was sent; when the next
    heartbeats are due; the readings of the clock. *)
Record aqueue := AQueue {
  waiting : list (list Z * Z);
  heard : gmap (list Z) Z;
  alog : list entry;
  abeat : Z;
  atick : nat;
}.

Definition EXPIRY : Z := HEARTBEAT_INTERVAL * HEARTBEAT_LIVENESS.

Section abstract.
Context (clock : nat -> Z).
Implicit Types (a : aqueue) (q : list (list Z * Z)) (w : list Z).

(** A worker that is heard from goes to the end. *)
Definition a_ready w a : aqueue :=
  AQueue (filter (fun x => x.1 <> w) (waiting a) ++ [(w, clock (atick a) + EXPIRY)])
    (<[w := clock (atick a)]> (heard a)) (alog a) (abeat a) (S (atick a)).

Definition a_send (es : list entry) a : aqueue :=
  AQueue (waiting a) (heard a) (alog a ++ es) (abeat a) (atick a).

Definition a_worker (m : list Z * list (list Z)) a : aqueue :=
  a_send match unwrapped m.2 with [] | [_] => [] | ds => [ToFrontend ds] end (a_ready m.1 a).

(** A request goes to the first. *)
Definition a_client (ds : list (list Z)) a : aqueue :=
  match waiting a with
  | [] => a
  | (w, _) :: q => AQueue q (delete w (heard a)) (alog a ++ [ToBackend (w :: ds)]) (abeat a) (atick a)
  end.

Definition a_beats a : aqueue :=
  if abeat a <=? clock (atick a) then
    AQueue (waiting a) (heard a) (alog a ++ ((fun x => ToBackend [x.1; [PPP_HEARTBEAT]]) <$> waiting a))
      (clock (S (atick a)) + HEARTBEAT_INTERVAL) (S (S (atick a)))
  else AQueue (waiting a) (heard a) (alog a) (abeat a) (S (atick a)).

(** The first workers whose time is over. *)
Fixpoint purged (t : nat) q : list (list Z * Z) * nat :=
  match q with
  | [] => ([], t)
  | (w, e) :: q' => if clock t <? e then (q, S t) else purged (S t) q'
  end.

Definition a_purge a : aqueue :=
  let '(q, t) := purged (atick a) (waiting a) in AQueue q (heard a) (alog a) (abeat a) t.

(** What a round brings from the workers and from the clients. *)
Definition arrival : Type := option (list Z * list (list Z)) * option (list (list Z)).

Definition a_round a (r : arrival) : aqueue :=
  let a1 := match r.1 with Some m => a_worker m a | None => a end in
  let a2 := match waiting a, r.2 with _ :: _, Some ds => a_client ds a1 | _, _ => a1 end in
  a_purge (a_beats a2).

Definition a_init : aqueue := AQueue [] ∅ [] (clock 0%nat + HEARTBEAT_INTERVAL) 1.

(** ** What it means *)

(** The clock does not go back, and its readings leave room in an [int64_t]. *)
Record good_clock : Prop := {
  gc_mono n : clock n <= clock (S n);
  gc_range n : 0 <= clock n < 2 ^ 62;
}.

Lemma clock_le n m : good_clock -> (n <= m)%nat -> clock n <= clock m.
Proof.
  intros Hc. induction 1 as [|m Hm IH]; [lia|]. pose proof (gc_mono Hc m). lia.
Qed.

(** No worker twice, the times in order, each three intervals after the worker was
    heard from; one that was heard from and does not wait has run out of time. *)
Record agood a : Prop := {
  ag_names : NoDup (waiting a).*1;
  ag_sorted : StronglySorted Z.le (waiting a).*2;
  ag_range x : x ∈ waiting a -> x.2 <= clock (atick a) + EXPIRY;
  ag_heard w e : (w, e) ∈ waiting a -> heard a !! w = Some (e - EXPIRY);
  ag_gone w t : heard a !! w = Some t -> (w, t + EXPIRY) ∈ waiting a \/ t + EXPIRY <= clock (pred (atick a));
  ag_tick : (0 < atick a)%nat;
}.

(** The waiting workers are those heard from, since they were last given a request,
    within the last three intervals. *)
Definition alive a : Prop :=
  forall w e, (w, e) ∈ waiting a <-> heard a !! w = Some (e - EXPIRY) /\ clock (pred (atick a)) < e.

Context (Hc : good_clock).

(** Only the readings of the clock have moved on. *)
Lemma agood_later a a' :
  agood a -> waiting a' = waiting a -> heard a' = heard a -> (atick a <= atick a')%nat -> agood a'.
Proof.
  intros [Hn Hs Hr Hh Hg Ht] Ew Eh Et. split; rewrite ?Ew, ?Eh; try done; [| |lia].
  - intros x Hx%Hr. pose proof (clock_le (atick a) (atick a') Hc Et). lia.
  - intros w t [Hx|Hx]%Hg; [by left|]. right. pose proof (clock_le (pred (atick a)) (pred (atick a')) Hc ltac:(lia)). lia.
Qed.

Lemma sorted_filter (P : list Z * Z -> Prop) `{!forall x, Decision (P x)} q :
  StronglySorted Z.le q.*2 -> StronglySorted Z.le (filter P q).*2.
Proof.
  induction q as [|x q IH]; intros Hs; [done|]. rewrite fmap_cons in Hs. apply StronglySorted_inv in Hs as [Hs Hx].
  rewrite filter_cons. destruct (decide (P x)); [|by apply IH]. rewrite fmap_cons. constructor; [by apply IH|].
  rewrite Forall_fmap in Hx |- *. apply Forall_forall. intros y [_ Hy]%list_elem_of_filter. by eapply Forall_forall in Hx.
Qed.

Lemma sorted_snoc (l : list Z) x : StronglySorted Z.le l -> (forall y, y ∈ l -> y <= x) -> StronglySorted Z.le (l ++ [x]).
Proof.
  induction 1 as [|y l Hs IH Hy]; intros Hx; simpl; [by repeat constructor|]. constructor.
  - apply IH. intros z Hz. apply Hx. by right.
  - apply Forall_app. split; [done|]. constructor; [|done]. apply Hx. by left.
Qed.

Lemma a_ready_good w a : agood a -> agood (a_ready w a).
Proof.
  intros [Hn Hs Hr Hh Hg Ht]. unfold a_ready. split; cbn [waiting heard atick]; [..|lia].
  - rewrite fmap_app. apply NoDup_app. split; [|split].
    + eapply sublist_NoDup; [exact Hn|]. apply fmap_sublist, sublist_filter.
    + intros x ([x' e] & -> & [Hx _]%list_elem_of_filter)%list_elem_of_fmap. simpl in *. set_solver.
    + apply NoDup_singleton.
  - rewrite fmap_app. apply sorted_snoc; [by apply sorted_filter|].
    intros y ([w' e] & -> & [_ Hx]%list_elem_of_filter)%list_elem_of_fmap. by apply Hr in Hx.
  - intros x [[_ Hx]%list_elem_of_filter | ->%list_elem_of_singleton]%elem_of_app; pose proof (gc_mono Hc (atick a)).
    + apply Hr in Hx. lia.
    + simpl. lia.
  - intros w' e [[Hne Hx]%list_elem_of_filter | Hx%list_elem_of_singleton]%elem_of_app.
    + simpl in Hne. rewrite lookup_insert_ne by done. by apply Hh.
    + simplify_eq. rewrite lookup_insert_eq. f_equal. lia.
  - intros w' t. destruct (decide (w' = w)) as [->|Hne].
    + rewrite lookup_insert_eq. intros [= <-]. left. apply elem_of_app. right. by left.
    + rewrite lookup_insert_ne by done. intros [Hx|Hx]%Hg; [left|right].
      * apply elem_of_app. left. by apply list_elem_of_filter.
      * pose proof (clock_le (pred (atick a)) (pred (S (atick a))) Hc ltac:(lia)). lia.
Qed.

Lemma a_worker_good m a : agood a -> agood (a_worker m a).
Proof. intros Ha. by eapply agood_later; [apply (a_ready_good m.1 a)| | |]. Qed.

Lemma a_client_good ds a : agood a -> agood (a_client ds a).
Proof.
  intros Ha. unfold a_client. destruct (waiting a) as [|[w e] q] eqn:E; [done|].
  destruct Ha as [Hn Hs Hr Hh Hg Ht]. rewrite E in *.
  cbn [fmap list_fmap fst snd] in Hn, Hs. apply NoDup_cons in Hn as [Hw Hn]. apply StronglySorted_inv in Hs as [Hs _].
  assert (Hne : forall w' e', (w', e') ∈ q -> w' <> w) by (intros w' e' Hx ->; apply Hw; by apply (list_elem_of_fmap_2 fst) in Hx).
  split; cbn [waiting heard atick]; try done.
  - intros x Hx. apply Hr. by right.
  - intros w' e' Hx. rewrite lookup_delete_ne by (intros <-; by eapply Hne). apply Hh. by right.
  - intros w' t [Hw' Hx]%lookup_delete_Some. apply Hg in Hx as [[Hx|Hx]%elem_of_cons|Hx]; [congruence|by left|by right].
Qed.

Lemma a_beats_good a : agood a -> agood (a_beats a).
Proof. intros Ha. unfold a_beats. case_match; (eapply agood_later; [exact Ha|done|done|simpl; lia]). Qed.

(** [purged] drops the workers whose time is over, and no other, although it stops at
    the first whose time is not. *)
Lemma purged_ok q : forall t, StronglySorted Z.le q.*2 ->
  exists old, (q = old ++ (purged t q).1) /\ (t <= (purged t q).2)%nat /\
    (forall x, x ∈ old -> x.2 <= clock (pred (purged t q).2)) /\
    (forall x, x ∈ (purged t q).1 -> clock (pred (purged t q).2) < x.2).
Proof.
  induction q as [|[w e] q IH]; intros t Hs; simpl.
  - exists []. split; [done|]. split; [lia|]. by split; intros x Hx%elem_of_nil.
  - rewrite fmap_cons in Hs. apply StronglySorted_inv in Hs as [Hs He]. destruct (Z.ltb_spec (clock t) e) as [Hlt|Hge]; simpl.
    + exists []. split; [done|]. split; [lia|]. split; [by intros x Hx%elem_of_nil|].
      intros x [->|Hx]%elem_of_cons; [done|]. simpl in He. rewrite Forall_fmap in He. eapply Forall_forall in He; [|done]. simpl in He. lia.
    + destruct (IH (S t) Hs) as (old & Eq & Ht & Ho & Hn). exists ((w, e) :: old). simpl. split; [by rewrite <- Eq|].
      split; [lia|]. split; [|done]. intros x [->|Hx]%elem_of_cons; [|by apply Ho]. simpl.
      pose proof (clock_le t (pred (purged (S t) q).2) Hc ltac:(lia)). lia.
Qed.

Lemma a_purge_good a : agood a -> agood (a_purge a) /\ alive (a_purge a).
Proof.
  intros [Hn Hs Hr Hh Hg Ht]. destruct (purged_ok (waiting a) (atick a) Hs) as (old & Eq & Hle & Ho & Hy).
  unfold a_purge. destruct (purged (atick a) (waiting a)) as [q t]. simpl in Eq, Hle, Ho, Hy.
  assert (Hgood : agood (AQueue q (heard a) (alog a) (abeat a) t)).
  { rewrite Eq, fmap_app in Hn. rewrite Eq, fmap_app in Hs. apply NoDup_app in Hn as (_ & _ & Hn). split; cbn [waiting heard atick]; [done|..|lia].
    - clear -Hs. induction old as [|x old IH]; [done|]. simpl in Hs. apply StronglySorted_inv in Hs as [Hs _]. by apply IH.
    - intros x Hx. pose proof (clock_le (atick a) t Hc Hle). assert (x ∈ waiting a) as Hx'%Hr by (rewrite Eq; set_solver). lia.
    - intros w e Hx. apply Hh. rewrite Eq. set_solver.
    - intros w t' [Hx|Hx]%Hg.
      + rewrite Eq in Hx. apply elem_of_app in Hx as [Hx|Hx]; [right; by apply Ho in Hx|by left].
      + right. pose proof (clock_le (pred (atick a)) (pred t) Hc ltac:(lia)). lia. }
  split; [done|]. intros w e. cbn [waiting heard atick]. split.
  - intros Hx. split; [apply Hh; rewrite Eq; set_solver|by apply (Hy (w, e))].
  - intros [Hx Hlt]. apply (ag_gone _ Hgood) in Hx. cbn [waiting atick] in Hx. replace (e - EXPIRY + EXPIRY) with e in Hx by lia.
    destruct Hx as [Hx|Hx]; [done|lia].
Qed.

Lemma a_init_good : agood a_init.
Proof.
  split; cbn [a_init waiting heard atick]; simpl; [apply NoDup_nil_2|apply SSorted_nil|set_solver..| |lia].
  intros w t. by rewrite lookup_empty.
Qed.

Lemma a_round_good a r : agood a -> agood (a_round a r) /\ alive (a_round a r).
Proof.
  intros Ha. unfold a_round. apply a_purge_good, a_beats_good.
  assert (Ha1 : agood (match r.1 with Some m => a_worker m a | None => a end)) by (destruct (r.1); [by apply a_worker_good|done]).
  destruct (waiting a), (r.2); try done. by apply a_client_good.
Qed.

Lemma a_rounds_good rs : forall a, agood a -> agood (foldl a_round a rs).
Proof. induction rs as [|r rs IH]; intros a Ha; [done|]. simpl. apply IH. by apply a_round_good. Qed.

End abstract.

(** ** As line 29 is written *)

Section written.
Context `{Hcz : Czmq}.
Context (clock : nat -> Z).

(** The program as it is written runs like the one that is meant until it destroys a
    worker, and faults there; what has been allocated until then stays. *)
Definition grows {A} (c : M queue A) : Prop :=
  forall s x s', c s = Ok (x, s') -> dom (heap s) ⊆ dom (heap s').
Definition like {A} (c0 c1 : M queue A) : Prop :=
  forall s, c0 s = Err OutOfBounds \/ (c0 s = c1 s /\ forall x s', c0 s = Ok (x, s') -> dom (heap s) ⊆ dom (heap s')).

Lemma like_same {A} (c : M queue A) : grows c -> like c c.
Proof. intros Hc s. right. split; [done|]. intros x s'. apply Hc. Qed.

Lemma like_bind {A B} (c0 c1 : M queue A) (k0 k1 : A -> M queue B) :
  like c0 c1 -> (forall a, like (k0 a) (k1 a)) -> like (c0 ≫= k0) (c1 ≫= k1).
Proof.
  intros Hc Hk s. unfold mbind, M_bind. destruct (Hc s) as [->|[<- Hg]]; [by left|].
  destruct (c0 s) as [[a s1]| |]; [|by right..]. destruct (Hk a s1) as [->|[<- Hg1]]; [by left|right].
  split; [done|]. intros b s' E. etrans; [by eapply Hg|by eapply Hg1].
Qed.

(** A step that depends on the state it starts from. *)
Lemma like_get {B} (k0 k1 : queue -> M queue B) :
  (forall s, k0 s s = Err OutOfBounds \/ (k0 s s = k1 s s /\ forall x s', k0 s s = Ok (x, s') -> dom (heap s) ⊆ dom (heap s'))) ->
  like (get ≫= k0) (get ≫= k1).
Proof. intros Hk s. apply Hk. Qed.

Lemma like_put {B} s (f : queue) (k0 k1 : unit -> M queue B) :
  dom (heap s) ⊆ dom (heap f) -> like (k0 tt) (k1 tt) ->
  (put f ≫= k0) s = Err OutOfBounds \/
  ((put f ≫= k0) s = (put f ≫= k1) s /\
   forall x s', (put f ≫= k0) s = Ok (x, s') -> dom (heap s) ⊆ dom (heap s')).
Proof.
  intros Hf Hk. unfold mbind, M_bind, put. destruct (Hk f) as [->|[<- Hg]]; [by left|right].
  split; [done|]. intros x s' E. etrans; [exact Hf|by eapply Hg].
Qed.

Lemma grows_ret {A} (a : A) : grows (mret a).
Proof. by intros s b s' [= _ <-]. Qed.
Lemma grows_throw {A} f : @grows A (throw f).
Proof. by intros s x s'. Qed.
Lemma grows_no_fuel {A} : @grows A no_fuel.
Proof. by intros s x s'. Qed.
Lemma grows_get : grows get.
Proof. by intros s x s' [= _ <-]. Qed.
Lemma grows_modify f : (forall s, dom (heap s) ⊆ dom (heap (f s))) -> grows (modify f).
Proof. intros Hf s a s' [= _ <-]. apply Hf. Qed.
Lemma grows_clock : grows (zclock_time clock).
Proof. by intros s x s' [= _ <-]. Qed.
Lemma grows_first : grows first_worker.
Proof. intros s x s'. unfold first_worker. destruct (zlist_first (workers s)). by intros [= _ <-]. Qed.
Lemma grows_next : grows next_worker.
Proof. intros s x s'. unfold next_worker. destruct (zlist_next (workers s)). by intros [= _ <-]. Qed.
Lemma grows_load l : grows (load_w l).
Proof. intros s x s'. unfold load_w. destruct (heap s !! l); [|done]. by intros [= _ <-]. Qed.

Lemma like_destroy l : like (s_worker_destroy false l) (s_worker_destroy true l).
Proof. by left. Qed.

Ltac likes :=
  repeat (cbn beta iota;
    lazymatch goal with
    | |- like (mret _) _ => apply like_same, grows_ret
    | |- like (throw _) _ => apply like_same, grows_throw
    | |- like no_fuel _ => apply like_same, grows_no_fuel
    | |- like (zclock_time _) _ => apply like_same, grows_clock
    | |- like first_worker _ => apply like_same, grows_first
    | |- like next_worker _ => apply like_same, grows_next
    | |- like (load_w _) _ => apply like_same, grows_load
    | |- like (modify _) _ => apply like_same, grows_modify; intros; simpl; set_solver
    | |- like (s_worker_destroy _ _) _ => apply like_destroy
    | |- like get _ => apply like_same, grows_get
    | |- like (_ ≫= _) _ => apply like_bind; [|intros]
    | |- like (match ?x with _ => _ end) _ => destruct x
    end).

Lemma like_new f : like (s_worker_new clock f) (s_worker_new clock f).
Proof.
  unfold s_worker_new, frame_arg, int64_of. do 3 (apply like_bind; [likes|intros]). apply like_get. intros s. cbn zeta.
  apply like_put; [simpl; set_solver|likes].
Qed.

Lemma like_ready_loop fuel : forall self worker, like (ready_loop false fuel self worker) (ready_loop true fuel self worker).
Proof. induction fuel as [|fuel IH]; intros self [worker|]; cbn [ready_loop]; likes. apply IH. Qed.

Lemma like_ready self : like (s_worker_ready false self) (s_worker_ready true self).
Proof. unfold s_worker_ready. likes. apply like_ready_loop. Qed.

Lemma like_send to ds : like (zmsg_send to ds) (zmsg_send to ds).
Proof. unfold zmsg_send. likes. Qed.

Lemma like_from_worker m : like (from_worker false clock m) (from_worker true clock m).
Proof. unfold from_worker, frame_arg. likes; first [apply like_new|apply like_ready|apply like_send]. Qed.

Lemma like_next : like (s_workers_next false) (s_workers_next true).
Proof.
  unfold s_workers_next. apply like_get. intros s. destruct (zlist_pop (workers s)) as [worker ws].
  apply like_put; [done|]. likes.
Qed.

Lemma like_from_client m : like (from_client false m) (from_client true m).
Proof. unfold from_client, frame_arg. likes; first [apply like_next|apply like_send]. Qed.

Lemma like_heartbeat_loop fuel : forall worker, like (heartbeat_loop fuel worker) (heartbeat_loop fuel worker).
Proof. induction fuel as [|fuel IH]; intros [worker|]; cbn [heartbeat_loop]; unfold frame_arg; likes; [apply like_send|apply IH]. Qed.

Lemma like_heartbeats : like (heartbeats clock) (heartbeats clock).
Proof. unfold heartbeats, int64_of. likes. apply like_heartbeat_loop. Qed.

Lemma like_purge_loop fuel : forall worker, like (purge_loop false clock fuel worker) (purge_loop true clock fuel worker).
Proof. induction fuel as [|fuel IH]; intros [worker|]; cbn [purge_loop]; likes. apply IH. Qed.

Lemma like_purge : like (s_workers_purge false clock) (s_workers_purge true clock).
Proof. unfold s_workers_purge. likes. apply like_purge_loop. Qed.

Lemma like_round p : like (round false clock p) (round true clock p).
Proof.
  unfold round. likes; first [apply like_from_worker|apply like_from_client|apply like_heartbeats|apply like_purge].
Qed.

Lemma like_loop ps : like (loop false clock ps) (loop true clock ps).
Proof. induction ps as [|p ps IH]; cbn [loop]; likes; [apply like_round|apply IH]. Qed.

Lemma like_free fuel : like (free_workers false fuel) (free_workers true fuel).
Proof.
  induction fuel as [|fuel IH]; cbn [free_workers]; apply like_get; intros s; (destruct (_ =? _)%nat; [apply (like_same _ (grows_ret tt) s)|]).
  - apply (like_same _ grows_no_fuel s).
  - destruct (zlist_pop (workers s)) as [worker ws]. apply like_put; [done|]. likes. apply IH.
Qed.

(** Whatever agrees with what is meant until it faults frees nothing. *)
Lemma like_grows {A} (c0 c1 : M queue A) : like c0 c1 -> grows c0.
Proof. intros Hc s x s' E. destruct (Hc s) as [H|[_ Hg]]; [by rewrite H in E|by eapply Hg]. Qed.

Lemma grows_not_empty {A} (c : M queue A) s x s' : grows c -> heap s <> ∅ -> c s = Ok (x, s') -> heap s' <> ∅.
Proof. intros Hg Hn Hd%Hg E. apply Hn. apply dom_empty_inv_L. rewrite E in Hd. set_solver. Qed.

Lemma grows_bind {A B} (c : M queue A) (k : A -> M queue B) : grows c -> (forall x, grows (k x)) -> grows (c ≫= k).
Proof. intros Hc Hk. eapply like_grows, like_bind; [by apply like_same|intros x; by apply like_same]. Qed.

Ltac growing :=
  repeat (cbn beta iota;
    lazymatch goal with
    | |- grows (_ ≫= _) => apply grows_bind; [|intros]
    | |- grows (match ?x with _ => _ end) => destruct x
    | |- _ => first [apply grows_ret | apply grows_throw | eapply like_grows; first [apply like_ready | apply like_send
        | apply like_from_client | apply like_heartbeats | apply like_purge]]
    end).

(** A message of a worker leaves an object in the heap. *)
Lemma from_worker_allocates m s x s' : from_worker false clock m s = Ok (x, s') -> heap s' <> ∅.
Proof.
  unfold from_worker. destruct (zmsg_unwrap m) as [f m']. unfold mbind at 1, M_bind at 1.
  destruct (s_worker_new clock f s) as [[l s1]| |] eqn:E1; [|done..].
  assert (Hn : heap s1 <> ∅).
  { unfold s_worker_new, frame_arg, int64_of, mbind, M_bind in E1. destruct f; [|done]. cbn in E1. destruct (_ && _); [|done].
    injection E1 as <- <-. simpl. apply insert_non_empty. }
  apply grows_not_empty; [|done]. unfold frame_arg. growing.
Qed.

(** So does a run in which a worker is heard from. *)
Definition no_error (p : poll) : Prop :=
  match p with PollReady b f => b <> Some None /\ f <> Some None | PollError => False end.
Definition hears (p : poll) : Prop := exists m f, p = PollReady (Some (Some m)) f.

Lemma round_allocates p s x s' : hears p -> round false clock p s = Ok (x, s') -> heap s' <> ∅.
Proof.
  intros (m & f & ->). unfold round. rewrite (bind_ok get _ s s s) by done. cbv beta zeta.
  destruct (from_worker false clock m s) as [[u s1]| |] eqn:E; [|unfold mbind, M_bind; by rewrite E..].
  rewrite (bind_ok _ _ s true s1) by (unfold mbind, M_bind; by rewrite E). apply from_worker_allocates in E.
  apply grows_not_empty; [|done]. cbn. growing.
Qed.

Lemma round_goes p s x s' : no_error p -> round false clock p s = Ok (x, s') -> x = true.
Proof.
  destruct p as [|b f]; [done|]. intros [Hb Hf]. unfold round, mbind, M_bind, get, mret, M_ret.
  destruct b as [[m|]|]; try done.
  all: destruct (zlist_size (workers s) =? 0)%nat, f as [[m'|]|]; try done; cbn; repeat case_match; try done; intros E; by simplify_eq/=.
Qed.

Lemma loop_allocates ps : Forall no_error ps -> Exists hears ps ->
  forall s x s', loop false clock ps s = Ok (x, s') -> heap s' <> ∅.
Proof.
  intros Hn He. induction He as [p ps Hp|p ps He IH]; intros s x s'; apply Forall_cons in Hn as [Hp' Hn]; cbn [loop]; unfold mbind at 1, M_bind at 1;
    (destruct (round false clock p s) as [[go s1]| |] eqn:E; [|done..]); pose proof (round_goes _ _ _ _ Hp' E) as ->.
  - apply grows_not_empty; [eapply like_grows, like_loop|by eapply round_allocates].
  - by apply IH.
Qed.
(** The whole program. *)
Lemma like_init : like (queue_init clock) (queue_init clock).
Proof. unfold queue_init, int64_of. likes. Qed.

Lemma like_main ps : like (ppqueue_main false clock ps) (ppqueue_main true clock ps).
Proof.
  unfold ppqueue_main. apply like_bind; [apply like_init|intros]. apply like_bind; [apply like_loop|intros].
  apply like_get. intros s. apply like_free.
Qed.

Lemma main_allocates ps s x s' :
  Forall no_error ps -> Exists hears ps -> ppqueue_main false clock ps s = Ok (x, s') -> heap s' <> ∅.
Proof.
  intros Hn He. unfold ppqueue_main, mbind, M_bind. destruct (queue_init clock s) as [[u s1]| |]; [|done..].
  destruct (loop false clock ps s1) as [[u' s2]| |] eqn:E; [|done..]. cbn.
  apply grows_not_empty; [eapply like_grows, like_free|by eapply loop_allocates].
Qed.

End written.

(** ** The code implements it *)

Section spec.
Context `{Hcz : Czmq, Hcl : !CzmqLaws}.
Context (clock : nat -> Z) (Hc : good_clock clock).
Implicit Types (s : queue) (a : aqueue) (l : loc) (ls : list loc) (q : list (list Z * Z)).

(** The object of a worker. *)
Definition cell (h : gmap loc worker_t) l (x : list Z * Z) : Prop :=
  exists f, h !! l = Some (MkWorker (Some f) (zframe_strhex f) x.2) /\ zframe_data f = x.1.

(** The list [ls] and the heap hold the queue [q]. *)
Definition holds_q (h : gmap loc worker_t) ls q : Prop := NoDup ls /\ Forall2 (cell h) ls q.

(** Nothing but the list and the heap has changed. *)
Definition kept s s' : Prop := log s' = log s /\ heartbeat_at s' = heartbeat_at s /\ ticks s' = ticks s.

Record holds s a : Prop := {
  ho_q : holds_q (heap s) (items (workers s)) (waiting a);
  ho_dom l : is_Some (heap s !! l) -> l ∈ items (workers s);
  ho_log : log s = alog a;
  ho_beat : heartbeat_at s = abeat a;
  ho_ticks : ticks s = atick a;
}.

Lemma cells_agree h h' ls q :
  (forall l, l ∈ ls -> h' !! l = h !! l) -> Forall2 (cell h) ls q -> Forall2 (cell h') ls q.
Proof.
  intros Ha. induction 1 as [|l x ls q (f & Hf & Hd) HF IH]; [constructor|]. constructor.
  - exists f. by rewrite Ha by (by left).
  - apply IH. intros l' Hl'. apply Ha. by right.
Qed.

Lemma remove1_here l ls1 ls2 : l ∉ ls1 -> remove1 l (ls1 ++ l :: ls2) = ls1 ++ ls2.
Proof.
  induction ls1 as [|x ls1 IH]; simpl; intros Hn; [by rewrite decide_True|].
  rewrite decide_False by set_solver. by rewrite IH by set_solver.
Qed.

Lemma filter_others w q : w ∉ q.*1 -> filter (fun x => x.1 <> w) q = q.
Proof.
  induction q as [|x q IH]; intros Hq; [done|]. rewrite filter_cons_True by set_solver. by rewrite IH by set_solver.
Qed.

Lemma filter_here w e q1 q2 :
  NoDup (q1 ++ (w, e) :: q2).*1 -> filter (fun x => x.1 <> w) (q1 ++ (w, e) :: q2) = q1 ++ q2.
Proof.
  rewrite fmap_app. intros (_ & Hd & Hn)%NoDup_app. simpl in Hd, Hn. apply NoDup_cons in Hn as [Hw _].
  rewrite filter_app, filter_cons_False by auto.
  rewrite !filter_others; [done|done|]. intros Hw1. apply (Hd _ Hw1). by left.
Qed.

Lemma pp_wp_load_w l w (Q : worker_t -> queue -> Prop) s : heap s !! l = Some w -> Q w s -> wp (load_w l) Q s.
Proof. intros H HQ. unfold wp, load_w. by rewrite H. Qed.

Lemma wp_destroy l w (Q : unit -> queue -> Prop) s :
  heap s !! l = Some w -> Q tt (set_heap (delete l (heap s)) s) -> wp (s_worker_destroy true l) Q s.
Proof. intros H HQ. unfold s_worker_destroy. wp_step. eapply pp_wp_load_w; [exact H|]. by eapply wp_intro. Qed.

Lemma wp_first (Q : option loc -> queue -> Prop) s :
  (forall ws, items ws = items (workers s) -> ahead ws = tail (items (workers s)) ->
    Q (head (items (workers s))) (set_workers ws s)) -> wp first_worker Q s.
Proof.
  intros HQ. unfold wp, first_worker. destruct (items_first (workers s)) as (H1 & H2 & H3).
  destruct (zlist_first (workers s)) as [o ws]. simpl in *. subst o. by apply HQ.
Qed.

Lemma wp_next (Q : option loc -> queue -> Prop) s :
  (forall ws, items ws = items (workers s) -> ahead ws = tail (ahead (workers s)) ->
    Q (head (ahead (workers s))) (set_workers ws s)) -> wp next_worker Q s.
Proof.
  intros HQ. unfold wp, next_worker. destruct (items_next (workers s)) as (H1 & H2 & H3).
  destruct (zlist_next (workers s)) as [o ws]. simpl in *. subst o. by apply HQ.
Qed.

Lemma pp_wp_clock (Q : Z -> queue -> Prop) s :
  Q (clock (ticks s)) (Queue (workers s) (heap s) (log s) (heartbeat_at s) (S (ticks s))) -> wp (zclock_time clock) Q s.
Proof. done. Qed.

Lemma wp_int64 z (Q : Z -> queue -> Prop) s : 0 <= z < 2 ^ 63 -> Q z s -> wp (int64_of z) Q s.
Proof.
  intros Hz HQ. unfold int64_of. rewrite (proj2 (Z.leb_le _ _)), (proj2 (Z.ltb_lt _ _)) by lia. done.
Qed.

(** The loop of [s_worker_ready] takes an older object of the same worker out. *)
Lemma ready_loop_ok f0 self fuel : forall ls2 ls1 q1 q2 s,
  id_string self = zframe_strhex f0 ->
  items (workers s) = ls1 ++ ls2 -> ahead (workers s) = tail ls2 -> (length ls2 <= fuel)%nat ->
  NoDup (ls1 ++ ls2) -> Forall2 (cell (heap s)) ls1 q1 -> Forall2 (cell (heap s)) ls2 q2 ->
  NoDup (q1 ++ q2).*1 -> zframe_data f0 ∉ q1.*1 ->
  wp (ready_loop true fuel self (head ls2)) (fun _ s' =>
    kept s s' /\ holds_q (heap s') (items (workers s')) (filter (fun x => x.1 <> zframe_data f0) (q1 ++ q2)) /\
    (forall l, l ∈ items (workers s') -> l ∈ ls1 ++ ls2) /\
    (forall l, l ∉ ls1 ++ ls2 -> heap s' !! l = heap s !! l) /\
    (forall l, l ∈ ls1 ++ ls2 -> is_Some (heap s' !! l) -> l ∈ items (workers s'))) s.
Proof.
  induction fuel as [|fuel IH]; intros ls2 ls1 q1 q2 s Hself Hi Ha Hl Hnd HF1 HF2 Hn Hw.
  all: destruct ls2 as [|l ls2]; [|simpl in Hl; try lia].
  1,2: apply Forall2_nil_inv_l in HF2 as ->; apply wp_ret; rewrite !app_nil_r in *.
  1,2: split; [done|]; rewrite Hi; split; [split; [done|]|done]; by rewrite filter_others.
  apply Forall2_cons_inv_l in HF2 as ([w e] & q2' & (f & Hf & Hd) & HF2 & ->). cbn [head hd_error ready_loop].
  wp_step. eapply pp_wp_load_w; [exact Hf|]. rewrite Hself. cbn [id_string]. case_bool_decide as Hcmp.
  - wp_step. eapply wp_intro; [reflexivity|]. eapply wp_destroy; [exact Hf|]. simpl.
    apply strhex_inj in Hcmp. simpl in Hd. rewrite Hcmp, Hd.
    apply NoDup_app in Hnd as Hnd'. destruct Hnd' as (Hnd1 & Hdis & Hnd2). apply NoDup_cons in Hnd2 as [Hl2 Hnd2].
    assert (Hl1 : l ∉ ls1) by (intros H; apply (Hdis _ H); by left).
    rewrite filter_here, items_remove, Hi, remove1_here by done. split; [done|]. split; [split|split; [|split]].
    + apply NoDup_app. split; [done|]. split; [|done]. intros x Hx Hx2. apply (Hdis x Hx). by right.
    + apply Forall2_app; (eapply cells_agree; [|done]); intros l' Hl'; rewrite lookup_delete_ne; [done| |done|]; by intros ->.
    + set_solver.
    + intros l' Hl'. rewrite lookup_delete_ne; [done|]. set_solver.
    + intros l' Hl' Hs. destruct (decide (l' = l)) as [->|Hne]; [rewrite lookup_delete_eq in Hs; by destruct Hs|set_solver].
  - wp_step. apply wp_next. intros ws Hws1 Hws2. rewrite Ha. simpl.
    rewrite (cons_middle l ls1 ls2), (app_assoc ls1 [l] ls2). rewrite (cons_middle _ q1 q2'), (app_assoc q1 _ q2').
    eapply wp_mono; [apply (IH ls2 (ls1 ++ [l]) (q1 ++ [(w, e)]) q2'); simpl|].
    + done.
    + by rewrite Hws1, Hi, <- app_assoc.
    + by rewrite Hws2, Ha.
    + lia.
    + by rewrite <- app_assoc.
    + apply Forall2_app; [done|]. constructor; [by exists f|constructor].
    + done.
    + by rewrite <- app_assoc.
    + rewrite fmap_app. simpl. intros [H|H%list_elem_of_singleton]%elem_of_app; [done|].
      apply Hcmp. apply strhex_ok. by rewrite H, Hd.
    + done.
Qed.

(** [s_worker_new] and [s_worker_ready]. *)
Lemma pp_worker_ready_ok f s a :
  holds s a -> NoDup (waiting a).*1 ->
  wp (worker ← s_worker_new clock (Some f); s_worker_ready true worker)
    (fun _ s' => holds s' (a_ready clock (zframe_data f) a)) s.
Proof.
  intros [[Hnd HF] Hdom Hlog Hb Ht] Hn. wp_step. unfold s_worker_new. wp_step. apply wp_ret. wp_step. apply pp_wp_clock. wp_step.
  pose proof (gc_range _ Hc (ticks s)). apply wp_int64; [unfold HEARTBEAT_INTERVAL, HEARTBEAT_LIVENESS; lia|].
  wp_step. eapply wp_intro; [reflexivity|]. wp_step. eapply wp_intro; [reflexivity|]. apply wp_ret. simpl.
  set (l := fresh (dom (heap s))). assert (Hl : heap s !! l = None) by apply not_elem_of_dom, is_fresh.
  set (self := MkWorker (Some f) (zframe_strhex f) (clock (ticks s) + HEARTBEAT_INTERVAL * HEARTBEAT_LIVENESS)).
  assert (Hnl : l ∉ items (workers s)).
  { intros Hin. apply list_elem_of_lookup in Hin as [i Hi]. destruct (Forall2_lookup_l _ _ _ _ _ HF Hi) as (x & _ & f' & Hx & _).
    by rewrite Hl in Hx. }
  unfold s_worker_ready. wp_step. eapply wp_intro; [reflexivity|]. wp_step. apply wp_first. simpl. intros ws Hws1 Hws2. wp_step.
  eapply pp_wp_load_w; [simpl; apply lookup_insert_eq|]. wp_step.
  eapply wp_mono; [apply (ready_loop_ok f self _ (items (workers s)) [] [] (waiting a)); simpl; try done|].
  - by rewrite items_size.
  - eapply cells_agree; [|exact HF]. intros l' Hl'. rewrite lookup_insert_ne; [done|]. by intros <-.
  - set_solver.
  - simpl. intros u s' ((El & Eb & Et) & [Hnd' HF'] & Hsub & Hout & Hin). simpl in El, Eb, Et, Hout.
    assert (Hself : heap s' !! l = Some self) by (by rewrite Hout, lookup_insert_eq).
    eapply wp_intro; [reflexivity|]. split; simpl.
    + rewrite items_append. split.
      * apply NoDup_app. split; [done|]. split; [|apply NoDup_singleton]. intros x Hx ->%list_elem_of_singleton. by apply Hnl, Hsub.
      * apply Forall2_app; [done|]. constructor; [|constructor]. exists f. by rewrite <- Ht.
    + intros l' Hs. rewrite items_append. apply elem_of_app. destruct (decide (l' = l)) as [->|Hne]; [right; by left|]. left.
      destruct (decide (l' ∈ items (workers s))) as [Hi|Hi]; [by apply Hin|].
      rewrite Hout, lookup_insert_ne in Hs by done. by apply Hdom in Hs.
    + congruence.
    + congruence.
    + congruence.
Qed.

Lemma pp_send_ok to ds s a :
  holds s a -> wp (zmsg_send to ds) (fun _ s' => holds s' (a_send (match ds with [] => [] | _ => [to ds] end) a)) s.
Proof.
  intros [Hq Hd Hl Hb Ht]. unfold zmsg_send, a_send.
  destruct ds; [apply wp_ret|eapply wp_intro; [reflexivity|]]; split; simpl; rewrite ?app_nil_r; try done; congruence.
Qed.

(** A message of a worker is its identity and frames that are not a single empty one. *)
Definition is_wmsg (m : zmsg) (x : list Z * list (list Z)) : Prop :=
  zmsg_frames m = x.1 :: x.2 /\ unwrapped x.2 <> [[]].

Lemma pp_from_worker_ok m x s a :
  is_wmsg m x -> holds s a -> NoDup (waiting a).*1 ->
  wp (from_worker true clock m) (fun _ s' => holds s' (a_worker clock x a)) s.
Proof.
  intros [Hm Hne] Hh Hn. unfold from_worker, a_worker. destruct (unwrap_cons m _ _ Hm) as (f & m' & Eu & <- & Hm'). rewrite Eu.
  assert (Hr := pp_worker_ready_ok f s a Hh Hn). apply wp_inv in Hr as ([] & s' & Er & Hs').
  wp_step. unfold mbind, M_bind in Er. destruct (s_worker_new clock (Some f) s) as [[l s1]| |] eqn:E1; try done.
  eapply wp_intro; [exact E1|]. cbn beta. wp_step. eapply wp_intro; [exact Er|]. cbn beta. rewrite frames_size, Hm'.
  destruct (unwrapped x.2) as [|d [|d' ds]] eqn:Ed; simpl length; simpl Nat.eqb; cbv iota.
  - eapply wp_mono; [by apply pp_send_ok|]. done.
  - wp_step. pose proof (frames_first m') as Hf. rewrite Hm' in Hf. destruct (zmsg_first m') as [f1|]; [|done].
    apply wp_ret. simpl in Hf. injection Hf as ->. destruct d; [done|]. apply wp_ret.
    destruct Hs' as [? ? ? ? ?]. by split; simpl; rewrite ?app_nil_r.
  - eapply wp_mono; [by apply pp_send_ok|]. done.
Qed.

Lemma pp_from_client_ok m ds s a :
  zmsg_frames m = ds -> holds s a -> waiting a <> [] -> wp (from_client true m) (fun _ s' => holds s' (a_client ds a)) s.
Proof.
  intros Hm [[Hnd HF] Hdom Hlog Hb Ht] Hne. unfold from_client, s_workers_next, a_client. wp_step. wp_step. eapply wp_intro; [reflexivity|].
  destruct (items_pop (workers s)) as [H1 H2]. destruct (zlist_pop (workers s)) as [o ws]. simpl in H1, H2. cbv iota.
  destruct (waiting a) as [|[w e] q]; [done|]. apply Forall2_cons_inv_r in HF as (l & ls & (f & Hf & Hd) & HF & El). rewrite El in *.
  simpl in H1, H2. subst o. apply NoDup_cons in Hnd as [Hl Hnd]. wp_step. eapply wp_intro; [reflexivity|]. wp_step.
  eapply pp_wp_load_w; [exact Hf|]. wp_step. eapply wp_intro; [reflexivity|]. wp_step.
  eapply wp_destroy; [simpl; apply lookup_insert_eq|]. apply wp_ret. cbn [identity]. wp_step. apply wp_ret. simpl in Hd.
  unfold zmsg_send. rewrite frames_prepend, Hd, Hm. eapply wp_intro; [reflexivity|]. split; simpl; rewrite ?H2; try congruence.
  - split; [done|]. eapply cells_agree; [|exact HF]. intros l' Hl'. rewrite delete_insert_eq, lookup_delete_ne; [done|]. by intros ->.
  - intros l' Hs. rewrite delete_insert_eq in Hs. apply lookup_delete_is_Some in Hs as [Hne' Hs]. apply Hdom in Hs. set_solver.
Qed.

Lemma pp_heartbeat_loop_ok fuel : forall ls q s,
  ahead (workers s) = tail ls -> (length ls <= fuel)%nat -> Forall2 (cell (heap s)) ls q ->
  wp (heartbeat_loop fuel (head ls)) (fun _ s' =>
    heap s' = heap s /\ items (workers s') = items (workers s) /\ heartbeat_at s' = heartbeat_at s /\ ticks s' = ticks s /\
    log s' = log s ++ ((fun x => ToBackend [x.1; [PPP_HEARTBEAT]]) <$> q)) s.
Proof.
  induction fuel as [|fuel IH]; intros ls q s Ha Hl HF; destruct HF as [|l [w e] ls q (f & Hf & Hd) HF]; simpl in Hl; try lia.
  1,2: apply wp_ret; by rewrite app_nil_r.
  cbn [head hd_error heartbeat_loop]. wp_step. eapply pp_wp_load_w; [exact Hf|]. wp_step. apply wp_ret. wp_step.
  eapply wp_intro; [reflexivity|]. wp_step. apply wp_next. simpl. intros ws Hw1 Hw2. rewrite Ha. simpl.
  eapply wp_mono; [apply (IH ls q); simpl; [by rewrite Hw2, Ha|lia|done]|]. simpl.
  intros u s' (H1 & H2 & H3 & H4 & H5). rewrite H2, Hw1. rewrite H5, <- app_assoc. by rewrite Hd.
Qed.

Lemma uint64_small z : 0 <= z < 2 ^ 63 -> uint64 z = z.
Proof. intros. unfold uint64. apply Z.mod_small. lia. Qed.

Lemma pp_heartbeats_ok s a : holds s a -> wp (heartbeats clock) (fun _ s' => holds s' (a_beats clock a)) s.
Proof.
  intros [[Hnd HF] Hdom Hlog Hb Ht]. unfold heartbeats, a_beats. wp_step. apply pp_wp_clock. wp_step. eapply wp_intro; [reflexivity|]. cbn beta.
  simpl heartbeat_at. pose proof (gc_range _ Hc (ticks s)). rewrite uint64_small by lia. rewrite Hb, Ht.
  destruct (abeat a <=? clock (atick a)); [|by split; simpl; rewrite ?Ht].
  wp_step. apply wp_first. simpl. intros ws Hw1 Hw2. wp_step.
  eapply wp_mono; [apply (pp_heartbeat_loop_ok _ (items (workers s)) (waiting a)); simpl; [done|by rewrite items_size|done]|]. simpl.
  intros u s' (H1 & H2 & H3 & H4 & H5). wp_step. apply pp_wp_clock. rewrite H4. pose proof (gc_range _ Hc (S (atick a))). wp_step.
  apply wp_int64; [unfold HEARTBEAT_INTERVAL; lia|]. eapply wp_intro; [reflexivity|].
  rewrite uint64_small by (unfold HEARTBEAT_INTERVAL; lia). split; simpl; rewrite ?H1, ?H2, ?Hw1; try done; congruence.
Qed.

(** The loop of [s_workers_purge], whose list the heap holds. *)
Lemma pp_purge_loop_ok fuel : forall s q,
  holds_q (heap s) (items (workers s)) q -> (forall l, is_Some (heap s !! l) -> l ∈ items (workers s)) ->
  (length q <= fuel)%nat ->
  wp (purge_loop true clock fuel (head (items (workers s)))) (fun _ s' =>
    holds_q (heap s') (items (workers s')) (purged clock (ticks s) q).1 /\ ticks s' = (purged clock (ticks s) q).2 /\
    (forall l, is_Some (heap s' !! l) -> l ∈ items (workers s')) /\ log s' = log s /\ heartbeat_at s' = heartbeat_at s) s.
Proof.
  induction fuel as [|fuel IH]; intros s q [Hnd HF] Hdom Hl.
  all: inversion HF as [E1 E2|l [w e] ls q' (f & Hf & Hd) HF' E1 E2]; subst q; simpl in Hl; try lia.
  1,2: rewrite <- E1 in *; simpl; apply wp_ret; rewrite <- E1; done.
  cbn [head hd_error purge_loop purged]. wp_step. apply pp_wp_clock. wp_step. eapply pp_wp_load_w; [exact Hf|]. simpl expiry.
  rewrite <- E1 in Hnd. destruct (Z.ltb_spec (clock (ticks s)) e) as [Hlt|Hge].
  - apply wp_ret. simpl. split; [|done]. rewrite <- E1. split; [done|]. constructor; [by exists f|done].
  - wp_step. eapply wp_intro; [reflexivity|]. wp_step. eapply wp_destroy; [exact Hf|]. wp_step. apply wp_first. simpl.
    apply NoDup_cons in Hnd as [Hn Hnd]. rewrite items_remove, <- E1. simpl. rewrite decide_True by done. intros ws Hw1 Hw2.
    rewrite <- Hw1.
    match goal with |- wp _ _ ?s1 => assert (Hq : holds_q (heap s1) (items (workers s1)) q') end.
    { simpl. rewrite Hw1. split; [done|]. eapply cells_agree; [|exact HF']. intros l' Hl'. rewrite lookup_delete_ne; [done|]. by intros ->. }
    eapply wp_mono; [refine (IH _ q' Hq _ _); simpl|].
    + intros l' [Hne Hs]%lookup_delete_is_Some. apply Hdom in Hs. rewrite <- E1 in Hs. rewrite Hw1. set_solver.
    + lia.
    + simpl. done.
Qed.

Lemma pp_purge_ok s a : holds s a -> wp (s_workers_purge true clock) (fun _ s' => holds s' (a_purge clock a)) s.
Proof.
  intros [Hq Hdom Hlog Hb Ht]. unfold s_workers_purge. wp_step. eapply wp_intro; [reflexivity|]. wp_step. apply wp_first.
  intros ws Hw1 Hw2. rewrite <- Hw1.
  eapply wp_mono; [apply (pp_purge_loop_ok _ (set_workers ws s) (waiting a)); simpl; rewrite ?Hw1; [done|done|]|].
  - rewrite items_size. destruct Hq as [_ HF]. by rewrite (Forall2_length _ _ _ HF).
  - simpl. intros u s' (H1 & H2 & H3 & H4 & H5). unfold a_purge. rewrite Ht in *. destruct (purged clock (atick a) (waiting a)).
    split; simpl; congruence || done.
Qed.

Lemma free_workers_empty fuel : forall s,
  NoDup (items (workers s)) -> (forall l, l ∈ items (workers s) <-> is_Some (heap s !! l)) -> (length (items (workers s)) <= fuel)%nat ->
  wp (free_workers true fuel) (fun _ s' => heap s' = ∅ /\ items (workers s') = [] /\ log s' = log s) s.
Proof.
  induction fuel as [|fuel IH]; intros s Hnd Hd Hl; cbn [free_workers]; wp_step; (eapply wp_intro; [reflexivity|]); cbn beta;
    rewrite items_size; (destruct (items (workers s)) as [|l ls] eqn:E; simpl in Hl; [|try lia]).
  1,2: apply wp_ret; split; [|done]; apply map_eq; intros l; rewrite lookup_empty; apply eq_None_not_Some; rewrite <- Hd; set_solver.
  destruct (items_pop (workers s)) as [H1 H2]. destruct (zlist_pop (workers s)) as [o ws]. rewrite E in H1, H2. simpl in H1, H2. subst o.
  simpl Nat.eqb. cbv iota. wp_step. eapply wp_intro; [reflexivity|]. wp_step. destruct (proj1 (Hd l)) as [w Hw]; [by left|].
  apply NoDup_cons in Hnd as [Hn Hnd]. eapply wp_destroy; [exact Hw|].
  eapply wp_mono; [apply IH; simpl; rewrite ?H2; [done| |lia]|done].
  intros l'. rewrite lookup_delete_is_Some, <- Hd. set_solver.
Qed.

Definition is_wpart (m : option (option zmsg)) (x : option (list Z * list (list Z))) : Prop :=
  match m, x with None, None => True | Some (Some m), Some x => is_wmsg m x | _, _ => False end.

Definition is_cpart (m : option (option zmsg)) (ds : option (list (list Z))) : Prop :=
  match m, ds with None, None => True | Some (Some m), Some ds => zmsg_frames m = ds | _, _ => False end.

(** The messages a round brings. *)
Definition is_round (p : poll) (r : arrival) : Prop :=
  match p with PollError => False | PollReady b f => is_wpart b r.1 /\ is_cpart f r.2 end.

Lemma a_worker_waits m a : waiting (a_worker clock m a) <> [].
Proof. simpl. by destruct (filter _ _). Qed.

Lemma pp_round_ok p r s a :
  is_round p r -> holds s a -> agood clock a ->
  wp (round true clock p) (fun go s' => go = true /\ holds s' (a_round clock a r)) s.
Proof.
  intros Hr Hh Ha. destruct p as [|b f]; [done|]. destruct r as [rw rf], Hr as [Hb Hf]. simpl in Hb, Hf. unfold round. wp_step.
  eapply wp_intro; [reflexivity|]. cbn beta.
  assert (Hsz : (zlist_size (workers s) =? 0)%nat = match waiting a with [] => true | _ => false end).
  { rewrite items_size. destruct (ho_q _ _ Hh) as [_ HF]. rewrite (Forall2_length _ _ _ HF). by destruct (waiting a). }
  rewrite Hsz. unfold a_round. cbn [fst snd]. set (a1 := match rw with Some m => a_worker clock m a | None => a end).
  wp_step. eapply (wp_mono _ (fun go s' => go = true /\ holds s' a1)).
  { destruct b as [[m|]|], rw as [x|]; try done. wp_step.
    eapply wp_mono; [apply (pp_from_worker_ok m x); [done|done|apply Ha]|]. intros u s' Hs'. by apply wp_ret. }
  intros go s1 [-> Hs1]. cbn [negb]. wp_step.
  assert (Hne : waiting a <> [] -> waiting a1 <> []) by (destruct rw; [intros _; apply a_worker_waits|done]).
  set (a2 := match waiting a, rf with _ :: _, Some ds => a_client ds a1 | _, _ => a1 end).
  eapply (wp_mono _ (fun go s' => go = true /\ holds s' a2)).
  { unfold a2. destruct (waiting a) as [|x q]; [by apply wp_ret|]. destruct f as [[m|]|], rf as [ds|]; try done. wp_step.
    eapply wp_mono; [apply (pp_from_client_ok m ds); [done|done|by apply Hne]|]. intros u s' Hs'. by apply wp_ret. }
  intros go s2 [-> Hs2]. cbn [negb]. wp_step. eapply wp_mono; [by apply pp_heartbeats_ok|]. intros u s3 Hs3. wp_step.
  eapply wp_mono; [eapply pp_purge_ok; exact Hs3|]. intros u' s4 Hs4. by apply wp_ret.
Qed.

Lemma pp_loop_ok ps : forall rs s a,
  Forall2 is_round ps rs -> holds s a -> agood clock a ->
  wp (loop true clock ps) (fun _ s' => holds s' (foldl (a_round clock) a rs)) s.
Proof.
  induction ps as [|p ps IH]; intros rs s a Hall Hh Ha.
  - apply Forall2_nil_inv_l in Hall as ->. by apply wp_ret.
  - apply Forall2_cons_inv_l in Hall as (r & rs' & Hr & Hall & ->). simpl. wp_step.
    eapply wp_mono; [by apply pp_round_ok|]. intros go s' [-> Hs']. cbv iota. apply IH; [done|done|]. by apply a_round_good.
Qed.

Lemma queue_init_ok : wp (queue_init clock) (fun _ s => holds s (a_init clock)) (Queue zlist_new ∅ [] 0 0).
Proof.
  unfold queue_init. wp_step. apply pp_wp_clock. simpl. wp_step. pose proof (gc_range _ Hc 0).
  apply wp_int64; [unfold HEARTBEAT_INTERVAL; lia|]. eapply wp_intro; [reflexivity|].
  rewrite uint64_small by (unfold HEARTBEAT_INTERVAL; lia). split; simpl; try done.
  - rewrite items_new. split; [apply NoDup_nil_2|constructor].
  - intros l []. done.
Qed.

(** As it is meant the program runs like the abstract queue and frees everything. *)
Lemma main_meant ps rs :
  Forall2 is_round ps rs ->
  wp (ppqueue_main true clock ps)
    (fun _ s => log s = alog (foldl (a_round clock) (a_init clock) rs) /\ heap s = ∅ /\ items (workers s) = [])
    (Queue zlist_new ∅ [] 0 0).
Proof.
  intros Hall. unfold ppqueue_main. wp_step. eapply wp_mono; [apply queue_init_ok|]. intros u s Hs. wp_step.
  eapply wp_mono; [eapply pp_loop_ok; [exact Hall|exact Hs|by apply a_init_good]|]. intros u' s' [[Hnd HF] Hdom Hlog _ _].
  wp_step. eapply wp_intro; [reflexivity|]. cbn beta. eapply wp_mono; [apply free_workers_empty; [done| |by rewrite items_size]|].
  - intros l. split; [|apply Hdom]. intros [i Hi]%list_elem_of_lookup.
    destruct (Forall2_lookup_l _ _ _ _ _ HF Hi) as (x & _ & f & Hf & _). by rewrite Hf.
  - intros u2 s2 (H1 & H2 & H3). split; [congruence|done].
Qed.

(** As it is written it would have to free everything, too. *)
Lemma main_written ps rs :
  Forall2 is_round ps rs -> Exists (fun r => is_Some r.1) rs ->
  ppqueue_main false clock ps (Queue zlist_new ∅ [] 0 0) = Err OutOfBounds.
Proof.
  intros Hall Hex. pose proof (main_meant _ _ Hall) as Hm. set (s0 := Queue zlist_new ∅ [] 0 0) in *.
  destruct (like_main clock ps s0) as [H|[E Hg]]; [done|]. exfalso. unfold wp in Hm. rewrite <- E in Hm.
  destruct (ppqueue_main false clock ps s0) as [[u s]| |] eqn:Em; [|done..]. destruct Hm as (_ & Hh & _). revert Hh.
  eapply main_allocates; [| |exact Em].
  - eapply Forall2_Forall_l; [exact Hall|]. apply Forall_forall. intros [rb rf] _ p Hr.
    destruct p as [|[[m|]|] [[m'|]|]], rb, rf; simpl in Hr; try done; by destruct Hr.
  - apply Exists_exists in Hex as (r & [i Hi]%list_elem_of_lookup & [x Hx]). destruct (Forall2_lookup_r _ _ _ _ _ Hall Hi) as (p & Hp & Hr).
    apply Exists_exists. exists p. split; [by eapply list_elem_of_lookup_2|]. destruct p as [|b f]; [done|]. destruct Hr as [Hb _]. rewrite Hx in Hb. destruct b as [[m|]|]; try done.
    by exists m, f.
Qed.

(** C14: over a run of polls that do not fail, whose messages from workers have an
    identity and are not a single empty frame, the program with line 29 read as meant,
    [self = *self_p], does not fault and frees every object.  What it sends is what the
    abstract queue sends: a request goes to the worker that has waited longest, the
    answers to the clients, heartbeats to every waiting worker when an interval has
    passed.  After each round the workers that wait are exactly those heard from, since
    they were last given a request, within the last three intervals, each of them once.
    As line 29 is written, [self = self_p], every such run in which a worker is heard
    from ends in the fault of that line. *)
Theorem ppqueue_correct ps rs :
  Forall2 is_round ps rs ->
  let a := foldl (a_round clock) (a_init clock) rs in
  wp (ppqueue_main true clock ps) (fun _ s => log s = alog a /\ heap s = ∅ /\ items (workers s) = [])
    (Queue zlist_new ∅ [] 0 0) /\
  NoDup (waiting a).*1 /\ (rs <> [] -> alive clock a) /\
  (Exists (fun r => is_Some r.1) rs ->
   ppqueue_main false clock ps (Queue zlist_new ∅ [] 0 0) = Err OutOfBounds).
Proof.
  intros Hall a. split; [by apply main_meant|]. split; [|split; [|by eapply main_written]].
  - by apply ag_names with clock, a_rounds_good, a_init_good.
  - intros Hne. unfold a. destruct rs as [|r rs _] using rev_ind; [done|]. rewrite foldl_app. simpl.
    by apply a_round_good, a_rounds_good, a_init_good.
Qed.

End spec.

(** ** Examples *)

(** The clock advances by 700 at each reading, up to a bound. *)
Definition ex_clock (n : nat) : Z := Z.min (Z.of_nat n * 700) (2 ^ 61).

Lemma ex_clock_good : good_clock ex_clock.
Proof. split; intros n; unfold ex_clock; lia. Qed.

(** A worker announces itself, is given a request, answers, and is then silent. *)
Definition ex_arrivals : list arrival :=
  [(Some ([7], [[PPP_READY]]), None); (None, Some [[9]; []; [1; 2]]); (Some ([7], [[9]; []; [3; 4]]), None);
   (None, None); (None, None)].

Definition ex_polls : list (@poll plain_czmq) :=
  [PollReady (Some (Some ([[7]; [1]] : @zmsg plain_czmq))) None;
   PollReady None (Some (Some ([[9]; []; [1; 2]] : @zmsg plain_czmq)));
   PollReady (Some (Some ([[7]; [9]; []; [3; 4]] : @zmsg plain_czmq))) None;
   PollReady None None; PollReady None None].

Lemma ppqueue_correct_witness :
  wp (ppqueue_main true ex_clock ex_polls) (fun _ s =>
    log s = [ToBackend [[7]; [PPP_HEARTBEAT]]; ToBackend [[7]; [9]; []; [1; 2]]; ToFrontend [[9]; []; [3; 4]];
             ToBackend [[7]; [PPP_HEARTBEAT]]; ToBackend [[7]; [PPP_HEARTBEAT]]] /\ heap s = ∅)
    (Queue (@zlist_new plain_czmq _) ∅ [] 0 0) /\
  alive ex_clock (foldl (a_round ex_clock) (a_init ex_clock) ex_arrivals) /\
  ppqueue_main false ex_clock ex_polls (Queue (@zlist_new plain_czmq _) ∅ [] 0 0) = Err OutOfBounds.
Proof.
  destruct (@ppqueue_correct plain_czmq plain_czmq_laws ex_clock ex_clock_good ex_polls ex_arrivals) as (H & _ & Ha & Hf).
  - repeat (apply Forall2_cons; split); try apply Forall2_nil; split; done.
  - split; [|split; [by apply Ha|apply Hf; left; by eexists]].
    eapply wp_mono; [exact H|]. intros u s (E & Eh & _). rewrite E. split; [vm_compute; reflexivity|exact Eh].
Defined.
