(* ===== verification/PpWorker.v ===== *)
(** * The paranoid pirate worker: [src/lib/zeromq/reliable/ppworker.c]

    The worker announces itself to the queue of PpQueue.v, sends every request back as
    its answer, sends heartbeats, and connects anew when it hears nothing, waiting
    longer each time.  Now and then it pretends to crash or to be overloaded.  A round
    is an event: what [zmq_poll] and [zmsg_recv] return, and for a request what the two
    calls of [randof] and the two tests of [zctx_interrupted] give.

    The file does not compile ([ZMQ_POLL], line 36) and is read with [ZMQ_POLLIN]. *)

From stdpp Require Import prelude list.
From Stdlib Require Import ZArith Lia.
From S2P Require Import Prelude Czmq.

Definition HEARTBEAT_LIVENESS : Z := 3.
Definition HEARTBEAT_INTERVAL : Z := 1000.
Definition INTERVAL_INIT : Z := 1000.
Definition INTERVAL_MAX : Z := 32000.
Definition PPP_READY : list Z := [1].
Definition PPP_HEARTBEAT : list Z := [2].

(** [size_t] and [uint64_t] *)
Definition u64 (z : Z) : Z := z mod 2 ^ 64.

Section worker.
Context `{Hcz : Czmq}.
Context (clock : nat -> Z).

Inductive wevent :=
| WPollError
| WSilent
| WRecvNull
| WGot (msg : zmsg) (rand1 rand2 : Z) (interrupted1 interrupted2 : bool).

(** The variables of [main], the sleeps of a reconnection, and how often the clock was
    read. *)
Record wstate := WState {
  ctx : zctx;
  worker : nat;
  liveness : Z;
  interval : Z;
  heartbeat_at : Z;
  cycles : Z;
  naps : list Z;
  ticks : nat;
}.

Definition set_ctx v s := WState v (worker s) (liveness s) (interval s) (heartbeat_at s) (cycles s) (naps s) (ticks s).
Definition set_worker v s := WState (ctx s) v (liveness s) (interval s) (heartbeat_at s) (cycles s) (naps s) (ticks s).
Definition set_liveness v s := WState (ctx s) (worker s) v (interval s) (heartbeat_at s) (cycles s) (naps s) (ticks s).
Definition set_interval v s := WState (ctx s) (worker s) (liveness s) v (heartbeat_at s) (cycles s) (naps s) (ticks s).
Definition set_heartbeat_at v s := WState (ctx s) (worker s) (liveness s) (interval s) v (cycles s) (naps s) (ticks s).
Definition set_cycles v s := WState (ctx s) (worker s) (liveness s) (interval s) (heartbeat_at s) v (naps s) (ticks s).

Definition zclock_time : M wstate Z := fun s =>
  Ok (clock (ticks s), WState (ctx s) (worker s) (liveness s) (interval s) (heartbeat_at s) (cycles s) (naps s) (S (ticks s))).

Definition zclock_sleep (msecs : Z) : M wstate unit :=
  modify (fun s => WState (ctx s) (worker s) (liveness s) (interval s) (heartbeat_at s) (cycles s) (naps s ++ [msecs]) (ticks s)).

Definition on_ctx {A} (c : M zctx A) : M wstate A := fun s =>
  match c (ctx s) with
  | Ok (a, x) => Ok (a, set_ctx x s)
  | Err f => Err f
  | NoFuel => NoFuel
  end.

(** A message of one frame. *)
Definition frame_send (worker : nat) (frame : list Z) : M wstate unit :=
  on_ctx (zsocket_send (Some worker) (zmsg_pushstr zmsg_new frame)).

Definition s_worker_socket : M wstate nat :=
  worker ← on_ctx zsocket_new;
  _ ← frame_send worker PPP_READY;
  mret worker.

(** A message of three frames is a request; [false]: the loop is left. *)
Definition request (msg : zmsg) (rand1 rand2 : Z) (interrupted1 interrupted2 : bool) : M wstate bool :=
  s ← get;
  cycles ← int_of (cycles s + 1);
  _ ← modify (set_cycles cycles);
  if (3 <? cycles) && (rand1 =? 0) then mret false
  else if (3 <? cycles) && (rand2 =? 0) && interrupted1 then mret false
  else
    s ← get;
    _ ← on_ctx (zsocket_send (Some (worker s)) msg);
    _ ← modify (set_liveness HEARTBEAT_LIVENESS);
    mret (negb interrupted2).

Definition got (msg : zmsg) (rand1 rand2 : Z) (interrupted1 interrupted2 : bool) : M wstate bool :=
  go ← (if (zmsg_size msg =? 3)%nat then request msg rand1 rand2 interrupted1 interrupted2
        else if (zmsg_size msg =? 1)%nat then
          frame ← frame_arg (zmsg_first msg);
          match zframe_data frame with
          | [] => throw OutOfBounds
          | b :: _ =>
              _ ← (if bool_decide ([b] = PPP_HEARTBEAT) then modify (set_liveness HEARTBEAT_LIVENESS) else mret tt);
              mret true
          end
        else mret true);
  if go : bool then _ ← modify (set_interval INTERVAL_INIT); mret true else mret false.

(** [else if (--liveness == 0)] and its branch. *)
Definition silent_poll : M wstate unit :=
  s ← get;
  let l := u64 (liveness s - 1) in
  _ ← modify (set_liveness l);
  if l =? 0 then
    s ← get;
    _ ← zclock_sleep (interval s);
    _ ← (if interval s <? INTERVAL_MAX then modify (set_interval (u64 (interval s * 2))) else mret tt);
    _ ← on_ctx (zsocket_destroy (worker s));
    worker ← s_worker_socket;
    _ ← modify (set_worker worker);
    modify (set_liveness HEARTBEAT_LIVENESS)
  else mret tt.

Definition beat : M wstate unit :=
  now ← zclock_time;
  s ← get;
  if heartbeat_at s <? u64 now then
    now ← zclock_time;
    _ ← modify (set_heartbeat_at (u64 (now + HEARTBEAT_INTERVAL)));
    s ← get;
    frame_send (worker s) PPP_HEARTBEAT
  else mret tt.

Definition wround (e : wevent) : M wstate bool :=
  match e with
  | WPollError | WRecvNull => mret false
  | WSilent => _ ← silent_poll; _ ← beat; mret true
  | WGot msg r1 r2 i1 i2 =>
      go ← got msg r1 r2 i1 i2;
      if go : bool then _ ← beat; mret true else mret false
  end.

(** [true]: the events are over and the loop has not been left. *)
Fixpoint wloop (es : list wevent) : M wstate bool :=
  match es with
  | [] => mret true
  | e :: es => go ← wround e; if go : bool then wloop es else mret false
  end.

Definition ppworker_main (es : list wevent) : M wstate bool :=
  worker ← s_worker_socket;
  _ ← modify (set_worker worker);
  now ← zclock_time;
  _ ← modify (fun s => WState (ctx s) (worker) HEARTBEAT_LIVENESS INTERVAL_INIT (u64 (now + HEARTBEAT_INTERVAL)) 0 (naps s) (ticks s));
  polling ← wloop es;
  if polling : bool then mret true else _ ← on_ctx zctx_destroy; mret false.

End worker.

(** ** What the queue sees *)

Section spec.
Context `{Hcz : Czmq, Hcl : !CzmqLaws}.
Context (clock : nat -> Z).
Context (Hclock : forall n, 0 <= clock n < 2 ^ 63).
Implicit Types (s : wstate) (e : wevent) (k silent fails cyc : nat).

(** The sleep before the reconnection that follows [fails] others. *)
Definition backoff (fails : nat) : Z := Z.min (INTERVAL_INIT * 2 ^ Z.of_nat fails) INTERVAL_MAX.

Definition outcome_of : Type := list (nat * list (list Z)) * list Z * bool.

Definition say (x : nat * list (list Z)) (o : outcome_of) : outcome_of := (x :: o.1.1, o.1.2, o.2).
Definition nap (x : Z) (o : outcome_of) : outcome_of := (o.1.1, x :: o.1.2, o.2).

(** The traffic but the heartbeats, the sleeps, and whether the worker is still there:
    on socket [k], after [silent] polls without news, [fails] reconnections since the
    last message and [cyc] requests. *)
Fixpoint pirate_spec k silent fails cyc (es : list wevent) : outcome_of :=
  match es with
  | [] => ([], [], true)
  | (WPollError | WRecvNull) :: _ => ([], [], false)
  | WSilent :: es =>
      if decide (silent = 2%nat) then
        nap (backoff fails) (say (S k, [PPP_READY]) (pirate_spec (S k) 0 (S fails) cyc es))
      else pirate_spec k (S silent) fails cyc es
  | WGot m r1 r2 i1 i2 :: es =>
      match zmsg_frames m with
      | [_; _; _] as ds =>
          if decide ((3 <= cyc)%nat /\ (r1 = 0 \/ r2 = 0 /\ i1 = true)) then ([], [], false)
          else say (k, ds) (if i2 then ([], [], false) else pirate_spec k 0 0 (S cyc) es)
      | [d] => pirate_spec k (if decide (head d = Some 2) then 0%nat else silent) 0 cyc es
      | _ => pirate_spec k silent 0 cyc es
      end
  end.

(** A message of a single frame has a byte in it. *)
Definition no_empty e : Prop := match e with WGot m _ _ _ _ => zmsg_frames m <> [[]] | _ => True end.

Definition traffic (tr : list (nat * list (list Z))) : list (nat * list (list Z)) :=
  filter (fun km => km.2 <> [PPP_HEARTBEAT]) tr.

(** Where the loop polls: one open socket, [tr] the traffic so far; the liveness counter
    counts down from three, the interval is the next sleep; no heartbeat is due. *)
Record pinv k silent fails cyc (tr : list (nat * list (list Z))) (ns : list Z) s : Prop := {
  pi_worker : worker s = k;
  pi_socket : one_socket k (ctx s);
  pi_silent : (silent < 3)%nat;
  pi_live : liveness s = 3 - Z.of_nat silent;
  pi_interval : interval s = backoff fails;
  pi_cycles : cycles s = Z.of_nat cyc;
  pi_traffic : traffic (sent (ctx s)) = tr;
  pi_naps : naps s = ns;
}.

Definition not_due s : Prop := exists n, ticks s = S n /\ clock n <= heartbeat_at s.

Lemma pp_u64_small z : 0 <= z < 2 ^ 64 -> u64 z = z.
Proof. apply Z.mod_small. Qed.

Lemma backoff_range n : 1000 <= backoff n <= INTERVAL_MAX.
Proof.
  unfold backoff, INTERVAL_INIT, INTERVAL_MAX. pose proof (Z.pow_pos_nonneg 2 (Z.of_nat n)). lia.
Qed.

Lemma backoff_succ n : (if backoff n <? INTERVAL_MAX then u64 (backoff n * 2) else backoff n) = backoff (S n).
Proof.
  pose proof (backoff_range n) as Hr. unfold backoff, INTERVAL_INIT, INTERVAL_MAX in *.
  rewrite Nat2Z.inj_succ, Z.pow_succ_r by lia. set (p := 2 ^ Z.of_nat n) in *.
  assert (Hdiv : p < 32 -> p <= 16).
  { unfold p. intros H. assert (Z.of_nat n < 5) by (apply (Z.pow_lt_mono_r_iff 2); lia).
    change 16 with (2 ^ 4). apply Z.pow_le_mono_r; lia. }
  destruct (Z.ltb_spec (Z.min (1000 * p) 32000) 32000).
  - rewrite pp_u64_small by lia. lia.
  - lia.
Qed.

Lemma traffic_app tr tr' : traffic (tr ++ tr') = traffic tr ++ traffic tr'.
Proof. apply filter_app. Qed.

Lemma traffic_other tr k m : m <> [PPP_HEARTBEAT] -> traffic (tr ++ [(k, m)]) = traffic tr ++ [(k, m)].
Proof. intros Hm. rewrite traffic_app. unfold traffic at 2. by rewrite filter_cons_True. Qed.

Lemma traffic_beat tr k : traffic (tr ++ [(k, [PPP_HEARTBEAT])]) = traffic tr.
Proof. rewrite traffic_app. unfold traffic at 2. rewrite filter_cons_False by auto. by rewrite filter_nil, app_nil_r. Qed.

Lemma wp_pp_on_ctx {A} (c : M zctx A) (Q : A -> wstate -> Prop) s :
  wp c (fun a x => Q a (set_ctx x s)) (ctx s) -> wp (on_ctx c) Q s.
Proof. unfold wp, on_ctx. by destruct (c (ctx s)) as [[a x]| |]. Qed.

Lemma ppw_wp_pget (Q : wstate -> wstate -> Prop) s : Q s s -> wp get Q s.
Proof. done. Qed.

Lemma ppw_wp_pmodify f (Q : unit -> wstate -> Prop) s : Q tt (f s) -> wp (modify f) Q s.
Proof. done. Qed.

Lemma frame_send_ok k d (Q : unit -> wstate -> Prop) s :
  one_socket k (ctx s) -> Q tt (set_ctx (Ctx [k] (S k) (sent (ctx s) ++ [(k, [d])])) s) -> wp (frame_send k d) Q s.
Proof.
  intros Hs HQ. apply wp_pp_on_ctx. eapply wp_zsocket_send; [done|]. by rewrite frames_pushstr, frames_new.
Qed.

Lemma pp_beat_ok k silent fails cyc tr ns s :
  pinv k silent fails cyc tr ns s -> wp (beat clock) (fun _ s' => pinv k silent fails cyc tr ns s' /\ not_due s') s.
Proof.
  intros [Hw Hs Hl Hv Hi Hc Ht Hn]. unfold beat. wp_step. eapply wp_intro; [reflexivity|]. wp_step. apply ppw_wp_pget. simpl.
  pose proof (Hclock (ticks s)). rewrite pp_u64_small by lia. destruct (Z.ltb_spec (heartbeat_at s) (clock (ticks s))).
  - wp_step. eapply wp_intro; [reflexivity|]. wp_step. apply ppw_wp_pmodify. wp_step. apply ppw_wp_pget. simpl. rewrite Hw.
    eapply frame_send_ok; [done|]. simpl. split; [split; simpl; try done|].
    + by rewrite traffic_beat.
    + exists (S (ticks s)). simpl. split; [done|]. pose proof (Hclock (S (ticks s))). unfold HEARTBEAT_INTERVAL. rewrite pp_u64_small by lia. lia.
  - apply wp_ret. split; [by split|]. exists (ticks s). simpl. split; [done|lia].
Qed.

Lemma wp_close k (Q : unit -> zctx -> Prop) c : one_socket k c -> Q tt (Ctx [] (S k) (sent c)) -> wp (zsocket_destroy k) Q c.
Proof.
  intros [Hs Hn] HQ. unfold wp, zsocket_destroy. rewrite decide_True by (rewrite Hs; set_solver).
  rewrite Hs, Hn, filter_cons_False by auto. done.
Qed.

Lemma socket_ok k (Q : nat -> wstate -> Prop) s :
  sockets (ctx s) = [] -> next_socket (ctx s) = k ->
  Q k (set_ctx (Ctx [k] (S k) (sent (ctx s) ++ [(k, [PPP_READY])])) s) -> wp s_worker_socket Q s.
Proof.
  intros Hs Hn HQ. unfold s_worker_socket. wp_step. apply wp_pp_on_ctx. eapply wp_intro; [reflexivity|]. cbn beta. rewrite Hs, Hn. wp_step.
  by eapply frame_send_ok.
Qed.

Lemma pp_silent_ok k silent fails cyc tr ns s :
  pinv k silent fails cyc tr ns s ->
  wp silent_poll (fun _ s' =>
    if decide (silent = 2%nat) then pinv (S k) 0 (S fails) cyc (tr ++ [(S k, [PPP_READY])]) (ns ++ [backoff fails]) s'
    else pinv k (S silent) fails cyc tr ns s') s.
Proof.
  intros [Hw [Hs1 Hs2] Hl Hv Hi Hc Ht Hn]. unfold silent_poll. wp_step. apply ppw_wp_pget. rewrite Hv. rewrite pp_u64_small by lia. wp_step.
  apply ppw_wp_pmodify. destruct (decide (silent = 2%nat)) as [->|Hne]; simpl.
  - wp_step. apply ppw_wp_pget. simpl. wp_step. apply ppw_wp_pmodify. wp_step.
    eapply (wp_mono _ (fun _ s' => s' = set_interval (backoff (S fails)) _)).
    { rewrite Hi, <- backoff_succ. destruct (backoff fails <? INTERVAL_MAX); [by apply ppw_wp_pmodify|]. apply wp_ret. unfold set_interval. simpl.
      rewrite <- Hi. reflexivity. }
    intros u s' ->. wp_step. rewrite Hw. apply wp_pp_on_ctx. simpl. apply wp_close; [done|].
    wp_step. eapply socket_ok; [reflexivity|reflexivity|]. simpl. wp_step. apply ppw_wp_pmodify. apply ppw_wp_pmodify. split; simpl; try done.
    + lia.
    + by rewrite traffic_other, Ht by done.
    + by rewrite Hn.
  - rewrite (proj2 (Z.eqb_neq _ _)) by lia. apply wp_ret. split; simpl; try done; lia.
Qed.

(** A run that has come to [o]. *)
Definition reached (tr : list (nat * list (list Z))) (ns : list Z) (o : outcome_of) (go : bool) s : Prop :=
  go = o.2 /\ traffic (sent (ctx s)) = tr ++ o.1.1 /\ naps s = ns ++ o.1.2 /\
  (go = true -> (exists k, one_socket k (ctx s)) /\ not_due s).

Lemma ppw_request_ok k silent fails cyc tr ns m r1 r2 i1 i2 ds s :
  pinv k silent fails cyc tr ns s -> zmsg_frames m = ds -> ds <> [PPP_HEARTBEAT] -> Z.of_nat cyc < INT_MAX ->
  wp (request m r1 r2 i1 i2) (fun go s' =>
    if decide ((3 <= cyc)%nat /\ (r1 = 0 \/ r2 = 0 /\ i1 = true)) then go = false /\ ctx s' = ctx s /\ naps s' = naps s
    else go = negb i2 /\ pinv k 0 fails (S cyc) (tr ++ [(k, ds)]) ns s') s.
Proof.
  intros [Hw Hs Hl Hv Hi Hc Ht Hn] Hm Hds Hr. unfold request. wp_step. apply ppw_wp_pget. rewrite Hc. wp_step.
  apply wp_int_of; [unfold INT_MIN, INT_MAX in *; lia|]. wp_step. apply ppw_wp_pmodify.
  assert (H3 : (3 <? Z.of_nat cyc + 1) = bool_decide (3 <= cyc)%nat) by (case_bool_decide; lia). rewrite H3.
  destruct (decide _) as [[Hc3 Hd]|Hd].
  - rewrite bool_decide_true by done. simpl. destruct Hd as [->|[-> ->]]; simpl; [done|]. by destruct (r1 =? 0).
  - replace (bool_decide (3 <= cyc)%nat && (r1 =? 0)) with false
      by (symmetry; apply andb_false_iff; destruct (Z.eqb_spec r1 0); [|by right]; left; case_bool_decide; tauto).
    replace (bool_decide (3 <= cyc)%nat && (r2 =? 0) && i1) with false
      by (destruct (Z.eqb_spec r2 0), i1; case_bool_decide; simpl; tauto).
    wp_step. apply ppw_wp_pget. simpl. rewrite Hw. wp_step. apply wp_pp_on_ctx. eapply wp_zsocket_send; [done|]. wp_step. apply ppw_wp_pmodify.
    apply wp_ret. split; [done|]. split; simpl; try done; [lia|lia|]. by rewrite traffic_other, Ht, Hm by (by rewrite Hm).
Qed.

(** A message other than a request. *)
Lemma other_ok k silent fails cyc tr ns m s d :
  pinv k silent fails cyc tr ns s -> zmsg_frames m = [d] -> d <> [] ->
  wp (frame ← frame_arg (zmsg_first m);
      match zframe_data frame with
      | [] => throw OutOfBounds
      | b :: _ =>
          _ ← (if bool_decide ([b] = PPP_HEARTBEAT) then modify (set_liveness HEARTBEAT_LIVENESS) else mret tt);
          mret true
      end)
    (fun go s' => go = true /\ pinv k (if decide (head d = Some 2) then 0%nat else silent) fails cyc tr ns s') s.
Proof.
  intros [Hw Hs Hl Hv Hi Hc Ht Hn] Hm Hd. wp_step. pose proof (frames_first m) as Hf. rewrite Hm in Hf.
  destruct (zmsg_first m) as [f|]; [|done]. simpl in Hf. injection Hf as Hf. apply wp_ret. rewrite Hf.
  destruct d as [|b d]; [done|]. wp_step. unfold PPP_HEARTBEAT. simpl.
  destruct (decide (Some b = Some 2)) as [Hb|Hb]; [rewrite bool_decide_true by congruence|rewrite bool_decide_false by congruence].
  - apply ppw_wp_pmodify, wp_ret. split; [done|]. by split; simpl; try lia.
  - by do 2 apply wp_ret.
Qed.

Lemma pinv_interval k silent fails cyc tr ns s :
  pinv k silent fails cyc tr ns s -> pinv k silent 0 cyc tr ns (set_interval INTERVAL_INIT s).
Proof. intros [Hw Hs Hl Hv Hi Hc Ht Hn]. by split. Qed.

Lemma say_reached tr ns x o go s : reached (tr ++ [x]) ns o go s -> reached tr ns (say x o) go s.
Proof. intros (H1 & H2 & H3). split; [done|]. by rewrite H2, <- app_assoc. Qed.

Lemma nap_reached tr ns x o go s : reached tr (ns ++ [x]) o go s -> reached tr ns (nap x o) go s.
Proof. intros (H1 & H2 & H3 & H4). split; [done|]. split; [done|]. by rewrite H3, <- app_assoc. Qed.

Lemma wloop_ok es : forall k silent fails cyc tr ns s,
  Forall no_empty es -> Z.of_nat (cyc + length es) <= INT_MAX -> pinv k silent fails cyc tr ns s -> not_due s ->
  wp (wloop clock es) (reached tr ns (pirate_spec k silent fails cyc es)) s.
Proof.
  assert (Hstop : forall tr ns s s', traffic (sent (ctx s)) = tr -> naps s = ns -> ctx s' = ctx s -> naps s' = naps s ->
    reached tr ns ([], [], false) false s').
  { intros tr ns s s' <- <- E1 E2. unfold reached. simpl. by rewrite E1, E2, !app_nil_r. }
  induction es as [|e es IH]; intros k silent fails cyc tr ns s Hne Hr Hp Hd; simpl in Hr.
  { apply wp_ret. destruct Hp as [Hw Hs Hl Hv Hi Hc Ht Hn]. split; [done|]. rewrite !app_nil_r. eauto. }
  apply Forall_cons in Hne as [He Hne]. cbn [wloop]. wp_step. destruct e as [| | |m r1 r2 i1 i2]; cbn [wround pirate_spec].
  1,3: do 2 apply wp_ret; destruct Hp; by eapply Hstop.
  - wp_step. eapply wp_mono; [by apply pp_silent_ok|]. intros u s1 Hs1. wp_step. destruct (decide (silent = 2%nat)).
    + eapply wp_mono; [by eapply pp_beat_ok|]. intros u' s2 [Hs2 Hd2]. apply wp_ret. cbv iota.
      eapply wp_mono; [apply (IH (S k) 0%nat (S fails) cyc); [done|lia|exact Hs2|done]|]. intros go s3 Hs3. by apply nap_reached, say_reached.
    + eapply wp_mono; [by eapply pp_beat_ok|]. intros u' s2 [Hs2 Hd2]. apply wp_ret. cbv iota.
      apply (IH k (S silent) fails cyc); [done|lia|exact Hs2|done].
  - assert (Hgo : forall c cyc' tr' o, (cyc <= cyc' <= S cyc)%nat ->
      wp c (fun go s' => if go : bool then exists silent', pinv k silent' fails cyc' tr' ns s' /\
              (forall go s', reached tr' ns (pirate_spec k silent' 0 cyc' es) go s' -> reached tr ns o go s')
            else reached tr ns o false s') s ->
      wp (go ← (go ← c; if go : bool then _ ← modify (set_interval INTERVAL_INIT); mret true else mret false);
          if go : bool then _ ← beat clock; mret true else mret false)
        (fun go s' => wp (if go : bool then wloop clock es else mret false) (reached tr ns o) s') s).
    { intros c cyc' tr' o Hcyc Hcc. wp_step. wp_step. eapply wp_mono; [exact Hcc|]. intros [] s1; cbv iota.
      - intros (silent' & Hs1 & Ho). wp_step. apply ppw_wp_pmodify, wp_ret. wp_step.
        eapply wp_mono; [eapply pp_beat_ok, pinv_interval, Hs1|]. intros u s2 [Hs2 Hd2]. apply wp_ret.
        eapply wp_mono; [eapply (IH k silent' 0%nat cyc' tr' ns); [done|lia|done|done]|]. intros go s3. apply Ho.
      - intros Hs1. by do 3 apply wp_ret. }
    unfold got. rewrite frames_size. cbn [no_empty] in He. destruct (zmsg_frames m) as [|d1 [|d2 [|d3 [|d4 ds]]]] eqn:E; cbn [length Nat.eqb].
    1,3,5: apply (Hgo _ cyc tr); [lia|]; apply wp_ret; exists silent; by split.
    + apply (Hgo _ cyc tr); [lia|]. eapply wp_mono; [eapply other_ok; [exact Hp|exact E|congruence]|]. intros go s1 [-> Hs1]. cbv iota. eauto.
    + apply (Hgo _ (S cyc) (tr ++ [(k, [d1; d2; d3])])); [lia|]. eapply wp_mono; [eapply ppw_request_ok; [exact Hp|exact E|done|lia]|].
      intros go s1. case_decide as Hd3.
      * intros (-> & H1 & H2). destruct Hp. by eapply Hstop.
      * intros [-> Hs1]. destruct i2; simpl.
        -- apply say_reached. destruct Hs1. by eapply Hstop.
        -- exists 0%nat. split; [done|]. intros go s'. apply say_reached.
Qed.

(** Nothing is heard for [n] times three polls. *)
Lemma pirate_silence n : forall k fails cyc,
  (pirate_spec k 0 fails cyc (replicate (3 * n) WSilent)).1.2 = backoff <$> seq fails n.
Proof.
  induction n as [|n IH]; intros k fails cyc; [done|]. replace (3 * S n)%nat with (S (S (S (3 * n)))) by lia.
  cbn [replicate pirate_spec]. rewrite decide_False, decide_False, decide_True by done. simpl. f_equal. apply IH.
Qed.

(** C15: over any run the paranoid pirate worker never faults, has one socket open at a
    time, and is late with no heartbeat when it polls; but for the heartbeats the queue
    sees what [pirate_spec] says: every request is sent back, READY is the first message
    on each socket, and the socket is renewed at the third poll in a row without news.
    The sleep before a reconnection doubles from 1 s to at most 32 s and is 1 s again
    after any message: in [3 * n] silent polls the worker sleeps [n] times. *)
Theorem ppworker_correct es :
  Forall no_empty es -> Z.of_nat (length es) <= INT_MAX ->
  let o := pirate_spec 0 0 0 0 es in
  wp (ppworker_main clock es) (fun polling s =>
    polling = o.2 /\ traffic (sent (ctx s)) = (0%nat, [PPP_READY]) :: o.1.1 /\ naps s = o.1.2 /\
    if polling then (exists k, one_socket k (ctx s)) /\ not_due s else sockets (ctx s) = [])
    (WState zctx_new 0 0 0 0 0 [] 0) /\
  (forall n, es = replicate (3 * n) WSilent -> o.1.2 = backoff <$> seq 0 n).
Proof.
  intros Hne Hr o. split; [|intros n ->; apply pirate_silence]. unfold ppworker_main. wp_step.
  eapply socket_ok; [reflexivity|reflexivity|]. wp_step. apply ppw_wp_pmodify. wp_step. eapply wp_intro; [reflexivity|]. wp_step.
  apply ppw_wp_pmodify. simpl. wp_step. pose proof (Hclock 0).
  eapply wp_mono; [apply (wloop_ok es 0 0 0 0 [(0%nat, [PPP_READY])] [] _ Hne); [simpl; lia| |]|].
  - split; simpl; try done; lia.
  - exists 0%nat. simpl. split; [done|]. unfold HEARTBEAT_INTERVAL. rewrite pp_u64_small by lia. lia.
  - fold o. intros polling s (H1 & H2 & H3 & H4). destruct polling.
    + apply wp_ret. split_and!; try done; by apply H4.
    + wp_step. apply wp_pp_on_ctx. eapply wp_intro; [reflexivity|]. by apply wp_ret.
Qed.

End spec.

(** A request is answered, three polls bring nothing, the queue is heard again. *)
Definition ex_wevents : list (@wevent plain_czmq) :=
  [WGot ([[9]; []; [5]] : @zmsg plain_czmq) 1 1 false false; WSilent; WSilent; WSilent; WSilent;
   WGot ([[2]] : @zmsg plain_czmq) 1 1 false false; WSilent; WPollError].

Lemma ppworker_correct_witness :
  wp (ppworker_main (fun n => Z.of_nat n mod 1000) ex_wevents) (fun polling s => polling = false /\
    traffic (sent (ctx s)) = [(0%nat, [[1]]); (0%nat, [[9]; []; [5]]); (1%nat, [[1]])] /\ naps s = [1000] /\ sockets (ctx s) = [])
    (WState zctx_new 0 0 0 0 0 [] 0).
Proof.
  destruct (@ppworker_correct plain_czmq plain_czmq_laws (fun n => Z.of_nat n mod 1000)) with (es := ex_wevents) as [H _].
  - intros n. pose proof (Z.mod_pos_bound (Z.of_nat n) 1000). lia.
  - repeat constructor; discriminate.
  - vm_compute. discriminate.
  - eapply wp_mono; [exact H|]. intros polling s (Hp & H2 & H3 & H4). rewrite H2, H3.
    assert (polling = false) as -> by (rewrite Hp; reflexivity).
    split; [reflexivity|]. split; [vm_compute; reflexivity|]. split; [vm_compute; reflexivity|exact H4].
Defined.
