(* ===== verification/Zhelpers.v ===== *)
(** * The helpers of the zeromq samples: [src/lib/zeromq/zhelpers.h]

    Random numbers, strings over sockets, the dump of a message, sleeping and the
    clock (the branches for systems other than Windows).  What the system's calls
    return are arguments. *)

From stdpp Require Import prelude list.
From Stdlib Require Import ZArith Lia.
From S2P Require Import Prelude Text.

(** ** [randof] *)

(** The [float] next to an integer [z >= 0]: 24 significant bits, ties to even. *)
Definition to_float (z : Z) : Z :=
  let e := Z.log2 z - 23 in
  if e <=? 0 then z
  else
    let q := z / 2 ^ e in
    let r := z mod 2 ^ e in
    if (2 ^ (e - 1) <? r) || ((r =? 2 ^ (e - 1)) && Z.odd q) then (q + 1) * 2 ^ e else q * 2 ^ e.

Definition RAND_MAX : Z := 2 ^ 31 - 1.

(** [(int) ((float) (num) * random () / (RAND_MAX + 1.0))]: the product is a [float]
    (with [FLT_EVAL_METHOD] 0), the quotient a [double], by a power of two and so exact. *)
Definition randof (num random : Z) : Z := to_float (to_float num * to_float random) / 2 ^ 31.

(** Rounding stays within half of the last place. *)
Lemma to_float_near z : 0 <= z -> to_float z <= z + 2 ^ (Z.log2 z - 24) \/ to_float z = z.
Proof.
  intros Hz. unfold to_float. destruct (Z.leb_spec (Z.log2 z - 23) 0); [by right|left].
  set (e := Z.log2 z - 23) in *. replace (Z.log2 z - 24) with (e - 1) by lia.
  assert (Hp : 2 ^ e = 2 * 2 ^ (e - 1)) by (rewrite <- Z.pow_succ_r by lia; f_equal; lia).
  pose proof (Z.pow_pos_nonneg 2 (e - 1) ltac:(lia) ltac:(lia)).
  pose proof (Z.div_mod z (2 ^ e) ltac:(lia)). pose proof (Z.mod_pos_bound z (2 ^ e) ltac:(lia)).
  destruct (_ || _) eqn:E; [|nia]. apply orb_true_iff in E as [E%Z.ltb_lt|[E%Z.eqb_eq _]%andb_true_iff]; nia.
Qed.

Lemma to_float_nonneg z : 0 <= z -> 0 <= to_float z.
Proof.
  intros Hz. unfold to_float. destruct (Z.leb_spec (Z.log2 z - 23) 0); [done|]. set (e := Z.log2 z - 23) in *.
  pose proof (Z.pow_pos_nonneg 2 e ltac:(lia) ltac:(lia)). pose proof (Z.div_pos z (2 ^ e) Hz ltac:(lia)).
  destruct (_ || _); nia.
Qed.

(** Rounding does not pass a multiple of the last place. *)
Lemma to_float_le z g : 0 <= z <= g -> (2 ^ Z.max 0 (Z.log2 z - 23) | g) -> to_float z <= g.
Proof.
  intros Hz [k Hk]. unfold to_float. destruct (Z.leb_spec (Z.log2 z - 23) 0); [lia|]. rewrite Z.max_r in Hk by lia. set (e := Z.log2 z - 23) in *.
  pose proof (Z.pow_pos_nonneg 2 e ltac:(lia) ltac:(lia)).
  pose proof (Z.div_mod z (2 ^ e) ltac:(lia)). pose proof (Z.mod_pos_bound z (2 ^ e) ltac:(lia)).
  pose proof (Z.pow_pos_nonneg 2 (e - 1) ltac:(lia) ltac:(lia)).
  destruct (_ || _) eqn:E; [|nia]. assert (z mod 2 ^ e <> 0).
  { apply orb_true_iff in E as [E%Z.ltb_lt|[E%Z.eqb_eq _]%andb_true_iff]; lia. }
  assert (z <> g) by (intros ->; rewrite Hk, Z.mod_mul in *; lia).
  assert (z / 2 ^ e < k) by (apply Z.div_lt_upper_bound; lia). nia.
Qed.

Lemma to_float_exact z : 0 <= z -> (2 ^ Z.max 0 (Z.log2 z - 23) | z) -> to_float z = z.
Proof.
  intros Hz [k Hk]. unfold to_float. destruct (Z.leb_spec (Z.log2 z - 23) 0); [done|]. rewrite Z.max_r in Hk by lia.
  set (e := Z.log2 z - 23) in *. pose proof (Z.pow_pos_nonneg 2 (e - 1) ltac:(lia) ltac:(lia)). pose proof (Z.pow_pos_nonneg 2 e ltac:(lia) ltac:(lia)).
  assert (z / 2 ^ e = k) as -> by (rewrite Hk; apply Z.div_mul; lia). assert (z mod 2 ^ e = 0) as -> by (rewrite Hk; apply Z.mod_mul; lia).
  rewrite (proj2 (Z.ltb_ge _ _)), (proj2 (Z.eqb_neq _ _)) by lia. simpl. lia.
Qed.

Lemma log2_lt z n : 0 <= n -> 0 <= z < 2 ^ n -> Z.log2 z < n \/ z = 0.
Proof. intros Hn Hz. destruct (decide (z = 0)); [by right|]. left. apply Z.log2_lt_pow2; lia. Qed.

Lemma pow2_divide a b : 0 <= a <= b -> (2 ^ a | 2 ^ b).
Proof. intros H. exists (2 ^ (b - a)). rewrite <- Z.pow_add_r by lia. f_equal. lia. Qed.

Lemma to_float_small z : 0 <= z < 2 ^ 24 -> to_float z = z.
Proof.
  intros Hz. unfold to_float. destruct (log2_lt z 24) as [H| ->]; [lia|lia| |done].
  by rewrite (proj2 (Z.leb_le _ _)) by lia.
Qed.

(** The values of [random] from [RAND_MAX - 127] on are rounded to [RAND_MAX + 1] or to
    [RAND_MAX - 127]. *)
Lemma to_float_top r : 2 ^ 31 - 128 <= r < 2 ^ 31 ->
  to_float r = if r <? 2 ^ 31 - 64 then 2 ^ 31 - 128 else 2 ^ 31.
Proof.
  intros Hr. unfold to_float. assert (Z.log2 r - 23 = 7) as -> by (rewrite (Z.log2_unique r 30); lia). simpl (7 <=? 0). cbv iota zeta.
  assert (r / 2 ^ 7 = 2 ^ 24 - 1) as -> by (symmetry; apply (Z.div_unique_pos _ _ _ (r - (2 ^ 31 - 128))); lia).
  assert (r mod 2 ^ 7 = r - (2 ^ 31 - 128)) as -> by (symmetry; apply (Z.mod_unique_pos _ _ (2 ^ 24 - 1)); lia).
  change (Z.odd (2 ^ 24 - 1)) with true. rewrite andb_true_r.
  destruct (Z.ltb_spec (2 ^ (7 - 1)) (r - (2 ^ 31 - 128))), (Z.eqb_spec (r - (2 ^ 31 - 128)) (2 ^ (7 - 1))), (Z.ltb_spec r (2 ^ 31 - 64)); simpl; lia.
Qed.

Lemma random_float r : 0 <= r <= RAND_MAX ->
  to_float r = 2 ^ 31 /\ 2 ^ 31 - 64 <= r \/ 0 <= to_float r <= 2 ^ 31 - 128 /\ r < 2 ^ 31 - 64.
Proof.
  unfold RAND_MAX. intros Hr. destruct (Z.le_gt_cases (2 ^ 31 - 128) r) as [Hbig|Hsmall].
  - rewrite to_float_top by lia. destruct (Z.ltb_spec r (2 ^ 31 - 64)); lia.
  - right. split; [|lia]. split; [apply to_float_nonneg; lia|]. apply to_float_le; [lia|]. replace (2 ^ 31 - 128) with ((2 ^ 24 - 1) * 2 ^ 7) by done.
    apply Z.divide_mul_r, pow2_divide. destruct (log2_lt r 31) as [H| ->]; [lia|lia|lia|simpl; lia].
Qed.

(** [randof(num)] is, for every value of [random], between 0 and [num]; it is [num]
    itself exactly for the 64 largest values, whose conversion to [float] rounds up. *)
Lemma randof_spec num r :
  0 < num < 2 ^ 24 -> 0 <= r <= RAND_MAX ->
  0 <= randof num r <= num /\ (randof num r = num <-> 2 ^ 31 - 64 <= r).
Proof.
  intros Hn Hr. unfold randof. rewrite (to_float_small num) by lia.
  assert (Hlog : forall z, 0 <= z <= num * 2 ^ 31 -> Z.log2 z <= 31 + Z.log2 num).
  { intros z Hz. destruct (decide (z = 0)) as [->|]; [simpl; pose proof (Z.log2_nonneg num); lia|].
    rewrite <- Z.log2_mul_pow2 by lia. apply Z.log2_le_mono. lia. }
  assert (Hn2 : Z.log2 num < 24) by (apply Z.log2_lt_pow2; lia). pose proof (Z.log2_nonneg num).
  assert (Hup : forall z, 0 <= z <= num * 2 ^ 31 -> 0 <= to_float z <= num * 2 ^ 31).
  { intros z Hz. split; [apply to_float_nonneg; lia|]. apply to_float_le; [done|]. apply Z.divide_mul_r, pow2_divide. specialize (Hlog z Hz). lia. }
  destruct (random_float r Hr) as [[-> Hb]|[Hf Hs]].
  - pose proof (Hup (num * 2 ^ 31) ltac:(lia)) as H1. assert (E : to_float (num * 2 ^ 31) = num * 2 ^ 31).
    { apply to_float_exact; [lia|]. apply Z.divide_mul_r, pow2_divide. pose proof (Hlog (num * 2 ^ 31) ltac:(lia)). lia. }
    rewrite E, Z.div_mul by done. lia.
  - set (z := num * to_float r) in *. assert (Hz : 0 <= z <= num * (2 ^ 31 - 128)) by nia. pose proof (Hup z ltac:(lia)) as H1.
    assert (Hlt : to_float z < num * 2 ^ 31).
    { destruct (to_float_near z ltac:(lia)) as [Hh|Hh]; [|lia].
      assert (2 ^ (Z.log2 z - 24) < 128 * num); [|lia]. pose proof (Z.log2_spec num ltac:(lia)) as [Hl _].
      destruct (decide (2 ^ Z.log2 num = num)) as [Ep|Ep].
      - assert (Hz30 : Z.log2 z <= 30 + Z.log2 num).
        { destruct (log2_lt z (31 + Z.log2 num)) as [Hlz| ->]; [lia| |lia|simpl; lia]. rewrite Z.pow_add_r by lia. lia. }
        pose proof (Z.pow_le_mono_r 2 (Z.log2 z - 24) (6 + Z.log2 num) ltac:(lia) ltac:(lia)) as Hp. rewrite Z.pow_add_r in Hp by lia. lia.
      - pose proof (Hlog z ltac:(lia)). pose proof (Z.pow_le_mono_r 2 (Z.log2 z - 24) (7 + Z.log2 num) ltac:(lia) ltac:(lia)) as Hp.
        rewrite Z.pow_add_r in Hp by lia. lia. }
    pose proof (Z.div_pos (to_float z) (2 ^ 31) ltac:(lia) ltac:(lia)).
    assert (to_float z / 2 ^ 31 < num) by (apply Z.div_lt_upper_bound; lia). lia.
Qed.

(** C32: [randof(num)] is, for every value of [random], between 0 and [num], and so one
    more than the comment on it says: it is [num] itself for the 64 largest values, whose
    conversion to [float] rounds up, and for no other. *)
Theorem randof_range num r :
  0 < num < 2 ^ 24 -> 0 <= r <= RAND_MAX ->
  0 <= randof num r <= num /\ (randof num r = num <-> 2 ^ 31 - 64 <= r).
Proof. apply randof_spec. Qed.

Lemma randof_range_witness : randof 5 (2 ^ 31 - 64) = 5 /\ randof 5 (2 ^ 31 - 65) <> 5.
Proof.
  destruct (randof_range 5 (2 ^ 31 - 64)) as [_ H]; [lia|unfold RAND_MAX; lia|].
  destruct (randof_range 5 (2 ^ 31 - 65)) as [_ H']; [lia|unfold RAND_MAX; lia|]. split; [apply H; lia|]. intros E%H'. lia.
Defined.

(** ** Strings over sockets *)

(** The message a C string is sent as: [memory] from the address on. *)
Definition s_send (memory : list Z) : list Z := cstr memory.

(** The same, with the flag [ZMQ_SNDMORE]. *)
Definition s_sendmore (memory : list Z) : list Z * bool := (cstr memory, true).

(** [zmq_recv] into the 256 bytes [buffer] gives -1 ([None]) or a message, of which 255
    bytes are copied. *)
Definition s_recv (buffer : list Z) (received : option (list Z)) : option (list Z) :=
  match received with
  | None => None
  | Some m =>
      let buffer := take 255 m ++ drop (length (take 255 m)) buffer in
      let size := if (255 <? length m)%nat then 255%nat else length m in
      Some (cstr (<[size := 0]> buffer))
  end.

Lemma cstr_no_nul s rest : 0 ∉ s -> cstr (s ++ 0 :: rest) = s.
Proof.
  induction s as [|c s IH]; intros Hn; [done|]. simpl. rewrite (proj2 (Z.eqb_neq _ _)) by set_solver. by rewrite IH by set_solver.
Qed.

Lemma s_recv_ok buffer m : length buffer = 256%nat -> 0 ∉ m -> s_recv buffer (Some m) = Some (take 255 m).
Proof.
  intros Hb Hm. unfold s_recv. f_equal.
  assert (Hs : (if (255 <? length m)%nat then 255%nat else length m) = (length (take 255 m) + 0)%nat)
    by (rewrite length_take; destruct (Nat.ltb_spec 255 (length m)); lia).
  rewrite Hs, insert_app_r. destruct (drop (length (take 255 m)) buffer) as [|c rest] eqn:E.
  - apply (f_equal length) in E. rewrite length_drop, length_take in E. cbn [length] in E. lia.
  - simpl. apply cstr_no_nul. intros H. apply Hm. eapply elem_of_submseteq; [exact H|]. apply sublist_submseteq, sublist_take.
Qed.

(** ** [s_dump] *)

Definition is_text (data : list Z) : bool := forallb (fun c => (32 <=? c) && (c <=? 126)) data.

(** [printf ("[%03d] ", size)] and the bytes *)
Definition dump_line (data : list Z) : list Z :=
  [91] ++ fmt_d 3 (Z.of_nat (length data)) ++ [93; SPACE] ++ (if is_text data then data else data ≫= fmt_X 2).

Definition dump_part (data : list Z) : list Z := dump_line data ++ [NEWLINE].

(** [puts] of 40 dashes *)
Definition RULE : list Z := replicate 40 MINUS ++ [NEWLINE].

(** What [zmq_msg_recv] and then [zmq_msg_more] give, part by part; [NoFuel]: the call
    still waits for a part. *)
Fixpoint dump_parts (rs : list (option (list Z) * bool)) : outcome (list Z) :=
  match rs with
  | [] => NoFuel
  | (None, _) :: _ => Err AssertFailed
  | (Some data, more) :: rs =>
      if more : bool then out ← dump_parts rs; Ok (dump_part data ++ out) else Ok (dump_part data)
  end.

Definition s_dump (rs : list (option (list Z) * bool)) : outcome (list Z) :=
  out ← dump_parts rs; Ok (RULE ++ out).

(** A message arrives as its parts, all but the last followed by more. *)
Fixpoint parts (data : list Z) (ds : list (list Z)) : list (option (list Z) * bool) :=
  match ds with [] => [(Some data, false)] | d :: ds => (Some data, true) :: parts d ds end.

Lemma dump_parts_ok ds : forall d, dump_parts (parts d ds) = Ok (concat (dump_part <$> d :: ds)).
Proof.
  induction ds as [|d' ds IH]; intros d; simpl; [by rewrite app_nil_r|]. by rewrite IH.
Qed.

(** Texts that end at the first [c]. *)
Lemma until_inj (c : Z) a b x y : c ∉ a -> c ∉ b -> a ++ c :: x = b ++ c :: y -> a = b /\ x = y.
Proof.
  revert b. induction a as [|u a IH]; intros [|v b] Ha Hb E; simplify_eq/=; [done|set_solver..|].
  destruct (IH b) as [-> ->]; [set_solver..|done|done].
Qed.

Lemma fmt_X_range w z : 0 <= z -> Forall (fun c => 48 <= c <= 70) (fmt_X w z).
Proof.
  intros Hz. apply Forall_fmap. eapply Forall_impl; [apply (pad_range 16 ltac:(lia) w _ (digits_range 16 ltac:(lia) z Hz))|].
  intros d Hd. unfold digit_char. simpl in *. destruct (Z.ltb_spec d 10); lia.
Qed.

Lemma fmt_X_inj w z z' : 0 <= z -> 0 <= z' -> fmt_X w z = fmt_X w z' -> z = z'.
Proof.
  intros Hz Hz' E. unfold fmt_X in E.
  assert (E' : pad w (digits 16 z) = pad w (digits 16 z')).
  { pose proof (pad_range 16 ltac:(lia) w _ (digits_range 16 ltac:(lia) z Hz)) as F1.
    pose proof (pad_range 16 ltac:(lia) w _ (digits_range 16 ltac:(lia) z' Hz')) as F2.
    revert E F1 F2. generalize (pad w (digits 16 z)) (pad w (digits 16 z')). intros l. induction l as [|d l IH]; intros [|d' l'] E F1 F2; try done.
    simpl in E. injection E as Ed E. apply Forall_cons in F1 as [H1 F1]. apply Forall_cons in F2 as [H2 F2].
    rewrite (digit_char_inj d d') by done. by rewrite (IH l'). }
  rewrite <- (number_digits 16 ltac:(lia) z Hz), <- (number_pad 16 w), E', number_pad. by apply number_digits.
Qed.

Definition byte (c : Z) : Prop := 0 <= c < 256.

Lemma hex_length data : Forall byte data -> length (data ≫= fmt_X 2) = (2 * length data)%nat.
Proof.
  induction 1 as [|c data Hc HF IH]; [done|]. rewrite bind_cons, length_app, IH, length_fmt_X; [simpl; lia|exact Hc|lia].
Qed.

Lemma hex_inj data data' : Forall byte data -> Forall byte data' -> data ≫= fmt_X 2 = data' ≫= fmt_X 2 -> data = data'.
Proof.
  intros HF. revert data'. induction HF as [|c data Hc HF IH]; intros [|c' data'] HF' E.
  - done.
  - apply (f_equal length) in E. rewrite (hex_length _ HF') in E. simpl in E. lia.
  - apply (f_equal length) in E. rewrite (hex_length (c :: data)) in E by (by constructor). simpl in E. lia.
  - apply Forall_cons in HF' as [Hc' HF']. rewrite !bind_cons in E. apply app_inj_1 in E as [E1 E2].
    + apply fmt_X_inj in E1 as ->; [|unfold byte in *; lia..]. by rewrite (IH data').
    + by rewrite !length_fmt_X by (done || lia).
Qed.

Lemma is_text_range data : is_text data = true -> Forall (fun c => 32 <= c <= 126) data.
Proof.
  unfold is_text. intros H. apply Forall_forall. intros c Hc. apply forallb_forall with (x := c) in H; [|by apply list_elem_of_In].
  apply andb_true_iff in H as [H1%Z.leb_le H2%Z.leb_le]. lia.
Qed.

Lemma not_in_range (P : Z -> Prop) l c : Forall P l -> ~ P c -> c ∉ l.
Proof. intros HF Hn Hc. eapply Forall_forall in HF; [|exact Hc]. done. Qed.

Lemma no_newline data : Forall byte data -> NEWLINE ∉ dump_line data.
Proof.
  intros HF. unfold dump_line. rewrite !elem_of_app. unfold NEWLINE, SPACE. intros [H|[H|[H|H]]]; [set_solver| |set_solver|].
  - by apply not_in_range with (1 := fmt_d_chars _ _) in H; [|lia].
  - destruct (is_text data) eqn:E; [by eapply not_in_range with (1 := is_text_range _ E) in H; [|lia]|].
    apply list_elem_of_bind in H as (c & H & Hc). eapply Forall_forall in HF; [|exact Hc].
    by apply not_in_range with (1 := fmt_X_range 2 c ltac:(unfold byte in HF; lia)) in H; [|lia].
Qed.

Lemma dump_part_inj d d' x y : Forall byte d -> Forall byte d' -> dump_part d ++ x = dump_part d' ++ y -> d = d' /\ x = y.
Proof.
  intros HF HF' E. unfold dump_part in E. rewrite <- !(app_assoc (dump_line _)) in E. cbn [app] in E.
  apply until_inj in E as [E ->]; [|by apply no_newline..]. split; [|done]. unfold dump_line in E. injection E as E.
  apply until_inj in E as [En E]; [|apply (not_in_range _ _ _ (fmt_d_chars _ _)); lia..].
  apply fmt_d_inj, Nat2Z.inj in En. injection E as E.
  destruct (is_text d) eqn:T, (is_text d') eqn:T'; [done| | |by apply hex_inj].
  - rewrite E, (hex_length d' HF') in En. destruct d'; [done|simpl in En; lia].
  - rewrite <- E, (hex_length d HF) in En. destruct d; [done|simpl in En; lia].
Qed.

Lemma dump_concat_inj ds : forall ds', Forall (Forall byte) ds -> Forall (Forall byte) ds' ->
  concat (dump_part <$> ds) = concat (dump_part <$> ds') -> ds = ds'.
Proof.
  assert (Hne : forall d x, dump_part d ++ x <> []) by done.
  induction ds as [|d ds IH]; intros [|d' ds'] HF HF' E; [done|simpl in E; by destruct (Hne d' (concat (dump_part <$> ds')))|
    simpl in E; by destruct (Hne d (concat (dump_part <$> ds)))|].
  apply Forall_cons in HF as [Hd HF]. apply Forall_cons in HF' as [Hd' HF']. simpl in E.
  apply dump_part_inj in E as [-> E]; [|done..]. f_equal. by apply IH.
Qed.

(** [s_recv] returns the first 255 characters of the string [s_send] was given,
    whatever is in its buffer; [s_dump] prints every message, and no two messages the
    same: the text shows the parts and the bytes of each. *)
Theorem zhelpers_strings buffer memory d ds d' ds' :
  length buffer = 256%nat -> Forall (Forall byte) (d :: ds) -> Forall (Forall byte) (d' :: ds') ->
  s_recv buffer (Some (s_send memory)) = Some (take 255 (cstr memory)) /\
  (exists out, s_dump (parts d ds) = Ok out) /\
  (s_dump (parts d ds) = s_dump (parts d' ds') -> d :: ds = d' :: ds').
Proof.
  intros Hb HF HF'. assert (Hc : forall m, 0 ∉ cstr m).
  { induction m as [|c m IH]; simpl; [set_solver|]. destruct (Z.eqb_spec c 0); set_solver. }
  split; [by apply s_recv_ok|]. unfold s_dump. rewrite !dump_parts_ok. split; [by eexists|].
  unfold mbind, outcome_bind. intros E. assert (E' : RULE ++ concat (dump_part <$> d :: ds) = RULE ++ concat (dump_part <$> d' :: ds')) by congruence.
  apply app_inv_head in E'. by apply dump_concat_inj.
Qed.

Lemma zhelpers_strings_witness :
  s_recv (replicate 256 7) (Some (s_send [104; 105; 0; 9])) = Some [104; 105] /\
  (exists out, s_dump (parts [104; 105] [[200; 7]]) = Ok out) /\
  [104; 105] :: [[200; 7]] = ([104; 105] :: [[200; 7]] : list (list Z)).
Proof.
  destruct (zhelpers_strings (replicate 256 7) [104; 105; 0; 9] [104; 105] [[200; 7]] [104; 105] [[200; 7]]) as (H1 & H2 & H3).
  - reflexivity.
  - repeat constructor; unfold byte; lia.
  - repeat constructor; unfold byte; lia.
  - split; [rewrite H1; reflexivity|]. split; [exact H2|]. apply H3. reflexivity.
Defined.

(** ** [s_set_id] *)

(** [char identity [10]] *)
Definition s_set_id (random1 random2 : Z) : outcome (list Z) :=
  let identity := fmt_X 4 (randof 65536 random1) ++ [MINUS] ++ fmt_X 4 (randof 65536 random2) in
  if (length identity <? 10)%nat then Ok identity else Err OutOfBounds.

Lemma length_fmt_X_big : length (fmt_X 4 65536) = 5%nat.
Proof. reflexivity. Qed.

(** C33: [s_set_id] makes an identity of nine characters, from which both random numbers
    can be read, unless one of the two calls of [random] gives one of its 64 largest
    values: then it writes past the end of its buffer. *)
Theorem s_set_id_correct r1 r2 :
  0 <= r1 <= RAND_MAX -> 0 <= r2 <= RAND_MAX ->
  (r1 < 2 ^ 31 - 64 /\ r2 < 2 ^ 31 - 64 /\ exists id, s_set_id r1 r2 = Ok id /\ length id = 9%nat /\
    forall n1 n2, 0 <= n1 -> 0 <= n2 -> id = fmt_X 4 n1 ++ [MINUS] ++ fmt_X 4 n2 -> n1 = randof 65536 r1 /\ n2 = randof 65536 r2) \/
  ((2 ^ 31 - 64 <= r1 \/ 2 ^ 31 - 64 <= r2) /\ s_set_id r1 r2 = Err OutOfBounds).
Proof.
  intros Hr1 Hr2. destruct (randof_spec 65536 r1 ltac:(lia) Hr1) as [B1 E1]. destruct (randof_spec 65536 r2 ltac:(lia) Hr2) as [B2 E2].
  assert (Hl : forall r, 0 <= randof 65536 r <= 65536 -> length (fmt_X 4 (randof 65536 r)) = if decide (randof 65536 r = 65536) then 5%nat else 4%nat).
  { intros r B. case_decide as H; [by rewrite H, length_fmt_X_big|]. apply length_fmt_X; [change (16 ^ Z.of_nat 4) with 65536; lia|lia]. }
  unfold s_set_id. rewrite !length_app, (Hl r1 B1), (Hl r2 B2). simpl length.
  destruct (decide (randof 65536 r1 = 65536)) as [H1|H1]; [right; split; [left; by apply E1|by destruct (decide _)]|].
  destruct (decide (randof 65536 r2 = 65536)) as [H2|H2]; [right; split; [right; by apply E2|done]|].
  left. split; [destruct (Z.lt_ge_cases r1 (2 ^ 31 - 64)); [done|tauto]|]. split; [destruct (Z.lt_ge_cases r2 (2 ^ 31 - 64)); [done|tauto]|].
  eexists. split; [reflexivity|]. split.
  - rewrite !length_app, (Hl r1 B1), (Hl r2 B2), !decide_False by done. done.
  - intros n1 n2 Hn1 Hn2 E. assert (Hnm : forall n, 0 <= n -> MINUS ∉ fmt_X 4 n) by (intros n Hn; apply (not_in_range _ _ _ (fmt_X_range 4 n Hn)); unfold MINUS; lia).
    apply until_inj in E as [E3 E4]; [|apply Hnm; lia..]. apply fmt_X_inj in E3; [|lia..]. apply fmt_X_inj in E4; [|lia..]. done.
Qed.

Lemma s_set_id_correct_witness : s_set_id 5 (2 ^ 31 - 64) = Err OutOfBounds.
Proof.
  destruct (s_set_id_correct 5 (2 ^ 31 - 64)) as [(_ & H & _)|[_ H]]; [unfold RAND_MAX; lia|unfold RAND_MAX; lia|lia|exact H].
Defined.

(** ** [s_sleep] and [s_clock] *)

(** The [timespec] given to [nanosleep]. *)
Definition s_sleep (msecs : Z) : Z * Z := (msecs ÷ 1000, Z.rem msecs 1000 * 1000000).

(** From what [gettimeofday] gives. *)
Definition s_clock (tv_sec tv_usec : Z) : Z := tv_sec * 1000 + tv_usec ÷ 1000.

(** [nanosleep] takes the time asked for, and the clock counts milliseconds. *)
Lemma s_sleep_ok msecs : 0 <= msecs ->
  let '(sec, nsec) := s_sleep msecs in 0 <= sec /\ 0 <= nsec < 1000000000 /\ sec * 1000000000 + nsec = msecs * 1000000.
Proof.
  intros Hm. unfold s_sleep. rewrite Z.quot_div_nonneg, Z.rem_mod_nonneg by lia.
  pose proof (Z.div_mod msecs 1000). pose proof (Z.mod_pos_bound msecs 1000). pose proof (Z.div_pos msecs 1000). lia.
Qed.

Lemma s_clock_ok sec usec : 0 <= usec < 1000000 ->
  s_clock sec usec * 1000 <= sec * 1000000 + usec < (s_clock sec usec + 1) * 1000.
Proof.
  intros Hu. unfold s_clock. rewrite Z.quot_div_nonneg by lia. pose proof (Z.div_mod usec 1000). pose proof (Z.mod_pos_bound usec 1000). lia.
Qed.

(** ** [s_console] *)

(** What [localtime] gives. *)
Record tm := Tm { tm_year : Z; tm_mon : Z; tm_mday : Z; tm_hour : Z; tm_min : Z; tm_sec : Z }.

Definition COLON : Z := 58.

(** "%y-%m-%d %H:%M:%S " *)
Definition stamp (t : tm) : list Z :=
  fmt_d 2 (tm_year t mod 100) ++ [MINUS] ++ fmt_d 2 (tm_mon t + 1) ++ [MINUS] ++ fmt_d 2 (tm_mday t) ++ [SPACE] ++
  fmt_d 2 (tm_hour t) ++ [COLON] ++ fmt_d 2 (tm_min t) ++ [COLON] ++ fmt_d 2 (tm_sec t) ++ [SPACE].

(** The 20 bytes of [malloc] are uninitialised; [strftime] leaves them undefined when the
    text does not fit. *)
Definition s_console (t : tm) (text : list Z) : outcome (list Z) :=
  if (length (stamp t) <? 20)%nat then Ok (stamp t ++ text ++ [NEWLINE]) else Err Uninitialised.

(** The ranges of [struct tm], with a leap second. *)
Record is_tm (t : tm) : Prop := {
  tm_mon_ok : 0 <= tm_mon t <= 11;
  tm_mday_ok : 1 <= tm_mday t <= 31;
  tm_hour_ok : 0 <= tm_hour t <= 23;
  tm_min_ok : 0 <= tm_min t <= 59;
  tm_sec_ok : 0 <= tm_sec t <= 60
}.

Lemma length_fmt_d2 z : 0 <= z < 100 -> length (fmt_d 2 z) = 2%nat.
Proof.
  intros Hz. unfold fmt_d. rewrite (proj2 (Z.ltb_ge _ _)) by lia. rewrite length_fmap, length_pad.
  pose proof (length_digits 10 ltac:(lia) z 2 ltac:(simpl; lia) ltac:(lia)). lia.
Qed.

(** The date takes 18 of the 20 bytes: it always fits. *)
Lemma s_console_ok t text : is_tm t -> s_console t text = Ok (stamp t ++ text ++ [NEWLINE]) /\ length (stamp t) = 18%nat.
Proof.
  intros []. assert (Hl : length (stamp t) = 18%nat).
  { unfold stamp. rewrite !length_app, !length_fmt_d2 by first [lia | apply Z.mod_pos_bound; lia]. done. }
  unfold s_console. rewrite Hl. done.
Qed.
