(* ===== verification/LazyPirate.v ===== *)
(** * The lazy pirate: [src/lib/zeromq/reliable/lpclient.c], [lpserver.c]

    The client numbers its requests and waits for each to be answered with its number;
    when nothing comes in time it opens a new socket and asks again, three times at most.
    The server sends every request back a second later, and now and then pretends to crash
    or to be slow, three seconds instead of one.  What the polls, receives and [random]
    return are the events of a run; the time the server sleeps decides whether its answer
    reaches the client before [REQUEST_TIMEOUT].  Time passes in [sleep] only. *)

From stdpp Require Import prelude list.
From Stdlib Require Import ZArith Lia.
From S2P Require Import Prelude Czmq Text Zhelpers.

(** ** The client *)

Definition REQUEST_TIMEOUT : Z := 2500.
Definition REQUEST_RETRIES : Z := 3.

(** [zmq_poll] fails, times out, or [zstr_recv] gives NULL or a reply. *)
Inductive cevent := CPollError | CTimeout | CReply (reply : option (list Z)).

(** What is printed. *)
Inductive note := ReplyOk (reply : list Z) | Malformed (reply : list Z) | Retrying | Abandoned.

Record cstate := CState {
  ctx : zctx;
  client : nat;
  sequence : Z;
  retries_left : Z;
  notes : list note;
}.

Definition set_ctx v s := CState v (client s) (sequence s) (retries_left s) (notes s).
Definition set_client v s := CState (ctx s) v (sequence s) (retries_left s) (notes s).
Definition set_sequence v s := CState (ctx s) (client s) v (retries_left s) (notes s).
Definition set_retries v s := CState (ctx s) (client s) (sequence s) v (notes s).
Definition print (n : note) : M cstate unit :=
  modify (fun s => CState (ctx s) (client s) (sequence s) (retries_left s) (notes s ++ [n])).

Definition on_ctx {A} (c : M zctx A) : M cstate A := fun s =>
  match c (ctx s) with
  | Ok (a, x) => Ok (a, set_ctx x s)
  | Err f => Err f
  | NoFuel => NoFuel
  end.

(** A message of one frame on an open socket. *)
Definition zstr_send (k : nat) (string : list Z) : M cstate unit := fun s =>
  if decide (k ∈ sockets (ctx s)) then
    Ok (tt, set_ctx (Ctx (sockets (ctx s)) (next_socket (ctx s)) (sent (ctx s) ++ [(k, [string])])) s)
  else Err Dangling.

(** [sprintf] into [char request [10]] *)
Definition sprintf_request (n : Z) : M cstate (list Z) :=
  if (length (fmt_d 0 n) <? 10)%nat then mret (fmt_d 0 n) else throw OutOfBounds.

(** How [while(expect_reply)] ends: a good reply or a [break], or it still polls. *)
Inductive ended := Left | Polling.

Fixpoint wait_reply (request : list Z) (es : list cevent) : M cstate (ended * list cevent) :=
  match es with
  | [] => mret (Polling, [])
  | (CPollError | CReply None) :: es => mret (Left, es)
  | CReply (Some reply) :: es =>
      s ← get;
      n ← atoi reply;
      if n =? sequence s then
        _ ← print (ReplyOk reply);
        _ ← modify (set_retries REQUEST_RETRIES);
        mret (Left, es)
      else _ ← print (Malformed reply); wait_reply request es
  | CTimeout :: es =>
      s ← get;
      r ← int_of (retries_left s - 1);
      _ ← modify (set_retries r);
      if r =? 0 then _ ← print Abandoned; mret (Left, es)
      else
        _ ← print Retrying;
        _ ← on_ctx (zsocket_destroy (client s));
        k ← on_ctx zsocket_new;
        _ ← modify (set_client k);
        _ ← zstr_send k request;
        wait_reply request es
  end.

(** [interrupted n]: [zctx_interrupted] before request [n]. *)
Fixpoint client_loop (interrupted : Z -> bool) (fuel : nat) (es : list cevent) : M cstate ended :=
  s ← get;
  if (retries_left s =? 0) || interrupted (sequence s + 1) then mret Left
  else
    match fuel with
    | O => no_fuel
    | S fuel =>
        n ← int_of (sequence s + 1);
        _ ← modify (set_sequence n);
        request ← sprintf_request n;
        _ ← zstr_send (client s) request;
        '(e, es) ← wait_reply request es;
        match e with Polling => mret Polling | Left => client_loop interrupted fuel es end
    end.

(** A round takes an event at least, or still polls. *)
Definition lpclient_main (interrupted : Z -> bool) (es : list cevent) : M cstate ended :=
  k ← on_ctx zsocket_new;
  _ ← modify (fun s => CState (ctx s) k 0 REQUEST_RETRIES (notes s));
  e ← client_loop interrupted (S (S (length es))) es;
  match e with Polling => mret Polling | Left => _ ← on_ctx zctx_destroy; mret Left end.

(** ** The server *)

(** What [s_recv] finds, and the values of [random]. *)
Record sevent := SEvent { received : option (list Z); random1 : Z; random2 : Z }.

(** [replies]: what was sent, and how many seconds after the request was received. *)
Record sstate := SState { cycles : Z; slept : Z; replies : list (Z * list Z) }.

Definition sleep (n : Z) : M sstate unit := modify (fun s => SState (cycles s) (slept s + n) (replies s)).

(** [buffer]: the 256 bytes of [s_recv] before they are written.  The second [randof] is
    reached only when the first did not give 0. *)
Definition server_round (buffer : list Z) (e : sevent) : M sstate bool :=
  let request := s_recv buffer (received e) in
  s ← get;
  c ← int_of (cycles s + 1);
  _ ← put (SState c 0 (replies s));
  if (3 <? c) && (randof 3 (random1 e) =? 0) then mret false
  else
    _ ← (if (3 <? c) && (randof 3 (random2 e) =? 0) then sleep 2 else mret tt);
    match request with
    | None => throw NullDeref
    | Some request =>
        _ ← sleep 1;
        _ ← modify (fun s => SState (cycles s) (slept s) (replies s ++ [(slept s, s_send (request ++ [0]))]));
        mret true
    end.

Fixpoint lpserver_loop (buffer : list Z) (es : list sevent) : M sstate unit :=
  match es with
  | [] => mret tt
  | e :: es => go ← server_round buffer e; if go : bool then lpserver_loop buffer es else mret tt
  end.

(** ** What the client does *)

Section client_spec.
Context (interrupted : Z -> bool).
Implicit Types (n k tries : nat) (es : list cevent).

Definition outcome_of : Type := list (nat * nat) * ended.
Definition asked (k n : nat) (o : outcome_of) : outcome_of := ((k, n) :: o.1, o.2).

(** The requests by number with the sockets they are sent on, and how the run ends:
    waiting on socket [k] for the answer to request [n], with [tries] tries tries. *)
Fixpoint client_spec k n tries es : outcome_of :=
  match es with
  | [] => ([], Polling)
  | (CPollError | CReply None) :: es =>
      if interrupted (Z.of_nat (S n)) then ([], Left) else asked k (S n) (client_spec k (S n) tries es)
  | CReply (Some r) :: es =>
      if decide (atoi_value r = Z.of_nat n) then
        if interrupted (Z.of_nat (S n)) then ([], Left) else asked k (S n) (client_spec k (S n) 3 es)
      else client_spec k n tries es
  | CTimeout :: es =>
      match tries with
      | S (S tries) => asked (S k) n (client_spec (S k) n (S tries) es)
      | _ => ([], Left)
      end
  end.

(** The numbers in the replies are [int]s. *)
Definition int_reply (e : cevent) : Prop :=
  match e with CReply (Some r) => INT_MIN <= atoi_value r <= INT_MAX | _ => True end.

(** A request that was sent. *)
Definition said (x : nat * nat) : nat * list (list Z) := (x.1, [fmt_d 0 (Z.of_nat x.2)]).

Record cinv k n tries (tr : list (nat * nat)) s : Prop := {
  ci_client : client s = k;
  ci_socket : one_socket k (ctx s);
  ci_seq : sequence s = Z.of_nat n;
  ci_tries : retries_left s = Z.of_nat tries;
  ci_sent : sent (ctx s) = said <$> tr;
}.

Definition reached (tr : list (nat * nat)) (o : outcome_of) (e : ended) (s : cstate) : Prop :=
  e = o.2 /\ sent (ctx s) = said <$> (tr ++ o.1).

Lemma wp_bind_inv {S A B} (c : M S A) (f : A -> M S B) Q (s : S) : wp (c ≫= f) Q s -> wp c (fun a => wp (f a) Q) s.
Proof. unfold wp, mbind, M_bind. by destruct (c s) as [[]| |]. Qed.

Lemma wp_lp_on_ctx {A} (c : M zctx A) (Q : A -> cstate -> Prop) s :
  wp c (fun a x => Q a (set_ctx x s)) (ctx s) -> wp (on_ctx c) Q s.
Proof. unfold wp, on_ctx. by destruct (c (ctx s)) as [[a x]| |]. Qed.

Lemma zstr_send_ok k n tries tr (Q : unit -> cstate -> Prop) s x :
  cinv k n tries tr s -> (forall s', cinv k n tries (tr ++ [(k, x)]) s' -> Q tt s') ->
  wp (zstr_send k (fmt_d 0 (Z.of_nat x))) Q s.
Proof.
  intros [H1 [H2 H3] H4 H5 H6] HQ. unfold wp, zstr_send. rewrite decide_True by (rewrite H2; set_solver).
  apply HQ. split; simpl; try done. by rewrite H6, fmap_app.
Qed.

Lemma asked_reached tr k n o e s : reached (tr ++ [(k, n)]) o e s -> reached tr (asked k n o) e s.
Proof. intros [H1 H2]. split; [done|]. by rewrite H2, <- app_assoc. Qed.

Lemma client_ok es : forall fuel k n tries tr s,
  Forall int_reply es -> (length es < fuel)%nat -> Z.of_nat (n + length es) < 10 ^ 9 - 1 -> (0 < tries <= 3)%nat -> cinv k n tries tr s ->
  wp ('(e, es) ← wait_reply (fmt_d 0 (Z.of_nat n)) es;
      match e with Polling => mret Polling | Left => client_loop interrupted fuel es end)
    (reached tr (client_spec k n tries es)) s.
Proof.
  induction es as [|e es IH]; intros fuel k n tries tr s HF Hfuel Hn Hl Hc; simpl in Hfuel, Hn.
  { wp_step. apply wp_ret, wp_ret. destruct Hc. split; [done|]. by rewrite app_nil_r. }
  apply Forall_cons in HF as [He HF].
  assert (Hnext : forall tries' s', (0 < tries' <= 3)%nat -> cinv k n tries' tr s' ->
    wp (client_loop interrupted fuel es)
      (reached tr (if interrupted (Z.of_nat (S n)) then ([], Left) else asked k (S n) (client_spec k (S n) tries' es))) s').
  { intros tries' s' Hl' Hc'. destruct fuel as [|fuel]; [lia|]. cbn [client_loop]. wp_step. eapply wp_intro; [reflexivity|].
    destruct (Hc') as [H1 H2 H3 H4 H5]. rewrite H3, H4. rewrite (proj2 (Z.eqb_neq _ _)) by lia. simpl orb.
    replace (Z.of_nat n + 1) with (Z.of_nat (S n)) by lia. destruct (interrupted (Z.of_nat (S n))).
    { apply wp_ret. split; [done|]. by rewrite app_nil_r. }
    wp_step. apply wp_int_of; [unfold INT_MIN, INT_MAX; lia|]. wp_step. eapply wp_intro; [reflexivity|]. wp_step.
    unfold sprintf_request. pose proof (length_fmt_d 0 (Z.of_nat (S n)) 9 ltac:(change (Z.of_nat 9) with 9; lia) ltac:(lia) ltac:(lia)) as Hlen.
    rewrite (proj2 (Z.ltb_ge _ _)) in Hlen by lia. rewrite (proj2 (Nat.ltb_lt _ _)) by lia. apply wp_ret. wp_step. rewrite H1.
    eapply (zstr_send_ok k (S n) tries' tr); [by split|]. intros s2 Hc2. eapply wp_mono; [apply (IH fuel k (S n) tries' (tr ++ [(k, S n)])); [done|lia|lia|done|done]|].
    intros e' s3. apply asked_reached. }
  destruct e as [| |[r|]]; cbn [wait_reply client_spec].
  - wp_step. apply wp_ret. by apply Hnext.
  - destruct Hc as [H1 H2 H3 H4 H5]. wp_step. wp_step. eapply wp_intro; [reflexivity|]. rewrite H4. wp_step.
    apply wp_int_of; [unfold INT_MIN, INT_MAX; lia|]. wp_step. eapply wp_intro; [reflexivity|].
    destruct tries as [|[|tries]]; [lia| |].
    + simpl. wp_step. eapply wp_intro; [reflexivity|]. apply wp_ret. destruct fuel; [lia|]. simpl. split; [done|]. by rewrite app_nil_r.
    + rewrite (proj2 (Z.eqb_neq _ _)) by lia. wp_step. eapply wp_intro; [reflexivity|]. wp_step. rewrite H1. apply wp_lp_on_ctx. simpl.
      destruct H2 as [Hs1 Hs2]. unfold zsocket_destroy. eapply wp_intro; [rewrite decide_True by (rewrite Hs1; set_solver); reflexivity|].
      wp_step. apply wp_lp_on_ctx. eapply wp_intro; [reflexivity|]. simpl. rewrite Hs2. wp_step. eapply wp_intro; [reflexivity|]. wp_step.
      eapply (zstr_send_ok (S k) n (S tries) tr).
      { split; simpl; try done; [|lia]. split; simpl; [|done]. by rewrite Hs1, filter_cons_False by auto. }
      intros s2 Hc2.
      apply (wp_bind_inv (wait_reply (fmt_d 0 (Z.of_nat n)) es)).
      eapply wp_mono; [apply (IH fuel (S k) n (S tries) (tr ++ [(S k, n)])); [done|lia|lia|lia|done]|]. intros e' s3. apply asked_reached.
  - destruct Hc as [H1 H2 H3 H4 H5]. wp_step. wp_step. eapply wp_intro; [reflexivity|]. wp_step. apply wp_int_of; [exact He|]. rewrite H3.
    destruct (decide (atoi_value r = Z.of_nat n)) as [Hr|Hr].
    + rewrite (proj2 (Z.eqb_eq _ _)) by done. wp_step. eapply wp_intro; [reflexivity|]. wp_step. eapply wp_intro; [reflexivity|].
      apply wp_ret. apply Hnext; [lia|]. by split.
    + rewrite (proj2 (Z.eqb_neq _ _)) by done. wp_step. eapply wp_intro; [reflexivity|].
      pose proof (IH fuel k n tries tr (CState (ctx s) (client s) (sequence s) (retries_left s) (notes s ++ [Malformed r])) HF ltac:(lia) ltac:(lia)) as H.
      apply (wp_bind_inv (wait_reply (fmt_d 0 (Z.of_nat n)) es)). apply H; [lia|by split].
  - wp_step. apply wp_ret. by apply Hnext.
Qed.

(** The client asks, in order, what [client_spec] says, on one socket at a time, and ends
    as it says; it never faults. *)
Lemma lpclient_ok es :
  Forall int_reply es -> Z.of_nat (length es) < 10 ^ 9 - 2 ->
  wp (lpclient_main interrupted es)
    (reached [] (if interrupted 1 then ([], Left) else asked 0 1 (client_spec 0 1 3 es))) (CState zctx_new 0 0 0 []).
Proof.
  intros HF Hl. unfold lpclient_main. wp_step. apply wp_lp_on_ctx. eapply wp_intro; [reflexivity|]. wp_step. eapply wp_intro; [reflexivity|].
  cbn beta. wp_step.
  match goal with |- wp _ _ ?s =>
    pose proof (client_ok (CPollError :: es) (S (S (length es))) 0 0 3 [] s (Forall_cons_2 int_reply CPollError es I HF)
      ltac:(simpl; lia) ltac:(simpl; lia) ltac:(lia) ltac:(by split)) as H end.
  apply wp_bind_inv in H. cbn [wait_reply client_spec] in H. eapply wp_mono; [exact H|]. intros [] s [H1 H2].
  - wp_step. apply wp_lp_on_ctx. eapply wp_intro; [reflexivity|]. apply wp_ret. by split.
  - apply wp_ret. by split.
Qed.

End client_spec.

(** ** What the server does *)

(** What becomes of the request after [c] others. *)
Inductive fate := Quick | Slow | Crash.

Definition fate_of (c : nat) (random1 random2 : Z) : fate :=
  if decide ((3 <= c)%nat /\ randof 3 random1 = 0) then Crash
  else if decide ((3 <= c)%nat /\ randof 3 random2 = 0) then Slow
  else Quick.

Definition took (f : fate) : Z := match f with Slow => 3 | _ => 1 end.

Fixpoint server_spec (c : nat) (es : list sevent) : list (Z * list Z) :=
  match es with
  | [] => []
  | e :: es =>
      match fate_of c (random1 e) (random2 e) with
      | Crash => []
      | f => (took f, take 255 (default [] (received e))) :: server_spec (S c) es
      end
  end.

(** A request is a string. *)
Definition is_string (e : sevent) : Prop := match received e with Some m => 0 ∉ m | None => False end.

Lemma fate_test c z : (3 <? Z.of_nat c + 1) && (randof 3 z =? 0) = bool_decide ((3 <= c)%nat /\ randof 3 z = 0).
Proof.
  destruct (Z.ltb_spec 3 (Z.of_nat c + 1)), (Z.eqb_spec (randof 3 z) 0); case_bool_decide; simpl; try done; lia.
Qed.

Lemma lpserver_ok buffer es : forall c s,
  length buffer = 256%nat -> Forall is_string es -> cycles s = Z.of_nat c -> Z.of_nat (c + length es) <= INT_MAX ->
  wp (lpserver_loop buffer es) (fun _ s' => replies s' = replies s ++ server_spec c es) s.
Proof.
  intros c s Hb. revert c s. induction es as [|e es IH]; intros c s HF Hc Hn; cbn [lpserver_loop server_spec].
  { apply wp_ret. by rewrite app_nil_r. }
  simpl in Hn. apply Forall_cons in HF as [He HF]. unfold is_string in He. destruct (received e) as [m|] eqn:Em; [|done].
  wp_step. unfold server_round. rewrite Em, (s_recv_ok buffer m Hb He). wp_step. eapply wp_intro; [reflexivity|]. wp_step. rewrite Hc.
  apply wp_int_of; [unfold INT_MIN; lia|]. wp_step. eapply wp_intro; [reflexivity|]. rewrite !fate_test. unfold fate_of.
  destruct (decide _) as [Hd|Hd].
  - rewrite bool_decide_true by done. do 2 apply wp_ret. by rewrite app_nil_r.
  - rewrite bool_decide_false by done. assert (Hcs : cstr (take 255 m ++ [0]) = take 255 m).
    { apply cstr_no_nul. intros H. apply He. eapply elem_of_submseteq; [exact H|]. apply sublist_submseteq, sublist_take. }
    wp_step. destruct (decide ((3 <= c)%nat /\ _)) as [Hs|Hs]; [rewrite bool_decide_true by done|rewrite bool_decide_false by done];
      (eapply wp_intro; [reflexivity|]); wp_step; (eapply wp_intro; [reflexivity|]); wp_step; (eapply wp_intro; [reflexivity|]);
      apply wp_ret; cbv iota; (eapply wp_mono; [apply (IH (S c)); [done|simpl; lia|lia]|]); simpl; intros u s' ->;
      rewrite <- app_assoc; unfold s_send; by rewrite Hcs.
Qed.

(** ** Client and server *)

(** The request with number [n]. *)
Definition req (n : nat) : list Z := fmt_d 0 (Z.of_nat n).

Fixpoint fates (c : nat) (rs : list (Z * Z)) : list fate :=
  match rs with [] => [] | r :: rs => fate_of c r.1 r.2 :: fates (S c) rs end.

(** The run is over: the server has crashed, or was slow three times for one request. *)
Fixpoint complete (tries : nat) (fs : list fate) : Prop :=
  match fs with
  | [] => False
  | Crash :: fs => fs = []
  | Quick :: fs => complete 3 fs
  | Slow :: fs => match tries with S (S tries) => complete (S tries) fs | _ => fs = [] end
  end.

(** The sockets and numbers of the requests: the next number on the same socket after an
    answer, the same number on a new socket when none comes in time. *)
Fixpoint session (k n tries : nat) (fs : list fate) : list (nat * nat) :=
  match fs with
  | [] => []
  | Quick :: fs => (k, n) :: session k (S n) 3 fs
  | Slow :: fs => (k, n) :: match tries with S (S tries) => session (S k) n (S tries) fs | _ => [] end
  | Crash :: _ => (fun k => (k, n)) <$> seq k tries
  end.

(** What the server finds: the client's requests, and the values of [random]. *)
Definition serving (tr : list (nat * nat)) (rs : list (Z * Z)) : list sevent :=
  zip_with (fun km r => SEvent (Some (req km.2)) r.1 r.2) tr rs.

(** What the client's polls give: an answer that is in time, or nothing.  [lag]: the
    milliseconds after which the server gets to a request; it first answers the one
    before, on a socket that is closed by then.  Once the server is gone nothing comes. *)
Fixpoint meet (lag : Z) (answers : list (Z * list Z)) : list cevent :=
  match answers with
  | [] => replicate 3 CTimeout
  | (seconds, reply) :: answers =>
      let at_ := lag + seconds * 1000 in
      if at_ <? REQUEST_TIMEOUT then CReply (Some reply) :: meet 0 answers
      else CTimeout :: meet (at_ - REQUEST_TIMEOUT) answers
  end.

Lemma req_length n : Z.of_nat n < 10 ^ 9 -> (length (req n) <= 9)%nat /\ 0 ∉ req n.
Proof.
  intros Hn. pose proof (length_fmt_d 0 (Z.of_nat n) 9 ltac:(change (Z.of_nat 9) with 9; lia) ltac:(lia) ltac:(lia)) as Hl.
  rewrite (proj2 (Z.ltb_ge _ _)) in Hl by lia. split; [unfold req; lia|]. apply (not_in_range _ _ _ (fmt_d_chars _ _)). lia.
Qed.

Lemma length_fates rs : forall c, length (fates c rs) = length rs.
Proof. induction rs as [|r rs IH]; intros c; simpl; [done|]. by rewrite IH. Qed.

(** A request is never numbered higher than those before it allow. *)
Lemma session_numbers fs : forall k n tries km, km ∈ session k n tries fs -> (km.2 <= n + length fs)%nat.
Proof.
  induction fs as [|[] fs IH]; intros k n tries km; simpl; [by intros ?%elem_of_nil|..].
  - intros [->|H%IH]%elem_of_cons; simpl; lia.
  - intros [->|H]%elem_of_cons; simpl; [lia|]. destruct tries as [|[|tries]]; [by apply elem_of_nil in H..|]. apply IH in H. lia.
  - intros (k' & -> & _)%list_elem_of_fmap. simpl. lia.
Qed.

(** The server's answers in such a run. *)
Fixpoint answers (n tries : nat) (fs : list fate) : list (Z * list Z) :=
  match fs with
  | [] | Crash :: _ => []
  | Quick :: fs => (1, req n) :: answers (S n) 3 fs
  | Slow :: fs => (3, req n) :: match tries with S (S tries) => answers n (S tries) fs | _ => [] end
  end.

Lemma serving_spec rs : forall c k n tries,
  complete tries (fates c rs) -> (0 < tries)%nat -> Z.of_nat (n + length rs) < 10 ^ 9 ->
  server_spec c (serving (session k n tries (fates c rs)) rs) = answers n tries (fates c rs).
Proof.
  induction rs as [|r rs IH]; intros c k n tries Hf Ht Hn; [done|]. cbn [fates] in *. simpl length in Hn.
  pose proof (firstn_all2 (req n) (n := 255) ltac:(pose proof (req_length n); lia)) as Hr.
  destruct (fate_of c r.1 r.2) eqn:E; cbn [session answers complete] in *.
  - cbn [serving zip_with server_spec random1 random2 received default snd]. rewrite E. f_equal; [f_equal; exact Hr|]. apply IH; [done|lia|lia].
  - cbn [serving zip_with server_spec random1 random2 received default snd]. rewrite E. f_equal; [f_equal; exact Hr|].
    destruct tries as [|[|tries]]; [done..|]. apply IH; [done|lia|lia].
  - destruct tries as [|tries]; [lia|]. cbn [seq fmap list_fmap serving zip_with server_spec random1 random2]. by rewrite E.
Qed.

(** The client is as late as the tries it has used up. *)
Lemma client_met fs : forall k n tries,
  complete tries fs -> (0 < tries <= 3)%nat ->
  asked k n (client_spec (fun _ => false) k n tries (meet (500 * (3 - Z.of_nat tries)) (answers n tries fs))) =
  (session k n tries fs, Left).
Proof.
  induction fs as [|[] fs IH]; intros k n tries Hf Ht; [done|..]; cbn [complete session answers meet] in *.
  - rewrite (proj2 (Z.ltb_lt _ _)) by (unfold REQUEST_TIMEOUT; lia). cbn [client_spec]. rewrite decide_True by apply atoi_fmt_d.
    change 0 with (500 * (3 - Z.of_nat 3)). rewrite IH by (done || lia). done.
  - rewrite (proj2 (Z.ltb_ge _ _)) by (unfold REQUEST_TIMEOUT; lia). cbn [client_spec].
    destruct tries as [|[|tries]]; [lia|done|].
    replace (_ - _) with (500 * (3 - Z.of_nat (S tries))) by (unfold REQUEST_TIMEOUT; lia). rewrite IH by (done || lia). done.
  - destruct tries as [|[|[|[|tries]]]]; [lia|done..|lia].
Qed.

Lemma meet_replies fs : forall lag n tries,
  Z.of_nat (n + length fs) < 10 ^ 9 ->
  Forall int_reply (meet lag (answers n tries fs)) /\ (length (meet lag (answers n tries fs)) <= length fs + 3)%nat.
Proof.
  induction fs as [|f fs IH]; intros lag n tries Hn; [split; [by repeat constructor|simpl; lia]|].
  simpl length in Hn |- *. assert (Hr : int_reply (CReply (Some (req n)))).
  { simpl. unfold req. rewrite atoi_fmt_d. unfold INT_MIN, INT_MAX. lia. }
  assert (Ht : int_reply CTimeout) by done.
  destruct f; cbn [answers meet]; [| |split; [by repeat constructor|simpl; lia]].
  - case_match; [destruct (IH 0 (S n) 3%nat ltac:(lia)) as [H1 H2]|destruct (IH (lag + 1 * 1000 - REQUEST_TIMEOUT) (S n) 3%nat ltac:(lia)) as [H1 H2]];
      (split; [by constructor|simpl; lia]).
  - destruct tries as [|[|tries]]; [case_match; (split; [by repeat (constructor; [done|])|simpl; lia])..|].
    case_match; [destruct (IH 0 n (S tries) ltac:(lia)) as [H1 H2]|destruct (IH (lag + 3 * 1000 - REQUEST_TIMEOUT) n (S tries) ltac:(lia)) as [H1 H2]];
      (split; [by constructor|simpl; lia]).
Qed.

(** C18: client and server together, over the random numbers of a run that is over, the
    server having crashed or been slow three times in a row for one request.  The server
    finds the requests the client sends, in order; an answer that takes a second is in
    time, one that takes three is not.  The client asks for the next number on the same
    socket after an answer, sends the same request again on a new socket when none came in
    time, three times in all, and gives up after the third. *)
Theorem lazy_pirate_session buffer rs :
  length buffer = 256%nat -> complete 3 (fates 0 rs) -> Z.of_nat (length rs) < 10 ^ 9 - 10 ->
  let tr := session 0 1 3 (fates 0 rs) in
  wp (lpserver_loop buffer (serving tr rs)) (fun _ srv =>
    wp (lpclient_main (fun _ => false) (meet 0 (replies srv))) (fun e cl => e = Left /\ sent (ctx cl) = said <$> tr)
      (CState zctx_new 0 0 0 [])) (SState 0 0 []).
Proof.
  intros Hb Hf Hn tr.
  assert (Hstr : Forall is_string (serving tr rs)).
  { apply Forall_lookup. intros i e. unfold serving. rewrite lookup_zip_with. intros (km & Hk & (r & Hr & [= <-])%bind_Some)%bind_Some.
    apply req_length. apply list_elem_of_lookup_2, session_numbers in Hk. rewrite length_fates in Hk. lia. }
  eapply wp_mono; [apply (lpserver_ok buffer (serving tr rs) 0); [done|done|done|]|].
  { unfold serving. rewrite length_zip_with. unfold INT_MAX. lia. }
  intros u srv. unfold tr. simpl app. rewrite (serving_spec rs 0 0 1 3) by (done || lia). intros ->.
  pose proof (client_met (fates 0 rs) 0 1 3 Hf ltac:(lia)) as Hm. change (500 * (3 - Z.of_nat 3)) with 0 in Hm.
  destruct (meet_replies (fates 0 rs) 0 1 3) as [H1 H2]; [rewrite length_fates; lia|]. rewrite length_fates in H2.
  eapply wp_mono; [apply lpclient_ok; [exact H1|lia]|]. intros e cl. rewrite Hm. by intros [-> Hs].
Qed.

(** The first four requests are answered; for the fifth the server is slow, answers when
    asked again, and crashes at the sixth. *)
Lemma lazy_pirate_session_witness :
  let rs := [(0, 0); (0, 0); (0, 0); (2 ^ 30, 2 ^ 30); (2 ^ 30, 0); (2 ^ 30, 2 ^ 30); (0, 0)] in
  wp (lpserver_loop (replicate 256 7) (serving (session 0 1 3 (fates 0 rs)) rs)) (fun _ srv =>
    replies srv = [(1, req 1); (1, req 2); (1, req 3); (1, req 4); (3, req 5); (1, req 5)] /\
    wp (lpclient_main (fun _ => false) (meet 0 (replies srv))) (fun e cl =>
      e = Left /\ sent (ctx cl) = said <$> [(0, 1); (0, 2); (0, 3); (0, 4); (0, 5); (1, 5); (1, 6); (2, 6); (3, 6)]%nat)
      (CState zctx_new 0 0 0 [])) (SState 0 0 []).
Proof.
  apply wp_and; [vm_compute; reflexivity|].
  apply (lazy_pirate_session (replicate 256 7) [(0, 0); (0, 0); (0, 0); (2 ^ 30, 2 ^ 30); (2 ^ 30, 0); (2 ^ 30, 2 ^ 30); (0, 0)]).
  - reflexivity.
  - vm_compute. reflexivity.
  - simpl. lia.
Defined.
