(* ===== verification/ZmqSamples.v ===== *)
(** * Weather updates and tasks: [src/lib/zeromq/weather_update/wuserver.c], [wuclient.c],
    [src/lib/zeromq/parallet_task/taskvent.c]

    The weather server publishes random updates as text, the client subscribes to those
    that begin with its filter and averages a hundred temperatures.  The task ventilator
    sends a hundred random workloads and prints their sum.  The values of [random] are
    arguments. *)

From stdpp Require Import prelude list.
From Stdlib Require Import ZArith Lia.
From S2P Require Import Prelude Text Zhelpers.

(** ** The weather server *)

Definition temperature_of (random : Z) : Z := randof 215 random - 80.
Definition relhumidity_of (random : Z) : Z := randof 50 random + 10.

(** ["%05d %d %d"] *)
Definition update_text (zipcode temperature relhumidity : Z) : list Z :=
  fmt_d 5 zipcode ++ [SPACE] ++ fmt_d 0 temperature ++ [SPACE] ++ fmt_d 0 relhumidity.

(** One round: three random numbers, [sprintf] into [char update[20]], [s_send]. *)
Definition publish (r : Z * Z * Z) : outcome (list Z) :=
  let update := update_text (randof 100000 r.1.1) (temperature_of r.1.2) (relhumidity_of r.2) in
  if (length update <? 20)%nat then Ok (s_send (update ++ [0])) else Err OutOfBounds.

Fixpoint wuserver_loop (rs : list (Z * Z * Z)) : outcome (list (list Z)) :=
  match rs with
  | [] => Ok []
  | r :: rs => m ← publish r; ms ← wuserver_loop rs; Ok (m :: ms)
  end.

(** ** The weather client *)

(** What a socket that subscribes to [filter] receives of what is published. *)
Definition subscribed (filter : list Z) (ms : list (list Z)) : list (list Z) :=
  base.filter (fun m => filter `prefix_of` m) ms.

(** [sscanf(string, "%d %d %d", ...)]; the variables it does not reach are indeterminate. *)
Definition scan_update (string : list Z) : option Z * option Z * option Z :=
  match scan_int string with
  | None => (None, None, None)
  | Some (a, s) =>
      match scan_int s with
      | None => (Some a, None, None)
      | Some (b, s) => match scan_int s with None => (Some a, Some b, None) | Some (c, _) => (Some a, Some b, Some c) end
      end
  end.

(** [long] *)
Definition long_of (z : Z) : outcome Z := if (- 2 ^ 63 <=? z) && (z <? 2 ^ 63) then Ok z else Err SignedOverflow.

(** [for (update_nbr = 0; update_nbr < 100; update_nbr++)], with [n] rounds to go;
    [NoFuel]: [s_recv] waits. *)
Fixpoint collect (buffer : list Z) (n : nat) (total_temp : Z) (ms : list (option (list Z))) : outcome Z :=
  match n, ms with
  | O, _ => Ok total_temp
  | S _, [] => NoFuel
  | S n, m :: ms =>
      match s_recv buffer m with
      | None => Err NullDeref
      | Some string =>
          match (scan_update string).1.2 with
          | None => Err Uninitialised
          | Some temperature => total_temp ← long_of (total_temp + temperature); collect buffer n total_temp ms
          end
      end
  end.

Definition UPDATES : nat := 100.

(** The average that is printed. *)
Definition wuclient_main (buffer : list Z) (ms : list (option (list Z))) : outcome Z :=
  total_temp ← collect buffer UPDATES 0 ms; Ok (total_temp ÷ Z.of_nat UPDATES).

(** ** The ventilator *)

Definition TASKS : nat := 100.

(** The messages and [total_msec]. *)
Fixpoint task_loop (rs : list Z) (total_msec : Z) : M (list (list Z)) Z :=
  match rs with
  | [] => mret total_msec
  | r :: rs =>
      let workload := randof 100 r + 1 in
      total_msec ← int_of (total_msec + workload);
      let string := fmt_d 0 workload in
      if (length string <? 10)%nat then
        _ ← modify (fun log => log ++ [s_send (string ++ [0])]);
        task_loop rs total_msec
      else throw OutOfBounds
  end.

(** What goes to the sink, what goes to the workers, the sum that is printed. *)
Definition taskvent_main (rs : list Z) : outcome (list Z * list (list Z) * Z) :=
  match task_loop (take TASKS rs) 0 [] with
  | Ok (total, log) => Ok (s_send [48; 0], log, total)
  | Err f => Err f
  | NoFuel => NoFuel
  end.

(** ** What they do *)

Definition in_range (r : Z) : Prop := 0 <= r <= RAND_MAX.
Definition in_range3 (r : Z * Z * Z) : Prop := in_range r.1.1 /\ in_range r.1.2 /\ in_range r.2.

Lemma update_ranges r : in_range3 r ->
  0 <= randof 100000 r.1.1 <= 100000 /\ -80 <= temperature_of r.1.2 <= 135 /\ 10 <= relhumidity_of r.2 <= 60.
Proof.
  intros (H1 & H2 & H3). unfold temperature_of, relhumidity_of.
  destruct (randof_spec 100000 r.1.1 ltac:(lia) H1), (randof_spec 215 r.1.2 ltac:(lia) H2), (randof_spec 50 r.2 ltac:(lia) H3). lia.
Qed.

(** The text of an update. *)
Definition text_of (r : Z * Z * Z) : list Z := update_text (randof 100000 r.1.1) (temperature_of r.1.2) (relhumidity_of r.2).

Lemma text_of_ok r : in_range3 r -> (length (text_of r) < 20)%nat /\ 0 ∉ text_of r.
Proof.
  intros (H1 & H2 & H3)%update_ranges. unfold text_of, update_text. split.
  - rewrite !length_app. cbn [length].
    pose proof (length_fmt_d 5 (randof 100000 r.1.1) 6 ltac:(change (Z.of_nat 6) with 6; lia) ltac:(lia) ltac:(lia)) as L1.
    pose proof (length_fmt_d 0 (temperature_of r.1.2) 3 ltac:(change (Z.of_nat 3) with 3; lia) ltac:(lia) ltac:(lia)) as L2.
    pose proof (length_fmt_d 0 (relhumidity_of r.2) 2 ltac:(change (Z.of_nat 2) with 2; lia) ltac:(lia) ltac:(lia)) as L3.
    repeat case_match; lia.
  - rewrite !elem_of_app. unfold SPACE. intros [H|[H|[H|[H|H]]]]; try set_solver; revert H; apply (not_in_range _ _ _ (fmt_d_chars _ _)); lia.
Qed.

Lemma weather_publish_ok r : in_range3 r -> publish r = Ok (text_of r).
Proof.
  intros Hr. destruct (text_of_ok r Hr) as [Hl Hn]. unfold publish. fold (text_of r).
  rewrite (proj2 (Nat.ltb_lt _ _)) by done. unfold s_send. by rewrite cstr_no_nul.
Qed.

Lemma wuserver_ok rs : Forall in_range3 rs -> wuserver_loop rs = Ok (text_of <$> rs).
Proof. induction 1 as [|r rs Hr HF IH]; [done|]. simpl. by rewrite weather_publish_ok, IH. Qed.

(** The client reads the numbers the server printed. *)
Lemma scan_update_text a b c : scan_update (update_text a b c) = (Some a, Some b, Some c).
Proof.
  unfold scan_update, update_text. rewrite scan_fmt_d by done.
  assert (Hsp : forall z rest, starts_with_digit rest = false -> scan_int ([SPACE] ++ fmt_d 0 z ++ rest) = Some (z, rest)).
  { intros z rest Hr. rewrite <- (scan_fmt_d 0 z rest Hr). done. }
  rewrite Hsp by done. specialize (Hsp c []). rewrite app_nil_r in Hsp. by rewrite Hsp.
Qed.

Lemma collect_ok buffer rs : forall n total,
  length buffer = 256%nat -> Forall in_range3 rs -> (n <= length rs)%nat -> Z.abs total + 200 * Z.of_nat n < 2 ^ 63 ->
  collect buffer n total (Some <$> (text_of <$> rs)) = Ok (foldl (fun t r => t + temperature_of r.1.2) total (take n rs)).
Proof.
  intros n total Hb HF. revert n total. induction HF as [|r rs Hr HF IH]; intros n total Hn Ht; destruct n as [|n]; simpl in Hn; try lia; [done..|].
  cbn [fmap list_fmap collect]. destruct (text_of_ok r Hr) as [Hl H0]. rewrite (s_recv_ok buffer _ Hb H0), firstn_all2 by lia.
  unfold text_of at 1. rewrite scan_update_text. cbn [fst snd]. pose proof (update_ranges r Hr) as (_ & Htr & _).
  unfold long_of. rewrite (proj2 (Z.leb_le _ _)), (proj2 (Z.ltb_lt _ _)) by lia. cbn [andb mbind outcome_bind]. unfold mbind, outcome_bind.
  rewrite IH by lia. done.
Qed.

Lemma subscribed_texts flt rs : subscribed flt (text_of <$> rs) = text_of <$> base.filter (fun r => flt `prefix_of` text_of r) rs.
Proof.
  unfold subscribed. induction rs as [|r rs IH]; [done|]. rewrite fmap_cons, !filter_cons, IH. by destruct (decide _).
Qed.

(** Which updates a filter of five digits selects. *)
Lemma zip_prefix z r : 0 <= z < 100000 -> in_range3 r ->
  fmt_d 5 z `prefix_of` text_of r <-> randof 100000 r.1.1 = z \/ randof 100000 r.1.1 = 100000 /\ z = 10000.
Proof.
  intros Hz Hr. destruct (update_ranges r Hr) as (Hzip & _). unfold text_of, update_text. set (q := randof 100000 r.1.1) in *.
  assert (Hl : forall z, 0 <= z < 100000 -> length (fmt_d 5 z) = 5%nat).
  { intros z' Hz'. unfold fmt_d. rewrite (proj2 (Z.ltb_ge _ _)) by lia. rewrite length_fmap, length_pad.
    pose proof (length_digits 10 ltac:(lia) z' 5 ltac:(change (10 ^ Z.of_nat 5) with 100000; lia) ltac:(lia)). lia. }
  destruct (decide (q = 100000)) as [->|Hq].
  - split.
    + intros [k Hk]. right. split; [done|]. change (fmt_d 5 100000) with (fmt_d 5 10000 ++ [48]) in Hk. rewrite <- app_assoc in Hk.
      apply app_inj_1 in Hk as [Hk _]; [|by rewrite !Hl]. by apply fmt_d_inj in Hk.
    + intros [H|[_ ->]]; [lia|]. change (fmt_d 5 100000) with (fmt_d 5 10000 ++ [48]). rewrite <- app_assoc. by eexists.
  - split.
    + intros [k Hk]. left. apply app_inj_1 in Hk as [Hk _]; [|by rewrite !Hl by lia]. by apply fmt_d_inj in Hk.
    + intros [->|[H _]]; [by eexists|lia].
Qed.

(** For all values of [random] the server publishes its updates without overflowing
    its buffer, and a client whose filter at least a hundred of them begin with prints the
    mean of the first hundred temperatures, rounded towards zero, between -80 and 135.  A
    filter of five digits selects the updates of its zip code, and the filter 10000 those of
    the six-digit zip code 100000 as well. *)
Theorem weather_average buffer flt rs :
  length buffer = 256%nat -> Forall in_range3 rs ->
  let mine := base.filter (fun r => flt `prefix_of` text_of r) rs in
  (UPDATES <= length mine)%nat ->
  exists ms avg, wuserver_loop rs = Ok ms /\ wuclient_main buffer (Some <$> subscribed flt ms) = Ok avg /\
    avg = foldl (fun t r => t + temperature_of r.1.2) 0 (take UPDATES mine) ÷ 100 /\ -80 <= avg <= 135 /\
    forall z, 0 <= z < 100000 -> flt = fmt_d 5 z ->
      forall r, r ∈ mine <-> r ∈ rs /\ (randof 100000 r.1.1 = z \/ randof 100000 r.1.1 = 100000 /\ z = 10000).
Proof.
  intros Hb HF mine Hm. assert (HFm : Forall in_range3 mine).
  { apply Forall_forall. intros r [_ Hr]%list_elem_of_filter. by eapply Forall_forall in HF. }
  eexists _, _. split; [by apply wuserver_ok|]. split; [|split; [reflexivity|split]].
  - unfold wuclient_main. rewrite subscribed_texts. fold mine. rewrite collect_ok by (done || unfold UPDATES; lia). done.
  - assert (Hsum : forall l t, Forall in_range3 l -> t - 80 * Z.of_nat (length l) <= foldl (fun t r => t + temperature_of r.1.2) t l <= t + 135 * Z.of_nat (length l)).
    { intros l. induction l as [|r l IH]; intros t HFl; simpl; [lia|]. apply Forall_cons in HFl as [Hr HFl]. specialize (IH (t + temperature_of r.1.2) HFl).
      pose proof (update_ranges r Hr). lia. }
    specialize (Hsum (take UPDATES mine) 0 (Forall_take _ _ _ HFm)). rewrite length_take in Hsum.
    replace (UPDATES `min` length mine)%nat with 100%nat in Hsum by (unfold UPDATES in *; lia). split; [apply Z.quot_le_lower_bound|apply Z.quot_le_upper_bound]; lia.
  - intros z Hz -> r. unfold mine. rewrite list_elem_of_filter. split.
    + intros [H1 H2]. split; [done|]. eapply Forall_forall in HF; [|exact H2]. by apply zip_prefix.
    + intros [H2 H1]. split; [|done]. eapply Forall_forall in HF; [|exact H2]. by apply zip_prefix.
Qed.

(** The ventilator sends a hundred workloads between 1 and 101, and prints their sum. *)
Lemma task_loop_ok rs : forall total log,
  Forall in_range rs -> 0 <= total -> total + 101 * Z.of_nat (length rs) <= INT_MAX ->
  task_loop rs total log = Ok (foldl (fun t r => t + (randof 100 r + 1)) total rs, log ++ ((fun r => fmt_d 0 (randof 100 r + 1)) <$> rs)).
Proof.
  induction rs as [|r rs IH]; intros total log HF H0 Hn; simpl; [by rewrite app_nil_r|]. apply Forall_cons in HF as [Hr HF]. simpl in Hn.
  destruct (randof_spec 100 r ltac:(lia) Hr) as [Hb _]. unfold mbind, M_bind, int_of.
  rewrite (proj2 (Z.leb_le _ _)), (proj2 (Z.leb_le _ _)) by (unfold INT_MIN, INT_MAX in *; lia). simpl.
  pose proof (length_fmt_d 0 (randof 100 r + 1) 3 ltac:(change (Z.of_nat 3) with 3; lia) ltac:(lia) ltac:(lia)) as L.
  rewrite (proj2 (Z.ltb_ge _ _)) in L by lia. rewrite (proj2 (Nat.ltb_lt _ _)) by lia. simpl.
  unfold s_send. rewrite cstr_no_nul by (apply (not_in_range _ _ _ (fmt_d_chars _ _)); lia).
  rewrite IH by (done || unfold INT_MAX in *; lia). by rewrite <- app_assoc.
Qed.

Lemma taskvent_ok rs : Forall in_range rs -> length rs = TASKS ->
  exists log total, taskvent_main rs = Ok ([48], log, total) /\ length log = TASKS /\
    Forall (fun m => 1 <= atoi_value m <= 101) log /\ total = foldl (fun t m => t + atoi_value m) 0 log.
Proof.
  intros HF Hl. unfold taskvent_main. rewrite firstn_all2 by lia. rewrite task_loop_ok by (done || rewrite ?Hl; unfold TASKS, INT_MAX; lia).
  eexists _, _. split; [reflexivity|]. simpl. rewrite length_fmap. split; [done|]. split.
  - rewrite Forall_fmap. eapply Forall_impl; [exact HF|]. intros r Hr. simpl. rewrite atoi_fmt_d.
    destruct (randof_spec 100 r ltac:(lia) Hr). lia.
  - generalize 0. clear. induction rs as [|r rs IH]; intros t; [done|]. simpl. by rewrite atoi_fmt_d, IH.
Qed.

(** A hundred and one updates of one place. *)
Lemma weather_average_witness : exists ms avg, wuserver_loop (replicate 101 (0, 2 ^ 30, 0)) = Ok ms /\
  wuclient_main (replicate 256 7) (Some <$> subscribed (fmt_d 5 0) ms) = Ok avg /\ avg = 27.
Proof.
  destruct (weather_average (replicate 256 7) (fmt_d 5 0) (replicate 101 (0, 2 ^ 30, 0))) as (ms & avg & H1 & H2 & H3 & _).
  - reflexivity.
  - apply Forall_replicate. unfold in_range3, in_range, RAND_MAX. simpl. lia.
  - vm_compute. lia.
  - exists ms, avg. split; [exact H1|]. split; [exact H2|]. rewrite H3. vm_compute. reflexivity.
Defined.
