(* ===== verification/AsyncServer.v ===== *)
(** * The asynchronous server: [src/lib/zeromq/async/async_server.c]

    Clients send a request every hundred polls and print what comes; worker threads send
    up to four replies to each request.  A proxy between a ROUTER and a DEALER socket
    carries requests to the workers and replies to the client they are addressed to.  The
    threads and the messages under way are a transition system; what [randof] returns is
    part of a step. *)

From stdpp Require Import prelude gmap list.
From Stdlib Require Import ZArith Lia.
From S2P Require Import Prelude Czmq Text.

Definition CENTITICKS : nat := 100.

(** "request #%d" *)
Definition request_text (n : Z) : list Z := [114; 101; 113; 117; 101; 115; 116; 32; 35] ++ fmt_d 0 n.

Section tasks.
Context `{Hcz : Czmq}.

(** ** The threads *)

(** [request_nbr], [centitick], and what [zframe_print] was given. *)
Record client := Client { request_nbr : Z; centitick : nat; prints : list (list Z) }.

(** One round of the inner loop of [client_task], with what the poll brings, and the end
    of the outer one when it was the last; the request that is sent. *)
Definition client_task (event : option zmsg) : M client (option (list Z)) :=
  _ ← match event with
      | Some msg =>
          frame ← frame_arg (zmsg_last msg);
          modify (fun c => Client (request_nbr c) (centitick c) (prints c ++ [zframe_data frame]))
      | None => mret tt
      end;
  c ← get;
  if (S (centitick c) <? CENTITICKS)%nat then
    _ ← put (Client (request_nbr c) (S (centitick c)) (prints c)); mret None
  else
    n ← int_of (request_nbr c + 1);
    _ ← put (Client n 0 (prints c));
    mret (Some (request_text n)).

(** [for (reply = 0; reply < replies; reply++)]: the two frames of a reply *)
Fixpoint reply_loop (replies : nat) (identity content : zframe) : M (list (list (list Z))) unit :=
  match replies with
  | O => mret tt
  | S replies =>
      _ ← modify (fun log => log ++ [[zframe_data identity; zframe_data content]]);
      reply_loop replies identity content
  end.

(** A round of [server_worker]. *)
Definition server_worker (msg : zmsg) (replies : Z) : M (list (list (list Z))) unit :=
  let '(identity, msg) := zmsg_pop msg in
  let '(content, msg) := zmsg_pop msg in
  _ ← assert (match content with Some _ => true | None => false end);
  identity ← frame_arg identity;
  content ← frame_arg content;
  reply_loop (Z.to_nat replies) identity content.

(** ** The system *)

(** The clients by identity, the requests and the replies under way. *)
Record system := System {
  clients : gmap (list Z) client;
  to_workers : list (list Z * list Z);
  to_clients : list (list Z * list Z);
}.

(** A message with its identity frame. *)
Definition addressed (m : list Z * list Z) : list (list Z) := [m.1; m.2].

Definition sent_by (id : list Z) (o : option (list Z)) : list (list Z * list Z) :=
  match o with Some r => [(id, r)] | None => [] end.

(** A client polls without result; a client receives a reply addressed to it; a worker
    takes a request and answers [k] times, where czmq documents [randof(5)] as a number
    from 0 to 4. *)
Inductive step : system -> system -> Prop :=
| step_idle id c o c' s :
    clients s !! id = Some c -> client_task None c = Ok (o, c') ->
    step s (System (<[id := c']> (clients s)) (to_workers s ++ sent_by id o) (to_clients s))
| step_receive id d l1 l2 m c o c' s :
    clients s !! id = Some c -> to_clients s = l1 ++ (id, d) :: l2 -> zmsg_frames m = [d] -> client_task (Some m) c = Ok (o, c') ->
    step s (System (<[id := c']> (clients s)) (to_workers s ++ sent_by id o) (l1 ++ l2))
| step_work r l1 l2 m k log out s :
    to_workers s = l1 ++ r :: l2 -> zmsg_frames m = addressed r -> 0 <= k <= 4 -> server_worker m k [] = Ok (tt, log) ->
    log = addressed <$> out ->
    step s (System (clients s) (l1 ++ l2) (to_clients s ++ out)).

Inductive reachable (ids : gset (list Z)) : system -> Prop :=
| reach_start : reachable ids (System (gset_to_gmap (Client 0 0 []) ids) [] [])
| reach_step s s' : reachable ids s -> step s s' -> reachable ids s'.

End tasks.

(** ** What clients see *)

Section spec.
Context `{Hcz : Czmq, Hcl : !CzmqLaws}.
Implicit Types (s : system) (id d : list Z).

Definition count (m : list Z * list Z) (l : list (list Z * list Z)) : nat := length (filter (fun x => x = m) l).

Lemma async_count_app m l l' : count m (l ++ l') = (count m l + count m l')%nat.
Proof. unfold count. by rewrite filter_app, length_app. Qed.

Lemma async_count_cons m x l : count m (x :: l) = ((if decide (x = m) then 1 else 0) + count m l)%nat.
Proof. unfold count. rewrite filter_cons. by destruct (decide (x = m)). Qed.

Lemma count_nil m : count m [] = 0%nat.
Proof. done. Qed.

(** What was printed, with the client that printed it. *)
Definition printed s id : list (list Z * list Z) :=
  match clients s !! id with Some c => (fun d => (id, d)) <$> prints c | None => [] end.

(** The answers to a request that were printed, are under way, or may still be sent. *)
Definition answers s (m : list Z * list Z) : nat :=
  (count m (printed s m.1) + count m (to_clients s) + 4 * count m (to_workers s))%nat.

(** The requests a client has sent. *)
Definition asked s id d : Prop :=
  exists c n, clients s !! id = Some c /\ 1 <= n <= request_nbr c /\ d = request_text n.

Record good s : Prop := {
  go_asked id d : (0 < answers s (id, d))%nat -> asked s id d;
  go_bound id d : (answers s (id, d) <= 4)%nat;
  go_nbr id c : clients s !! id = Some c -> 0 <= request_nbr c;
}.

Lemma request_text_inj n n' : request_text n = request_text n' -> n = n'.
Proof. unfold request_text. intros H. apply app_inv_head in H. by apply fmt_d_inj in H. Qed.

(** The client adds what it received to what it has printed, and counts its requests. *)
Lemma client_task_ok event c o c' :
  client_task event c = Ok (o, c') ->
  prints c' = prints c ++ match event with Some m => option_list (last (zmsg_frames m)) | None => [] end /\
  (o = None /\ request_nbr c' = request_nbr c \/ o = Some (request_text (request_nbr c')) /\ request_nbr c' = request_nbr c + 1).
Proof.
  unfold client_task. intros H.
  assert (Hp : forall c1, (c ← get; if (S (centitick c) <? CENTITICKS)%nat then _ ← put (Client (request_nbr c) (S (centitick c)) (prints c)); mret None
    else n ← int_of (request_nbr c + 1); _ ← put (Client n 0 (prints c)); mret (Some (request_text n))) c1 = Ok (o, c') ->
    prints c' = prints c1 /\ (o = None /\ request_nbr c' = request_nbr c1 \/ o = Some (request_text (request_nbr c')) /\ request_nbr c' = request_nbr c1 + 1)).
  { intros c1. unfold mbind, M_bind, get, put, int_of, mret, M_ret. destruct (_ <? _)%nat; [intros [= <- <-]; simpl; auto|].
    destruct (_ && _); [|done]. intros [= <- <-]. simpl. auto. }
  destruct event as [m|].
  - unfold mbind at 1, M_bind at 1 in H. pose proof (frames_last m) as Hl. destruct (zmsg_last m) as [f|]; [|done]. simpl in H.
    apply Hp in H as [H1 H2]. simpl in H1, H2. rewrite <- Hl. simpl. done.
  - apply Hp in H as [H1 H2]. rewrite app_nil_r. done.
Qed.

Lemma reply_loop_ok k identity content : forall log,
  reply_loop k identity content log = Ok (tt, log ++ replicate k [zframe_data identity; zframe_data content]).
Proof.
  induction k as [|k IH]; intros log; simpl; [by rewrite app_nil_r|]. unfold mbind, M_bind, modify. by rewrite IH, <- app_assoc.
Qed.

(** The worker sends the request back [k] times, to the client it came from. *)
Lemma server_worker_ok m k r log : zmsg_frames m = addressed r ->
  server_worker m k log = Ok (tt, log ++ replicate (Z.to_nat k) (addressed r)).
Proof.
  intros Hm. unfold server_worker. destruct (pop_cons m _ _ Hm) as (f1 & m1 & -> & H1 & Hm1).
  destruct (pop_cons m1 _ _ Hm1) as (f2 & m2 & -> & H2 & _). unfold mbind, M_bind, assert, frame_arg. simpl. unfold mret, M_ret.
  by rewrite reply_loop_ok, H1, H2.
Qed.

Lemma addressed_inj (l l' : list (list Z * list Z)) : addressed <$> l = addressed <$> l' -> l = l'.
Proof.
  revert l'. induction l as [|[a b] l IH]; intros [|[a' b'] l'] E; simpl in E; try done. injection E as -> -> E. by rewrite (IH l').
Qed.

(** A client's step: [d] is what it received, [o] what it sends. *)
Lemma good_client s id c c' o (got : list (list Z)) tc :
  good s -> clients s !! id = Some c -> prints c' = prints c ++ got ->
  (o = None /\ request_nbr c' = request_nbr c \/ o = Some (request_text (request_nbr c')) /\ request_nbr c' = request_nbr c + 1) ->
  (forall m, (count m ((fun d => (id, d)) <$> got) + count m tc = count m (to_clients s))%nat) ->
  good (System (<[id := c']> (clients s)) (to_workers s ++ sent_by id o) tc).
Proof.
  intros [Ha Hb Hn] Hc Hp Ho Htc. set (s' := System _ _ _).
  assert (Hans : forall id' d, answers s' (id', d) = (answers s (id', d) + 4 * count (id', d) (sent_by id o))%nat).
  { intros id' d. unfold answers, printed. simpl. rewrite async_count_app. pose proof (Htc (id', d)) as Ht. destruct (decide (id' = id)) as [->|Hne].
    - rewrite lookup_insert_eq, Hc, Hp, fmap_app, async_count_app. lia.
    - rewrite lookup_insert_ne by done. assert (count (id', d) ((fun d => (id, d)) <$> got) = 0%nat); [|lia].
      clear -Hne. induction got as [|g got IH]; [done|]. rewrite fmap_cons, async_count_cons, decide_False by congruence. done. }
  pose proof (Hn id c Hc) as Hn0.
  assert (Hmono : forall id' d, asked s id' d -> asked s' id' d).
  { intros id' d (c0 & n & Hc0 & Hr & ->). unfold asked. simpl. destruct (decide (id' = id)) as [->|Hne].
    - rewrite lookup_insert_eq. simplify_eq. exists c', n. split; [done|]. split; [|done]. destruct Ho as [[_ ->]|[_ ->]]; lia.
    - rewrite lookup_insert_ne by done. by exists c0, n. }
  assert (Hfresh : o = Some (request_text (request_nbr c')) -> request_nbr c' = request_nbr c + 1 ->
    answers s (id, request_text (request_nbr c')) = 0%nat).
  { intros _ Hnew. destruct (answers s _) eqn:E; [done|]. destruct (Ha id (request_text (request_nbr c')) ltac:(lia)) as (c0 & n' & Hc0 & Hr & Ht).
    apply request_text_inj in Ht. simplify_eq. lia. }
  split.
  - intros id' d. rewrite Hans. destruct Ho as [[-> Hr]|[-> Hr]]; cbn [sent_by].
    + rewrite count_nil. intros H. apply Hmono, Ha. lia.
    + rewrite async_count_cons, count_nil. case_decide as Hd; [|intros H; apply Hmono, Ha; lia]. intros _. injection Hd as <- <-.
      exists c', (request_nbr c'). simpl. rewrite lookup_insert_eq. split; [done|]. split; [lia|done].
  - intros id' d. rewrite Hans. pose proof (Hb id' d). destruct Ho as [[-> Hr]|[-> Hr]]; cbn [sent_by]; [rewrite count_nil; lia|].
    rewrite async_count_cons, count_nil. case_decide as Hd; [|lia]. injection Hd as <- <-. rewrite (Hfresh eq_refl Hr). lia.
  - intros id' c0. simpl. destruct (decide (id' = id)) as [->|Hne]; [rewrite lookup_insert_eq; intros [= <-]; destruct Ho as [[_ ->]|[_ ->]]; lia|].
    rewrite lookup_insert_ne by done. apply Hn.
Qed.

Lemma step_good s s' : good s -> step s s' -> good s'.
Proof.
  intros Hg Hst. inversion Hst as [id c o c' s0 Hc Ht E0|id d l1 l2 m c o c' s0 Hc Hl Hm Ht E0|r l1 l2 m k log out s0 Hl Hm Hk Hw Hlog E0]; subst.
  - apply client_task_ok in Ht as [Hp Ho]. eapply good_client; [exact Hg|exact Hc|exact Hp|exact Ho|]. intros x. by rewrite count_nil.
  - apply client_task_ok in Ht as [Hp Ho]. rewrite Hm in Hp. eapply good_client; [exact Hg|exact Hc|exact Hp|exact Ho|].
    intros x. rewrite Hl. simpl. rewrite !async_count_app, !async_count_cons, count_nil. lia.
  - rewrite (server_worker_ok m k r [] Hm) in Hw. simpl in Hw. injection Hw as Hw. rewrite <- fmap_replicate in Hw. apply addressed_inj in Hw as <-.
    assert (Hcr : forall n x, count x (replicate n r) = if decide (r = x) then n else 0%nat).
    { intros n x. induction n as [|n IH]; simpl; [by case_decide|]. rewrite async_count_cons, IH. by case_decide. }
    assert (Hle : forall x, (answers (System (clients s) (l1 ++ l2) (to_clients s ++ replicate (Z.to_nat k) r)) x <= answers s x)%nat).
    { intros x. unfold answers, printed. simpl. rewrite Hl, !async_count_app, async_count_cons, Hcr. case_decide; lia. }
    destruct Hg as [Ha Hb Hn]. split.
    + intros id d H. apply Ha. specialize (Hle (id, d)). lia.
    + intros id d. specialize (Hle (id, d)). specialize (Hb id d). lia.
    + exact Hn.
Qed.

(** C16: however the clients, the workers and the proxy interleave, a client only prints
    answers to requests it has sent itself, and at most four to each; and no step can
    fault: a worker answers every request under way, and a client goes on as long as its
    counter has room. *)
Theorem async_answers ids s :
  reachable ids s ->
  (forall id c d, clients s !! id = Some c -> d ∈ prints c ->
    (exists n, 1 <= n <= request_nbr c /\ d = request_text n) /\ (length (filter (fun x => x = d) (prints c)) <= 4)%nat) /\
  (forall r m k, r ∈ to_workers s -> zmsg_frames m = addressed r -> wp (server_worker m k) (fun _ log => log = replicate (Z.to_nat k) (addressed r)) []) /\
  (forall id c d m, clients s !! id = Some c -> request_nbr c < INT_MAX -> zmsg_frames m = [d] ->
    wp (client_task None) (fun _ _ => True) c /\ wp (client_task (Some m)) (fun _ _ => True) c).
Proof.
  intros Hr. assert (Hg : good s).
  { induction Hr as [|s s' _ IH Hst]; [|by eapply step_good]. split.
    - intros id d. unfold answers, printed. simpl. rewrite lookup_gset_to_gmap. case_guard; simpl; rewrite ?count_nil; lia.
    - intros id d. unfold answers, printed. simpl. rewrite lookup_gset_to_gmap. case_guard; simpl; rewrite ?count_nil; lia.
    - intros id c. simpl. rewrite lookup_gset_to_gmap_Some. intros [_ <-]. simpl. lia. }
  split; [|split].
  - intros id c d Hc Hd.
    assert (E : length (filter (fun x => x = d) (prints c)) = count (id, d) (printed s id)).
    { unfold printed, count. rewrite Hc. clear. induction (prints c) as [|x l IH]; [done|]. rewrite fmap_cons, !filter_cons.
      destruct (decide (x = d)), (decide ((id, x) = (id, d))); simplify_eq; simpl; congruence. }
    split.
    + destruct (go_asked s Hg id d) as (c0 & n & Hc0 & Hn & ->); [|simplify_eq; eauto]. unfold answers. simpl. rewrite <- E.
      assert (0 < length (filter (fun x => x = d) (prints c)))%nat; [|lia]. destruct (filter _ _) eqn:Ef; [|simpl; lia].
      assert (Hin : d ∈ filter (fun x => x = d) (prints c)) by (by apply list_elem_of_filter). rewrite Ef in Hin. by apply elem_of_nil in Hin.
    + rewrite E. pose proof (go_bound s Hg id d) as Hb. unfold answers in Hb. simpl in Hb. lia.
  - intros r m k _ Hm. eapply wp_intro; [by apply server_worker_ok|]. done.
  - intros id c d m Hc Hn Hm. pose proof (go_nbr s Hg id c Hc).
    assert (Hrest : forall c1, request_nbr c1 = request_nbr c -> wp (c ← get; if (S (centitick c) <? CENTITICKS)%nat then _ ← put (Client (request_nbr c) (S (centitick c)) (prints c)); mret None
      else n ← int_of (request_nbr c + 1); _ ← put (Client n 0 (prints c)); mret (Some (request_text n))) (fun _ _ => True) c1).
    { intros c1 E. wp_step. eapply wp_intro; [reflexivity|]. destruct (_ <? _)%nat; [done|]. wp_step. rewrite E. by apply wp_int_of; [unfold INT_MIN; lia|]. }
    unfold client_task. split; wp_step; [by apply Hrest|]. wp_step. pose proof (frames_last m) as Hlast. rewrite Hm in Hlast.
    destruct (zmsg_last m) as [f|]; [|done]. apply wp_ret. eapply wp_intro; [reflexivity|]. by apply Hrest.
Qed.

End spec.

(** Client 7, alone, after its first poll. *)
Lemma async_answers_witness :
  let s := System (<[[7] := Client 0 1 []]> (gset_to_gmap (Client 0 0 []) {[ [7] ]})) [] [] in
  clients s !! [7] = Some (Client 0 1 []) /\ @wp client _ (@client_task plain_czmq None) (fun _ _ => True) (Client 0 1 []).
Proof.
  assert (Hr : @reachable plain_czmq {[ [7] ]} (System (<[[7] := Client 0 1 []]> (gset_to_gmap (Client 0 0 []) {[ [7] ]})) [] [])).
  { eapply reach_step; [apply reach_start|].
    apply (@step_idle plain_czmq [7] (Client 0 0 []) None (Client 0 1 []) (System (gset_to_gmap (Client 0 0 []) {[ [7] ]}) [] [])); reflexivity. }
  split; [reflexivity|].
  destruct (@async_answers plain_czmq plain_czmq_laws {[ [7] ]} _ Hr) as (_ & _ & H).
  refine (proj1 (H [7] (Client 0 1 []) [1] [[1]] _ _ _)); reflexivity.
Defined.
