(* ===== verification/Tripping.v ===== *)
(** * The round-trip benchmark: [src/lib/zeromq/MDP/tripping.c]

    A client, a broker that is [zmq_proxy], and a worker that echoes, each a thread; the
    sockets between them are DEALER sockets.  A link holds as many messages as its high
    water marks allow; a [send] on a link that is full, and a [recv] on one that is empty,
    block.  The threads are functions that give the next state, or [None] when they
    block; a run is any interleaving.  After each test the client divides by the
    milliseconds it took, which the clock says: when these are 0 the program dies. *)

From stdpp Require Import prelude list relations.
From Stdlib Require Import ZArith Lia.
From S2P Require Import Prelude.

(** [(1000 * calls) / (int)(zclock_time() - start)]; [elapsed]: the difference. *)
Definition calls_per_second (calls elapsed : Z) : outcome Z :=
  let d := (elapsed + 2 ^ 31) mod 2 ^ 32 - 2 ^ 31 in
  if d =? 0 then Err DivByZero else Ok ((1000 * calls) ÷ d).

(** "hello" *)
Definition hello : list Z := [104; 101; 108; 108; 111].

Definition SYNC : Z := 10000.
Definition ASYNC : Z := 100000.

(** Where [client_task] is, with [requests]; [Dead]: a division has killed the program. *)
Inductive client_pc := SyncSend (requests : Z) | SyncRecv (requests : Z) | AsyncSend (requests : Z) | AsyncRecv (requests : Z) | Finished | Dead.

(** What the broker holds between [recv] and [send]. *)
Inductive held := Nothing | ToWorker (msg : list Z) | ToClient (msg : list Z).

(** The links: from the client to the broker, from there to the worker, and back; what
    the worker holds, and what the client has received. *)
Record system := System {
  pc : client_pc;
  to_broker : list (list Z);
  broker : held;
  to_worker : list (list Z);
  worker : option (list Z);
  from_worker : list (list Z);
  to_client : list (list Z);
  replies : list (list Z);
}.

Section system.
(** How many messages each link holds. *)
Context (c1 c2 c3 c4 : Z).
(** How many milliseconds the two tests take. *)
Context (t1 t2 : Z).

Definition room (c : Z) (q : list (list Z)) : bool := Z.of_nat (length q) <? c.

(** [zstr_send(client, "hello")], and where the client goes on. *)
Definition zstr_send (next : client_pc) (s : system) : option system :=
  if room c1 (to_broker s) then
    Some (System next (to_broker s ++ [hello]) (broker s) (to_worker s) (worker s) (from_worker s) (to_client s) (replies s))
  else None.

Definition zstr_recv (next : client_pc) (s : system) : option system :=
  match to_client s with
  | [] => None
  | m :: q => Some (System next (to_broker s) (broker s) (to_worker s) (worker s) (from_worker s) q (replies s ++ [m]))
  end.

Definition goto (next : client_pc) (s : system) : system :=
  System next (to_broker s) (broker s) (to_worker s) (worker s) (from_worker s) (to_client s) (replies s).

(** [printf(" %d calls/second\n", ...)] *)
Definition print_rate (calls elapsed : Z) (next : client_pc) (s : system) : system :=
  match calls_per_second calls elapsed with Ok _ => goto next s | _ => goto Dead s end.

Definition client_task (s : system) : option system :=
  match pc s with
  | SyncSend n => if n <? SYNC then zstr_send (SyncRecv n) s else Some (print_rate SYNC t1 (AsyncSend 0) s)
  | SyncRecv n => zstr_recv (SyncSend (n + 1)) s
  | AsyncSend n => if n <? ASYNC then zstr_send (AsyncSend (n + 1)) s else Some (goto (AsyncRecv 0) s)
  | AsyncRecv n => if n <? ASYNC then zstr_recv (AsyncRecv (n + 1)) s else Some (print_rate ASYNC t2 Finished s)
  | Finished | Dead => None
  end.

Definition worker_task (s : system) : option system :=
  match worker s, to_worker s with
  | None, m :: q => Some (System (pc s) (to_broker s) (broker s) q (Some m) (from_worker s) (to_client s) (replies s))
  | None, [] => None
  | Some m, _ =>
      if room c3 (from_worker s) then
        Some (System (pc s) (to_broker s) (broker s) (to_worker s) None (from_worker s ++ [m]) (to_client s) (replies s))
      else None
  end.

(** [zmq_proxy]; [front]: which of the sockets it takes a message from. *)
Definition broker_task (front : bool) (s : system) : option system :=
  match broker s with
  | Nothing =>
      if front then
        match to_broker s with
        | [] => None
        | m :: q => Some (System (pc s) q (ToWorker m) (to_worker s) (worker s) (from_worker s) (to_client s) (replies s))
        end
      else
        match from_worker s with
        | [] => None
        | m :: q => Some (System (pc s) (to_broker s) (ToClient m) (to_worker s) (worker s) q (to_client s) (replies s))
        end
  | ToWorker m =>
      if room c2 (to_worker s) then
        Some (System (pc s) (to_broker s) Nothing (to_worker s ++ [m]) (worker s) (from_worker s) (to_client s) (replies s))
      else None
  | ToClient m =>
      if room c4 (to_client s) then
        Some (System (pc s) (to_broker s) Nothing (to_worker s) (worker s) (from_worker s) (to_client s ++ [m]) (replies s))
      else None
  end.

(** The threads are one process. *)
Definition alive (p : client_pc) : bool := match p with Dead => false | _ => true end.

Inductive step (s : system) : system -> Prop :=
| step_client s' : alive (pc s) = true -> client_task s = Some s' -> step s s'
| step_worker s' : alive (pc s) = true -> worker_task s = Some s' -> step s s'
| step_broker front s' : alive (pc s) = true -> broker_task front s = Some s' -> step s s'.

Definition start : system := System (SyncSend 0) [] Nothing [] None [] [] [].

(** ** What is under way *)

Abbreviation len q := (Z.of_nat (length q)).
Definition held_by (h : held) : Z := match h with Nothing => 0 | _ => 1 end.
Definition worker_holds (w : option (list Z)) : Z := match w with None => 0 | Some _ => 1 end.

Definition flight s : Z :=
  len (to_broker s) + held_by (broker s) + len (to_worker s) + worker_holds (worker s) + len (from_worker s) + len (to_client s).

(** What the counter of the client says is under way, and received. *)
Definition expected (p : client_pc) : Z * Z :=
  match p with
  | SyncSend n => (0, n)
  | SyncRecv n => (1, n)
  | AsyncSend n => (n, SYNC)
  | AsyncRecv n => (ASYNC - n, SYNC + n)
  | Finished => (0, SYNC + ASYNC)
  | Dead => (0, 0)
  end.

Definition in_bounds (p : client_pc) : Prop :=
  match p with
  | SyncSend n => 0 <= n <= SYNC
  | SyncRecv n => 0 <= n < SYNC
  | AsyncSend n | AsyncRecv n => 0 <= n <= ASYNC
  | Finished => True
  | Dead => False
  end.

Definition all_hello s : Prop :=
  Forall (fun m => m = hello) (to_broker s ++ to_worker s ++ from_worker s ++ to_client s ++ replies s) /\
  (forall m, broker s = ToWorker m \/ broker s = ToClient m \/ worker s = Some m -> m = hello).

(** The clock says that no time has passed. *)
Definition no_time (t : Z) : Prop := (t + 2 ^ 31) mod 2 ^ 32 - 2 ^ 31 = 0.

(** What the client has printed. *)
Definition timed (p : client_pc) : Prop :=
  match p with
  | SyncSend _ | SyncRecv _ | Dead => True
  | AsyncSend _ | AsyncRecv _ => ~ no_time t1
  | Finished => ~ no_time t1 /\ ~ no_time t2
  end.

Lemma print_rate_cases calls t next s :
  no_time t /\ print_rate calls t next s = goto Dead s \/ ~ no_time t /\ print_rate calls t next s = goto next s.
Proof. unfold print_rate, calls_per_second, no_time. destruct (Z.eqb_spec ((t + 2 ^ 31) mod 2 ^ 32 - 2 ^ 31) 0); [by left|by right]. Qed.

Record inv s : Prop := {
  inv_timed : timed (pc s);
  inv_bounds : in_bounds (pc s);
  inv_flight : flight s = (expected (pc s)).1;
  inv_replies : len (replies s) = (expected (pc s)).2;
  inv_hello : all_hello s;
}.

(** Every step moves one message one place on, or the client to its next loop. *)
Definition unsent (p : client_pc) : Z :=
  match p with
  | SyncSend n => SYNC - n + ASYNC
  | SyncRecv n => SYNC - n - 1 + ASYNC
  | AsyncSend n => ASYNC - n
  | _ => 0
  end.

Definition loops (p : client_pc) : Z :=
  match p with SyncSend _ | SyncRecv _ => 3 | AsyncSend _ => 2 | AsyncRecv _ => 1 | Finished | Dead => 0 end.

Definition moves s : Z :=
  loops (pc s) + 8 * unsent (pc s) + 7 * len (to_broker s) +
  match broker s with Nothing => 0 | ToWorker _ => 6 | ToClient _ => 2 end +
  5 * len (to_worker s) + 4 * worker_holds (worker s) + 3 * len (from_worker s) + len (to_client s).

(** Which thread moves, and what it does: the cases of a step. *)
Ltac step_cases Hs :=
  destruct Hs as [s' Ha E|s' Ha E|front s' Ha E];
  [unfold client_task, zstr_send, zstr_recv in E|unfold worker_task in E|unfold broker_task in E];
  repeat match type of E with context [print_rate ?c ?t ?n ?s] =>
    let Ht := fresh "Ht" in let Hp := fresh "Hp" in
    destruct (print_rate_cases c t n s) as [[Ht Hp]|[Ht Hp]]; rewrite Hp in E; clear Hp; unfold goto in E end;
  cbn [pc to_broker broker to_worker worker from_worker to_client replies] in E;
  repeat (case_match; simplify_eq/=).

Lemma step_counts s s' : inv s -> step s s' -> pc s' <> Dead ->
  timed (pc s') /\ in_bounds (pc s') /\ flight s' = (expected (pc s')).1 /\ len (replies s') = (expected (pc s')).2 /\ moves s' = moves s - 1.
Proof.
  intros [Ht Hb Hf Hr _] Hs Hd. destruct s as [p q1 h q2 w q3 q4 r]. unfold flight, moves in *.
  step_cases Hs; unfold SYNC, ASYNC in *; rewrite ?length_app, ?Nat2Z.inj_add in *; cbn [length] in *;
    repeat match goal with H : (_ <? _) = _ |- _ => first [apply Z.ltb_lt in H|apply Z.ltb_ge in H] end; split_and!; first [done|lia].
Qed.

(** The program dies of a division only. *)
Lemma step_dead s s' : inv s -> step s s' -> pc s' = Dead -> (no_time t1 \/ no_time t2) /\ 0 < loops (pc s).
Proof.
  intros [_ Hb _ _ _] Hs Hd. destruct s as [p q1 h q2 w q3 q4 r].
  step_cases Hs; first [done|split; [tauto|lia]].
Qed.

Lemma step_hello s s' : all_hello s -> step s s' -> all_hello s'.
Proof.
  intros [HF Hh] Hs. destruct s as [p q1 h q2 w q3 q4 r]. unfold all_hello in *.
  step_cases Hs; repeat (rewrite Forall_app in HF || rewrite Forall_cons in HF);
    repeat match goal with H : _ /\ _ |- _ => destruct H end; (split; [by rewrite ?Forall_app, ?Forall_cons, ?Forall_nil; split_and!; eauto|]);
    try exact Hh; intros m' [?|[?|?]]; simplify_eq/=; eauto.
Qed.

Lemma trip_step s s' : inv s -> step s s' -> pc s' <> Dead -> inv s' /\ moves s' = moves s - 1.
Proof.
  intros Hi Hs Hd. destruct (step_counts s s' Hi Hs Hd) as (H0 & H1 & H2 & H3 & H4). split; [|done]. split; try done.
  eapply step_hello; [apply Hi|done].
Qed.

Lemma moves_loops s : inv s -> loops (pc s) <= moves s.
Proof.
  intros [_ Hb _ _ _]. unfold moves, unsent, worker_holds, SYNC, ASYNC in *. destruct (pc s), (broker s), (worker s); simpl in *; unfold SYNC, ASYNC in *; lia.
Qed.

Lemma moves_nonneg s : inv s -> 0 <= moves s.
Proof. intros Hi. pose proof (moves_loops s Hi). assert (0 <= loops (pc s)) by (by destruct (pc s)). lia. Qed.

Lemma trip_start : inv start.
Proof. split; [done|simpl; unfold SYNC; lia|done|done|]. split; [apply Forall_nil; done|]. intros m [?|[?|?]]; simplify_eq/=. Qed.

Lemma dead_stays s : pc s = Dead -> ~ exists s', step s s'.
Proof. intros Hd [s' [? Ha|? Ha|? ? Ha]]; by rewrite Hd in Ha. Qed.

(** Alive, with as many steps left as [moves] says, or dead. *)
Lemma nsteps_inv n s s' : inv s -> nsteps step n s s' ->
  (inv s' /\ Z.of_nat n + moves s' = moves s) \/ (pc s' = Dead /\ (no_time t1 \/ no_time t2) /\ Z.of_nat n <= moves s).
Proof.
  intros Hi Hn. induction Hn as [s|n s s1 s' Hs Hn IH]; [left; split; [done|lia]|].
  destruct (decide (alive (pc s1) = true)) as [Ha|Ha].
  - destruct (trip_step s s1 Hi Hs) as [Hi1 Hm]; [intros E; by rewrite E in Ha|].
    destruct (IH Hi1) as [[Hi' Hm']|(Hd & Ht & Hm')]; [left|right]; split_and?; done || lia.
  - assert (Hd : pc s1 = Dead) by (by destruct (pc s1)). destruct (step_dead s s1 Hi Hs Hd) as [Ht Hl].
    pose proof (moves_loops s Hi). right. inversion Hn as [|? ? s2 ? Hs2]; subst; [split_and!; [done..|lia]|].
    destruct (dead_stays s1 Hd). by exists s2.
Qed.

(** ** The benchmark ends *)

Context (H1 : 0 < c1) (H2 : 0 < c2) (H3 : 0 < c3) (H4 : 0 < c4).
(** A link and the way back on it hold all messages of the asynchronous test but one. *)
Context (Hfront : ASYNC <= c1 + c4 + 1) (Hback : ASYNC <= c2 + c3 + 1).

Lemma room_or_full c q : room c q = true \/ room c q = false /\ c <= len q.
Proof. unfold room. destruct (Z.ltb_spec (len q) c); [by left|by right]. Qed.

Lemma flight_bound s : inv s -> 0 <= flight s <= ASYNC.
Proof. intros [_ Hb Hf _ _]. rewrite Hf. destruct (pc s); simpl in *; unfold SYNC, ASYNC in *; lia. Qed.

(** Each thread moves when it is not blocked. *)
Lemma client_moves s :
  match pc s with
  | SyncSend n => room c1 (to_broker s) = true
  | SyncRecv _ => to_client s <> []
  | AsyncSend n => ASYNC <= n \/ room c1 (to_broker s) = true
  | AsyncRecv n => ASYNC <= n \/ to_client s <> []
  | Finished | Dead => False
  end -> exists s', step s s'.
Proof.
  intros H. assert (Hc : is_Some (client_task s)) by
    (unfold client_task, zstr_send, zstr_recv; destruct (pc s) as [n|n|n|n| |]; [destruct (Z.ltb_spec n SYNC)| |destruct (Z.ltb_spec n ASYNC)|destruct (Z.ltb_spec n ASYNC)| |];
       try destruct H as [H|H]; try lia; try rewrite H; try destruct (to_client s); done).
  destruct Hc as [s' E]. exists s'. apply step_client; [by destruct (pc s)|done].
Qed.

Lemma worker_moves s : alive (pc s) = true ->
  match worker s with None => to_worker s <> [] | Some _ => room c3 (from_worker s) = true end -> exists s', step s s'.
Proof.
  intros Ha H. assert (Hc : is_Some (worker_task s)) by (unfold worker_task; destruct (worker s); [by rewrite H|by destruct (to_worker s)]).
  destruct Hc as [s' E]. exists s'. by apply step_worker.
Qed.

Lemma broker_moves front s : alive (pc s) = true ->
  match broker s with
  | Nothing => (if front : bool then to_broker s else from_worker s) <> []
  | ToWorker _ => room c2 (to_worker s) = true
  | ToClient _ => room c4 (to_client s) = true
  end -> exists s', step s s'.
Proof.
  intros Ha H. assert (Hc : is_Some (broker_task front s)) by
    (unfold broker_task; destruct (broker s); [destruct front; [by destruct (to_broker s)|by destruct (from_worker s)]|by rewrite H..]).
  destruct Hc as [s' E]. exists s'. by apply (step_broker _ front).
Qed.

Lemma room_nil c : 0 < c -> room c [] = true.
Proof. intros H. apply Z.ltb_lt. simpl. lia. Qed.

Lemma progress s : inv s -> pc s <> Finished -> exists s', step s s'.
Proof using H1 H2 H3 H4 Hfront Hback.
  intros Hi Hp. pose proof (flight_bound s Hi) as Hfl. assert (Ha : alive (pc s) = true) by (destruct Hi as [_ Hb _ _ _]; by destruct (pc s)). destruct Hi as [_ Hb Hf _ _]. unfold flight in *.
  destruct (broker s) as [|m|m] eqn:Eb; cbn [held_by] in *.
  - (* the broker waits *)
    destruct (decide (to_broker s = [])) as [E1|E1]; [|apply (broker_moves true s Ha); by rewrite Eb].
    destruct (decide (from_worker s = [])) as [E3|E3]; [|apply (broker_moves false s Ha); by rewrite Eb].
    destruct (worker s) as [m|] eqn:Ew; [apply (worker_moves s Ha); rewrite Ew, E3; by apply room_nil|].
    destruct (decide (to_worker s = [])) as [E2|E2]; [|apply (worker_moves s Ha); by rewrite Ew].
    rewrite E1, E2, E3 in Hf. simpl in Hf. apply client_moves. rewrite E1. pose proof (room_nil c1 H1).
    destruct (pc s) as [n|n|n|n| |]; simpl in Hf; try done; try (by right); [intros E4; rewrite E4 in Hf; simpl in Hf; lia|].
    destruct (Z.le_gt_cases ASYNC n); [by left|right]. intros E4. rewrite E4 in Hf. simpl in Hf. lia.
  - (* it has a request *)
    destruct (room_or_full c2 (to_worker s)) as [Hr|[_ Hr]]; [apply (broker_moves true s Ha); by rewrite Eb|].
    apply (worker_moves s Ha). destruct (worker s) as [m'|]; [|intros E; rewrite E in Hr; simpl in Hr; lia].
    destruct (room_or_full c3 (from_worker s)) as [Hr3|[_ Hr3]]; [done|]. simpl in Hfl. lia.
  - (* it has a reply *)
    destruct (room_or_full c4 (to_client s)) as [Hr|[_ Hr]]; [apply (broker_moves true s Ha); by rewrite Eb|].
    assert (E4 : to_client s <> []) by (intros E; rewrite E in Hr; simpl in Hr; lia). assert (0 <= worker_holds (worker s)) by (by destruct (worker s)).
    apply client_moves. destruct (pc s) as [n|n|n|n| |]; simpl in Hf; try done; [lia| |by right].
    destruct (Z.le_gt_cases ASYNC n); [by left|right]. destruct (room_or_full c1 (to_broker s)) as [Hr1|[_ Hr1]]; [done|lia].
Qed.

Lemma at_the_end s : inv s -> moves s = 0 <-> pc s = Finished.
Proof.
  intros [_ Hb Hf _ _]. unfold flight, moves, worker_holds in *.
  split; [destruct (pc s), (broker s), (worker s); simpl in *; unfold SYNC, ASYNC in *; done || lia|].
  intros E. rewrite E in *. destruct (broker s), (worker s); simpl in *; lia.
Qed.

Lemma finished_stays s s' : inv s -> pc s = Finished -> ~ step s s'.
Proof.
  intros Hi E Hs. pose proof (proj2 (at_the_end s Hi) E) as Hz. destruct (decide (alive (pc s') = true)) as [Ha|Ha].
  - destruct (trip_step s s' Hi Hs) as [Hi' Hm]; [intros E'; by rewrite E' in Ha|]. pose proof (moves_nonneg s' Hi'). lia.
  - destruct (step_dead s s' Hi Hs) as [_ Hl]; [by destruct (pc s')|]. by rewrite E in Hl.
Qed.

(** C20: when the links are large enough every run goes on until the client is done, which is after exactly
    [8 * (SYNC + ASYNC) + 3] steps: then it has got as many replies as it has sent
    requests, all of them "hello", and nothing is left under way.  A run ends earlier only
    if the program dies of a division, because the clock has not moved in one of the two
    tests; if it has not, no run gets to the end. *)
Theorem tripping_completes n s :
  nsteps step n start s ->
  (pc s = Dead /\ (no_time t1 \/ no_time t2) /\ Z.of_nat n <= 8 * (SYNC + ASYNC) + 3) \/
  (pc s <> Dead /\ Z.of_nat n <= 8 * (SYNC + ASYNC) + 3 /\
   ((exists s', step s s') <-> Z.of_nat n < 8 * (SYNC + ASYNC) + 3) /\
   (Z.of_nat n = 8 * (SYNC + ASYNC) + 3 ->
     pc s = Finished /\ flight s = 0 /\ len (replies s) = SYNC + ASYNC /\ Forall (fun m => m = hello) (replies s) /\
     ~ no_time t1 /\ ~ no_time t2)).
Proof using H1 H2 H3 H4 Hfront Hback.
  intros Hn. assert (Hst : moves start = 8 * (SYNC + ASYNC) + 3) by done.
  destruct (nsteps_inv n start s trip_start Hn) as [[Hi Hm]|Hd]; [right|left; by rewrite Hst in Hd]. pose proof (moves_nonneg s Hi) as Hpos.
  rewrite Hst in Hm. assert (Hnd : pc s <> Dead) by (destruct Hi as [_ Hb _ _ _]; by destruct (pc s)). split; [done|]. split; [lia|].
  assert (Hz : moves s = 0 <-> pc s = Finished) by (apply at_the_end; done). split.
  - split; intros H; [|apply progress; [done|]; intros E%Hz; lia].
    destruct H as [s' Hs]. enough (moves s <> 0) by lia. intros E%Hz. by apply (finished_stays s s').
  - intros E. assert (Hp : pc s = Finished) by (apply Hz; lia). destruct Hi as [Ht _ Hf Hr [HF _]]. rewrite Hp in Ht, Hf, Hr.
    split_and!; [done|done|done| |apply Ht..]. rewrite !Forall_app in HF. tauto.
Qed.

End system.

(** ** Links that are too small *)

Section small.
Context (c1 c2 c3 c4 t1 t2 : Z) (H1 : 0 < c1) (H2 : 0 < c2) (H3 : 0 < c3) (H4 : 0 < c4).
Context (Ht : ~ no_time t1).
Abbreviation step := (step c1 c2 c3 c4 t1 t2).

(** Nothing is under way but [k] replies the client has not received. *)
Definition quiet (p : client_pc) (k : nat) (r : list (list Z)) : system := System p [] Nothing [] None [] (replicate k hello) r.

#[local] Tactic Notation "one_step" uconstr(c) := eapply rtc_l; [apply c; cbn; first [assumption|rewrite ?room_nil by done; reflexivity]|].

(** A message that has been sent goes round until the broker has the reply. *)
Lemma round_trip p k r : alive p = true -> rtc step (System p [hello] Nothing [] None [] (replicate k hello) r) (System p [] (ToClient hello) [] None [] (replicate k hello) r).
Proof using H2 H3.
  intros Ha. one_step (step_broker c1 c2 c3 c4 t1 t2 _ true). one_step (step_broker c1 c2 c3 c4 t1 t2 _ true). one_step (step_worker c1 c2 c3 c4 t1 t2).
  one_step (step_worker c1 c2 c3 c4 t1 t2). one_step (step_broker c1 c2 c3 c4 t1 t2 _ false). done.
Qed.

Lemma reply_arrives p k r : alive p = true -> Z.of_nat k < c4 -> rtc step (System p [] (ToClient hello) [] None [] (replicate k hello) r) (quiet p (S k) r).
Proof.
  intros Ha Hk. eapply rtc_l; [|done]. apply (step_broker c1 c2 c3 c4 t1 t2 _ true); [done|]. cbn. unfold room. rewrite length_replicate, (proj2 (Z.ltb_lt _ _)) by done.
  by rewrite <- replicate_cons_app.
Qed.

Lemma sync_round n r : 0 <= n < SYNC -> rtc step (quiet (SyncSend n) 0 r) (quiet (SyncSend (n + 1)) 0 (r ++ [hello])).
Proof using H1 H2 H3 H4.
  intros Hn. eapply rtc_l; [apply step_client; [done|]; cbn; rewrite (proj2 (Z.ltb_lt _ _)) by lia; unfold zstr_send; cbn; by rewrite room_nil|].
  etrans; [by apply (round_trip _ 0)|]. etrans; [by apply (reply_arrives _ 0)|]. eapply rtc_l; [by apply step_client|done].
Qed.

Lemma sync_loop n : Z.of_nat n <= SYNC -> exists r, rtc step start (quiet (SyncSend (Z.of_nat n)) 0 r).
Proof using H1 H2 H3 H4.
  induction n as [|n IH]; intros Hn; [by exists []|]. destruct IH as [r IH]; [lia|]. exists (r ++ [hello]). etrans; [exact IH|].
  replace (Z.of_nat (S n)) with (Z.of_nat n + 1) by lia. apply sync_round. lia.
Qed.

Lemma send_one n q h k r : n < ASYNC -> Z.of_nat (length q) < c1 ->
  step (System (AsyncSend n) q h [] None [] (replicate k hello) r) (System (AsyncSend (n + 1)) (q ++ [hello]) h [] None [] (replicate k hello) r).
Proof. intros Hn Hq. apply step_client; [done|]. cbn. rewrite (proj2 (Z.ltb_lt _ _)) by lia. unfold zstr_send, room. cbn. by rewrite (proj2 (Z.ltb_lt _ _)) by lia. Qed.

Lemma fill_replies k r : Z.of_nat k <= c4 -> c4 < ASYNC -> rtc step (quiet (AsyncSend 0) 0 r) (quiet (AsyncSend (Z.of_nat k)) k r).
Proof using H1 H2 H3.
  intros Hk Hc. induction k as [|k IH]; [done|]. etrans; [apply IH; lia|]. eapply rtc_l; [apply (send_one _ []); simpl; lia|].
  replace (Z.of_nat (S k)) with (Z.of_nat k + 1) by lia. etrans; [by apply round_trip|]. apply reply_arrives; [done|lia].
Qed.

Lemma fill_requests j n h k r : Z.of_nat j <= c1 -> n + Z.of_nat j <= ASYNC ->
  rtc step (System (AsyncSend n) [] h [] None [] (replicate k hello) r) (System (AsyncSend (n + Z.of_nat j)) (replicate j hello) h [] None [] (replicate k hello) r).
Proof.
  intros Hj Hn. induction j as [|j IH]; [by rewrite Z.add_0_r|]. etrans; [apply IH; lia|]. eapply rtc_l; [|done].
  replace (n + Z.of_nat (S j)) with (n + Z.of_nat j + 1) by lia. change (replicate (S j) hello) with (hello :: replicate j hello). rewrite replicate_cons_app.
  apply send_one; [lia|rewrite length_replicate; lia].
Qed.

Lemma to_async r : client_task c1 t1 t2 (quiet (SyncSend (Z.of_nat (Z.to_nat SYNC))) 0 r) = Some (quiet (AsyncSend 0) 0 r).
Proof using Ht.
  unfold client_task. cbn [pc quiet]. rewrite (proj2 (Z.ltb_ge _ _)) by (unfold SYNC; lia).
  by destruct (print_rate_cases SYNC t1 (AsyncSend 0) (quiet (SyncSend (Z.of_nat (Z.to_nat SYNC))) 0 r)) as [[? _]|[_ ->]].
Qed.

(** When the two links between client and broker hold fewer than [ASYNC - 1] messages the
    client, which sends all its requests before it receives a reply, and the broker can
    wait for each other for ever. *)
Theorem tripping_blocks : c1 + c4 + 2 <= ASYNC -> exists s, rtc step start s /\ pc s <> Finished /\ pc s <> Dead /\ forall s', ~ step s s'.
Proof using H1 H2 H3 H4 Ht.
  intros Hc. destruct (sync_loop (Z.to_nat SYNC)) as [r Hr]; [unfold SYNC; lia|].
  set (k := Z.to_nat c4). set (j := Z.to_nat c1).
  exists (System (AsyncSend (c4 + 1 + Z.of_nat j)) (replicate j hello) (ToClient hello) [] None [] (replicate k hello) r). split; [|split; [done|split; [done|]]].
  - etrans; [exact Hr|]. eapply rtc_l; [apply step_client; [done|]; apply to_async|]. etrans; [apply (fill_replies k); lia|].
    eapply rtc_l; [apply (send_one _ []); simpl; lia|]. etrans; [by apply round_trip|]. replace (Z.of_nat k + 1) with (c4 + 1) by lia. apply fill_requests; lia.
  - assert (Hj : room c1 (replicate j hello) = false) by (unfold room; apply Z.ltb_ge; rewrite length_replicate; lia).
    assert (Hk : room c4 (replicate k hello) = false) by (unfold room; apply Z.ltb_ge; rewrite length_replicate; lia).
    intros s' [s1 _ E|s1 _ E|front s1 _ E]; [|done|unfold broker_task in E; simpl in E; by rewrite Hk in E].
    unfold client_task, zstr_send in E. cbn [pc to_broker] in E. rewrite (proj2 (Z.ltb_lt _ _)) in E by lia. by rewrite Hj in E.
Qed.

End small.

(** A run of two steps on large links. *)
Lemma tripping_completes_witness :
  let s := System (SyncRecv 0) [] (ToWorker hello) [] None [] [] [] in
  nsteps (step 50000 50000 50000 50000 900 5000) 2 start s /\ exists s', step 50000 50000 50000 50000 900 5000 s s'.
Proof.
  set (s := System _ _ _ _ _ _ _ _). assert (Hn : nsteps (step 50000 50000 50000 50000 900 5000) 2 start s).
  { eapply nsteps_l; [by apply step_client|]. eapply nsteps_l; [by apply (step_broker _ _ _ _ _ _ _ true)|apply nsteps_O]. }
  split; [exact Hn|].
  destruct (tripping_completes 50000 50000 50000 50000 900 5000 ltac:(lia) ltac:(lia) ltac:(lia) ltac:(lia) ltac:(unfold ASYNC; lia) ltac:(unfold ASYNC; lia) 2 _ Hn)
    as [[E _]|(_ & _ & H & _)]; [discriminate E|]. apply H. reflexivity.
Defined.

Lemma tripping_blocks_witness :
  exists s, rtc (step 2000 2000 2000 2000 900 5000) start s /\ pc s <> Finished /\ pc s <> Dead /\ forall s', ~ step 2000 2000 2000 2000 900 5000 s s'.
Proof. by apply (tripping_blocks 2000 2000 2000 2000). Defined.

(** The rate that is printed, unless the clock has not moved: then the division faults. *)
Lemma rate_ok calls elapsed : 0 < elapsed < 2 ^ 31 -> calls_per_second calls elapsed = Ok (1000 * calls ÷ elapsed).
Proof.
  intros H. unfold calls_per_second. rewrite Z.mod_small by lia. replace (elapsed + 2 ^ 31 - 2 ^ 31) with elapsed by lia.
  by rewrite (proj2 (Z.eqb_neq _ _)) by lia.
Qed.

Lemma rate_faults calls elapsed : no_time elapsed -> calls_per_second calls elapsed = Err DivByZero.
Proof. unfold calls_per_second, no_time. by intros ->. Qed.
