(* ===== verification/Mdp.v ===== *)
(** * The Majordomo protocol: [src/lib/zeromq/MDP/mdp.h] *)

From stdpp Require Import prelude.
From Stdlib Require Import ZArith.
From S2P Require Import Prelude.

(** "MDPC01" and "MDPW01" *)
Definition MDPC_CLIENT : list Z := [77; 68; 80; 67; 48; 49].
Definition MDPW_WORKER : list Z := [77; 68; 80; 87; 48; 49].
Definition MDPW_READY : list Z := [1].
Definition MDPW_REQUEST : list Z := [2].
Definition MDPW_REPLY : list Z := [3].
Definition MDPW_HEARTBEAT : list Z := [4].
Definition MDPW_DISCONNECT : list Z := [5].
