(* ===== verification/MdBroker.v ===== *)
(** * The Majordomo broker: [src/lib/zeromq/MDP/mdbroker.c]

    Clients send requests for a service by name, workers register for one; the
    broker queues requests and waiting workers per service and passes each
    request to one worker.  [service_t] and [worker_t] objects live in two heaps
    and are shared by address between the hash tables and the waiting lists, as
    in the code.  czmq is the class of Czmq.v, the clock is a parameter, what is
    sent is a log, and what is received is an event. *)

From stdpp Require Import prelude gmap list.
From Stdlib Require Import ZArith Lia.
From S2P Require Import Prelude Czmq Mdp.

(** ** Data *)

Definition HEARTBEAT_LIVENESS : Z := 3.
Definition HEARTBEAT_INTERVAL : Z := 2500.
Definition HEARTBEAT_EXPIRY : Z := HEARTBEAT_INTERVAL * HEARTBEAT_LIVENESS.

(** "mmi.", "mmi.service", "200", "404", "501" *)
Definition MMI : list Z := [109; 109; 105; 46].
Definition MMI_SERVICE : list Z := [109; 109; 105; 46; 115; 101; 114; 118; 105; 99; 101].
Definition CODE_200 : list Z := [50; 48; 48].
Definition CODE_404 : list Z := [52; 48; 52].
Definition CODE_501 : list Z := [53; 48; 49].

Section broker.
Context `{Czmq}.
Context (clock : nat -> Z).

Record service_t := Service {
  s_name : list Z;
  requests : zlist zmsg;
  s_waiting : zlist loc;
  s_workers : Z;                 (** [size_t] *)
}.

Record worker_t := MkWorker {
  id_string : list Z;
  identity : zframe;
  w_service : ptr;
  expiry : Z;
}.

(** [broker_t], the heaps, what was sent, and how often the clock was read. *)
Record broker_t := Broker {
  services : zhash loc;
  workers : zhash loc;
  waiting : zlist loc;
  heartbeat_at : Z;
  s_heap : gmap loc service_t;
  w_heap : gmap loc worker_t;
  wire : list (list (list Z));
  ticks : nat;
}.

Definition set_services v b := Broker v (workers b) (waiting b) (heartbeat_at b) (s_heap b) (w_heap b) (wire b) (ticks b).
Definition set_workers v b := Broker (services b) v (waiting b) (heartbeat_at b) (s_heap b) (w_heap b) (wire b) (ticks b).
Definition set_waiting v b := Broker (services b) (workers b) v (heartbeat_at b) (s_heap b) (w_heap b) (wire b) (ticks b).
Definition set_heartbeat v b := Broker (services b) (workers b) (waiting b) v (s_heap b) (w_heap b) (wire b) (ticks b).
Definition set_s_heap v b := Broker (services b) (workers b) (waiting b) (heartbeat_at b) v (w_heap b) (wire b) (ticks b).
Definition set_w_heap v b := Broker (services b) (workers b) (waiting b) (heartbeat_at b) (s_heap b) v (wire b) (ticks b).
Definition set_wire v b := Broker (services b) (workers b) (waiting b) (heartbeat_at b) (s_heap b) (w_heap b) v (ticks b).
Definition set_ticks v b := Broker (services b) (workers b) (waiting b) (heartbeat_at b) (s_heap b) (w_heap b) (wire b) v.

Definition set_requests v s := Service (s_name s) v (s_waiting s) (s_workers s).
Definition set_s_waiting v s := Service (s_name s) (requests s) v (s_workers s).
Definition set_s_workers v s := Service (s_name s) (requests s) (s_waiting s) v.
Definition set_w_service v w := MkWorker (id_string w) (identity w) v (expiry w).
Definition set_expiry v w := MkWorker (id_string w) (identity w) (w_service w) v.

(** Modular arithmetic of [size_t]. *)
Definition size_t (z : Z) : Z := z mod 2 ^ 64.

(** ** Memory, the clock, the socket *)

Definition load_w (p : ptr) : M broker_t worker_t := fun b =>
  match p with
  | None => Err NullDeref
  | Some l => match w_heap b !! l with Some w => Ok (w, b) | None => Err Dangling end
  end.

Definition load_s (p : ptr) : M broker_t service_t := fun b =>
  match p with
  | None => Err NullDeref
  | Some l => match s_heap b !! l with Some s => Ok (s, b) | None => Err Dangling end
  end.

Definition update_w (p : ptr) (f : worker_t -> worker_t) : M broker_t unit :=
  w ← load_w p;
  modify (fun b => match p with Some l => set_w_heap (<[l := f w]> (w_heap b)) b | None => b end).

Definition update_s (p : ptr) (f : service_t -> service_t) : M broker_t unit :=
  s ← load_s p;
  modify (fun b => match p with Some l => set_s_heap (<[l := f s]> (s_heap b)) b | None => b end).

(** [zmalloc]: stops the program when there is no memory, so it never fails. *)
Definition zmalloc_w (w : worker_t) : M broker_t loc := fun b =>
  let l := fresh (dom (w_heap b)) in Ok (l, set_w_heap (<[l := w]> (w_heap b)) b).

Definition zmalloc_s (s : service_t) : M broker_t loc := fun b =>
  let l := fresh (dom (s_heap b)) in Ok (l, set_s_heap (<[l := s]> (s_heap b)) b).

Definition zclock_time : M broker_t Z := fun b => Ok (clock (ticks b), set_ticks (S (ticks b)) b).

Definition zmsg_send (m : zmsg) : M broker_t unit :=
  modify (fun b => set_wire (wire b ++ [zmsg_frames m]) b).

(** ** Workers *)

Definition s_worker_send (self : loc) (command : list Z) (opt : option (list Z))
    (msg : option zmsg) : M broker_t unit :=
  let msg := match msg with Some m => zmsg_dup m | None => zmsg_new end in
  let msg := match opt with Some o => zmsg_pushstr msg o | None => msg end in
  let msg := zmsg_pushstr msg command in
  let msg := zmsg_pushstr msg MDPW_WORKER in
  w ← load_w (Some self);
  zmsg_send (zmsg_wrap msg (identity w)).

(** The free callback of the table of workers. *)
Definition s_worker_destroy (self : loc) : M broker_t unit :=
  _ ← load_w (Some self);
  modify (fun b => set_w_heap (delete self (w_heap b)) b).

Definition s_worker_delete (self : loc) (disconnect : bool) : M broker_t unit :=
  _ ← (if disconnect then s_worker_send self MDPW_DISCONNECT None None else mret tt);
  w ← load_w (Some self);
  _ ← match w_service w with
      | None => mret tt
      | Some _ =>
          _ ← update_s (w_service w) (fun s => set_s_waiting (zlist_remove (s_waiting s) self) s);
          update_s (w_service w) (fun s => set_s_workers (size_t (s_workers s - 1)) s)
      end;
  _ ← modify (fun b => set_waiting (zlist_remove (waiting b) self) b);
  b ← get;
  let '(item, h) := zhash_delete (workers b) (id_string w) in
  _ ← modify (set_workers h);
  match item with Some l => s_worker_destroy l | None => mret tt end.

Definition s_worker_require (sender : zframe) : M broker_t loc :=
  let id_string := zframe_strhex sender in
  b ← get;
  match zhash_lookup (workers b) id_string with
  | Some worker => mret worker
  | None =>
      worker ← zmalloc_w (MkWorker id_string sender NULL 0);
      _ ← modify (fun b => set_workers (zhash_insert (workers b) id_string worker) b);
      mret worker
  end.

(** ** Services *)

Definition s_service_require (service_frame : option zframe) : M broker_t loc :=
  service_frame ← frame_arg service_frame;
  let name := zframe_strdup service_frame in
  b ← get;
  match zhash_lookup (services b) name with
  | Some service => mret service
  | None =>
      service ← zmalloc_s (Service name zlist_new zlist_new 0);
      _ ← modify (fun b => set_services (zhash_insert (services b) name service) b);
      mret service
  end.

(** Each round that does not stop takes a worker out of [waiting]. *)
Fixpoint purge_loop (fuel : nat) : M broker_t unit :=
  b ← get;
  let '(worker, wl) := zlist_first (waiting b) in
  _ ← modify (set_waiting wl);
  match worker with
  | None => mret tt
  | Some worker =>
      match fuel with
      | O => no_fuel
      | S fuel =>
          now ← zclock_time;
          w ← load_w (Some worker);
          if now <? expiry w then mret tt
          else _ ← s_worker_delete worker false; purge_loop fuel
      end
  end.

Definition s_broker_purge : M broker_t unit :=
  b ← get; purge_loop (S (zlist_size (waiting b))).

Fixpoint dispatch_loop (fuel : nat) (self : loc) : M broker_t unit :=
  s ← load_s (Some self);
  if (0 <? zlist_size (s_waiting s))%nat && (0 <? zlist_size (requests s))%nat then
    match fuel with
    | O => no_fuel
    | S fuel =>
        let '(worker, wl) := zlist_pop (s_waiting s) in
        let '(msg, rl) := zlist_pop (requests s) in
        _ ← update_s (Some self) (fun s => set_requests rl (set_s_waiting wl s));
        match worker with
        | None => throw NullDeref
        | Some worker =>
            _ ← modify (fun b => set_waiting (zlist_remove (waiting b) worker) b);
            _ ← s_worker_send worker MDPW_REQUEST None msg;
            dispatch_loop fuel self
        end
    end
  else mret tt.

Definition s_service_dispatch (self : loc) (msg : option zmsg) : M broker_t unit :=
  _ ← match msg with
      | Some m => update_s (Some self) (fun s => set_requests (zlist_append (requests s) m) s)
      | None => mret tt
      end;
  _ ← s_broker_purge;
  s ← load_s (Some self);
  dispatch_loop (S (zlist_size (requests s))) self.

Definition s_worker_waiting (self : loc) : M broker_t unit :=
  w ← load_w (Some self);
  _ ← modify (fun b => set_waiting (zlist_append (waiting b) self) b);
  _ ← update_s (w_service w) (fun s => set_s_waiting (zlist_append (s_waiting s) self) s);
  now ← zclock_time;
  _ ← update_w (Some self) (set_expiry (now + HEARTBEAT_EXPIRY));
  match w_service w with
  | None => throw NullDeref
  | Some service => s_service_dispatch service None
  end.

(** ** Messages *)

(** [zframe_size(f) >= 4 && memcmp(zframe_data(f), "mmi.", 4) == 0] *)
Definition is_mmi (f : zframe) : bool :=
  (4 <=? length (zframe_data f))%nat && bool_decide (take 4 (zframe_data f) = MMI).

Definition worker_ready_msg (worker : loc) (worker_ready : bool) (sender : zframe) (msg : zmsg)
  : M broker_t unit :=
  if worker_ready then s_worker_delete worker true
  else if is_mmi sender then s_worker_delete worker true
  else
    let '(service_frame, _) := zmsg_pop msg in
    service ← s_service_require service_frame;
    _ ← update_w (Some worker) (set_w_service (Some service));
    _ ← update_s (Some service) (fun s => set_s_workers (size_t (s_workers s + 1)) s);
    s_worker_waiting worker.

Definition worker_reply_msg (worker : loc) (worker_ready : bool) (msg : zmsg) : M broker_t unit :=
  if worker_ready then
    let '(client, msg) := zmsg_unwrap msg in
    w ← load_w (Some worker);
    s ← load_s (w_service w);
    let msg := zmsg_pushstr msg (s_name s) in
    let msg := zmsg_pushstr msg MDPC_CLIENT in
    client ← frame_arg client;
    _ ← zmsg_send (zmsg_wrap msg client);
    s_worker_waiting worker
  else s_worker_delete worker true.

Definition worker_heartbeat_msg (worker : loc) (worker_ready : bool) : M broker_t unit :=
  if worker_ready then
    now ← zclock_time; update_w (Some worker) (set_expiry (now + HEARTBEAT_EXPIRY))
  else s_worker_delete worker true.

Definition s_broker_worker_msg (sender : zframe) (msg : zmsg) : M broker_t unit :=
  _ ← assert (1 <=? zmsg_size msg)%nat;
  let '(command, msg) := zmsg_pop msg in
  b ← get;
  let worker_ready :=
    match zhash_lookup (workers b) (zframe_strhex sender) with Some _ => true | None => false end in
  worker ← s_worker_require sender;
  command ← frame_arg command;
  if zframe_streq command MDPW_READY then worker_ready_msg worker worker_ready sender msg
  else if zframe_streq command MDPW_REPLY then worker_reply_msg worker worker_ready msg
  else if zframe_streq command MDPW_HEARTBEAT then worker_heartbeat_msg worker worker_ready
  else if zframe_streq command MDPW_DISCONNECT then s_worker_delete worker false
  else mret tt.

(** The answer to a request for an "mmi." service. *)
Definition mmi_code (service_frame : zframe) (msg : zmsg) : M broker_t (list Z) :=
  if zframe_streq service_frame MMI_SERVICE then
    last ← frame_arg (zmsg_last msg);
    b ← get;
    match zhash_lookup (services b) (zframe_strdup last) with
    | Some service =>
        s ← load_s (Some service);
        mret (if s_workers s =? 0 then CODE_404 else CODE_200)
    | None => mret CODE_404
    end
  else mret CODE_501.

Definition s_broker_client_msg (sender : zframe) (msg : zmsg) : M broker_t unit :=
  _ ← assert (2 <=? zmsg_size msg)%nat;
  let '(service_frame, msg) := zmsg_pop msg in
  service ← s_service_require service_frame;
  let msg := zmsg_wrap msg sender in
  service_frame ← frame_arg service_frame;
  if is_mmi service_frame then
    return_code ← mmi_code service_frame msg;
    let msg := zmsg_reset_last msg return_code in
    let '(client, msg) := zmsg_unwrap msg in
    let msg := zmsg_prepend msg service_frame in
    let msg := zmsg_pushstr msg MDPC_CLIENT in
    client ← frame_arg client;
    zmsg_send (zmsg_wrap msg client)
  else s_service_dispatch service (Some msg).

(** ** [main] *)

Definition s_broker_new : broker_t :=
  Broker zhash_new zhash_new zlist_new (clock 0 + HEARTBEAT_INTERVAL) ∅ ∅ [] 1.

Definition handle_msg (msg : zmsg) : M broker_t unit :=
  let '(sender, msg) := zmsg_pop msg in
  let '(_, msg) := zmsg_pop msg in
  let '(header, msg) := zmsg_pop msg in
  header ← frame_arg header;
  if zframe_streq header MDPC_CLIENT then
    sender ← frame_arg sender; s_broker_client_msg sender msg
  else if zframe_streq header MDPW_WORKER then
    sender ← frame_arg sender; s_broker_worker_msg sender msg
  else mret tt.

(** [for each waiting worker, s_worker_send(worker, MDPW_HEARTBEAT, NULL, NULL)] *)
Fixpoint heartbeat_loop (fuel : nat) (worker : option loc) : M broker_t unit :=
  match worker with
  | None => mret tt
  | Some worker =>
      match fuel with
      | O => no_fuel
      | S fuel =>
          _ ← s_worker_send worker MDPW_HEARTBEAT None None;
          b ← get;
          let '(next, wl) := zlist_next (waiting b) in
          _ ← modify (set_waiting wl);
          heartbeat_loop fuel next
      end
  end.

Definition heartbeats : M broker_t unit :=
  now ← zclock_time;
  b ← get;
  if heartbeat_at b <? now then
    _ ← s_broker_purge;
    b ← get;
    let '(worker, wl) := zlist_first (waiting b) in
    _ ← modify (set_waiting wl);
    _ ← heartbeat_loop (zlist_size (waiting b)) worker;
    now ← zclock_time;
    modify (set_heartbeat (now + HEARTBEAT_INTERVAL))
  else mret tt.

(** One round of the loop; [false]: the loop is left. *)
Definition broker_round (e : event) : M broker_t bool :=
  match e with
  | PollError | RecvNull => mret false
  | Timeout => _ ← heartbeats; mret true
  | Received msg => _ ← handle_msg msg; _ ← heartbeats; mret true
  end.

Fixpoint broker_loop (es : list event) : M broker_t unit :=
  match es with
  | [] => mret tt
  | e :: es => go ← broker_round e; if go : bool then broker_loop es else mret tt
  end.

End broker.

(** ** The invariant *)

Section spec.
Context `{Hcz : Czmq, Hcl : !CzmqLaws}.
Context (clock : nat -> Z).
Implicit Types (b : broker_t) (l sl : loc) (w : worker_t) (s : service_t).

Definition olist {X} (o : option X) : list X := match o with Some x => [x] | None => [] end.

(** The service of the worker at [l]. *)
Definition svc (wh : gmap loc worker_t) l : ptr := wh !! l ≫= w_service.

(** How many workers a service has. *)
Definition serving (wh : gmap loc worker_t) sl : nat :=
  size (filter (fun lw => w_service lw.2 = Some sl) wh).

(** The tables and the heaps agree, the waiting list of a service is the part of
    the broker's waiting list that serves it, and [workers] counts its workers. *)
Record agree (sv wk : gmap (list Z) loc) (wt : list loc) (sh : gmap loc service_t)
    (wh : gmap loc worker_t) : Prop := {
  ag_workers id l : wk !! id = Some l <-> exists w, wh !! l = Some w /\ id_string w = id;
  ag_services n l : sv !! n = Some l <-> exists s, sh !! l = Some s /\ s_name s = n;
  ag_service l sl : svc wh l = Some sl -> is_Some (sh !! sl);
  ag_nodup : NoDup wt;
  ag_waiting l : l ∈ wt -> is_Some (svc wh l);
  ag_s_waiting sl s : sh !! sl = Some s ->
    items (s_waiting s) = filter (fun l => svc wh l = Some sl) wt;
  ag_count sl s : sh !! sl = Some s -> s_workers s = size_t (Z.of_nat (serving wh sl));
}.

Definition binv b : Prop :=
  agree (entries (services b)) (entries (workers b)) (items (waiting b)) (s_heap b) (w_heap b).

(** No request waits while a worker does. *)
Definition idle s : Prop := items (s_waiting s) = [] \/ items (requests s) = [].

Definition idle_but (x : option loc) (sh : gmap loc service_t) : Prop :=
  forall sl s, Some sl <> x -> sh !! sl = Some s -> idle s.

Lemma waiting_worker b l : binv b -> l ∈ items (waiting b) ->
  exists w sl, w_heap b !! l = Some w /\ w_service w = Some sl.
Proof.
  intros Hb Hin. destruct (ag_waiting _ _ _ _ _ Hb l Hin) as [sl Hs]. unfold svc in Hs.
  destruct (w_heap b !! l) as [w|]; [|done]. eauto.
Qed.

(** ** Changes of the parts *)

Lemma filter_remove1 (P : loc -> Prop) `{!forall l, Decision (P l)} x (xs : list loc) :
  filter P (remove1 x xs) = if decide (P x) then remove1 x (filter P xs) else filter P xs.
Proof.
  induction xs as [|y xs IH]; simpl; [by case_decide|].
  destruct (decide (x = y)) as [<-|Hne].
  - rewrite filter_cons. case_decide; simpl; [by rewrite decide_True|done].
  - rewrite !filter_cons, IH. destruct (decide (P y)), (decide (P x)); simpl; try done.
    by rewrite decide_False.
Qed.

Lemma filter_none (P : loc -> Prop) `{!forall l, Decision (P l)} (xs : list loc) :
  (forall x, x ∈ xs -> ~ P x) -> filter P xs = [].
Proof.
  induction xs as [|x xs IH]; intros Hn; [done|]. rewrite filter_cons_False by (apply Hn; set_solver).
  apply IH. set_solver.
Qed.

Lemma svc_delete wh l l' : svc (delete l wh) l' = if decide (l = l') then None else svc wh l'.
Proof.
  unfold svc. case_decide as Hd; [subst; by rewrite lookup_delete_eq|by rewrite lookup_delete_ne].
Qed.

Lemma svc_insert wh l w l' :
  svc (<[l := w]> wh) l' = if decide (l = l') then w_service w else svc wh l'.
Proof.
  unfold svc. case_decide as Hd; [subst; by rewrite lookup_insert_eq|by rewrite lookup_insert_ne].
Qed.

Lemma serving_insert wh l w sl :
  wh !! l = None ->
  serving (<[l := w]> wh) sl = (serving wh sl + if decide (w_service w = Some sl) then 1 else 0)%nat.
Proof.
  intros Hl. unfold serving. destruct (decide (w_service w = Some sl)) as [Hs|Hs].
  - rewrite map_filter_insert_True by done.
    rewrite map_size_insert_None; [lia|]. apply map_lookup_filter_None. by left.
  - rewrite map_filter_insert_False by done. rewrite delete_id by done. lia.
Qed.

Lemma serving_delete wh l w sl :
  wh !! l = Some w ->
  serving wh sl = (serving (delete l wh) sl + if decide (w_service w = Some sl) then 1 else 0)%nat.
Proof.
  intros Hl. rewrite <- (insert_delete_id wh l w Hl) at 1.
  apply serving_insert. apply lookup_delete_eq.
Qed.

Lemma size_t_pred n : size_t (size_t (Z.of_nat (n + 1)) - 1) = size_t (Z.of_nat n).
Proof. unfold size_t. rewrite Zminus_mod_idemp_l. f_equal. lia. Qed.

Lemma size_t_succ n : size_t (size_t (Z.of_nat n) + 1) = size_t (Z.of_nat (n + 1)).
Proof. unfold size_t. rewrite Zplus_mod_idemp_l. f_equal. lia. Qed.

(** A service is replaced by one of the same name. *)
Lemma services_update (sv : gmap (list Z) loc) (sh : gmap loc service_t) sl s s' :
  (forall n l, sv !! n = Some l <-> exists s, sh !! l = Some s /\ s_name s = n) ->
  sh !! sl = Some s -> s_name s' = s_name s ->
  forall n l, sv !! n = Some l <-> exists s0, <[sl := s']> sh !! l = Some s0 /\ s_name s0 = n.
Proof.
  intros Hsv Hsl Hn n l. rewrite Hsv. destruct (decide (sl = l)) as [<-|Hne].
  - rewrite lookup_insert_eq, Hsl. naive_solver.
  - by rewrite lookup_insert_ne.
Qed.

Lemma lookup_update_service (sh : gmap loc service_t) sl s' l s :
  <[sl := s']> sh !! l = Some s -> (l = sl /\ s = s') \/ (l <> sl /\ sh !! l = Some s).
Proof. intros [[-> ->]|[? ?]]%lookup_insert_Some; auto. Qed.

Lemma agree_delete sv wk wt sh wh l w :
  agree sv wk wt sh wh -> wh !! l = Some w ->
  agree sv (delete (id_string w) wk) (remove1 l wt)
    (match w_service w with
     | Some sl => alter (fun s => set_s_workers (size_t (s_workers s - 1))
                                    (set_s_waiting (zlist_remove (s_waiting s) l) s)) sl sh
     | None => sh
     end) (delete l wh).
Proof.
  intros H Hw. set (sh' := match w_service w with Some _ => _ | None => _ end).
  assert (Hsh : forall sl s', sh' !! sl = Some s' -> exists s, sh !! sl = Some s /\ s_name s' = s_name s /\
    if decide (w_service w = Some sl) then
      items (s_waiting s') = remove1 l (items (s_waiting s)) /\ s_workers s' = size_t (s_workers s - 1)
    else s' = s).
  { intros sl s' Hs. unfold sh' in Hs. destruct (w_service w) as [k|]; [|by exists s'; rewrite decide_False].
    apply lookup_alter_Some in Hs as [(<- & s & Hs & ->)|[Hne Hs]].
    - exists s. rewrite decide_True by done. simpl. by rewrite items_remove.
    - exists s'. rewrite decide_False by congruence. done. }
  assert (Hdom : forall sl, is_Some (sh !! sl) -> is_Some (sh' !! sl)).
  { intros sl Hs. unfold sh'. destruct (w_service w); [|done]. by rewrite lookup_alter_is_Some. }
  assert (Hnames : forall sl s, sh !! sl = Some s -> exists s', sh' !! sl = Some s' /\ s_name s' = s_name s).
  { intros sl s Hs. destruct (Hdom sl) as [s' Hs']; [eauto|]. exists s'. split; [done|].
    destruct (Hsh _ _ Hs') as (s0 & Hs0 & -> & _). congruence. }
  split.
  - intros id l'. rewrite lookup_delete_Some, (ag_workers _ _ _ _ _ H). split.
    + intros (Hne & w' & Hw' & Hid). exists w'. split; [|done].
      rewrite lookup_delete_ne; [done|]. intros <-. congruence.
    + intros (w' & [Hne Hw']%lookup_delete_Some & Hid). split; [|eauto].
      intros E. assert (l' = l); [|congruence].
      pose proof (proj2 (ag_workers _ _ _ _ _ H id l') (ex_intro _ w' (conj Hw' Hid))).
      pose proof (proj2 (ag_workers _ _ _ _ _ H id l) (ex_intro _ w (conj Hw E))). congruence.
  - intros n l'. rewrite (ag_services _ _ _ _ _ H). split.
    + intros (s & Hs & <-). by apply Hnames.
    + intros (s' & Hs' & <-). destruct (Hsh _ _ Hs') as (s & Hs & -> & _). eauto.
  - intros l' sl. rewrite svc_delete. case_decide; [done|]. intros Hs. apply Hdom. by eapply H.
  - apply NoDup_remove1, H.
  - intros l' [Hin Hne]%elem_of_remove1; [|apply H]. rewrite svc_delete, decide_False by done.
    by apply H.
  - intros sl s' Hs'. destruct (Hsh _ _ Hs') as (s & Hs & _ & Hc).
    pose proof (ag_s_waiting _ _ _ _ _ H sl s Hs) as Hit.
    rewrite (filter_ext_in _ (fun l => svc wh l = Some sl)).
    2: { intros x [Hx Hxl]%elem_of_remove1; [|apply H]. by rewrite svc_delete, decide_False. }
    assert (Hsv : svc wh l = w_service w) by (unfold svc; by rewrite Hw).
    rewrite filter_remove1. destruct (decide (w_service w = Some sl)) as [Hd|Hd].
    + rewrite decide_True by congruence. destruct Hc as [-> _]. by rewrite Hit.
    + rewrite decide_False by congruence. by subst.
  - intros sl s' Hs'. destruct (Hsh _ _ Hs') as (s & Hs & _ & Hc).
    pose proof (ag_count _ _ _ _ _ H sl s Hs) as Hct. rewrite (serving_delete wh l w sl Hw) in Hct.
    destruct (decide (w_service w = Some sl)).
    + destruct Hc as [_ ->]. rewrite Hct. apply size_t_pred.
    + subst. by rewrite Nat.add_0_r in Hct.
Qed.

Lemma not_waiting_none sv wk wt sh wh l : agree sv wk wt sh wh -> svc wh l = None -> l ∉ wt.
Proof. intros H Hn Hin. destruct (ag_waiting _ _ _ _ _ H l Hin). congruence. Qed.

Lemma agree_new_worker sv wk wt sh wh id f l :
  agree sv wk wt sh wh -> wk !! id = None -> wh !! l = None ->
  agree sv (<[id := l]> wk) wt sh (<[l := MkWorker id f NULL 0]> wh).
Proof.
  intros H Hid Hl.
  assert (Hs : forall l', svc (<[l := MkWorker id f NULL 0]> wh) l' = svc wh l').
  { intros l'. rewrite svc_insert. case_decide as Hd; [|done]. subst. unfold svc. by rewrite Hl. }
  split.
  - intros id' l'. rewrite lookup_insert_Some, (ag_workers _ _ _ _ _ H). split.
    + intros [[<- <-]|[Hne (w & Hw & Hi)]]; [exists (MkWorker id f NULL 0); by rewrite lookup_insert_eq|].
      exists w. split; [|done]. rewrite lookup_insert_ne; [done|]. intros <-. congruence.
    + intros (w & [[<- <-]|[Hne Hw]]%lookup_insert_Some & Hi); [by left|].
      right. split; [|eauto]. intros <-.
      pose proof (proj2 (ag_workers _ _ _ _ _ H id l') (ex_intro _ w (conj Hw Hi))). congruence.
  - apply H.
  - intros l' sl. rewrite Hs. apply H.
  - apply H.
  - intros l'. rewrite Hs. apply H.
  - intros sl s Hsl. rewrite (ag_s_waiting _ _ _ _ _ H sl s Hsl). apply filter_ext_in.
    intros x _. by rewrite Hs.
  - intros sl s Hsl. rewrite (ag_count _ _ _ _ _ H sl s Hsl), serving_insert by done.
    by rewrite decide_False, Nat.add_0_r by done.
Qed.

Lemma agree_new_service sv wk wt sh wh n sl :
  agree sv wk wt sh wh -> sv !! n = None -> sh !! sl = None ->
  agree (<[n := sl]> sv) wk wt (<[sl := Service n zlist_new zlist_new 0]> sh) wh.
Proof.
  intros H Hn Hsl.
  assert (Hnone : forall l, svc wh l <> Some sl).
  { intros l Hl'. apply (ag_service _ _ _ _ _ H) in Hl' as [? ?]. congruence. }
  split; try apply H.
  - intros n' l'. rewrite lookup_insert_Some, (ag_services _ _ _ _ _ H). split.
    + intros [[<- <-]|[Hne (s & Hs & Hi)]]; [eexists; by rewrite lookup_insert_eq|].
      exists s. split; [|done]. rewrite lookup_insert_ne; [done|]. intros <-. congruence.
    + intros (s & [[<- <-]|[Hne Hs]]%lookup_insert_Some & Hi); [by left|].
      right. split; [|eauto]. intros <-.
      pose proof (proj2 (ag_services _ _ _ _ _ H n l') (ex_intro _ s (conj Hs Hi))). congruence.
  - intros l k Hk. destruct (decide (sl = k)) as [<-|]; [by rewrite lookup_insert_eq; eauto|].
    rewrite lookup_insert_ne by done. by eapply H.
  - intros k s [[-> ->]|[Hne Hs]]%lookup_update_service; [|by apply H].
    simpl. rewrite items_new, filter_none; [done|]. intros x _. apply Hnone.
  - intros k s [[-> ->]|[Hne Hs]]%lookup_update_service; [|by apply H].
    simpl. assert (Hz0 : serving wh sl = 0%nat).
    { unfold serving. apply map_size_empty_iff, map_empty. intros l. apply map_lookup_filter_None.
      right. intros w Hw Hs. apply (Hnone l). unfold svc. by rewrite Hw. }
    by rewrite Hz0.
Qed.

(** A worker changes, but neither its name nor its service. *)
Lemma agree_update_worker sv wk wt sh wh l w w' :
  agree sv wk wt sh wh -> wh !! l = Some w ->
  id_string w' = id_string w -> w_service w' = w_service w ->
  agree sv wk wt sh (<[l := w']> wh).
Proof.
  intros H Hw Hid Hsv.
  assert (Hs : forall l', svc (<[l := w']> wh) l' = svc wh l').
  { intros l'. rewrite svc_insert. case_decide as Hd; [|done]. subst. unfold svc. by rewrite Hw, Hsv. }
  split.
  - intros id l'. rewrite (ag_workers _ _ _ _ _ H). destruct (decide (l = l')) as [<-|].
    + rewrite lookup_insert_eq, Hw. naive_solver.
    + by rewrite lookup_insert_ne.
  - apply H.
  - intros l' sl. rewrite Hs. apply H.
  - apply H.
  - intros l'. rewrite Hs. apply H.
  - intros sl s Hsl. rewrite (ag_s_waiting _ _ _ _ _ H sl s Hsl). apply filter_ext_in.
    intros x _. by rewrite Hs.
  - intros sl s Hsl. rewrite (ag_count _ _ _ _ _ H sl s Hsl), (serving_delete wh l w sl Hw).
    rewrite <- (insert_delete_eq wh), serving_insert by apply lookup_delete_eq. by rewrite Hsv.
Qed.

(** A worker without a service gets one. *)
Lemma agree_join sv wk wt sh wh l w sl s :
  agree sv wk wt sh wh -> wh !! l = Some w -> w_service w = None -> sh !! sl = Some s ->
  agree sv wk wt (<[sl := set_s_workers (size_t (s_workers s + 1)) s]> sh)
    (<[l := set_w_service (Some sl) w]> wh).
Proof.
  intros H Hw Hno Hsl.
  assert (Hnw : l ∉ wt).
  { eapply not_waiting_none; [done|]. unfold svc. by rewrite Hw. }
  assert (Hs : forall l', l' <> l -> svc (<[l := set_w_service (Some sl) w]> wh) l' = svc wh l').
  { intros l' Hne. rewrite svc_insert. by rewrite decide_False. }
  assert (Hser : forall k, serving (<[l := set_w_service (Some sl) w]> wh) k
                 = (serving wh k + if decide (sl = k) then 1 else 0)%nat).
  { intros k. rewrite <- (insert_delete_eq wh), serving_insert by apply lookup_delete_eq.
    rewrite (serving_delete wh l w k Hw). simpl. repeat case_decide; try congruence; lia. }
  split.
  - intros id l'. rewrite (ag_workers _ _ _ _ _ H). destruct (decide (l = l')) as [<-|].
    + rewrite lookup_insert_eq, Hw. naive_solver.
    + by rewrite lookup_insert_ne.
  - eapply services_update; [apply H|done|done].
  - intros l' k. rewrite svc_insert. intros Hk. apply lookup_insert_is_Some.
    destruct (decide (sl = k)); [by left|right]. split; [done|].
    destruct (decide (l = l')); [simpl in Hk; congruence|]. by eapply H.
  - apply H.
  - intros l' Hin. rewrite Hs by (by intros ->). by apply H.
  - intros k s' [[-> ->]|[Hne Hs']]%lookup_update_service; simpl;
      rewrite (ag_s_waiting _ _ _ _ _ H _ _ ltac:(eassumption)); apply filter_ext_in;
      intros x Hx; rewrite Hs by (by intros ->); done.
  - intros k s' [[-> ->]|[Hne Hs']]%lookup_update_service; simpl; rewrite Hser.
    + rewrite decide_True, (ag_count _ _ _ _ _ H _ _ Hsl) by done. apply size_t_succ.
    + rewrite decide_False, Nat.add_0_r by done. by apply H.
Qed.

(** A worker goes to wait. *)
Lemma agree_wait sv wk wt sh wh l sl s :
  agree sv wk wt sh wh -> svc wh l = Some sl -> l ∉ wt -> sh !! sl = Some s ->
  agree sv wk (wt ++ [l])
    (<[sl := set_s_waiting (zlist_append (s_waiting s) l) s]> sh) wh.
Proof.
  intros H Hsv Hnw Hsl. split.
  - apply H.
  - eapply services_update; [apply H|done|done].
  - intros l' k Hk. apply lookup_insert_is_Some. destruct (decide (sl = k)); [by left|right].
    split; [done|]. by eapply H.
  - apply NoDup_app. split_and!; [apply H| |apply NoDup_singleton].
    intros x Hx ->%list_elem_of_singleton. done.
  - intros l' [Hin| ->%list_elem_of_singleton]%elem_of_app; [by apply H|eauto].
  - intros k s' [[-> ->]|[Hne Hs']]%lookup_update_service; simpl;
      rewrite ?items_append, (ag_s_waiting _ _ _ _ _ H _ _ ltac:(eassumption)), filter_app.
    + by rewrite filter_cons_True.
    + rewrite filter_cons_False, filter_nil, app_nil_r by congruence. done.
  - intros k s' [[-> ->]|[Hne Hs']]%lookup_update_service; simpl; by apply H.
Qed.

(** The first waiting worker of a service gets a request. *)
Lemma agree_assign sv wk wt sh wh l ws sl s rl wl :
  agree sv wk wt sh wh -> sh !! sl = Some s -> items (s_waiting s) = l :: ws -> items wl = ws ->
  agree sv wk (remove1 l wt) (<[sl := set_requests rl (set_s_waiting wl s)]> sh) wh.
Proof.
  intros H Hsl Hit Hwl. pose proof (ag_s_waiting _ _ _ _ _ H sl s Hsl) as Hf.
  assert (Hsv : svc wh l = Some sl).
  { assert (Hin : l ∈ filter (fun l => svc wh l = Some sl) wt) by (rewrite <- Hf, Hit; by left).
    by apply list_elem_of_filter in Hin as [? _]. }
  split.
  - apply H.
  - eapply services_update; [apply H|done|done].
  - intros l' k Hk. apply lookup_insert_is_Some. destruct (decide (sl = k)); [by left|right].
    split; [done|]. by eapply H.
  - apply NoDup_remove1, H.
  - intros l' [Hin _]%elem_of_remove1; [by apply H|apply H].
  - intros k s' [[-> ->]|[Hne Hs']]%lookup_update_service; simpl; rewrite filter_remove1.
    + rewrite decide_True, <- Hf, Hit by done. simpl. by rewrite decide_True.
    + rewrite decide_False by congruence. by apply H.
  - intros k s' [[-> ->]|[Hne Hs']]%lookup_update_service; simpl; by apply H.
Qed.

(** Only the requests of a service change. *)
Lemma agree_requests sv wk wt sh wh sl s rl :
  agree sv wk wt sh wh -> sh !! sl = Some s ->
  agree sv wk wt (<[sl := set_requests rl s]> sh) wh.
Proof.
  intros H Hsl. split; try apply H.
  - eapply services_update; [apply H|done|done].
  - intros l' k Hk. apply lookup_insert_is_Some. destruct (decide (sl = k)); [by left|right].
    split; [done|]. by eapply H.
  - intros k s' [[-> ->]|[Hne Hs']]%lookup_update_service; simpl; by apply H.
  - intros k s' [[-> ->]|[Hne Hs']]%lookup_update_service; simpl; by apply H.
Qed.

Lemma queue_request b sl s rl :
  binv b -> s_heap b !! sl = Some s ->
  binv (set_s_heap (<[sl := set_requests rl s]> (s_heap b)) b).
Proof. intros Hb Hs. unfold binv. simpl. by apply agree_requests. Qed.

(** ** The code's building blocks *)

Lemma wp_load_w l w Q b : w_heap b !! l = Some w -> Q w b -> wp (load_w (Some l)) Q b.
Proof. intros Hw HQ. unfold wp, load_w. by rewrite Hw. Qed.

Lemma wp_load_s l s Q b : s_heap b !! l = Some s -> Q s b -> wp (load_s (Some l)) Q b.
Proof. intros Hs HQ. unfold wp, load_s. by rewrite Hs. Qed.

Lemma wp_update_w l w f Q b :
  w_heap b !! l = Some w -> Q tt (set_w_heap (<[l := f w]> (w_heap b)) b) ->
  wp (update_w (Some l) f) Q b.
Proof. intros Hw HQ. unfold update_w. wp_step. by eapply wp_load_w. Qed.

Lemma wp_update_s l s f Q b :
  s_heap b !! l = Some s -> Q tt (set_s_heap (<[l := f s]> (s_heap b)) b) ->
  wp (update_s (Some l) f) Q b.
Proof. intros Hs HQ. unfold update_s. wp_step. by eapply wp_load_s. Qed.

Lemma wp_bget (Q : broker_t -> broker_t -> Prop) b : Q b b -> wp get Q b.
Proof. done. Qed.

Lemma wp_bmodify f (Q : unit -> broker_t -> Prop) b : Q tt (f b) -> wp (modify f) Q b.
Proof. done. Qed.

Lemma wp_clock Q b : Q (clock (ticks b)) (set_ticks (S (ticks b)) b) -> wp (zclock_time clock) Q b.
Proof. done. Qed.

Lemma wp_send m Q b : Q tt (set_wire (wire b ++ [zmsg_frames m]) b) -> wp (zmsg_send m) Q b.
Proof. done. Qed.

(** The frames of a message to a worker. *)
Definition to_worker (w : worker_t) (command : list Z) (body : list (list Z)) : list (list Z) :=
  zframe_data (identity w) :: [] :: MDPW_WORKER :: command :: body.

Lemma worker_send_ok l w command msg Q b :
  w_heap b !! l = Some w ->
  Q tt (set_wire (wire b ++ [to_worker w command
          (match msg with Some m => zmsg_frames m | None => [] end)]) b) ->
  wp (s_worker_send l command None msg) Q b.
Proof.
  intros Hw HQ. unfold s_worker_send. wp_step. eapply wp_load_w; [done|]. apply wp_send.
  rewrite frames_wrap, !frames_pushstr. destruct msg; [by rewrite frames_dup|by rewrite frames_new].
Qed.

(** What the deletion of workers leaves: services keep their requests, waiting
    lists do not grow, and no worker is new. *)
Definition kept b b' : Prop :=
  services b' = services b /\
  (forall sl s, s_heap b !! sl = Some s -> exists s', s_heap b' !! sl = Some s' /\
     requests s' = requests s /\ (items (s_waiting s) = [] -> items (s_waiting s') = [])) /\
  (forall sl s', s_heap b' !! sl = Some s' -> is_Some (s_heap b !! sl)) /\
  (forall l w, w_heap b' !! l = Some w -> w_heap b !! l = Some w).

Lemma kept_refl b b' : services b' = services b -> s_heap b' = s_heap b -> w_heap b' = w_heap b -> kept b b'.
Proof. intros Hv Hs Hw. unfold kept. rewrite Hs, Hw. split_and!; eauto. Qed.

Lemma kept_trans b1 b2 b3 : kept b1 b2 -> kept b2 b3 -> kept b1 b3.
Proof.
  intros (V1 & A1 & B1 & C1) (V2 & A2 & B2 & C2). split_and!; [congruence| | |eauto].
  - intros sl s Hs. destruct (A1 _ _ Hs) as (s2 & Hs2 & R2 & W2).
    destruct (A2 _ _ Hs2) as (s3 & Hs3 & R3 & W3). exists s3. split_and!; [done|congruence|auto].
  - intros sl s3 Hs3. destruct (B2 _ _ Hs3) as [s2 Hs2]. eauto.
Qed.

Lemma kept_idle x b b' : kept b b' -> idle_but x (s_heap b) -> idle_but x (s_heap b').
Proof.
  intros (_ & A & B & _) Hi sl s' Hx Hs'. destruct (B _ _ Hs') as [s Hs].
  destruct (A _ _ Hs) as (s0 & Hs0 & R & W). simplify_eq.
  destruct (Hi sl s Hx Hs) as [?|Hr]; [left; auto|right]. by rewrite R.
Qed.

Lemma alter_is_insert (sh : gmap loc service_t) sl s f :
  sh !! sl = Some s -> alter f sl sh = <[sl := f s]> sh.
Proof.
  intros Hs. apply map_eq. intros k. destruct (decide (sl = k)) as [<-|Hne].
  - by rewrite lookup_alter_eq, lookup_insert_eq, Hs.
  - by rewrite lookup_alter_ne, lookup_insert_ne.
Qed.

(** ** Deleting workers *)

Definition deleted l b b' : Prop :=
  binv b' /\ kept b b' /\ w_heap b' = delete l (w_heap b) /\
  items (waiting b') = remove1 l (items (waiting b)) /\ heartbeat_at b' = heartbeat_at b.

Lemma worker_destroy_ok l w Q b :
  w_heap b !! l = Some w -> Q tt (set_w_heap (delete l (w_heap b)) b) ->
  wp (s_worker_destroy l) Q b.
Proof. intros Hw HQ. unfold s_worker_destroy. wp_step. by eapply wp_load_w. Qed.

(** The end of [s_worker_delete], once the service has been dealt with. *)
Lemma delete_tail l w b Q :
  w_heap b !! l = Some w -> entries (workers b) !! id_string w = Some l ->
  (forall wl h, items wl = remove1 l (items (waiting b)) ->
     entries h = delete (id_string w) (entries (workers b)) ->
     Q tt (set_w_heap (delete l (w_heap b)) (set_workers h (set_waiting wl b)))) ->
  wp (_ ← modify (fun b => set_waiting (zlist_remove (waiting b) l) b);
      b ← get;
      let '(item, h) := zhash_delete (workers b) (id_string w) in
      _ ← modify (set_workers h);
      match item with Some l => s_worker_destroy l | None => mret tt end) Q b.
Proof.
  intros Hw Hid HQ. wp_step. apply wp_bmodify. wp_step. apply wp_bget. simpl.
  pose proof (entries_delete (workers b) (id_string w)) as [E1 E2].
  destruct (zhash_delete (workers b) (id_string w)) as [item h]. simpl in *. subst item.
  rewrite Hid. wp_step. apply wp_bmodify. eapply worker_destroy_ok; [done|].
  apply (HQ (zlist_remove (waiting b) l) h); [apply items_remove|done].
Qed.

Lemma delete_ok l w disconnect b :
  binv b -> w_heap b !! l = Some w ->
  wp (s_worker_delete l disconnect) (fun _ => deleted l b) b.
Proof.
  intros Hb Hw. unfold s_worker_delete. wp_step.
  set (Q := fun _ : unit => _).
  assert (Hgo : forall v, Q tt (set_wire v b)).
  { intros v. unfold Q. clear Q. wp_step. eapply wp_load_w; [done|]. wp_step.
    pose proof (proj2 (ag_workers _ _ _ _ _ Hb (id_string w) l) (ex_intro _ w (conj Hw eq_refl))) as Hid.
    pose proof (agree_delete _ _ _ _ _ l w Hb Hw) as Ha.
    destruct (w_service w) as [sl|] eqn:Hsv.
    - destruct (ag_service _ _ _ _ _ Hb l sl) as [s Hs]; [unfold svc; by rewrite Hw|].
      wp_step. eapply wp_update_s; [done|]. eapply wp_update_s; [simpl; apply lookup_insert_eq|].
      simpl. rewrite insert_insert_eq.
      eapply delete_tail; [done|done|]. intros wl h Hwl Hh. simpl in *.
      rewrite (alter_is_insert _ _ _ _ Hs) in Ha.
      split; [unfold binv; simpl; rewrite Hwl, Hh; exact Ha|].
      split; [|by split_and!].
      split_and!; simpl; [done| | |].
      + intros k s0 Hk. destruct (decide (sl = k)) as [<-|].
        * simplify_eq. eexists. rewrite lookup_insert_eq. split_and!; [done|done|].
          simpl. rewrite items_remove. by intros ->.
        * exists s0. by rewrite lookup_insert_ne.
      + intros k s0. rewrite lookup_insert_Some. intros [[<- _]|[_ ?]]; eauto.
      + by intros k w0 [_ ?]%lookup_delete_Some.
    - wp_step. eapply delete_tail; [done|done|]. intros wl h Hwl Hh. simpl in *.
      split; [unfold binv; simpl; rewrite Hwl, Hh; exact Ha|].
      split; [|by split_and!]. split_and!; simpl; eauto. by intros k w0 [_ ?]%lookup_delete_Some. }
  destruct disconnect; [by eapply worker_send_ok|]. apply wp_ret.
  specialize (Hgo (wire b)). by destruct b.
Qed.

(** Workers without a service are left alone: they do not wait. *)
Definition spared b b' : Prop := forall l w, w_heap b !! l = Some w -> w_service w = None -> w_heap b' !! l = Some w.

Lemma purge_loop_ok fuel : forall b,
  binv b -> (length (items (waiting b)) < fuel)%nat ->
  wp (purge_loop clock fuel) (fun _ b' => binv b' /\ kept b b' /\ heartbeat_at b' = heartbeat_at b /\ spared b b') b.
Proof.
  induction fuel as [|fuel IH]; intros b Hb Hf; [lia|]. cbn [purge_loop].
  wp_step. apply wp_bget. pose proof (items_first (waiting b)) as (E1 & E2 & _).
  destruct (zlist_first (waiting b)) as [o wl]. simpl in E1, E2. subst o.
  wp_step. apply wp_bmodify.
  assert (Hb1 : binv (set_waiting wl b)) by (unfold binv; simpl; by rewrite E2).
  destruct (items (waiting b)) as [|l ls] eqn:El; simpl.
  { apply wp_ret. split_and!; [done|by apply kept_refl|done|by intros ??]. }
  destruct (waiting_worker b l Hb) as (w & sl & Hw & Hwsl); [rewrite El; by left|].
  wp_step. apply wp_clock. wp_step. eapply wp_load_w; [done|].
  destruct (_ <? _); [apply wp_ret; split_and!; [done|by apply kept_refl|done|by intros ??]|].
  wp_step. eapply wp_mono; [apply (delete_ok l w false); [exact Hb1|done]|].
  intros _ b' (Hb' & Hk & Hwh & Hwt & Hhb). simpl in *.
  eapply wp_mono; [apply IH; [done|]|].
  - rewrite Hwt, E2. simpl. rewrite decide_True by done. lia.
  - intros _ b'' (Hb'' & Hk' & Hh' & Hsp). split_and!; [done| |congruence|].
    + eapply kept_trans; [|exact Hk']. eapply kept_trans; [|exact Hk]. by apply kept_refl.
    + intros l' w' Hw' Hno. apply Hsp; [|done]. rewrite Hwh, lookup_delete_ne; [done|]. intros <-. congruence.
Qed.

Lemma purge_ok b :
  binv b ->
  wp (s_broker_purge clock) (fun _ b' => binv b' /\ kept b b' /\ heartbeat_at b' = heartbeat_at b /\ spared b b') b.
Proof.
  intros Hb. unfold s_broker_purge. wp_step. apply wp_bget. apply purge_loop_ok; [done|].
  rewrite items_size. lia.
Qed.

(** ** Dispatching *)

(** A request as it goes to the worker at [l]. *)
Definition request_to (wh : gmap loc worker_t) l (m : zmsg) : list (list Z) :=
  match wh !! l with
  | Some w => to_worker w MDPW_REQUEST (zmsg_frames m)
  | None => []
  end.

Definition dispatched sl (ws : list loc) (rs : list zmsg) b b' : Prop :=
  binv b' /\ w_heap b' = w_heap b /\ services b' = services b /\ workers b' = workers b /\
  heartbeat_at b' = heartbeat_at b /\
  wire b' = wire b ++ zip_with (request_to (w_heap b)) ws rs /\
  exists s', s_heap b' = <[sl := s']> (s_heap b) /\
    items (s_waiting s') = drop (length rs) ws /\ items (requests s') = drop (length ws) rs.

Lemma dispatch_loop_ok sl rs : forall fuel s ws b,
  binv b -> s_heap b !! sl = Some s -> items (s_waiting s) = ws -> items (requests s) = rs ->
  (length rs < fuel)%nat ->
  wp (dispatch_loop fuel sl) (fun _ => dispatched sl ws rs b) b.
Proof.
  induction rs as [|m rs IH]; intros fuel s ws b Hb Hs Hws Hrs Hf; (destruct fuel as [|fuel]; [lia|]);
    cbn [dispatch_loop]; wp_step; (eapply wp_load_s; [done|]); rewrite !items_size, Hws, Hrs; simpl length.
  { rewrite Nat.ltb_irrefl, andb_false_r. apply wp_ret.
    split_and!; try done; [destruct ws; simpl; by rewrite app_nil_r|].
    exists s. rewrite insert_id by done. rewrite Hws, Hrs, drop_nil. done. }
  destruct ws as [|l ws].
  { simpl. apply wp_ret. split_and!; try done; [by rewrite app_nil_r|].
    exists s. rewrite insert_id by done. by rewrite Hws, Hrs. }
  simpl. pose proof (items_pop (s_waiting s)) as [P1 P2]. pose proof (items_pop (requests s)) as [R1 R2].
  destruct (zlist_pop (s_waiting s)) as [o wl], (zlist_pop (requests s)) as [mo rl].
  rewrite Hws in P1, P2. rewrite Hrs in R1, R2. simpl in P1, P2, R1, R2. subst o mo.
  wp_step. eapply wp_update_s; [done|]. wp_step. apply wp_bmodify. wp_step.
  assert (Hin : l ∈ items (waiting b)).
  { assert (Hi : l ∈ items (s_waiting s)) by (rewrite Hws; by left).
    rewrite (ag_s_waiting _ _ _ _ _ Hb sl s Hs) in Hi. by apply list_elem_of_filter in Hi as [_ ?]. }
  destruct (waiting_worker b l Hb Hin) as (w & sl' & Hw & _).
  eapply worker_send_ok; [done|].
  set (s1 := set_requests rl (set_s_waiting wl s)).
  eapply wp_mono; [eapply (IH fuel s1 ws)|].
  - unfold binv. simpl. rewrite items_remove.
    eapply (agree_assign _ _ _ _ _ l ws sl s rl wl); [exact Hb|done|done|done].
  - simpl. apply lookup_insert_eq.
  - done.
  - done.
  - simpl in Hf. lia.
  - intros _ b' (Hb' & Hwh & Hsv & Hwk & Hhb & Hwire & s' & Hsh & I1 & I2). simpl in *.
    split_and!; try done.
    + assert (E : request_to (w_heap b) l m = to_worker w MDPW_REQUEST (zmsg_frames m))
        by (unfold request_to; by rewrite Hw).
      rewrite Hwire, <- app_assoc. cbn [zip_with]. by rewrite E.
    + exists s'. split; [by rewrite Hsh, insert_insert_eq|done].
Qed.

Lemma drop_idle {X Y} (xs : list X) (ys : list Y) :
  drop (length ys) xs = [] \/ drop (length xs) ys = [].
Proof.
  destruct (decide (length xs <= length ys)%nat); [left|right]; apply drop_ge; lia.
Qed.

(** After a dispatch every service is idle. *)
Lemma dispatch_ok sl s msg b :
  binv b -> idle_but (Some sl) (s_heap b) -> s_heap b !! sl = Some s ->
  wp (s_service_dispatch clock sl msg) (fun _ b' => binv b' /\ idle_but None (s_heap b')) b.
Proof.
  intros Hb Hi Hs. unfold s_service_dispatch. wp_step.
  set (Q := fun _ : unit => _).
  assert (Hgo : forall b1, binv b1 -> idle_but (Some sl) (s_heap b1) -> is_Some (s_heap b1 !! sl) ->
                Q tt b1).
  { intros b1 Hb1 Hi1 [s1 Hs1]. unfold Q. clear Q. wp_step.
    eapply wp_mono; [by apply purge_ok|]. intros _ b2 (Hb2 & Hk & _).
    pose proof (kept_idle _ _ _ Hk Hi1) as Hi2. destruct Hk as (_ & Hk & _).
    destruct (Hk _ _ Hs1) as (s2 & Hs2 & _). wp_step. eapply wp_load_s; [done|].
    eapply wp_mono; [eapply dispatch_loop_ok; [done|done|done|done|rewrite items_size; lia]|].
    intros _ b3 (Hb3 & _ & _ & _ & _ & _ & s3 & Hsh & I1 & I2). split; [done|].
    rewrite Hsh. intros k s0 _ [[-> ->]|[Hne Hs0]]%lookup_update_service.
    - unfold idle. rewrite I1, I2. apply drop_idle.
    - apply (Hi2 k); [congruence|done]. }
  destruct msg as [m|]; [|apply wp_ret; apply Hgo; eauto].
  eapply wp_update_s; [done|]. apply Hgo; simpl.
  - eapply agree_requests; [exact Hb|done].
  - intros k s0 Hne Hs0. apply (Hi k); [done|]. rewrite lookup_insert_ne in Hs0 by congruence. done.
  - rewrite lookup_insert_eq. eauto.
Qed.

Definition safe b : Prop := binv b /\ idle_but None (s_heap b).

(** [safe] looks at the tables, the heaps and the waiting list only. *)
Lemma safe_same b b' :
  safe b -> services b' = services b -> workers b' = workers b ->
  items (waiting b') = items (waiting b) -> s_heap b' = s_heap b -> w_heap b' = w_heap b -> safe b'.
Proof. intros [Hb Hi] E1 E2 E3 E4 E5. unfold safe, binv. by rewrite E1, E2, E3, E4, E5. Qed.

Lemma worker_waiting_ok l w sl b :
  safe b -> w_heap b !! l = Some w -> w_service w = Some sl -> l ∉ items (waiting b) ->
  wp (s_worker_waiting clock l) (fun _ => safe) b.
Proof.
  intros [Hb Hi] Hw Hsv Hnw. unfold s_worker_waiting. wp_step. eapply wp_load_w; [done|].
  assert (Hsvc : svc (w_heap b) l = Some sl) by (unfold svc; by rewrite Hw).
  destruct (ag_service _ _ _ _ _ Hb l sl Hsvc) as [s Hs].
  wp_step. apply wp_bmodify. rewrite Hsv. wp_step. eapply wp_update_s; [done|].
  wp_step. apply wp_clock. wp_step. eapply wp_update_w; [done|].
  eapply dispatch_ok; simpl.
  - unfold binv. simpl. rewrite items_append.
    eapply agree_update_worker; [by eapply agree_wait|done|done|done].
  - intros k s0 Hne Hs0. rewrite lookup_insert_ne in Hs0 by congruence. by apply (Hi k).
  - apply lookup_insert_eq.
Qed.

(** The worker of a sender: the one the table has, or a new one. *)
Lemma worker_require_ok sender b :
  safe b ->
  wp (s_worker_require sender) (fun l b' =>
    safe b' /\ waiting b' = waiting b /\ services b' = services b /\ s_heap b' = s_heap b /\
    match entries (workers b) !! zframe_strhex sender with
    | Some l0 => l = l0 /\ b' = b
    | None => w_heap b' !! l = Some (MkWorker (zframe_strhex sender) sender NULL 0)
    end) b.
Proof.
  intros [Hb Hi]. unfold s_worker_require. wp_step. apply wp_bget. rewrite entries_lookup.
  destruct (entries (workers b) !! zframe_strhex sender) as [l|] eqn:E; [by apply wp_ret|].
  wp_step. unfold zmalloc_w. eapply wp_intro; [reflexivity|]. cbn beta.
  set (l := fresh (dom (w_heap b))).
  assert (Hl : w_heap b !! l = None) by (apply not_elem_of_dom, is_fresh).
  wp_step. apply wp_bmodify, wp_ret. simpl. split; [split; [|done]|].
  - unfold binv. simpl. rewrite entries_insert by done. by apply agree_new_worker.
  - by rewrite lookup_insert_eq.
Qed.

Lemma service_require_ok f b :
  safe b ->
  wp (s_service_require (Some f)) (fun sl b' =>
    safe b' /\ is_Some (s_heap b' !! sl) /\ w_heap b' = w_heap b /\ waiting b' = waiting b /\
    workers b' = workers b) b.
Proof.
  intros [Hb Hi]. unfold s_service_require. wp_step. apply wp_ret. wp_step. apply wp_bget.
  rewrite entries_lookup.
  destruct (entries (services b) !! zframe_strdup f) as [sl|] eqn:E.
  { apply wp_ret. split_and!; try done. apply (ag_services _ _ _ _ _ Hb) in E as (s & Hs & _). eauto. }
  wp_step. unfold zmalloc_s. eapply wp_intro; [reflexivity|]. cbn beta.
  set (sl := fresh (dom (s_heap b))).
  assert (Hl : s_heap b !! sl = None) by (apply not_elem_of_dom, is_fresh).
  wp_step. apply wp_bmodify, wp_ret. simpl. split; [split|].
  - unfold binv. simpl. rewrite entries_insert by done. by apply agree_new_service.
  - simpl. intros k s _ [[-> ->]|[Hne Hs]]%lookup_update_service; [|by apply (Hi k)].
    left. apply items_new.
  - rewrite lookup_insert_eq. eauto.
Qed.

Lemma delete_safe l w disconnect b :
  safe b -> w_heap b !! l = Some w -> wp (s_worker_delete l disconnect) (fun _ => safe) b.
Proof.
  intros [Hb Hi] Hw. eapply wp_mono; [by eapply delete_ok|].
  intros _ b' (Hb' & Hk & _). split; [done|]. by eapply kept_idle.
Qed.

(** ** Messages *)

(** The worker knows of a message's sender what the protocol says: [READY] has a
    service, [REPLY] has a client and answers a request. *)
Definition worker_obeys b (sender : zframe) (command : list Z) (args : list (list Z)) : Prop :=
  (command = MDPW_READY -> entries (workers b) !! zframe_strhex sender = None -> args <> []) /\
  (command = MDPW_REPLY -> forall l, entries (workers b) !! zframe_strhex sender = Some l ->
     args <> [] /\ is_Some (svc (w_heap b) l) /\ l ∉ items (waiting b)).

Definition obeys b (e : event) : Prop :=
  match e with
  | Received msg =>
      match zmsg_frames msg with
      | _ :: _ :: header :: ds =>
          (header = MDPC_CLIENT -> (2 <= length ds)%nat) /\
          (header = MDPW_WORKER -> exists command args, ds = command :: args /\
             forall sender, (zmsg_pop msg).1 = Some sender -> worker_obeys b sender command args)
      | _ => False
      end
  | _ => True
  end.

Lemma worker_ready_ok l w ready sender msg b :
  safe b -> w_heap b !! l = Some w ->
  (ready = false -> w_service w = None /\ zmsg_frames msg <> []) ->
  wp (worker_ready_msg clock l ready sender msg) (fun _ => safe) b.
Proof.
  intros Hb Hw Hr. unfold worker_ready_msg. destruct ready; [by eapply delete_safe|].
  destruct (is_mmi sender); [by eapply delete_safe|]. destruct (Hr eq_refl) as [Hno Hne].
  destruct (zmsg_frames msg) as [|d ds] eqn:E; [done|].
  destruct (pop_cons msg d ds E) as (f & m' & -> & _). wp_step.
  eapply wp_mono; [by apply service_require_ok|].
  intros sl b1 ([Hb1 Hi1] & [s Hs] & Hwh & Hwt & Hwk). rewrite <- Hwh in Hw.
  wp_step. eapply wp_update_w; [done|]. wp_step. eapply wp_update_s; [done|].
  eapply worker_waiting_ok; [|simpl; apply lookup_insert_eq|done|].
  - split; [unfold binv; simpl; by eapply agree_join|]. simpl.
    intros k s0 _ [[-> ->]|[Hne' Hs0]]%lookup_update_service; [|by apply (Hi1 k)].
    apply (Hi1 sl s); done.
  - simpl. eapply not_waiting_none; [exact Hb1|]. unfold svc. by rewrite Hw.
Qed.

Lemma worker_reply_ok l w ready msg b :
  safe b -> w_heap b !! l = Some w ->
  (ready = true -> zmsg_frames msg <> [] /\ is_Some (w_service w) /\ l ∉ items (waiting b)) ->
  wp (worker_reply_msg clock l ready msg) (fun _ => safe) b.
Proof.
  intros Hb Hw Hr. unfold worker_reply_msg. destruct ready; [|by eapply delete_safe].
  destruct (Hr eq_refl) as (Hne & [sl Hsv] & Hnw).
  destruct (zmsg_frames msg) as [|d ds] eqn:E; [done|].
  destruct (unwrap_cons msg d ds E) as (f & m' & -> & _).
  wp_step. eapply wp_load_w; [done|]. wp_step. rewrite Hsv.
  destruct (ag_service _ _ _ _ _ (proj1 Hb) l sl) as [s Hs]; [unfold svc; by rewrite Hw|].
  eapply wp_load_s; [done|]. wp_step. apply wp_ret. wp_step. apply wp_send.
  eapply worker_waiting_ok; [by eapply safe_same|done|done|done].
Qed.

Lemma worker_heartbeat_ok l w ready b :
  safe b -> w_heap b !! l = Some w -> wp (worker_heartbeat_msg clock l ready) (fun _ => safe) b.
Proof.
  intros [Hb Hi] Hw. unfold worker_heartbeat_msg. destruct ready; [|by eapply delete_safe].
  wp_step. apply wp_clock. eapply wp_update_w; [done|]. split; [|done].
  unfold binv. simpl. by eapply agree_update_worker.
Qed.

Lemma worker_msg_ok sender command args msg b :
  safe b -> zmsg_frames msg = command :: args -> worker_obeys b sender command args ->
  wp (s_broker_worker_msg clock sender msg) (fun _ => safe) b.
Proof.
  intros Hb E [Hready Hreply]. unfold s_broker_worker_msg. wp_step.
  rewrite frames_size, E. simpl. apply wp_ret.
  destruct (pop_cons msg _ _ E) as (f & m' & -> & Hf & Hm'). wp_step. apply wp_bget. wp_step.
  rewrite entries_lookup. eapply wp_mono; [by apply worker_require_ok|].
  intros l b1 (Hb1 & Hwt & _ & _ & Hwk). wp_step. apply wp_ret.
  assert (Hw : exists w, w_heap b1 !! l = Some w /\
    (entries (workers b) !! zframe_strhex sender = None -> w_service w = None) /\
    (forall l0, entries (workers b) !! zframe_strhex sender = Some l0 -> l = l0 /\ b1 = b)).
  { destruct (entries (workers b) !! zframe_strhex sender) as [l0|] eqn:El.
    - destruct Hwk as [-> ->]. apply (ag_workers _ _ _ _ _ (proj1 Hb)) in El as (w & Hw & _).
      exists w. naive_solver.
    - eexists. split; [exact Hwk|]. naive_solver. }
  destruct Hw as (w & Hw & Hnone & Hsome). rewrite !streq_ok, Hf.
  destruct (bool_decide_reflect (command = MDPW_READY)) as [Hc|_].
  { eapply worker_ready_ok; [done|done|].
    destruct (entries (workers b) !! zframe_strhex sender) eqn:El; [done|]. intros _.
    rewrite Hm'. auto. }
  destruct (bool_decide_reflect (command = MDPW_REPLY)) as [Hc|_].
  { eapply worker_reply_ok; [done|done|].
    destruct (entries (workers b) !! zframe_strhex sender) eqn:El; [|done]. intros _.
    destruct (Hsome _ eq_refl) as [-> ->]. destruct (Hreply Hc _ eq_refl) as (Ha & Hs & Hnw).
    rewrite Hm'. unfold svc in Hs. rewrite Hw in Hs. done. }
  destruct (bool_decide_reflect (command = MDPW_HEARTBEAT)); [by eapply worker_heartbeat_ok|].
  destruct (bool_decide_reflect (command = MDPW_DISCONNECT)); [by eapply delete_safe|]. by apply wp_ret.
Qed.

Lemma mmi_code_ok f m b :
  safe b -> zmsg_frames m <> [] -> wp (mmi_code f m) (fun _ b' => b' = b) b.
Proof.
  intros [Hb _] Hne. unfold mmi_code. destruct (zframe_streq f MMI_SERVICE); [|by apply wp_ret].
  pose proof (frames_last m) as Hlast. destruct (zmsg_last m) as [lf|]; simpl in Hlast.
  2: { symmetry in Hlast. by apply last_None in Hlast. }
  wp_step. apply wp_ret. wp_step. apply wp_bget. rewrite entries_lookup.
  destruct (entries (services b) !! zframe_strdup lf) as [sl|] eqn:E; [|by apply wp_ret].
  apply (ag_services _ _ _ _ _ Hb) in E as (s & Hs & _). wp_step. eapply wp_load_s; [done|]. by apply wp_ret.
Qed.

Lemma client_msg_ok sender msg b :
  safe b -> (2 <= length (zmsg_frames msg))%nat ->
  wp (s_broker_client_msg clock sender msg) (fun _ => safe) b.
Proof.
  intros Hb Hlen. unfold s_broker_client_msg. wp_step. rewrite frames_size.
  rewrite (proj2 (Nat.leb_le _ _) Hlen). apply wp_ret.
  destruct (zmsg_frames msg) as [|d ds] eqn:E; [simpl in Hlen; lia|].
  destruct (pop_cons msg d ds E) as (f & m' & -> & Hf & Hm'). wp_step.
  eapply wp_mono; [by apply service_require_ok|]. intros sl b1 (Hb1 & [s Hs] & _).
  wp_step. apply wp_ret. destruct (is_mmi f).
  - assert (Hfr : zmsg_frames (zmsg_wrap m' sender) = zframe_data sender :: [] :: ds)
      by (by rewrite frames_wrap, Hm').
    wp_step. eapply wp_mono; [apply mmi_code_ok; [done|by rewrite Hfr]|]. intros code ? ->.
    assert (Hre : exists ds', zmsg_frames (zmsg_reset_last (zmsg_wrap m' sender) code)
                              = zframe_data sender :: ds').
    { destruct (exists_last (l := [] :: ds)) as (front & x & Ex); [done|].
      exists (front ++ [code]).
      rewrite (frames_reset_last _ code (zframe_data sender :: front) x); [done|].
      rewrite Hfr. simpl. by rewrite Ex. }
    destruct Hre as (ds' & Hre). destruct (unwrap_cons _ _ _ Hre) as (cf & m2 & -> & _).
    wp_step. apply wp_ret. apply wp_send. by eapply safe_same.
  - destruct Hb1 as [Hb1 Hi1]. eapply dispatch_ok; [done| |done].
    intros k s0 _ Hs0. by apply (Hi1 k).
Qed.

Lemma handle_msg_ok msg b :
  safe b -> obeys b (Received msg) -> wp (handle_msg clock msg) (fun _ => safe) b.
Proof.
  intros Hb Ho. unfold obeys in Ho.
  destruct (zmsg_frames msg) as [|d0 [|d1 [|header ds]]] eqn:E; try done.
  destruct Ho as [Hcli Hwrk]. unfold handle_msg.
  destruct (pop_cons msg _ _ E) as (sender & m1 & Ep & _ & E1). rewrite Ep.
  destruct (pop_cons m1 _ _ E1) as (f1 & m2 & -> & _ & E2).
  destruct (pop_cons m2 _ _ E2) as (hf & m3 & -> & Hhf & E3).
  wp_step. apply wp_ret. rewrite !streq_ok, Hhf.
  destruct (bool_decide_reflect (header = MDPC_CLIENT)) as [Hc|_].
  { wp_step. apply wp_ret. apply client_msg_ok; [done|]. rewrite E3. auto. }
  destruct (bool_decide_reflect (header = MDPW_WORKER)) as [Hc|_]; [|by apply wp_ret].
  wp_step. apply wp_ret. destruct (Hwrk Hc) as (command & args & -> & Hob).
  eapply worker_msg_ok; [done|done|]. apply Hob. by rewrite Ep.
Qed.

(** ** Heartbeats and the loop *)

Lemma heartbeat_loop_ok fuel : forall o b,
  safe b -> (forall l, l ∈ olist o ++ ahead (waiting b) -> l ∈ items (waiting b)) ->
  (length (olist o ++ ahead (waiting b)) <= fuel)%nat ->
  wp (heartbeat_loop fuel o) (fun _ b' => safe b' /\ w_heap b' = w_heap b) b.
Proof.
  induction fuel as [|fuel IH]; intros [l|] b Hb Hin Hf; simpl in Hf; try lia; simpl; try by apply wp_ret.
  destruct (waiting_worker b l (proj1 Hb)) as (w & sl & Hw & _); [apply Hin; simpl; by left|].
  wp_step. eapply worker_send_ok; [done|]. wp_step. apply wp_bget. simpl.
  destruct (items_next (waiting b)) as (E1 & E2 & E3).
  destruct (zlist_next (waiting b)) as [o wl]. simpl in *. wp_step. apply wp_bmodify.
  assert (Hsplit : olist o ++ ahead wl = ahead (waiting b)).
  { rewrite E1, E3. by destruct (ahead (waiting b)). }
  eapply wp_mono; [apply IH; simpl|done].
  - by eapply safe_same.
  - intros l' Hl'. rewrite E2. apply Hin. rewrite Hsplit in Hl'. by right.
  - rewrite Hsplit. lia.
Qed.

Lemma heartbeats_ok b : safe b -> wp (heartbeats clock) (fun _ b' => safe b' /\ spared b b') b.
Proof.
  intros Hb. unfold heartbeats. wp_step. apply wp_clock. wp_step. apply wp_bget. simpl.
  assert (Hb1 : safe (set_ticks (S (ticks b)) b)) by (by eapply safe_same).
  destruct (_ <? _); [|apply wp_ret; split; [done|by intros ??]]. wp_step.
  eapply wp_mono; [apply purge_ok, Hb1|]. intros _ b2 (Hb2 & Hk & _ & Hsp).
  assert (Hs2 : safe b2) by (split; [done|]; eapply kept_idle; [done|apply Hb1]).
  wp_step. apply wp_bget. destruct (items_first (waiting b2)) as (E1 & E2 & E3).
  destruct (zlist_first (waiting b2)) as [o wl]. simpl in *. wp_step. apply wp_bmodify.
  assert (Hsplit : olist o ++ ahead wl = items (waiting b2)).
  { rewrite E1, E3. by destruct (items (waiting b2)). }
  wp_step. eapply wp_mono.
  - apply heartbeat_loop_ok; simpl; [by eapply safe_same| |].
    + intros l. by rewrite Hsplit, E2.
    + by rewrite Hsplit, items_size.
  - intros u b3 [Hb3 Hw3]. wp_step. apply wp_clock, wp_bmodify. split; [by eapply safe_same|].
    intros l w Hl Hno. simpl. rewrite Hw3. by apply Hsp.
Qed.

Lemma round_ok e b : safe b -> obeys b e -> wp (broker_round clock e) (fun _ => safe) b.
Proof.
  intros Hb Ho. destruct e as [| | |msg]; simpl; try by apply wp_ret.
  - wp_step. eapply wp_mono; [by apply heartbeats_ok|]. intros u b' [Hb' _]. by apply wp_ret.
  - wp_step. eapply wp_mono; [by apply handle_msg_ok|]. intros u b1 Hb1.
    wp_step. eapply wp_mono; [by apply heartbeats_ok|]. intros v b2 [Hb2 _]. by apply wp_ret.
Qed.

(** Every message is what the protocol says in the state it arrives in. *)
Fixpoint all_obey b (es : list event) : Prop :=
  match es with
  | [] => True
  | e :: es => obeys b e /\ forall r b', broker_round clock e b = Ok (r, b') -> all_obey b' es
  end.

Lemma new_safe : safe (s_broker_new clock).
Proof.
  split; [|by intros sl s _]. unfold binv, s_broker_new. simpl.
  rewrite !entries_new, items_new. split.
  - intros id l. rewrite lookup_empty. split; [done|]. intros (w & Hw & _). by rewrite lookup_empty in Hw.
  - intros n l. rewrite lookup_empty. split; [done|]. intros (s & Hs & _). by rewrite lookup_empty in Hs.
  - intros l sl. unfold svc. by rewrite lookup_empty.
  - constructor.
  - by intros l ?%not_elem_of_nil.
  - intros sl s Hs. by rewrite lookup_empty in Hs.
  - intros sl s Hs. by rewrite lookup_empty in Hs.
Qed.

Lemma loop_ok es : forall b, safe b -> all_obey b es -> wp (broker_loop clock es) (fun _ => safe) b.
Proof.
  induction es as [|e es IH]; intros b Hb Ho; simpl; [by apply wp_ret|].
  destruct Ho as [Ho Hrest]. wp_step. destruct (wp_inv _ _ _ (round_ok e b Hb Ho)) as (go & b1 & E & Hb1).
  eapply wp_intro; [exact E|]. destruct go; [|by apply wp_ret]. apply IH; [done|]. by eapply Hrest.
Qed.

(** C5: from its start on, and whatever the clock shows, a broker whose peers
    obey the protocol never faults; after every round its tables, heaps and
    waiting lists agree, and no request waits for a service that has a waiting
    worker. *)
Theorem broker_safe es :
  all_obey (s_broker_new clock) es ->
  wp (broker_loop clock es) (fun _ b => binv b /\ idle_but None (s_heap b)) (s_broker_new clock).
Proof. intros Ho. apply loop_ok; [apply new_safe|done]. Qed.

(** ** A sender that does not obey *)

(** Registered as a worker, but of no service. *)
Definition bare b (id : list Z) : Prop :=
  exists l w, entries (workers b) !! id = Some l /\ w_heap b !! l = Some w /\ w_service w = None.

Lemma bare_spared b b' id : safe b -> safe b' -> spared b b' -> bare b id -> bare b' id.
Proof.
  intros [Hb _] [Hb' _] Hsp (l & w & Hid & Hl & Hw). exists l, w. split; [|split; [by apply Hsp|done]].
  apply (ag_workers _ _ _ _ _ Hb') . exists w. split; [by apply Hsp|].
  apply (ag_workers _ _ _ _ _ Hb) in Hid as (w' & Hw' & E). congruence.
Qed.

Lemma fails_bind {S A B} (c : M S A) (k : A -> M S B) f (x : S) :
  wp c (fun a y => k a y = Err f) x -> (c ≫= k) x = Err f.
Proof. intros H. unfold wp in H. unfold mbind, M_bind. by destruct (c x) as [[]| |]. Qed.

Lemma bind_err {S A B} (c : M S A) (k : A -> M S B) f (x : S) : c x = Err f -> (c ≫= k) x = Err f.
Proof. unfold mbind, M_bind. by intros ->. Qed.

(** A worker's message [command], from a frame with the data of its sender. *)
Definition worker_frames (sender e command : list Z) (args : list (list Z)) : list (list Z) :=
  sender :: e :: MDPW_WORKER :: command :: args.

Definition known (command : list Z) : Prop := command ∈ [MDPW_READY; MDPW_REPLY; MDPW_HEARTBEAT; MDPW_DISCONNECT].

(** The frames up to the command. *)
Lemma handle_worker_msg msg sender e command args :
  zmsg_frames msg = worker_frames sender e command args ->
  exists f msg', zframe_data f = sender /\ zmsg_frames msg' = command :: args /\
    forall b, handle_msg clock msg b = s_broker_worker_msg clock f msg' b.
Proof.
  intros E. destruct (pop_cons msg _ _ E) as (f & m1 & Ep & Hf & E1).
  destruct (pop_cons m1 _ _ E1) as (f1 & m2 & Ep1 & _ & E2). destruct (pop_cons m2 _ _ E2) as (hf & m3 & Ep2 & Hhf & E3).
  exists f, m3. split; [done|]. split; [done|]. intros b. unfold handle_msg. rewrite Ep, Ep1, Ep2.
  rewrite (bind_ok _ _ b hf b) by done. rewrite !streq_ok, Hhf. rewrite bool_decide_false by done.
  rewrite bool_decide_true by done. by rewrite (bind_ok _ _ b f b).
Qed.

Lemma unknown_registers msg sender e command args b :
  safe b -> zmsg_frames msg = worker_frames sender e command args -> ~ known command ->
  (forall f, zframe_data f = sender -> entries (workers b) !! zframe_strhex f = None) ->
  wp (handle_msg clock msg) (fun _ b' => safe b' /\ forall f, zframe_data f = sender -> bare b' (zframe_strhex f)) b.
Proof.
  intros Hb E Hk Hnew. destruct (handle_worker_msg _ _ _ _ _ E) as (f & m & Hf & Em & Eq). unfold wp. rewrite Eq.
  change (wp (s_broker_worker_msg clock f m) (fun _ b' => safe b' /\ forall f, zframe_data f = sender -> bare b' (zframe_strhex f)) b).
  unfold s_broker_worker_msg. wp_step. rewrite frames_size, Em. simpl. apply wp_ret.
  destruct (pop_cons m _ _ Em) as (cf & m' & -> & Hcf & Hm'). wp_step. apply wp_bget. wp_step.
  rewrite entries_lookup, (Hnew f Hf). eapply wp_mono; [by apply worker_require_ok|]. rewrite (Hnew f Hf).
  intros l b1 (Hb1 & _ & _ & _ & Hw). wp_step. apply wp_ret. rewrite !streq_ok, Hcf.
  unfold known in Hk. rewrite !bool_decide_false by set_solver. apply wp_ret. split; [done|]. intros g Hg.
  rewrite (strhex_ok g f) by congruence. exists l. eexists. split; [|split; [exact Hw|done]].
  apply (ag_workers _ _ _ _ _ (proj1 Hb1)). by eexists.
Qed.

Lemma reply_of_bare msg sender e args b g :
  zmsg_frames msg = worker_frames sender e MDPW_REPLY args ->
  bare b (zframe_strhex g) -> zframe_data g = sender ->
  handle_msg clock msg b = Err NullDeref.
Proof.
  intros E (l & w & Hid & Hl & Hw) Hg. destruct (handle_worker_msg _ _ _ _ _ E) as (f & m & Hf & Em & ->).
  rewrite (strhex_ok g f) in Hid by congruence. unfold s_broker_worker_msg. apply fails_bind.
  rewrite frames_size, Em. simpl. apply wp_ret. destruct (pop_cons m _ _ Em) as (cf & m' & -> & Hcf & Hm').
  apply fails_bind, wp_bget. rewrite entries_lookup, Hid. apply fails_bind. unfold s_worker_require. wp_step. apply wp_bget.
  rewrite entries_lookup, Hid. apply wp_ret. apply fails_bind, wp_ret. rewrite !streq_ok, Hcf.
  rewrite bool_decide_false by done. rewrite bool_decide_true by done. unfold worker_reply_msg.
  destruct (zmsg_unwrap m') as [client m2]. apply fails_bind. eapply wp_load_w; [done|]. by rewrite Hw.
Qed.

(** Timeouts do not help. *)
Lemma timeouts_spare n : forall id b (es : list event),
  safe b -> bare b id -> (forall b', safe b' -> bare b' id -> broker_loop clock es b' = Err NullDeref) ->
  broker_loop clock (replicate n Timeout ++ es) b = Err NullDeref.
Proof.
  induction n as [|n IH]; intros id b es Hb Hbare Hes; simpl; [by apply Hes|]. apply fails_bind. wp_step.
  eapply wp_mono; [by apply heartbeats_ok|]. intros u b' [Hb' Hsp]. apply wp_ret. cbv iota.
  apply (IH id); [done|exact (bare_spared _ _ _ Hb Hb' Hsp Hbare)|done].
Qed.

(** C40: two messages of one sender bring the broker down.  After any run in which the
    peers obeyed, let a sender that is not registered send a worker's message with a
    command that does not exist, and, however many heartbeats later, a REPLY: the first
    message leaves it registered as a worker without a service, which is never purged, and
    the REPLY is answered through the NULL service. *)
Theorem broker_crashes es sender e1 e2 command args args' msg msg' n :
  all_obey (s_broker_new clock) es ->
  zmsg_frames msg = worker_frames sender e1 command args -> ~ known command ->
  zmsg_frames msg' = worker_frames sender e2 MDPW_REPLY args' ->
  wp (broker_loop clock es) (fun _ b =>
    (forall f, zframe_data f = sender -> entries (workers b) !! zframe_strhex f = None) ->
    broker_loop clock (Received msg :: replicate n Timeout ++ [Received msg']) b = Err NullDeref)
    (s_broker_new clock).
Proof.
  intros Ho E Hk E'. eapply wp_mono; [apply loop_ok; [apply new_safe|done]|]. intros u b Hb Hnew.
  cbn [broker_loop broker_round]. apply fails_bind. wp_step. eapply wp_mono; [by eapply unknown_registers|].
  intros u1 b1 [Hb1 Hbare]. wp_step. eapply wp_mono; [by apply heartbeats_ok|]. intros u2 b2 [Hb2 Hsp]. apply wp_ret. cbv iota.
  destruct (pop_cons msg' _ _ E') as (f & m1 & _ & Hf & _).
  apply (timeouts_spare n (zframe_strhex f)); [done|exact (bare_spared _ _ _ Hb1 Hb2 Hsp (Hbare f Hf))|].
  intros b3 Hb3 Hbare3. cbn [broker_loop broker_round]. apply bind_err, bind_err. by eapply reply_of_bare.
Qed.

(** A dispatch sends the requests of the service, oldest first, to its
    waiting workers, longest waiting first, one each, and keeps the others; no
    other service and no worker object is touched. *)
Theorem dispatch_in_order sl s b :
  binv b -> s_heap b !! sl = Some s ->
  wp (dispatch_loop (S (zlist_size (requests s))) sl) (fun _ b' =>
    binv b' /\ w_heap b' = w_heap b /\
    wire b' = wire b ++ zip_with (request_to (w_heap b)) (items (s_waiting s)) (items (requests s)) /\
    exists s', s_heap b' = <[sl := s']> (s_heap b) /\
      items (s_waiting s') = drop (length (items (requests s))) (items (s_waiting s)) /\
      items (requests s') = drop (length (items (s_waiting s))) (items (requests s))) b.
Proof.
  intros Hb Hs. eapply wp_mono; [eapply dispatch_loop_ok; [done|done|done|done|rewrite items_size; lia]|].
  intros _ b' (Hb' & Hw & _ & _ & _ & Hwire & Hs'). done.
Qed.

End spec.

(** ** What a worker that does not obey can do, and witnesses *)

Section examples.
#[local] Existing Instance plain_czmq.
#[local] Existing Instance plain_czmq_laws.

Definition ex_clock : nat -> Z := fun _ => 0.
Definition ex_start : broker_t := s_broker_new ex_clock.

(** The worker [87] of the service [101], the client [67]. *)
Definition ex_worker (command : list Z) (args : list (list Z)) : event :=
  Received ([87] :: [] :: MDPW_WORKER :: command :: args).
Definition ex_ready : event := ex_worker MDPW_READY [[101]].
Definition ex_reply : event := ex_worker MDPW_REPLY [[67]; []; [2]].
Definition ex_request : event := Received [[67]; []; MDPC_CLIENT; [101]; [1]].

(** A worker that replies without having been asked is put on the waiting lists twice, is
    taken off them once when it disconnects, and its freed object is used for the next
    request. *)
Example unasked_reply :
  broker_loop ex_clock [ex_ready; ex_reply; ex_worker MDPW_DISCONNECT []; ex_request] ex_start = Err Dangling.
Proof. vm_compute. reflexivity. Qed.

Lemma all_obey_step b e es r b' :
  obeys b e -> broker_round ex_clock e b = Ok (r, b') -> all_obey ex_clock b' es ->
  all_obey ex_clock b (e :: es).
Proof. intros Ho E Hr. split; [done|]. intros r' b'' E'. rewrite E in E'.
  by injection E' as _ <-.
Qed.

Definition after (e : event) (b : broker_t) : broker_t :=
  match broker_round ex_clock e b with Ok (_, b') => b' | _ => b end.

Definition ex_b1 : broker_t := after ex_ready ex_start.
Definition ex_b2 : broker_t := after ex_request ex_b1.

Lemma ex_obey : all_obey ex_clock ex_start [ex_ready; ex_request; ex_reply].
Proof.
  apply (all_obey_step _ _ _ true ex_b1); [|vm_compute; reflexivity|].
  { split; [done|]. intros _. exists MDPW_READY, [[101]]. split; [done|].
    intros sender [= <-]. by split. }
  apply (all_obey_step _ _ _ true ex_b2); [|vm_compute; reflexivity|].
  { split; [intros _; simpl; lia|done]. }
  split; [|done]. split; [done|]. intros _. exists MDPW_REPLY, [[67]; []; [2]]. split; [done|].
  intros sender [= <-]. split; [done|]. intros _ l E. vm_compute in E. simplify_eq.
  split; [done|]. split; [by eexists; vm_compute|]. vm_compute. by intros ?%not_elem_of_nil.
Qed.

Lemma broker_safe_witness :
  wp (broker_loop ex_clock [ex_ready; ex_request; ex_reply]) (fun _ b => binv b /\ idle_but None (s_heap b))
    ex_start.
Proof. apply (broker_safe ex_clock), ex_obey. Defined.

(** After a run of the worker [87], two messages of [88]. *)
Lemma broker_crashes_witness :
  wp (broker_loop ex_clock [ex_ready; ex_request; ex_reply]) (fun _ b =>
    broker_loop ex_clock [Received [[88]; []; MDPW_WORKER; [9]]; Timeout; Received [[88]; []; MDPW_WORKER; MDPW_REPLY]] b
    = Err NullDeref) ex_start.
Proof.
  assert (Hn : wp (broker_loop ex_clock [ex_ready; ex_request; ex_reply]) (fun _ b => entries (workers b) !! [88] = None) ex_start)
    by (vm_compute; reflexivity).
  destruct (wp_inv _ _ _ (broker_crashes ex_clock [ex_ready; ex_request; ex_reply] [88] [] [] [9] [] []
    [[88]; []; MDPW_WORKER; [9]] [[88]; []; MDPW_WORKER; MDPW_REPLY] 1 ex_obey eq_refl ltac:(unfold known; set_solver) eq_refl))
    as (u & b & E & Hc).
  change (s_broker_new ex_clock) with ex_start in E. unfold wp in Hn. rewrite E in Hn. eapply wp_intro; [exact E|]. apply Hc. intros f Hf. change (f = [88]) in Hf. rewrite Hf. exact Hn.
Defined.

Lemma ex_b1_safe : safe ex_b1.
Proof.
  destruct ex_obey as [Ho _].
  destruct (wp_inv _ _ _ (round_ok ex_clock ex_ready ex_start (new_safe ex_clock) Ho)) as (r & b & E & Hb).
  assert (Eb : ex_b1 = b) by (unfold ex_b1, after; by rewrite E). by rewrite Eb.
Qed.

Definition ex_registered : service_t := Service [101] (([], []) : zlist zmsg) (([1%positive], []) : zlist loc) 1.

Lemma ex_b1_service : s_heap ex_b1 !! 1%positive = Some ex_registered.
Proof. vm_compute. reflexivity. Qed.

(** The broker after the worker's READY, with a request put into the queue. *)
Definition ex_service : service_t := set_requests (([[[67]; []; [1]]], []) : zlist zmsg) ex_registered.
Definition ex_queued : broker_t := set_s_heap (<[1%positive := ex_service]> (s_heap ex_b1)) ex_b1.

Lemma ex_queued_ok : binv ex_queued.
Proof. exact (queue_request ex_b1 1%positive ex_registered _ (proj1 ex_b1_safe) ex_b1_service). Qed.

Lemma dispatch_in_order_witness :
  wp (dispatch_loop 2 1%positive) (fun _ b' =>
    wire b' = [[[87]; []; MDPW_WORKER; MDPW_REQUEST; [67]; []; [1]]]) ex_queued.
Proof.
  eapply wp_mono.
  - apply (dispatch_in_order 1%positive ex_service ex_queued ex_queued_ok). vm_compute. reflexivity.
  - intros _ b' (_ & _ & Hw & _). rewrite Hw. vm_compute. reflexivity.
Defined.

End examples.
