(* ===== verification/MdShutdown.v ===== *)
(** * The end of the Majordomo broker: [src/lib/zeromq/MDP/mdbroker.c]

    When the loop of [main] is left, [s_broker_destroy] frees the services with
    [s_service_destroy] and the workers with [s_worker_destroy], through the free
    callbacks of the two tables. *)

From stdpp Require Import prelude gmap list.
From Stdlib Require Import ZArith Lia.
From S2P Require Import Prelude Czmq MdBroker.

(** The items of a table in the order in which [zhash_destroy] frees them. *)
Class ZhashValues `{Czmq} := { zhash_values {A} : zhash A -> list A }.

Class ZhashValuesLaws `{Hcz : Czmq, !CzmqLaws, !ZhashValues} := {
  values_ok {A} (h : zhash A) : zhash_values h ≡ₚ (map_to_list (entries h)).*2;
}.

Section shutdown.
Context `{Hcz : Czmq, Hv : !ZhashValues}.
Context (clock : nat -> Z).

(** [while (zlist_size(requests)) zmsg_destroy(zlist_pop(requests))] *)
Fixpoint drop_requests (fuel : nat) (rs : zlist zmsg) : M broker_t (zlist zmsg) :=
  if (zlist_size rs =? 0)%nat then mret rs
  else match fuel with O => no_fuel | S fuel => drop_requests fuel (zlist_pop rs).2 end.

Definition s_service_destroy (service : loc) : M broker_t unit :=
  s ← load_s (Some service);
  _ ← drop_requests (zlist_size (requests s)) (requests s);
  modify (fun b => set_s_heap (delete service (s_heap b)) b).

(** [zhash_destroy] *)
Fixpoint free_items (free : loc -> M broker_t unit) (ls : list loc) : M broker_t unit :=
  match ls with [] => mret tt | l :: ls => _ ← free l; free_items free ls end.

Definition s_broker_destroy : M broker_t unit :=
  b ← get;
  _ ← free_items s_service_destroy (zhash_values (services b));
  _ ← modify (set_services zhash_new);
  b ← get;
  _ ← free_items s_worker_destroy (zhash_values (workers b));
  _ ← modify (set_workers zhash_new);
  modify (set_waiting zlist_new).

Definition broker_main (es : list event) : M broker_t unit :=
  _ ← broker_loop clock es; s_broker_destroy.

End shutdown.

Section spec.
Context `{Hcz : Czmq, Hcl : !CzmqLaws, Hv : !ZhashValues, Hvl : !ZhashValuesLaws}.
Context (clock : nat -> Z).

Lemma drop_requests_ok fuel : forall rs b, (length (items rs) <= fuel)%nat -> wp (drop_requests fuel rs) (fun _ b' => b' = b) b.
Proof.
  induction fuel as [|fuel IH]; intros rs b Hl; cbn [drop_requests]; rewrite items_size.
  - destruct (items rs); [by apply wp_ret|simpl in Hl; lia].
  - destruct (items rs) eqn:E; [by apply wp_ret|]. simpl. apply IH. rewrite (proj2 (items_pop rs)), E. simpl in *. lia.
Qed.

(** The locations of a table are those of its heap, once each. *)
Lemma values_heap {C} (h : zhash loc) (heap : gmap loc C) (name : C -> list Z) :
  (forall n l, entries h !! n = Some l <-> exists c, heap !! l = Some c /\ name c = n) ->
  NoDup (zhash_values h) /\ forall l, l ∈ zhash_values h <-> is_Some (heap !! l).
Proof.
  intros Hag. split.
  - rewrite values_ok. apply NoDup_fmap_2_strong; [|apply NoDup_map_to_list].
    intros [n1 l1] [n2 l2] H1%elem_of_map_to_list H2%elem_of_map_to_list E. simpl in E. subst l2.
    apply Hag in H1 as (c1 & Hc1 & <-). apply Hag in H2 as (c2 & Hc2 & <-). by simplify_eq.
  - intros l. rewrite values_ok. split.
    + intros ([n l'] & -> & H%elem_of_map_to_list)%list_elem_of_fmap. apply Hag in H as (c & Hc & _). eauto.
    + intros [c Hc]. apply list_elem_of_fmap. exists (name c, l). split; [done|]. apply elem_of_map_to_list, Hag. eauto.
Qed.

Lemma free_services ls : forall b, NoDup ls -> (forall l, l ∈ ls -> is_Some (s_heap b !! l)) ->
  wp (free_items s_service_destroy ls) (fun _ b' => workers b' = workers b /\ w_heap b' = w_heap b /\
    forall l, s_heap b' !! l = if decide (l ∈ ls) then None else s_heap b !! l) b.
Proof.
  induction ls as [|l0 ls IH]; intros b Hnd Hin; [by apply wp_ret|]. apply NoDup_cons in Hnd as [Hn Hnd]. simpl. wp_step.
  destruct (Hin l0) as [s Hs]; [by left|]. unfold s_service_destroy. wp_step.
  eapply wp_intro; [unfold load_s; rewrite Hs; reflexivity|]. wp_step.
  eapply wp_mono; [apply drop_requests_ok; by rewrite items_size|]. intros u b' ->. eapply wp_intro; [reflexivity|].
  eapply wp_mono; [apply IH; [done|]|].
  - intros l Hl. simpl. rewrite lookup_delete_ne by (by intros ->). apply Hin. by right.
  - intros u' b'' (Hw & Hwh & Hs'). split; [done|]. split; [done|]. intros l. rewrite Hs'. simpl.
    destruct (decide (l = l0)) as [->|Hne].
    + rewrite (decide_True (P := l0 ∈ l0 :: ls)) by (by left). destruct (decide _); [done|]. apply lookup_delete_eq.
    + rewrite lookup_delete_ne by done. destruct (decide (l ∈ ls)) as [Hl|Hl].
      * by rewrite decide_True by (by right).
      * rewrite decide_False; [done|]. by intros [?|?]%elem_of_cons.
Qed.

Lemma free_workers_ok ls : forall b, NoDup ls -> (forall l, l ∈ ls -> is_Some (w_heap b !! l)) ->
  wp (free_items s_worker_destroy ls) (fun _ b' => s_heap b' = s_heap b /\
    forall l, w_heap b' !! l = if decide (l ∈ ls) then None else w_heap b !! l) b.
Proof.
  induction ls as [|l0 ls IH]; intros b Hnd Hin; [by apply wp_ret|]. apply NoDup_cons in Hnd as [Hn Hnd]. simpl. wp_step.
  destruct (Hin l0) as [w Hw]; [by left|]. unfold s_worker_destroy. wp_step.
  eapply wp_intro; [unfold load_w; rewrite Hw; reflexivity|]. eapply wp_intro; [reflexivity|].
  eapply wp_mono; [apply IH; [done|]|].
  - intros l Hl. simpl. rewrite lookup_delete_ne by (by intros ->). apply Hin. by right.
  - intros u' b'' (Hs & Hw'). split; [done|]. intros l. rewrite Hw'. simpl.
    destruct (decide (l = l0)) as [->|Hne].
    + rewrite (decide_True (P := l0 ∈ l0 :: ls)) by (by left). destruct (decide _); [done|]. apply lookup_delete_eq.
    + rewrite lookup_delete_ne by done. destruct (decide (l ∈ ls)) as [Hl|Hl].
      * by rewrite decide_True by (by right).
      * rewrite decide_False; [done|]. by intros [?|?]%elem_of_cons.
Qed.

(** A broker whose peers obey the protocol frees all its services and workers at its
    end, each once. *)
Lemma broker_frees_all es :
  all_obey clock (s_broker_new clock) es ->
  wp (broker_main clock es) (fun _ b => s_heap b = ∅ /\ w_heap b = ∅) (s_broker_new clock).
Proof.
  intros Ho. unfold broker_main. wp_step. eapply wp_mono; [apply loop_ok; [apply new_safe|done]|].
  intros u b [Hb _]. unfold s_broker_destroy. wp_step. eapply wp_intro; [reflexivity|]. cbn beta. wp_step.
  destruct (values_heap _ _ _ (ag_services _ _ _ _ _ Hb)) as [Hsn Hsv]. destruct (values_heap _ _ _ (ag_workers _ _ _ _ _ Hb)) as [Hwn Hwv].
  eapply wp_mono; [apply free_services; [done|]; intros l; apply Hsv|]. intros u1 b1 (Hw1 & Hh1 & Hs1). wp_step.
  eapply wp_intro; [reflexivity|]. wp_step. eapply wp_intro; [reflexivity|]. cbn beta. simpl workers. wp_step.
  eapply wp_mono; [apply free_workers_ok; rewrite Hw1; [done|]; intros l; simpl; rewrite Hh1; apply Hwv|].
  intros u2 b2 (Hs2 & Hw2). wp_step. eapply wp_intro; [reflexivity|]. eapply wp_intro; [reflexivity|]. simpl. simpl in Hw2.
  split; apply map_eq; intros l; rewrite lookup_empty.
  - rewrite Hs2. simpl. rewrite Hs1. destruct (decide _) as [|Hn]; [done|]. apply eq_None_not_Some. by rewrite <- Hsv.
  - rewrite Hw2, Hw1. destruct (decide _) as [|Hn]; [done|]. rewrite Hh1. apply eq_None_not_Some. by rewrite <- Hwv.
Qed.

End spec.

(** ** An instance *)

#[local] Existing Instance plain_czmq.
#[local] Existing Instance plain_czmq_laws.

#[local] Instance plain_values : ZhashValues := {| zhash_values A h := (map_to_list (h : gmap (list Z) A)).*2 |}.

#[local] Instance plain_values_laws : ZhashValuesLaws.
Proof. by constructor. Qed.
