(* ===== verification/MdWorker.v ===== *)
(** * The Majordomo worker: [src/lib/zeromq/MDP/mdwrkapi.c], [mdworker.c]

    A worker connects, announces its service, and then alternates between
    [mdwrk_recv], which sends the reply to the last request and waits for the
    next one, and its own work.  What [zmq_poll] and [zmsg_recv] return is a list
    of events, one per poll; the sockets of the context are numbered in the order
    they are opened; what is sent is logged with its socket.  The messages of
    [verbose] are left out. *)

From stdpp Require Import prelude list.
From Stdlib Require Import ZArith Lia.
From S2P Require Import Prelude Czmq Mdp.

Definition HEARTBEAT_LIVENESS : Z := 3.

(** [uint64_t] and [size_t] *)
Definition u64 (z : Z) : Z := z mod 2 ^ 64.

Section worker.
Context `{Czmq}.
Context (clock : nat -> Z).

(** [zframe_t *]: NULL, a frame, or a frame that has been destroyed. *)
Inductive frame_ref := FNull | FLive (f : zframe) | FFreed.

(** [mdwrk_t], and how often the clock was read. *)
Record mdwrk_t := Mdwrk {
  ctx : zctx;
  broker : list Z;
  service : list Z;
  worker : option nat;
  heartbeat_at : Z;
  liveness : Z;
  heartbeat : Z;
  reconnect : Z;
  expect_reply : bool;
  reply_to : frame_ref;
  ticks : nat;
}.

Definition set_ctx v s := Mdwrk v (broker s) (service s) (worker s) (heartbeat_at s) (liveness s) (heartbeat s) (reconnect s) (expect_reply s) (reply_to s) (ticks s).
Definition set_worker v s := Mdwrk (ctx s) (broker s) (service s) v (heartbeat_at s) (liveness s) (heartbeat s) (reconnect s) (expect_reply s) (reply_to s) (ticks s).
Definition set_heartbeat_at v s := Mdwrk (ctx s) (broker s) (service s) (worker s) v (liveness s) (heartbeat s) (reconnect s) (expect_reply s) (reply_to s) (ticks s).
Definition set_liveness v s := Mdwrk (ctx s) (broker s) (service s) (worker s) (heartbeat_at s) v (heartbeat s) (reconnect s) (expect_reply s) (reply_to s) (ticks s).
Definition set_expect_reply v s := Mdwrk (ctx s) (broker s) (service s) (worker s) (heartbeat_at s) (liveness s) (heartbeat s) (reconnect s) v (reply_to s) (ticks s).
Definition set_reply_to v s := Mdwrk (ctx s) (broker s) (service s) (worker s) (heartbeat_at s) (liveness s) (heartbeat s) (reconnect s) (expect_reply s) v (ticks s).
Definition set_ticks v s := Mdwrk (ctx s) (broker s) (service s) (worker s) (heartbeat_at s) (liveness s) (heartbeat s) (reconnect s) (expect_reply s) (reply_to s) v.

Definition mdwrk_set_heartbeat (heartbeat : Z) : M mdwrk_t unit :=
  modify (fun s => Mdwrk (ctx s) (broker s) (service s) (worker s) (heartbeat_at s) (liveness s) heartbeat (reconnect s) (expect_reply s) (reply_to s) (ticks s)).
Definition mdwrk_set_reconnect (reconnect : Z) : M mdwrk_t unit :=
  modify (fun s => Mdwrk (ctx s) (broker s) (service s) (worker s) (heartbeat_at s) (liveness s) (heartbeat s) reconnect (expect_reply s) (reply_to s) (ticks s)).

(** ** The socket and the clock *)

Definition zclock_time : M mdwrk_t Z := fun s => Ok (clock (ticks s), set_ticks (S (ticks s)) s).

(** The operations on [self->ctx]. *)
Definition on_ctx {A} (c : M zctx A) : M mdwrk_t A := fun s =>
  match c (ctx s) with
  | Ok (a, x) => Ok (a, set_ctx x s)
  | Err f => Err f
  | NoFuel => NoFuel
  end.

(** ** Operations *)

Definition s_mdwrk_send_to_broker (command : list Z) (opt : option (list Z)) (msg : option zmsg)
  : M mdwrk_t unit :=
  let msg := match msg with Some m => zmsg_dup m | None => zmsg_new end in
  let msg := match opt with Some o => zmsg_pushstr msg o | None => msg end in
  let msg := zmsg_pushstr msg command in
  let msg := zmsg_pushstr msg MDPW_WORKER in
  let msg := zmsg_pushstr msg [] in
  s ← get;
  on_ctx (zsocket_send (worker s) msg).

Definition s_mdwrk_connect_to_broker : M mdwrk_t unit :=
  s ← get;
  k ← on_ctx (zsocket_renew (worker s));
  _ ← modify (set_worker (Some k));
  _ ← s_mdwrk_send_to_broker MDPW_READY (Some (service s)) None;
  _ ← modify (set_liveness HEARTBEAT_LIVENESS);
  now ← zclock_time;
  modify (fun s => set_heartbeat_at (u64 (now + heartbeat s)) s).

(** [zmalloc] zeroes the record. *)
Definition mdwrk_new (broker service : list Z) : outcome mdwrk_t :=
  match s_mdwrk_connect_to_broker
          (Mdwrk zctx_new broker service None 0 0 2500 2500 false FNull 0) with
  | Ok (_, s) => Ok s
  | Err f => Err f
  | NoFuel => NoFuel
  end.

Definition mdwrk_destroy : M mdwrk_t unit :=
  _ ← on_ctx zctx_destroy; modify (set_worker None).

(** A message of the broker; a request is returned. *)
Definition broker_msg (msg : zmsg) : M mdwrk_t (option zmsg) :=
  _ ← modify (set_liveness HEARTBEAT_LIVENESS);
  _ ← assert (3 <=? zmsg_size msg)%nat;
  let '(empty, msg) := zmsg_pop msg in
  empty ← frame_arg empty;
  _ ← assert (zframe_streq empty []);
  let '(header, msg) := zmsg_pop msg in
  header ← frame_arg header;
  _ ← assert (zframe_streq header MDPW_WORKER);
  let '(command, msg) := zmsg_pop msg in
  command ← frame_arg command;
  if zframe_streq command MDPW_REQUEST then
    let '(client, msg) := zmsg_unwrap msg in
    _ ← modify (set_reply_to (match client with Some f => FLive f | None => FNull end));
    mret (Some msg)
  else if zframe_streq command MDPW_HEARTBEAT then mret None
  else if zframe_streq command MDPW_DISCONNECT then
    _ ← s_mdwrk_connect_to_broker; mret None
  else mret None.

(** [if (--self->liveness == 0)] and its branch. *)
Definition silent_poll : M mdwrk_t unit :=
  s ← get;
  let l := u64 (liveness s - 1) in
  _ ← modify (set_liveness l);
  if l =? 0 then s_mdwrk_connect_to_broker else mret tt.

Definition beat : M mdwrk_t unit :=
  now ← zclock_time;
  s ← get;
  if heartbeat_at s <? u64 now then
    _ ← s_mdwrk_send_to_broker MDPW_HEARTBEAT None None;
    now ← zclock_time;
    modify (fun s => set_heartbeat_at (u64 (now + heartbeat s)) s)
  else mret tt.

(** The call returned a message or NULL, or is still in [zmq_poll]. *)
Inductive recv_out := Request (msg : zmsg) | Stopped | Polling.

Fixpoint recv_loop (es : list event) : M mdwrk_t (recv_out * list event) :=
  match es with
  | [] => mret (Polling, [])
  | (PollError | RecvNull) :: es => mret (Stopped, es)
  | Received msg :: es =>
      r ← broker_msg msg;
      match r with
      | Some m => mret (Request m, es)
      | None => _ ← beat; recv_loop es
      end
  | Timeout :: es => _ ← silent_poll; _ ← beat; recv_loop es
  end.

(** The reply is wrapped in [reply_to], which is then a frame of the reply and
    is destroyed with it. *)
Definition send_reply (reply : zmsg) : M mdwrk_t unit :=
  s ← get;
  match reply_to s with
  | FNull => throw AssertFailed
  | FFreed => throw Dangling
  | FLive f =>
      _ ← s_mdwrk_send_to_broker MDPW_REPLY None (Some (zmsg_wrap reply f));
      modify (set_reply_to FFreed)
  end.

Definition mdwrk_recv (reply : option zmsg) (es : list event) : M mdwrk_t (recv_out * list event) :=
  s ← get;
  _ ← assert (match reply with Some _ => true | None => negb (expect_reply s) end);
  _ ← match reply with Some r => send_reply r | None => mret tt end;
  _ ← modify (set_expect_reply true);
  recv_loop es.

(** ** [main] of mdworker.c: the reply to a request is the request *)

Fixpoint main_loop (fuel : nat) (reply : option zmsg) (es : list event) : M mdwrk_t recv_out :=
  '(r, es) ← mdwrk_recv reply es;
  match r with
  | Request m => match fuel with O => no_fuel | S fuel => main_loop fuel (Some m) es end
  | Stopped => _ ← mdwrk_destroy; mret Stopped
  | Polling => mret Polling
  end.

Definition worker_main (broker service : list Z) (es : list event) : outcome (recv_out * mdwrk_t) :=
  match mdwrk_new broker service with
  | Ok s => main_loop (length es) None es s
  | Err f => Err f
  | NoFuel => NoFuel
  end.

End worker.

(** ** What the broker sees *)

Section spec.
Context `{Hcz : Czmq, Hcl : !CzmqLaws}.
Context (clock : nat -> Z).
Context (Hclock : forall n, 0 <= clock n < 2 ^ 63).
Implicit Types (s : mdwrk_t) (e : event).

(** A message to the broker. *)
Definition to_broker (command : list Z) (args : list (list Z)) : list (list Z) :=
  [] :: MDPW_WORKER :: command :: args.

Definition ready_msg (service : list Z) := to_broker MDPW_READY [service].
Definition heartbeat_msg := to_broker MDPW_HEARTBEAT [].
Definition reply_msg (client : list Z) (body : list (list Z)) :=
  to_broker MDPW_REPLY (client :: [] :: body).

(** What a broker sends: a request names its client. *)
Definition from_broker e : Prop :=
  match e with
  | Received m => exists command args, zmsg_frames m = [] :: MDPW_WORKER :: command :: args /\
      (command = MDPW_REQUEST -> args <> [])
  | _ => True
  end.

(** The worker as the broker sees it, on socket [k] after [silent] polls without
    a message: it answers each request with the body of the request, and
    announces itself on a new socket when it is told to disconnect and after the
    third silent poll in a row. *)
Fixpoint echo_spec (service : list Z) (k silent : nat) (es : list event) : list (nat * list (list Z)) :=
  match es with
  | Timeout :: es =>
      if decide (silent = 2%nat) then (S k, ready_msg service) :: echo_spec service (S k) 0 es
      else echo_spec service k (S silent) es
  | Received m :: es =>
      match zmsg_frames m with
      | _ :: _ :: command :: args =>
          if decide (command = MDPW_REQUEST) then
            (k, reply_msg (default [] (head args)) (unwrapped (tail args))) :: echo_spec service k 0 es
          else if decide (command = MDPW_DISCONNECT) then
            (S k, ready_msg service) :: echo_spec service (S k) 0 es
          else echo_spec service k 0 es
      | _ => []
      end
  | _ => []
  end.

(** All traffic but the heartbeats. *)
Definition business (tr : list (nat * list (list Z))) : list (nat * list (list Z)) :=
  filter (fun km => km.2 <> heartbeat_msg) tr.

(** One open socket, [out] the traffic so far. *)
Record wconn (service0 : list Z) (k : nat) (out : list (nat * list (list Z))) s : Prop := {
  wc_service : service s = service0;
  wc_worker : worker s = Some k;
  wc_socket : one_socket k (ctx s);
  wc_heartbeat : heartbeat s = 2500;
  wc_out : business (sent (ctx s)) = out;
}.

(** Where the loop polls: the liveness counter counts the silent polls down from
    three, and no heartbeat is due. *)
Record winv (service0 : list Z) (k silent : nat) (out : list (nat * list (list Z))) s : Prop := {
  wi_conn : wconn service0 k out s;
  wi_silent : (silent < 3)%nat;
  wi_liveness : liveness s = 3 - Z.of_nat silent;
  wi_due : exists n, ticks s = S n /\ clock n <= heartbeat_at s;
}.

Lemma u64_small z : 0 <= z < 2 ^ 64 -> u64 z = z.
Proof. apply Z.mod_small. Qed.

Lemma business_app tr tr' : business (tr ++ tr') = business tr ++ business tr'.
Proof. apply filter_app. Qed.

Lemma business_beat tr k : business (tr ++ [(k, heartbeat_msg)]) = business tr.
Proof. rewrite business_app. unfold business at 2. by rewrite filter_cons_False, filter_nil, app_nil_r by auto. Qed.

Lemma business_other tr k m : m <> heartbeat_msg -> business (tr ++ [(k, m)]) = business tr ++ [(k, m)].
Proof. intros Hm. rewrite business_app. unfold business at 2. by rewrite filter_cons_True. Qed.

Lemma wp_wget (Q : mdwrk_t -> mdwrk_t -> Prop) s : Q s s -> wp get Q s.
Proof. done. Qed.

Lemma wp_wmodify f (Q : unit -> mdwrk_t -> Prop) s : Q tt (f s) -> wp (modify f) Q s.
Proof. done. Qed.

Lemma wp_wclock Q s : Q (clock (ticks s)) (set_ticks (S (ticks s)) s) -> wp (zclock_time clock) Q s.
Proof. done. Qed.

Lemma wp_on_ctx {A} (c : M zctx A) (Q : A -> mdwrk_t -> Prop) s :
  wp c (fun a x => Q a (set_ctx x s)) (ctx s) -> wp (on_ctx c) Q s.
Proof. unfold wp, on_ctx. by destruct (c (ctx s)) as [[a x]| |]. Qed.

Lemma send_ok command opt msg k Q s :
  worker s = Some k -> one_socket k (ctx s) ->
  Q tt (set_ctx (Ctx [k] (S k) (sent (ctx s) ++ [(k, to_broker command
          (option_list opt ++ match msg with Some m => zmsg_frames m | None => [] end))])) s) ->
  wp (s_mdwrk_send_to_broker command opt msg) Q s.
Proof.
  intros Hw Hs HQ. unfold s_mdwrk_send_to_broker. wp_step. apply wp_wget, wp_on_ctx. rewrite Hw.
  eapply wp_zsocket_send; [done|].
  destruct opt, msg; rewrite !frames_pushstr, ?frames_dup, ?frames_new; done.
Qed.

(** A new socket, and the service announced on it. *)
Lemma connect_ok sv k out s :
  wconn sv k out s ->
  wp (s_mdwrk_connect_to_broker clock) (fun _ s' =>
    winv sv (S k) 0 (out ++ [(S k, ready_msg sv)]) s') s.
Proof.
  intros [<- Hw Hs Hh Ho]. unfold s_mdwrk_connect_to_broker. wp_step. apply wp_wget.
  rewrite Hw. wp_step. apply wp_on_ctx. eapply wp_renew; [done|]. wp_step. apply wp_wmodify.
  wp_step. eapply (send_ok _ _ _ (S k)); [done|done|].
  wp_step. apply wp_wmodify. wp_step. apply wp_wclock. apply wp_wmodify. simpl.
  split; [split|..]; simpl; try (done || lia).
  - by rewrite business_other, Ho by done.
  - exists (ticks s). split; [done|]. rewrite Hh, u64_small by (pose proof (Hclock (ticks s)); lia). lia.
Qed.

Lemma beat_ok sv k silent out s :
  winv sv k silent out s ->
  wp (beat clock) (fun _ s' => winv sv k silent out s') s.
Proof.
  intros [[Hsv Hw Hs Hh Ho] Hl Hv _]. unfold beat. wp_step. apply wp_wclock. wp_step. apply wp_wget. simpl.
  pose proof (Hclock (ticks s)). rewrite u64_small by lia.
  destruct (Z.ltb_spec (heartbeat_at s) (clock (ticks s))).
  - wp_step. eapply (send_ok _ _ _ k); [done|done|]. wp_step. apply wp_wclock, wp_wmodify. simpl.
    split; [split|..]; simpl; try done.
    + by rewrite business_beat.
    + exists (S (ticks s)). split; [done|]. pose proof (Hclock (S (ticks s))).
      rewrite Hh, u64_small by lia. lia.
  - apply wp_ret. split; [split|..]; simpl; try done. exists (ticks s). split; [done|lia].
Qed.

(** A poll without a message. *)
Lemma silent_ok sv k silent out s :
  winv sv k silent out s ->
  wp (silent_poll clock) (fun _ s' =>
    if decide (silent = 2%nat) then winv sv (S k) 0 (out ++ [(S k, ready_msg sv)]) s'
    else winv sv k (S silent) out s') s.
Proof.
  intros [Hc Hl Hv Hd]. unfold silent_poll. wp_step. apply wp_wget.
  rewrite Hv, u64_small by lia. wp_step. apply wp_wmodify. case_decide as Hs.
  - rewrite (proj2 (Z.eqb_eq _ _)) by lia.
    eapply (connect_ok sv k out (set_liveness _ s)). by destruct Hc.
  - rewrite (proj2 (Z.eqb_neq _ _)) by lia. apply wp_ret.
    split; simpl; [by destruct Hc|lia|lia|done].
Qed.

(** A message of the broker: a request is returned, its client remembered. *)
Lemma broker_msg_ok sv k silent out m command args s :
  winv sv k silent out s -> zmsg_frames m = [] :: MDPW_WORKER :: command :: args ->
  (command = MDPW_REQUEST -> args <> []) ->
  wp (broker_msg clock m) (fun r s' =>
    if decide (command = MDPW_REQUEST) then
      winv sv k 0 out s' /\ exists f m', r = Some m' /\ reply_to s' = FLive f /\
        zframe_data f = default [] (head args) /\ zmsg_frames m' = unwrapped (tail args)
    else r = None /\
      if decide (command = MDPW_DISCONNECT) then winv sv (S k) 0 (out ++ [(S k, ready_msg sv)]) s'
      else winv sv k 0 out s') s.
Proof.
  intros [Hc Hl Hv Hd] E Hargs. unfold broker_msg. wp_step. apply wp_wmodify. wp_step.
  rewrite frames_size, E. simpl. apply wp_ret.
  destruct (pop_cons m _ _ E) as (f0 & m1 & -> & E0 & F1). wp_step. apply wp_ret.
  rewrite streq_ok, E0. wp_step. apply wp_ret.
  destruct (pop_cons m1 _ _ F1) as (f1 & m2 & -> & E1 & F2). wp_step. apply wp_ret.
  rewrite streq_ok, E1. wp_step. apply wp_ret.
  destruct (pop_cons m2 _ _ F2) as (f2 & m3 & -> & E2 & F3). wp_step. apply wp_ret.
  rewrite !streq_ok, E2. change HEARTBEAT_LIVENESS with 3. set (s1 := set_liveness 3 s).
  assert (Hi : winv sv k 0 out s1) by (split; [by destruct Hc|lia|done|done]).
  destruct (decide (command = MDPW_REQUEST)) as [Hreq|Hreq].
  { rewrite bool_decide_true by done. destruct args as [|c args]; [by destruct (Hargs Hreq)|].
    destruct (unwrap_cons m3 _ _ F3) as (f & m4 & -> & Ef & F4). wp_step. apply wp_wmodify, wp_ret.
    split; [|by exists f, m4]. destruct Hi as [Hc1 ? ? ?]. split; [by destruct Hc1|done..]. }
  rewrite bool_decide_false by done.
  destruct (bool_decide_reflect (command = MDPW_HEARTBEAT)) as [->|].
  { apply wp_ret. by rewrite decide_False. }
  destruct (decide (command = MDPW_DISCONNECT)) as [Hdis|Hdis].
  - rewrite bool_decide_true by done. wp_step. eapply wp_mono; [apply connect_ok, Hi|].
    intros u s' Hi'. by apply wp_ret.
  - rewrite bool_decide_false by done. by apply wp_ret.
Qed.

(** What the next call of [mdwrk_recv] is for: the reply to the last request, or
    the first request. *)
Definition in_turn (reply : option zmsg) s : Prop :=
  match reply with
  | Some _ => exists f, reply_to s = FLive f
  | None => expect_reply s = false
  end.

Definition pending (k : nat) (reply : option zmsg) s : list (nat * list (list Z)) :=
  match reply, reply_to s with
  | Some m, FLive f => [(k, reply_msg (zframe_data f) (zmsg_frames m))]
  | _, _ => []
  end.

(** A call of [mdwrk_recv] that is to end with the traffic [tr], at most [n]
    events ahead. *)
Definition received (sv : list Z) (n : nat) (tr : list (nat * list (list Z)))
    (re : recv_out * list event) s : Prop :=
  Forall from_broker re.2 /\ (length re.2 <= n)%nat /\ exists k silent out, winv sv k silent out s /\
  match re.1 with
  | Request m => (length re.2 < n)%nat /\ in_turn (Some m) s /\
      tr = out ++ pending k (Some m) s ++ echo_spec sv k silent re.2
  | Stopped | Polling => tr = out
  end.

Lemma received_end sv n k silent es s r :
  forall out, winv sv k silent out s -> Forall from_broker es -> (length es <= n)%nat ->
  (r = Stopped \/ r = Polling) -> received sv n (out ++ []) (r, es) s.
Proof. intros out Hi ? ? Hr. rewrite app_nil_r. split; [done|]. split; [done|]. exists k, silent, out. by destruct Hr; subst. Qed.

Lemma received_mono sv n n' tr re s : (n <= n')%nat -> received sv n tr re s -> received sv n' tr re s.
Proof.
  intros Hn (? & ? & k & silent & out & Hi & Hr). split; [done|]. split; [lia|]. exists k, silent, out.
  split; [done|]. destruct (re.1); [|done..]. destruct Hr as (? & ? & ?). split; [lia|done].
Qed.

(** [mdwrk_recv] from its loop on. *)
Lemma wrk_recv_loop_ok sv es : forall k silent out s,
  winv sv k silent out s -> Forall from_broker es ->
  wp (recv_loop clock es) (received sv (length es) (out ++ echo_spec sv k silent es)) s.
Proof.
  induction es as [|e es IH]; intros k silent out s Hi Hes.
  { apply wp_ret. eapply received_end; [done|done|done|by right]. }
  apply Forall_cons in Hes as [He Hes].
  assert (Hgo : forall k1 silent1 out1 s1, winv sv k1 silent1 out1 s1 ->
    wp (_ ← beat clock; recv_loop clock es) (received sv (S (length es)) (out1 ++ echo_spec sv k1 silent1 es)) s1).
  { intros k1 silent1 out1 s1 Hi1. wp_step. eapply wp_mono; [by apply beat_ok|].
    intros u s2 Hi2. eapply wp_mono; [apply (IH _ _ _ _ Hi2 Hes)|]. intros r s3. apply received_mono. lia. }
  destruct e as [| | |m]; simpl.
  - apply wp_ret. eapply received_end; [done|done|lia|by left].
  - wp_step. eapply wp_mono; [by apply silent_ok|]. intros u s1 Hi1.
    cbn beta in Hi1. destruct (decide (silent = 2%nat)); [|by apply Hgo].
    apply Hgo in Hi1. by rewrite <- app_assoc in Hi1.
  - apply wp_ret. eapply received_end; [done|done|lia|by left].
  - destruct He as (command & args & Ef & Hargs). wp_step. eapply wp_mono; [by eapply broker_msg_ok|].
    intros r s1 Hr. cbn beta in Hr. rewrite Ef. destruct (decide (command = MDPW_REQUEST)).
    + destruct Hr as (Hi1 & f & m' & -> & Hrt & Hf & Hm). apply wp_ret.
      split; [done|]. split; [simpl; lia|]. exists k, 0%nat, out. split; [done|]. simpl. split; [lia|].
      split; [eauto|]. by rewrite Hrt, Hf, Hm.
    + destruct Hr as [-> Hr]. destruct (decide (command = MDPW_DISCONNECT)); [|by apply Hgo].
      apply Hgo in Hr. by rewrite <- app_assoc in Hr.
Qed.

(** The reply goes to the client of the request, on the socket it came in. *)
Lemma send_reply_ok sv k silent out m f s :
  winv sv k silent out s -> reply_to s = FLive f ->
  wp (send_reply m) (fun _ => winv sv k silent (out ++ pending k (Some m) s)) s.
Proof.
  intros [[Hsv Hw Hs Hh Ho] Hl Hv Hd] Hrt. unfold send_reply. wp_step. apply wp_wget. rewrite Hrt.
  wp_step. eapply (send_ok _ _ _ k); [done|done|]. apply wp_wmodify. rewrite frames_wrap.
  split; [split|..]; simpl; try done. unfold pending. by rewrite Hrt, business_other, Ho.
Qed.

Lemma recv_ok sv es k silent out reply s :
  winv sv k silent out s -> Forall from_broker es -> in_turn reply s ->
  wp (mdwrk_recv clock reply es)
    (received sv (length es) (out ++ pending k reply s ++ echo_spec sv k silent es)) s.
Proof.
  intros Hi Hes Ht. unfold mdwrk_recv. wp_step. apply wp_wget. wp_step. rewrite app_assoc.
  assert (Hgo : forall s1, winv sv k silent (out ++ pending k reply s) s1 ->
    wp (_ ← modify (set_expect_reply true); recv_loop clock es)
      (received sv (length es) ((out ++ pending k reply s) ++ echo_spec sv k silent es)) s1).
  { intros s1 [Hc ? ? ?]. wp_step. apply wp_wmodify. apply wrk_recv_loop_ok; [|done].
    split; [by destruct Hc|done..]. }
  destruct reply as [m|].
  - apply wp_ret. destruct Ht as [f Hrt]. wp_step. eapply wp_mono; [by eapply send_reply_ok|].
    intros u s1. apply Hgo.
  - simpl in Ht. rewrite Ht. apply wp_ret. wp_step. apply wp_ret. apply Hgo. simpl. by rewrite app_nil_r.
Qed.

(** While it polls, the counter is between one and three, and at the last look at
    the clock no heartbeat was due; once it is stopped, every socket is closed. *)
Definition at_poll (r : recv_out) s : Prop :=
  match r with
  | Polling => 1 <= liveness s <= HEARTBEAT_LIVENESS /\ exists n, ticks s = S n /\ clock n <= heartbeat_at s
  | Stopped => sockets (ctx s) = []
  | Request _ => False
  end.

Lemma destroyed (Q : unit -> zctx -> Prop) c : Q tt (Ctx [] (next_socket c) (sent c)) -> wp zctx_destroy Q c.
Proof. done. Qed.

Lemma main_loop_ok sv fuel : forall reply k silent out es s,
  winv sv k silent out s -> Forall from_broker es -> (length es <= fuel)%nat -> in_turn reply s ->
  wp (main_loop clock fuel reply es) (fun r s' =>
    business (sent (ctx s')) = out ++ pending k reply s ++ echo_spec sv k silent es /\ at_poll r s') s.
Proof.
  induction fuel as [|fuel IH]; intros reply k silent out es s Hi Hes Hf Ht; simpl; wp_step;
    (eapply wp_mono; [by eapply recv_ok|]);
    intros [r rest] s1 (Hrest & Hlen & k' & silent' & out' & Hi1 & Hr); cbn [fst snd] in *;
    (destruct r as [m| |]; [|wp_step; unfold mdwrk_destroy; wp_step; apply wp_on_ctx, destroyed, wp_wmodify, wp_ret; simpl|apply wp_ret];
      [|rewrite Hr; destruct Hi1 as [[] ? Hv ?]; (split; [done|]); unfold at_poll, HEARTBEAT_LIVENESS;
        (done || (rewrite Hv; split; [lia|done]))..]).
  - lia.
  - destruct Hr as (Hlt & Ht' & ->). apply IH; [done|done|lia|done].
Qed.

Lemma wrk_new_ok broker sv :
  exists s, mdwrk_new clock broker sv = Ok s /\ winv sv 0 0 [(0%nat, ready_msg sv)] s /\
    expect_reply s = false /\ last (sent (ctx s)) = Some (0%nat, ready_msg sv).
Proof.
  unfold mdwrk_new. set (s0 := Mdwrk _ _ _ _ _ _ _ _ _ _ _).
  assert (Hwp : wp (s_mdwrk_connect_to_broker clock)
    (fun _ s => winv sv 0 0 [(0%nat, ready_msg sv)] s /\
       expect_reply s = false /\ last (sent (ctx s)) = Some (0%nat, ready_msg sv)) s0).
  { unfold s_mdwrk_connect_to_broker. wp_step. apply wp_wget. simpl. wp_step.
    apply wp_on_ctx. eapply wp_intro; [reflexivity|]. wp_step. apply wp_wmodify. wp_step.
    eapply (send_ok _ _ _ 0%nat); [done|done|]. wp_step. apply wp_wmodify. wp_step. apply wp_wclock, wp_wmodify.
    split; [|done]. split; [split|..]; simpl; try done; [lia|]. exists 0%nat. split; [done|].
    pose proof (Hclock 0%nat). rewrite u64_small by lia. lia. }
  destruct (wp_inv _ _ _ Hwp) as ([] & s & -> & Hs). eauto.
Qed.

(** C11: the echo worker, driven by any polls with a broker that keeps to the
    protocol, never faults; its traffic without the heartbeats is that of the
    specification: READY on the first socket, each request answered to its client
    with the body of the request on the socket it came in, a new socket with
    READY after each DISCONNECT and after each third silent poll in a row.  When
    it polls no heartbeat is due, when it stops its sockets are closed. *)
Theorem echo_worker_refines broker sv es :
  Forall from_broker es ->
  exists r s, worker_main clock broker sv es = Ok (r, s) /\
    business (sent (ctx s)) = (0%nat, ready_msg sv) :: echo_spec sv 0 0 es /\ at_poll r s.
Proof.
  intros Hes. destruct (wrk_new_ok broker sv) as (s0 & E & Hi & He & _). unfold worker_main. rewrite E.
  destruct (wp_inv _ _ _ (main_loop_ok sv (length es) None _ _ _ es s0 Hi Hes (le_n _) He)) as (r & s & E' & Hs).
  eauto.
Qed.

End spec.

(** ** Witness, and calls out of turn *)

Section examples.
#[local] Existing Instance plain_czmq.
#[local] Existing Instance plain_czmq_laws.

Definition ex_clock (n : nat) : Z := 1000 * Z.of_nat (Nat.min n 1000).

(** A request of the client [67], three silent polls, a DISCONNECT. *)
Definition ex_events : list event :=
  [Received ([[]; MDPW_WORKER; MDPW_REQUEST; [67]; []; [1]] : zmsg);
   Timeout; Timeout; Timeout; Received ([[]; MDPW_WORKER; MDPW_DISCONNECT] : zmsg)].

Lemma ex_clock_ok n : 0 <= ex_clock n < 2 ^ 63.
Proof. unfold ex_clock. lia. Qed.

Lemma echo_worker_refines_witness :
  exists r s, worker_main ex_clock [98] [101] ex_events = Ok (r, s) /\
    business (sent (ctx s)) = [(0%nat, ready_msg [101]); (0%nat, reply_msg [67] [[1]]);
                         (1%nat, ready_msg [101]); (2%nat, ready_msg [101])] /\ at_poll ex_clock r s.
Proof.
  apply (echo_worker_refines ex_clock ex_clock_ok [98] [101] ex_events).
  repeat constructor; simpl; eauto 10.
Defined.

(** The frame [reply_to] is left dangling by the reply and [expect_reply] is set
    before the loop: after a call that returned NULL, the next call uses the
    frame a second time, or fails the assertion. *)
Lemma recv_out_of_turn m es s f :
  reply_to s = FLive f -> worker s = Some 0%nat -> sockets (ctx s) = [0%nat] ->
  exists s', mdwrk_recv ex_clock (Some m) (PollError :: es) s = Ok ((Stopped, es), s') /\
    mdwrk_recv ex_clock (Some m) es s' = Err Dangling /\
    mdwrk_recv ex_clock None es s' = Err AssertFailed.
Proof.
  intros Hrt Hw Hs. destruct s as [[]]. simpl in *. subst. by eexists.
Qed.

End examples.
