(* ===== verification/MdClient.v ===== *)
(** * The Majordomo client: [src/lib/zeromq/MDP/mdcliapi.c], [mdclient.c]

    [mdcli_send] sends a request and waits for its reply; when none comes in time
    it opens a new socket and tries again.  What [zmq_poll] and [zmsg_recv] return
    is a list of events, one per poll; [interrupted] is what the flag
    [zctx_interrupted] shows each time it is read.  The messages of [verbose] are
    left out. *)

From stdpp Require Import prelude list.
From Stdlib Require Import ZArith Lia.
From S2P Require Import Prelude Czmq Mdp.

Section client.
Context `{Czmq}.
Context (interrupted : nat -> bool).

(** [mdcli_t], and how often the flag was read. *)
Record mdcli_t := Mdcli {
  ctx : zctx;
  broker : list Z;
  client : option nat;
  timeout : Z;
  retries : Z;
  reads : nat;
}.

Definition set_ctx v s := Mdcli v (broker s) (client s) (timeout s) (retries s) (reads s).
Definition set_client v s := Mdcli (ctx s) (broker s) v (timeout s) (retries s) (reads s).

Definition on_ctx {A} (c : M zctx A) : M mdcli_t A := fun s =>
  match c (ctx s) with
  | Ok (a, x) => Ok (a, set_ctx x s)
  | Err f => Err f
  | NoFuel => NoFuel
  end.

Definition zctx_interrupted : M mdcli_t bool := fun s =>
  Ok (interrupted (reads s), Mdcli (ctx s) (broker s) (client s) (timeout s) (retries s) (S (reads s))).

Definition s_mdcli_connect_to_broker : M mdcli_t unit :=
  s ← get;
  k ← on_ctx (zsocket_renew (client s));
  modify (set_client (Some k)).

Definition mdcli_new (broker : list Z) : outcome mdcli_t :=
  match s_mdcli_connect_to_broker (Mdcli zctx_new broker None 2500 3 0) with
  | Ok (_, s) => Ok s
  | Err f => Err f
  | NoFuel => NoFuel
  end.

Definition mdcli_destroy : M mdcli_t unit :=
  _ ← on_ctx zctx_destroy; modify (set_client None).

Definition mdcli_set_timeout (timeout : Z) : M mdcli_t unit :=
  modify (fun s => Mdcli (ctx s) (broker s) (client s) timeout (retries s) (reads s)).
Definition mdcli_set_retries (retries : Z) : M mdcli_t unit :=
  modify (fun s => Mdcli (ctx s) (broker s) (client s) (timeout s) retries (reads s)).

(** The call returned a message or NULL, or is still in [zmq_poll]. *)
Inductive send_out := Reply (msg : zmsg) | NoReply | Waiting.

(** The header and the service are checked and taken off. *)
Definition take_reply (service : list Z) (msg : zmsg) : M mdcli_t zmsg :=
  _ ← assert (3 <=? zmsg_size msg)%nat;
  let '(header, msg) := zmsg_pop msg in
  header ← frame_arg header;
  _ ← assert (zframe_streq header MDPC_CLIENT);
  let '(reply_service, msg) := zmsg_pop msg in
  reply_service ← frame_arg reply_service;
  _ ← assert (zframe_streq reply_service service);
  mret msg.

(** The loop; [zmsg_size] stops the program when there is no message. *)
Fixpoint send_loop (service : list Z) (request : zmsg) (retries_left : Z) (es : list event)
  : M mdcli_t (send_out * list event) :=
  stop ← (if retries_left =? 0 then mret true else zctx_interrupted);
  if stop : bool then mret (NoReply, es)
  else
    s ← get;
    _ ← on_ctx (zsocket_send (client s) (zmsg_dup request));
    match es with
    | [] => mret (Waiting, [])
    | PollError :: es => mret (NoReply, es)
    | RecvNull :: es => throw AssertFailed
    | Received msg :: es => m ← take_reply service msg; mret (Reply m, es)
    | Timeout :: es =>
        retries_left ← int_of (retries_left - 1);
        if retries_left =? 0 then mret (NoReply, es)
        else _ ← s_mdcli_connect_to_broker; send_loop service request retries_left es
    end.

Definition mdcli_send (service : list Z) (request : zmsg) (es : list event)
  : M mdcli_t (send_out * list event) :=
  let request := zmsg_pushstr request service in
  let request := zmsg_pushstr request MDPC_CLIENT in
  s ← get;
  send_loop service request (retries s) es.

(** ** [main] of mdclient.c *)

(** "echo" and "Hello world" *)
Definition ECHO : list Z := [101; 99; 104; 111].
Definition HELLO : list Z := [72; 101; 108; 108; 111; 32; 119; 111; 114; 108; 100].

(** [n] requests are left, [count] replies have come. *)
Fixpoint main_loop (n : nat) (count : Z) (es : list event) : M mdcli_t Z :=
  match n with
  | O => mret count
  | S n =>
      '(r, es) ← mdcli_send ECHO (zmsg_pushstr zmsg_new HELLO) es;
      match r with
      | Reply _ => main_loop n (count + 1) es
      | NoReply | Waiting => mret count
      end
  end.

(** The number that is printed, and the client. *)
Definition client_main (broker : list Z) (es : list event) : outcome (Z * mdcli_t) :=
  match mdcli_new broker with
  | Ok s => (count ← main_loop (Z.to_nat 100000) 0 es; _ ← mdcli_destroy; mret count) s
  | Err f => Err f
  | NoFuel => NoFuel
  end.

End client.

(** ** Attempts *)

Section spec.
Context `{Hcz : Czmq, Hcl : !CzmqLaws}.
Implicit Types (s : mdcli_t) (req : zmsg) (service : list Z).

(** The program is not interrupted. *)
Definition calm : nat -> bool := fun _ => false.

(** What is sent for a request, and [t] attempts on as many sockets from [k] on. *)
Definition request_msg service (body : list (list Z)) : list (list Z) := MDPC_CLIENT :: service :: body.

Definition attempts (k t : nat) (msg : list (list Z)) : list (nat * list (list Z)) :=
  (fun i => (i, msg)) <$> seq k t.

(** The client after [t] attempts that had no answer in time. *)
Definition retried (k t : nat) (msg : list (list Z)) s : mdcli_t :=
  Mdcli (Ctx [(k + t)%nat] (S (k + t)) (sent (ctx s) ++ attempts k t msg)) (broker s)
    (Some (k + t)%nat) (timeout s) (retries s) (reads s + t).

(** The client is connected by its one socket [k]. *)
Definition connected (k : nat) s : Prop := client s = Some k /\ one_socket k (ctx s).

Lemma retried_0 k msg s : connected k s -> retried k 0 msg s = s.
Proof.
  intros [Hc [Hs Hn]]. destruct s as [[sk nx st] br cl tm rt rd]. unfold retried, attempts. simpl in *.
  subst. by rewrite app_nil_r, !Nat.add_0_r.
Qed.

Lemma retried_connected k t msg s : connected (k + t) (retried k t msg s).
Proof. done. Qed.

Lemma int_of_ok {S} n (s : S) : INT_MIN <= n <= INT_MAX -> int_of n s = Ok (n, s).
Proof.
  intros ?. unfold int_of.
  by rewrite (proj2 (Z.leb_le INT_MIN n)), (proj2 (Z.leb_le n INT_MAX)) by lia.
Qed.

(** A round of the loop up to the poll: the request is sent. *)
Definition asked (k : nat) (msg : list (list Z)) s : mdcli_t :=
  Mdcli (Ctx [k] (S k) (sent (ctx s) ++ [(k, msg)])) (broker s) (client s) (timeout s) (retries s) (S (reads s)).

Lemma send_round service req n k es s :
  connected k s -> n <> 0 ->
  send_loop calm service req n es s =
  match es with
  | [] => mret (Waiting, [])
  | PollError :: es => mret (NoReply, es)
  | RecvNull :: es => throw AssertFailed
  | Received msg :: es => m ← take_reply service msg; mret (Reply m, es)
  | Timeout :: es =>
      n ← int_of (n - 1);
      if n =? 0 then mret (NoReply, es)
      else _ ← s_mdcli_connect_to_broker; send_loop calm service req n es
  end (asked k (zmsg_frames req) s).
Proof.
  intros [Hc [Hs Hx]] Hn. destruct s as [[sk nx st] br cl tm rt rd]. simpl in *. subst.
  assert (Hin : k ∈ [k]) by set_solver.
  destruct es; simpl; rewrite (proj2 (Z.eqb_neq n 0)) by lia;
    unfold mbind, M_bind, zctx_interrupted, calm, get, on_ctx, zsocket_send; simpl;
    rewrite decide_True by done; rewrite frames_dup; done.
Qed.

(** An attempt without an answer. *)
Lemma timeout_step service req n k s es :
  connected k s -> 1 < n <= INT_MAX \/ INT_MIN < n < 0 ->
  send_loop calm service req n (Timeout :: es) s
  = send_loop calm service req (n - 1) es (retried k 1 (zmsg_frames req) s).
Proof.
  intros Hk Hn. rewrite (send_round service req n k) by (done || lia).
  rewrite (bind_ok _ _ _ (n - 1) (asked k (zmsg_frames req) s)).
  2: { apply int_of_ok. unfold INT_MAX, INT_MIN in *. lia. }
  rewrite (proj2 (Z.eqb_neq (n - 1) 0)) by lia.
  rewrite (bind_ok _ _ _ tt (retried k 1 (zmsg_frames req) s)); [done|].
  destruct Hk as [Hc [Hs Hx]]. destruct s as [[sk nx st] br cl tm rt rd]. simpl in *. subst.
  assert (Hin : k ∈ [k]) by set_solver.
  unfold s_mdcli_connect_to_broker, mbind, M_bind, get, on_ctx, zsocket_renew, zsocket_destroy, mbind, M_bind. simpl.
  rewrite decide_True by done. simpl. rewrite filter_cons_False by auto. unfold retried. simpl.
  rewrite filter_nil, !Nat.add_1_r. done.
Qed.

Lemma retried_S k t msg s : retried (S k) t msg (retried k 1 msg s) = retried k (S t) msg s.
Proof.
  unfold retried, attempts. simpl. rewrite <- app_assoc, <- !Nat.add_assoc. simpl.
  by replace (k + S t)%nat with (S (k + t)) by lia.
Qed.

(** [t] attempts without an answer, and more to come. *)
Lemma timeouts service req : forall t n k es s,
  connected k s -> Z.of_nat t < n <= INT_MAX \/ INT_MIN + Z.of_nat t < n < 0 ->
  send_loop calm service req n (replicate t Timeout ++ es) s
  = send_loop calm service req (n - Z.of_nat t) es (retried k t (zmsg_frames req) s).
Proof.
  induction t as [|t IH]; intros n k es s Hk Hn; cbn [replicate app].
  { by rewrite retried_0, Z.sub_0_r. }
  rewrite (timeout_step _ _ _ k) by (done || lia).
  pose proof (retried_connected k 1 (zmsg_frames req) s) as Hk1. rewrite Nat.add_1_r in Hk1.
  rewrite (IH _ _ _ _ Hk1) by lia. rewrite retried_S. f_equal. lia.
Qed.

(** A reply: the header, the service, and a body of at least one frame. *)
Lemma take_reply_ok service msg body s :
  zmsg_frames msg = MDPC_CLIENT :: service :: body -> body <> [] ->
  exists m, take_reply service msg s = Ok (m, s) /\ zmsg_frames m = body.
Proof.
  intros E Hb. unfold take_reply. rewrite frames_size, E. destruct body as [|d ds]; [done|]. simpl.
  destruct (pop_cons msg _ _ E) as (f0 & m1 & -> & E0 & F1).
  destruct (pop_cons m1 _ _ F1) as (f1 & m2 & E' & E1 & F2).
  exists m2. split; [|done]. unfold mbind, M_bind. simpl. rewrite streq_ok, E0. simpl.
  rewrite E'. simpl. by rewrite streq_ok, E1, bool_decide_true by done.
Qed.

(** What the service answers, to this request. *)
Definition answer service (msg : zmsg) (body : list (list Z)) : Prop :=
  zmsg_frames msg = MDPC_CLIENT :: service :: body /\ body <> [].

Lemma start service req es s :
  mdcli_send calm service req es s
  = send_loop calm service (zmsg_pushstr (zmsg_pushstr req service) MDPC_CLIENT) (retries s) es s.
Proof. done. Qed.

Lemma sent_asked k t msg s :
  sent (ctx (asked (k + t) msg (retried k t msg s))) = sent (ctx s) ++ attempts k (S t) msg.
Proof. unfold asked, retried, attempts. cbn [ctx sent]. by rewrite seq_S, fmap_app, app_assoc. Qed.

Lemma send_answered service req n k s t reply body es :
  connected k s -> retries s = Z.of_nat n -> Z.of_nat n <= INT_MAX -> (t < n)%nat -> answer service reply body ->
  exists m, zmsg_frames m = body /\
    mdcli_send calm service req (replicate t Timeout ++ Received reply :: es) s
    = Ok ((Reply m, es), let msg := request_msg service (zmsg_frames req) in
                         asked (k + t) msg (retried k t msg s)).
Proof.
  intros Hk Hr Hm Ht [E Hb]. rewrite start, Hr, (timeouts _ _ t _ k) by (done || lia).
  rewrite (send_round _ _ _ (k + t)) by (done || lia). rewrite !frames_pushstr. cbn zeta.
  fold (request_msg service (zmsg_frames req)). set (s' := asked _ _ _).
  destruct (take_reply_ok service reply body s' E Hb) as (m & Et & Hf).
  exists m. split; [done|]. by rewrite (bind_ok _ _ _ _ _ Et).
Qed.

Lemma send_abandoned service req t k s es :
  connected k s -> retries s = Z.of_nat (S t) -> Z.of_nat (S t) <= INT_MAX ->
  mdcli_send calm service req (replicate (S t) Timeout ++ es) s
  = Ok ((NoReply, es), let msg := request_msg service (zmsg_frames req) in
                       asked (k + t) msg (retried k t msg s)).
Proof.
  intros Hk Hr Hm. rewrite start, Hr, replicate_S_end, <- app_assoc, (timeouts _ _ t _ k) by (done || lia).
  simpl app. rewrite (send_round _ _ _ (k + t)) by (done || lia). rewrite !frames_pushstr. cbn zeta.
  fold (request_msg service (zmsg_frames req)). set (s' := asked _ _ _).
  rewrite (bind_ok _ _ _ 0 s'); [done|].
  rewrite int_of_ok by (unfold INT_MAX, INT_MIN in *; lia). do 2 f_equal. lia.
Qed.

(** C12: a client with [n] retries that is not interrupted sends its request at
    most [n] times, each time on a socket of its own: an answer after fewer than
    [n] silent polls is returned without its two header frames, and after [n]
    silent polls the call gives up with NULL. *)
Theorem mdcli_send_retries service req n k s :
  connected k s -> retries s = Z.of_nat n -> (0 < n)%nat -> Z.of_nat n <= INT_MAX ->
  let msg := request_msg service (zmsg_frames req) in
  (forall t reply body es, (t < n)%nat -> answer service reply body ->
     exists m s', mdcli_send calm service req (replicate t Timeout ++ Received reply :: es) s
                  = Ok ((Reply m, es), s') /\
       zmsg_frames m = body /\ sent (ctx s') = sent (ctx s) ++ attempts k (S t) msg /\
       connected (k + t) s') /\
  (forall es, exists s', mdcli_send calm service req (replicate n Timeout ++ es) s = Ok ((NoReply, es), s') /\
       sent (ctx s') = sent (ctx s) ++ attempts k n msg /\ connected (k + (n - 1)) s').
Proof.
  intros Hk Hr Hn Hm msg. split.
  - intros t reply body es Ht Ha.
    destruct (send_answered service req n k s t reply body es) as (m & Hf & E); [done..|].
    exists m. eexists. split; [exact E|]. split; [done|]. split; [apply sent_asked|done].
  - intros es. destruct n as [|t]; [lia|]. eexists. split; [by apply send_abandoned|].
    split; [apply sent_asked|]. by replace (S t - 1)%nat with t by lia.
Qed.

(** With a negative number of retries the client does not give up: it is still
    polling after any number of silent polls, until the counter overflows. *)
Lemma negative_retries service req k s t :
  connected k s -> retries s < 0 -> INT_MIN + Z.of_nat t < retries s ->
  exists s', mdcli_send calm service req (replicate t Timeout) s = Ok ((Waiting, []), s').
Proof.
  intros Hk Hr Ht. unfold mdcli_send. rewrite <- (app_nil_r (replicate t Timeout)).
  rewrite (bind_ok get _ s s s) by done. rewrite (timeouts _ _ t _ k) by (done || lia).
  rewrite (send_round _ _ _ (k + t)) by (done || lia). by eexists.
Qed.

(** The program has an answer for each of its requests: all of them are counted,
    and were sent on the first socket. *)
Lemma main_loop_counts : forall n count es s,
  connected 0 s -> retries s = 3 -> length es = n ->
  Forall (fun e => exists m body, e = Received m /\ answer ECHO m body) es ->
  exists s', main_loop calm n count es s = Ok (count + Z.of_nat n, s') /\ connected 0 s' /\
    sent (ctx s') = sent (ctx s) ++ replicate n (0%nat, request_msg ECHO [HELLO]).
Proof.
  induction n as [|n IH]; intros count es s Hk Hr Hn Hes.
  { exists s. rewrite app_nil_r, Z.add_0_r. by destruct es. }
  destruct es as [|e es]; [done|]. apply Forall_cons in Hes as [(m & body & -> & Ha) Hes].
  destruct (send_answered ECHO (zmsg_pushstr zmsg_new HELLO) 3 0 s 0 m body es) as (m' & Hf & E); [done|done|done|lia|done|].
  rewrite frames_pushstr, frames_new in E. cbn zeta in E. rewrite retried_0 in E by done.
  set (s1 := asked _ _ _) in E. destruct (IH (count + 1) es s1) as (s' & E' & Hk' & Hs'); [|done|by injection Hn|done|].
  { by destruct Hk. }
  exists s'. split; [|split; [done|]].
  - cbn [main_loop]. rewrite (bind_ok _ _ _ _ _ E). simpl. rewrite E'. do 2 f_equal. lia.
  - rewrite Hs'. simpl. by rewrite <- app_assoc.
Qed.

End spec.

Section examples.
#[local] Existing Instance plain_czmq.
#[local] Existing Instance plain_czmq_laws.

Definition ex_client : mdcli_t := Mdcli (Ctx [0%nat] 1 []) [98] (Some 0%nat) 2500 3 0.
Definition ex_req : zmsg := [[1]].
Definition ex_reply : zmsg := [MDPC_CLIENT; [101]; [2]].

(** Two silent polls and an answer; three silent polls. *)
Lemma mdcli_send_retries_witness :
  (exists m s', mdcli_send calm [101] ex_req [Timeout; Timeout; Received ex_reply] ex_client
                = Ok ((Reply m, []), s') /\
     zmsg_frames m = [[2]] /\ sent (ctx s') = attempts 0 3 [MDPC_CLIENT; [101]; [1]] /\ connected 2 s') /\
  (exists s', mdcli_send calm [101] ex_req [Timeout; Timeout; Timeout] ex_client = Ok ((NoReply, []), s') /\
     sent (ctx s') = attempts 0 3 [MDPC_CLIENT; [101]; [1]] /\ connected 2 s').
Proof.
  destruct (mdcli_send_retries [101] ex_req 3 0 ex_client) as [Hyes Hno]; [done|done|lia|done|].
  split; [|exact (Hno [])]. apply (Hyes 2%nat ex_reply [[2]] []); [lia|done].
Defined.

End examples.
