(* ===== verification/MdClient2.v ===== *)
(** * The asynchronous Majordomo client: [src/lib/zeromq/MDP/mdcliapi2.c],
    [mdclient2.c]

    Sending and receiving are two calls, and requests are not repeated.  Events
    are as in MdClient.v; the messages of [verbose] are left out. *)

From stdpp Require Import prelude list.
From Stdlib Require Import ZArith Lia.
From S2P Require Import Prelude Czmq Mdp.

Section client.
Context `{Czmq}.

Record mdcli_t := Mdcli {
  ctx : zctx;
  broker : list Z;
  client : option nat;
  timeout : Z;
}.

Definition set_ctx v s := Mdcli v (broker s) (client s) (timeout s).
Definition set_client v s := Mdcli (ctx s) (broker s) v (timeout s).

Definition on_ctx {A} (c : M zctx A) : M mdcli_t A := fun s =>
  match c (ctx s) with
  | Ok (a, x) => Ok (a, set_ctx x s)
  | Err f => Err f
  | NoFuel => NoFuel
  end.

Definition s_mdcli_connect_to_broker : M mdcli_t unit :=
  s ← get;
  k ← on_ctx (zsocket_renew (client s));
  modify (set_client (Some k)).

Definition mdcli_new (broker : list Z) : outcome mdcli_t :=
  match s_mdcli_connect_to_broker (Mdcli zctx_new broker None 2500) with
  | Ok (_, s) => Ok s
  | Err f => Err f
  | NoFuel => NoFuel
  end.

Definition mdcli_destroy : M mdcli_t unit :=
  _ ← on_ctx zctx_destroy; modify (set_client None).

Definition mdcli_set_timeout (timeout : Z) : M mdcli_t unit :=
  modify (fun s => Mdcli (ctx s) (broker s) (client s) timeout).

Definition mdcli_send (service : list Z) (request : zmsg) : M mdcli_t unit :=
  let request := zmsg_pushstr request service in
  let request := zmsg_pushstr request MDPC_CLIENT in
  let request := zmsg_pushstr request [] in
  s ← get;
  on_ctx (zsocket_send (client s) request).

Inductive recv_out := Reply (msg : zmsg) | NoReply | Waiting.

Definition take_reply (msg : zmsg) : M mdcli_t zmsg :=
  _ ← assert (4 <=? zmsg_size msg)%nat;
  let '(empty, msg) := zmsg_pop msg in
  empty ← frame_arg empty;
  _ ← assert (zframe_streq empty []);
  let '(header, msg) := zmsg_pop msg in
  header ← frame_arg header;
  _ ← assert (zframe_streq header MDPC_CLIENT);
  let '(_, msg) := zmsg_pop msg in
  mret msg.

(** One poll; [zmsg_size] stops the program when there is no message. *)
Definition mdcli_recv (es : list event) : M mdcli_t (recv_out * list event) :=
  match es with
  | [] => mret (Waiting, [])
  | (PollError | Timeout) :: es => mret (NoReply, es)
  | RecvNull :: es => throw AssertFailed
  | Received msg :: es => m ← take_reply msg; mret (Reply m, es)
  end.

(** ** [main] of mdclient2.c *)

(** "echo" and "Hello world" *)
Definition ECHO : list Z := [101; 99; 104; 111].
Definition HELLO : list Z := [72; 101; 108; 108; 111; 32; 119; 111; 114; 108; 100].

Fixpoint main_send (n : nat) : M mdcli_t unit :=
  match n with
  | O => mret tt
  | S n => _ ← mdcli_send ECHO (zmsg_pushstr zmsg_new HELLO); main_send n
  end.

Fixpoint main_recv (n : nat) (count : Z) (es : list event) : M mdcli_t Z :=
  match n with
  | O => mret count
  | S n =>
      '(r, es) ← mdcli_recv es;
      match r with
      | Reply _ => main_recv n (count + 1) es
      | NoReply | Waiting => mret count
      end
  end.

(** The number that is printed, and the client. *)
Definition client2_main (n : nat) (broker : list Z) (es : list event) : outcome (Z * mdcli_t) :=
  match mdcli_new broker with
  | Ok s => (_ ← main_send n; count ← main_recv n 0 es; _ ← mdcli_destroy; mret count) s
  | Err f => Err f
  | NoFuel => NoFuel
  end.

End client.

Section spec.
Context `{Hcz : Czmq, Hcl : !CzmqLaws}.

(** The frame that [ZMQ_DEALER] does not add, the header, the service. *)
Definition answer (msg : zmsg) : Prop :=
  exists service d body, zmsg_frames msg = [] :: MDPC_CLIENT :: service :: d :: body.

Definition hello_msg : list (list Z) := [[]; MDPC_CLIENT; ECHO; HELLO].

Lemma take_reply2_ok msg service d body s :
  zmsg_frames msg = [] :: MDPC_CLIENT :: service :: d :: body ->
  exists m, take_reply msg s = Ok (m, s) /\ zmsg_frames m = d :: body.
Proof.
  intros E. unfold take_reply. rewrite frames_size, E. simpl.
  destruct (pop_cons msg _ _ E) as (f0 & m1 & -> & E0 & F1).
  destruct (pop_cons m1 _ _ F1) as (f1 & m2 & E1' & E1 & F2).
  destruct (pop_cons m2 _ _ F2) as (f2 & m3 & E2' & E2 & F3).
  exists m3. split; [|done]. unfold mbind, M_bind. simpl. rewrite streq_ok, E0. simpl.
  rewrite E1'. simpl. rewrite streq_ok, E1. simpl. by rewrite E2'.
Qed.

Lemma main_send_ok n : forall sent0,
  main_send n (Mdcli (Ctx [0%nat] 1 sent0) [] (Some 0%nat) 2500)
  = Ok (tt, Mdcli (Ctx [0%nat] 1 (sent0 ++ replicate n (0%nat, hello_msg))) [] (Some 0%nat) 2500).
Proof.
  induction n as [|n IH]; intros sent0; simpl; [by rewrite app_nil_r|].
  rewrite (bind_ok _ _ _ tt (Mdcli (Ctx [0%nat] 1 (sent0 ++ [(0%nat, hello_msg)])) [] (Some 0%nat) 2500)).
  - rewrite IH. by rewrite <- app_assoc.
  - unfold mdcli_send, mbind, M_bind, get, on_ctx, zsocket_send. simpl.
    by rewrite !frames_pushstr, frames_new.
Qed.

Lemma main_recv_ok s (ms : list zmsg) : forall n count rest, Forall answer ms ->
  (rest = [] \/ (exists es, rest = Timeout :: es) \/ (exists es, rest = PollError :: es)) ->
  main_recv n count ((Received <$> ms) ++ rest) s = Ok (count + Z.of_nat (min n (length ms)), s).
Proof.
  induction ms as [|m ms IH]; intros n count rest Hms Hrest; destruct n as [|n]; simpl;
    try by rewrite Z.add_0_r.
  - rewrite Z.add_0_r. destruct Hrest as [->|[[es ->]|[es ->]]]; done.
  - apply Forall_cons in Hms as [(service & d & body & E) Hms].
    destruct (take_reply2_ok m service d body s E) as (m' & Et & _).
    assert (E1 : mdcli_recv ((Received <$> m :: ms) ++ rest) s = Ok ((Reply m', (Received <$> ms) ++ rest), s))
      by (simpl; by rewrite (bind_ok _ _ _ _ _ Et)).
    rewrite (bind_ok _ _ _ _ _ E1), (IH n (count + 1) rest Hms Hrest). do 2 f_equal. lia.
Qed.

(** All requests go out first, on one socket; then the replies that come, up to
    the number of requests, are counted. *)
Lemma client2_counts n (ms : list zmsg) rest : Forall answer ms ->
  (rest = [] \/ (exists es, rest = Timeout :: es) \/ (exists es, rest = PollError :: es)) ->
  exists s, client2_main n [] ((Received <$> ms) ++ rest) = Ok (Z.of_nat (min n (length ms)), s) /\
    sent (ctx s) = replicate n (0%nat, hello_msg).
Proof.
  intros Hms Hrest. unfold client2_main. simpl. eexists.
  rewrite (bind_ok _ _ _ _ _ (main_send_ok n [])), (bind_ok _ _ _ _ _ (main_recv_ok _ ms n 0 rest Hms Hrest)).
  done.
Qed.

End spec.
