(* ===== verification/MdSystem.v ===== *)
(** * A Majordomo system: client, broker and worker together

    The three programs of [src/lib/zeromq/MDP/] and the sockets between them: the
    broker's socket is a ROUTER, the worker's a DEALER, the client's a REQ.  What
    these sockets do with the frames is the class [Sockets], its documented
    behaviour the class [SocketLaws]. *)

From stdpp Require Import prelude gmap list.
From Stdlib Require Import ZArith Lia.
From S2P Require Import Prelude Czmq Mdp MdBroker MdWorker MdClient.

(** ** The sockets *)

Class Sockets `{Czmq} := {
  zmsg_recv : list (list Z) -> zmsg;                                  (** of the frames that arrived *)
  dealer_to_router : list Z -> list (list Z) -> list (list Z);        (** of the peer of that identity *)
  req_to_router : list Z -> list (list Z) -> list (list Z);
  router_to_dealer : list (list Z) -> option (list Z * list (list Z));  (** to whom, and what *)
  router_to_req : list (list Z) -> option (list Z * list (list Z));
}.

(** A ROUTER puts the identity of the peer in front of what it receives and takes
    it off what it sends; a REQ puts an empty frame in front of what it sends and
    takes it off what it receives. *)
Class SocketLaws `{Sockets} := {
  recv_frames ds : zmsg_frames (zmsg_recv ds) = ds;
  from_dealer id ds : dealer_to_router id ds = id :: ds;
  from_req id ds : req_to_router id ds = id :: [] :: ds;
  to_dealer id ds : router_to_dealer (id :: ds) = Some (id, ds);
  to_req id ds : router_to_req (id :: [] :: ds) = Some (id, ds);
}.

Section system.
Context `{Hcz : Czmq, Hso : !Sockets}.
Context (bclock wclock : nat -> Z).
Context (service cid wid : list Z).
Context (work : list (list Z) -> list (list Z)).

(** The three programs. *)
Record system := System { sys_client : mdcli_t; sys_broker : broker_t; sys_worker : mdwrk_t }.

(** The message that was sent last; a message for another peer is lost. *)
Definition last_sent {X} (log : list X) : outcome X :=
  match last log with Some x => Ok x | None => Err AssertFailed end.

Definition delivered (id : list Z) (r : option (list Z * list (list Z))) : outcome (list (list Z)) :=
  match r with
  | Some (to, ds) => if decide (to = id) then Ok ds else Err AssertFailed
  | None => Err AssertFailed
  end.

(** The worker announces itself, and waits for its first request. *)
Definition connect (broker : list Z) : outcome system :=
  c ← mdcli_new broker;
  w ← mdwrk_new wclock broker service;
  '(_, w) ← mdwrk_recv wclock None [] w;
  '(_, ready) ← last_sent (sent (MdWorker.ctx w));
  '(_, b) ← broker_round bclock (Received (zmsg_recv (dealer_to_router wid ready))) (s_broker_new bclock);
  Ok (System c b w).

(** The client calls [mdcli_send]; its request goes through the broker to the
    worker, which is in [mdwrk_recv]; the worker does its work and calls
    [mdwrk_recv] with the reply, which goes back. *)
Definition exchange (body : list (list Z)) (s : system) : outcome (list (list Z) * system) :=
  '(_, asking) ← mdcli_send calm service (zmsg_recv body) [] (sys_client s);
  '(_, request) ← last_sent (sent (ctx asking));
  '(_, b) ← broker_round bclock (Received (zmsg_recv (req_to_router cid request))) (sys_broker s);
  out ← last_sent (wire b);
  request ← delivered wid (router_to_dealer out);
  '(r, _, w) ← recv_loop wclock [Received (zmsg_recv request)] (sys_worker s);
  match r with
  | Request m =>
      '(_, w) ← mdwrk_recv wclock (Some (zmsg_recv (work (zmsg_frames m)))) [] w;
      '(_, reply) ← last_sent (sent (MdWorker.ctx w));
      '(_, b) ← broker_round bclock (Received (zmsg_recv (dealer_to_router wid reply))) b;
      out ← last_sent (wire b);
      reply ← delivered cid (router_to_req out);
      '(r, _, c) ← mdcli_send calm service (zmsg_recv body) [Received (zmsg_recv reply)] (sys_client s);
      match r with
      | Reply m => Ok (zmsg_frames m, System c b w)
      | _ => Err AssertFailed
      end
  | _ => Err AssertFailed
  end.

Fixpoint session (bodies : list (list (list Z))) (s : system) : outcome (list (list (list Z)) * system) :=
  match bodies with
  | [] => Ok ([], s)
  | body :: bodies =>
      '(reply, s) ← exchange body s;
      '(replies, s) ← session bodies s;
      Ok (reply :: replies, s)
  end.

End system.

(** ** The broker's rounds *)

Section broker_rounds.
Context `{Hcz : Czmq, Hcl : !CzmqLaws}.
Context (clock : nat -> Z).
Context (Hclock : forall i j, clock i <= clock j + HEARTBEAT_INTERVAL).
Context (name wid : list Z).
Implicit Types (b : broker_t) (l sl : loc).

(** One worker serves [name]; it waits ([ws] is [[l]]) or works ([ws] is []). *)
Record serves (ws : list loc) l sl b : Prop := {
  sv_table : entries (services b) !! name = Some sl;
  sv_service : exists s, s_heap b !! sl = Some s /\ s_name s = name /\
    items (requests s) = [] /\ items (s_waiting s) = ws;
  sv_waiting : items (waiting b) = ws;
  sv_id f : zframe_data f = wid -> entries (workers b) !! zframe_strhex f = Some l;
  sv_worker : exists w, w_heap b !! l = Some w /\ w_service w = Some sl /\
    zframe_data (identity w) = wid /\ exists i, expiry w = clock i + HEARTBEAT_EXPIRY;
  sv_beat : exists i, MdBroker.heartbeat_at b = clock i + HEARTBEAT_INTERVAL;
}.

(** No heartbeat is due. *)
Lemma no_beat b i :
  MdBroker.heartbeat_at b = clock i + HEARTBEAT_INTERVAL ->
  heartbeats clock b = Ok (tt, MdBroker.set_ticks (S (MdBroker.ticks b)) b).
Proof.
  intros E. unfold heartbeats, mbind, M_bind, MdBroker.zclock_time, get. simpl.
  rewrite E, (proj2 (Z.ltb_ge _ _)) by apply Hclock. done.
Qed.

(** The worker that waits has not expired. *)
Lemma no_purge b l w i Q :
  items (waiting b) = [l] -> w_heap b !! l = Some w -> expiry w = clock i + HEARTBEAT_EXPIRY ->
  (forall wl n, items wl = [l] -> Q tt (MdBroker.set_ticks n (set_waiting wl b))) ->
  wp (s_broker_purge clock) Q b.
Proof.
  intros Hwt Hw He HQ. unfold s_broker_purge. wp_step. apply wp_bget. cbn [purge_loop]. wp_step. apply wp_bget.
  destruct (items_first (waiting b)) as (E1 & E2 & _). destruct (zlist_first (waiting b)) as [o wl].
  simpl in E1, E2. rewrite Hwt in E1, E2. subst o. wp_step. apply wp_bmodify. simpl. wp_step. apply wp_clock.
  wp_step. eapply wp_load_w; [done|]. simpl.
  rewrite (proj2 (Z.ltb_lt _ _)); [by apply wp_ret, HQ|].
  pose proof (Hclock (MdBroker.ticks b) i). rewrite He. unfold HEARTBEAT_EXPIRY, HEARTBEAT_INTERVAL, MdBroker.HEARTBEAT_LIVENESS in *. lia.
Qed.

(** A worker that waits for requests, of which there are none. *)
Lemma dispatch_none l sl s w i b Q :
  s_heap b !! sl = Some s -> items (requests s) = [] ->
  items (waiting b) = [l] -> w_heap b !! l = Some w -> expiry w = clock i + HEARTBEAT_EXPIRY ->
  (forall wl n, items wl = [l] -> Q tt (MdBroker.set_ticks n (set_waiting wl b))) ->
  wp (s_service_dispatch clock sl None) Q b.
Proof.
  intros Hs Hr Hwt Hw He HQ. unfold s_service_dispatch. wp_step. apply wp_ret. wp_step.
  eapply no_purge; [done..|]. intros wl n Hwl. wp_step. eapply wp_load_s; [done|].
  cbn [dispatch_loop]. wp_step. eapply wp_load_s; [done|].
  rewrite (items_size (requests s)), Hr, andb_false_r. by apply wp_ret, HQ.
Qed.

(** A request for a service whose one worker waits. *)
Lemma dispatch_request l sl s w i m b Q :
  s_heap b !! sl = Some s -> items (requests s) = [] -> items (s_waiting s) = [l] ->
  items (waiting b) = [l] -> w_heap b !! l = Some w -> expiry w = clock i + HEARTBEAT_EXPIRY ->
  (forall wl swl rl n, items wl = [] -> items swl = [] -> items rl = [] ->
     Q tt (MdBroker.set_ticks n (set_wire (wire b ++ [to_worker w MDPW_REQUEST (zmsg_frames m)])
       (set_waiting wl (set_s_heap (<[sl := Service (s_name s) rl swl (s_workers s)]> (s_heap b)) b))))) ->
  wp (s_service_dispatch clock sl (Some m)) Q b.
Proof.
  intros Hs Hr Hsw Hwt Hw He HQ. unfold s_service_dispatch. wp_step. eapply wp_update_s; [done|]. wp_step.
  eapply no_purge; [done..|]. intros wl n Hwl. wp_step. eapply wp_load_s; [simpl; apply lookup_insert_eq|].
  rewrite items_size. simpl requests. rewrite items_append, Hr. cbn [app length dispatch_loop].
  wp_step. eapply wp_load_s; [simpl; apply lookup_insert_eq|]. rewrite !items_size. simpl requests. simpl s_waiting.
  rewrite items_append, Hr, Hsw. simpl.
  destruct (items_pop (s_waiting s)) as [E1 E2]. destruct (zlist_pop (s_waiting s)) as [o swl].
  simpl in E1, E2. rewrite Hsw in E1, E2. simpl in E1, E2. subst o.
  destruct (items_pop (zlist_append (requests s) m)) as [E3 E4].
  destruct (zlist_pop (zlist_append (requests s) m)) as [o rl].
  simpl in E3, E4. rewrite items_append, Hr in E3, E4. simpl in E3, E4. subst o.
  wp_step. eapply wp_update_s; [simpl; apply lookup_insert_eq|]. wp_step. apply wp_bmodify.
  wp_step. eapply worker_send_ok; [done|]. simpl. wp_step. eapply wp_load_s; [simpl; apply lookup_insert_eq|].
  simpl. rewrite items_size, E2. simpl. apply wp_ret. rewrite insert_insert_eq.
  apply (HQ (zlist_remove wl l) swl rl n); [|done|done]. rewrite items_remove, Hwl. simpl. by rewrite decide_True.
Qed.

(** A REPLY of the worker at work: the client gets it, the worker waits again. *)
Lemma reply_msg_ok l sl f m b :
  serves [] l sl b -> zframe_data f = wid ->
  forall cid body, zmsg_frames m = MDPW_REPLY :: cid :: [] :: body ->
  wp (s_broker_worker_msg clock f m) (fun _ b' => serves [l] l sl b' /\
    wire b' = wire b ++ [cid :: [] :: MDPC_CLIENT :: name :: body]) b.
Proof.
  intros [Htab (s & Hs & Hn & Hr & Hsw) Hwt Hid (w & Hw & Hsv & Hi & i & He) Hb] Hf cid body E.
  unfold s_broker_worker_msg. wp_step. rewrite frames_size, E. apply wp_ret.
  destruct (pop_cons m _ _ E) as (f0 & m1 & -> & E0 & F1). wp_step. apply wp_bget.
  rewrite entries_lookup, (Hid f Hf). wp_step. unfold s_worker_require. wp_step. apply wp_bget.
  rewrite entries_lookup, (Hid f Hf). apply wp_ret. wp_step. apply wp_ret. rewrite !streq_ok, E0. simpl.
  unfold worker_reply_msg. destruct (unwrap_cons m1 _ _ F1) as (cf & m2 & -> & Ec & F2).
  wp_step. eapply wp_load_w; [done|]. wp_step. rewrite Hsv. eapply wp_load_s; [done|]. wp_step. apply wp_ret.
  wp_step. apply wp_send. unfold s_worker_waiting. wp_step. eapply wp_load_w; [done|]. wp_step. apply wp_bmodify.
  rewrite Hsv. wp_step. eapply wp_update_s; [done|]. wp_step. apply wp_clock. wp_step. eapply wp_update_w; [done|].
  eapply dispatch_none; simpl.
  - apply lookup_insert_eq.
  - done.
  - by rewrite items_append, Hwt.
  - apply lookup_insert_eq.
  - simpl. done.
  - intros wl n Hwl. split; [|simpl; by rewrite frames_wrap, !frames_pushstr, F2, Ec, Hn].
    split; simpl; try done.
    + eexists. split; [apply lookup_insert_eq|]. simpl. by rewrite items_append, Hsw.
    + eexists. split; [apply lookup_insert_eq|]. simpl. eauto.
Qed.

(** A request of a client goes to the worker. *)
Lemma request_ok l sl f m b :
  serves [l] l sl b -> cstr name = name -> take 4 name <> MMI ->
  forall body, zmsg_frames m = name :: body -> body <> [] ->
  wp (s_broker_client_msg clock f m) (fun _ b' => serves [] l sl b' /\
    wire b' = wire b ++ [wid :: [] :: MDPW_WORKER :: MDPW_REQUEST :: zframe_data f :: [] :: body]) b.
Proof.
  intros [Htab (s & Hs & Hn & Hr & Hsw) Hwt Hid (w & Hw & Hsv & Hi & i & He) Hb] Hc Hmmi body E Hbody.
  unfold s_broker_client_msg. wp_step. rewrite frames_size, E. destruct body as [|d ds]; [done|]. apply wp_ret.
  destruct (pop_cons m _ _ E) as (f0 & m1 & -> & E0 & F1). wp_step. unfold s_service_require.
  wp_step. apply wp_ret. wp_step. apply wp_bget. rewrite entries_lookup, strdup_ok, E0, Hc, Htab. apply wp_ret.
  wp_step. apply wp_ret. unfold is_mmi. rewrite E0, (bool_decide_false _ Hmmi), andb_false_r.
  eapply dispatch_request; [done..|]. intros wl swl rl n E1 E2 E3. split.
  - split; simpl; try done; [|eauto 10]. eexists. split; [apply lookup_insert_eq|done].
  - simpl. rewrite frames_wrap, F1. unfold to_worker. by rewrite Hi.
Qed.

(** READY of a worker the broker does not know, at the start. *)
Lemma ready_ok f m :
  zframe_data f = wid -> cstr name = name -> take 4 wid <> MMI ->
  zmsg_frames m = [MDPW_READY; name] ->
  wp (s_broker_worker_msg clock f m) (fun _ b' => exists l sl, serves [l] l sl b' /\ wire b' = [])
    (s_broker_new clock).
Proof.
  intros Hf Hc Hmmi E. unfold s_broker_worker_msg. wp_step. rewrite frames_size, E. apply wp_ret.
  destruct (pop_cons m _ _ E) as (f0 & m1 & -> & E0 & F1). wp_step. apply wp_bget. simpl.
  rewrite entries_lookup, entries_new, lookup_empty. wp_step. unfold s_worker_require. wp_step. apply wp_bget.
  simpl. rewrite entries_lookup, entries_new, lookup_empty. wp_step. eapply wp_intro; [reflexivity|].
  wp_step. apply wp_bmodify, wp_ret. wp_step. apply wp_ret. rewrite !streq_ok, E0. simpl.
  set (l := fresh _). unfold worker_ready_msg, is_mmi. rewrite Hf, (bool_decide_false _ Hmmi), andb_false_r.
  destruct (pop_cons m1 _ _ F1) as (f1 & m2 & -> & E1 & F2). wp_step. unfold s_service_require.
  wp_step. apply wp_ret. wp_step. apply wp_bget. simpl. rewrite entries_lookup, entries_new, lookup_empty.
  wp_step. eapply wp_intro; [reflexivity|]. wp_step. apply wp_bmodify, wp_ret. simpl. set (sl := fresh _).
  wp_step. eapply wp_update_w; [simpl; apply lookup_insert_eq|]. wp_step.
  eapply wp_update_s; [simpl; apply lookup_insert_eq|]. unfold s_worker_waiting. wp_step.
  eapply wp_load_w; [simpl; apply lookup_insert_eq|]. wp_step. apply wp_bmodify. simpl. wp_step.
  eapply wp_update_s; [simpl; apply lookup_insert_eq|]. wp_step. apply wp_clock. wp_step.
  eapply wp_update_w; [simpl; apply lookup_insert_eq|]. eapply dispatch_none; simpl.
  - apply lookup_insert_eq.
  - simpl. apply items_new.
  - by rewrite items_append, items_new.
  - apply lookup_insert_eq.
  - simpl. done.
  - intros wl n Hwl. exists l, sl. split; [|done]. split; simpl; try done.
    + rewrite strdup_ok, E1, Hc, entries_insert; [apply lookup_insert_eq|]. by rewrite entries_new.
    + eexists. split; [apply lookup_insert_eq|]. simpl.
      split; [by rewrite strdup_ok, E1, Hc|]. split; [apply items_new|]. by rewrite items_append, items_new.
    + intros g Hg. rewrite (strhex_ok g f) by congruence.
      rewrite entries_insert; [apply lookup_insert_eq|]. by rewrite entries_new.
    + eexists. split; [apply lookup_insert_eq|]. simpl. eauto.
    + by exists 0%nat.
Qed.

(** Whole rounds of the broker's loop. *)
Definition served (idle : bool) (wr : list (list (list Z))) b : Prop :=
  (exists l sl, serves (if idle then [l] else []) l sl b) /\ wire b = wr.

Lemma round_of msg idle wr b :
  wp (handle_msg clock msg) (fun _ => served idle wr) b ->
  exists b', broker_round clock (Received msg) b = Ok (true, b') /\ served idle wr b'.
Proof.
  intros (u & b1 & E & (l & sl & Hs) & Hw)%wp_inv. pose proof (sv_beat _ _ _ _ Hs) as [i Hb].
  eexists. simpl. rewrite (bind_ok _ _ _ _ _ E), (bind_ok _ _ _ _ _ (no_beat b1 i Hb)).
  split; [reflexivity|]. split; [|done]. exists l, sl. by destruct Hs.
Qed.

Lemma handle_worker msg ds idle wr b :
  zmsg_frames msg = wid :: [] :: MDPW_WORKER :: ds ->
  (forall f m, zframe_data f = wid -> zmsg_frames m = ds ->
     wp (s_broker_worker_msg clock f m) (fun _ => served idle wr) b) ->
  wp (handle_msg clock msg) (fun _ => served idle wr) b.
Proof.
  intros E Hgo. unfold handle_msg.
  destruct (pop_cons msg _ _ E) as (f0 & m1 & -> & E0 & F1).
  destruct (pop_cons m1 _ _ F1) as (f1 & m2 & -> & E1 & F2).
  destruct (pop_cons m2 _ _ F2) as (f2 & m3 & -> & E2 & F3).
  wp_step. apply wp_ret. rewrite !streq_ok, E2. simpl. wp_step. apply wp_ret. by apply Hgo.
Qed.

Lemma handle_client msg cid ds idle wr b :
  zmsg_frames msg = cid :: [] :: MDPC_CLIENT :: ds ->
  (forall f m, zframe_data f = cid -> zmsg_frames m = ds ->
     wp (s_broker_client_msg clock f m) (fun _ => served idle wr) b) ->
  wp (handle_msg clock msg) (fun _ => served idle wr) b.
Proof.
  intros E Hgo. unfold handle_msg.
  destruct (pop_cons msg _ _ E) as (f0 & m1 & -> & E0 & F1).
  destruct (pop_cons m1 _ _ F1) as (f1 & m2 & -> & E1 & F2).
  destruct (pop_cons m2 _ _ F2) as (f2 & m3 & -> & E2 & F3).
  wp_step. apply wp_ret. rewrite !streq_ok, E2. simpl. wp_step. apply wp_ret. by apply Hgo.
Qed.

Lemma round_ready msg :
  cstr name = name -> take 4 wid <> MMI -> zmsg_frames msg = wid :: ready_msg name ->
  exists b, broker_round clock (Received msg) (s_broker_new clock) = Ok (true, b) /\ served true [] b.
Proof.
  intros Hc Hmmi E. apply round_of. eapply handle_worker; [exact E|]. intros f m Hf Hm.
  eapply wp_mono; [by apply ready_ok|]. intros u b' (l & sl & Hs & Hw). split; [eauto|done].
Qed.

Lemma round_request cid body msg wr b :
  cstr name = name -> take 4 name <> MMI -> body <> [] ->
  served true wr b -> zmsg_frames msg = cid :: [] :: request_msg name body ->
  exists b', broker_round clock (Received msg) b = Ok (true, b') /\
    served false (wr ++ [wid :: [] :: MDPW_WORKER :: MDPW_REQUEST :: cid :: [] :: body]) b'.
Proof.
  intros Hc Hmmi Hbody [(l & sl & Hs) Hw] E. apply round_of. eapply handle_client; [exact E|]. intros f m Hf Hm.
  eapply wp_mono; [by eapply request_ok|]. intros u b' [Hs' Hw']. subst. split; [eauto|done].
Qed.

Lemma round_reply cid body msg wr b :
  served false wr b -> zmsg_frames msg = wid :: reply_msg cid body ->
  exists b', broker_round clock (Received msg) b = Ok (true, b') /\
    served true (wr ++ [cid :: [] :: MDPC_CLIENT :: name :: body]) b'.
Proof.
  intros [(l & sl & Hs) Hw] E. apply round_of. eapply handle_worker; [exact E|]. intros f m Hf Hm.
  eapply wp_mono; [by eapply reply_msg_ok|]. intros u b' [Hs' Hw']. subst. split; [eauto|done].
Qed.

End broker_rounds.

(** ** The worker's and the client's part *)

Section peers.
Context `{Hcz : Czmq, Hcl : !CzmqLaws}.
Context (clock : nat -> Z).
Context (Hclock : forall n, 0 <= clock n < 2 ^ 63).

(** A request reaches a worker in [mdwrk_recv]. *)
Lemma worker_gets sv m client body out w :
  winv clock sv 0 0 out w -> zmsg_frames m = [] :: MDPW_WORKER :: MDPW_REQUEST :: client :: [] :: body ->
  wp (recv_loop clock [Received m]) (fun re w' => winv clock sv 0 0 out w' /\
    exists f m', re = (Request m', []) /\ reply_to w' = FLive f /\ zframe_data f = client /\ zmsg_frames m' = body) w.
Proof.
  intros Hi E. cbn [recv_loop]. wp_step.
  eapply wp_mono; [by eapply (broker_msg_ok clock Hclock)|]. intros r w' Hr. cbn beta in Hr.
  rewrite decide_True in Hr by done. destruct Hr as (Hi' & f & m' & -> & Hrt & Hf & Hm).
  apply wp_ret. split; [done|]. by exists f, m'.
Qed.

(** It replies, and is back in the poll. *)
Lemma worker_replies sv r f out w :
  winv clock sv 0 0 out w -> reply_to w = FLive f ->
  wp (mdwrk_recv clock (Some r) []) (fun _ w' => (exists out', winv clock sv 0 0 out' w') /\
    last (sent (MdWorker.ctx w')) = Some (0%nat, reply_msg (zframe_data f) (zmsg_frames r))) w.
Proof.
  intros [[Hsv Hw Hs Hh Ho] Hl Hv Hd] Hrt. unfold mdwrk_recv. wp_step. apply wp_wget. wp_step. apply wp_ret.
  wp_step. unfold send_reply. wp_step. apply wp_wget. rewrite Hrt. wp_step.
  eapply (send_ok _ _ _ 0%nat); [done|done|]. apply wp_wmodify. wp_step. apply wp_wmodify, wp_ret. simpl.
  rewrite frames_wrap, last_snoc. split; [|done]. eexists. split; [split|..]; simpl; done.
Qed.

End peers.

Section session.
Context `{Hcz : Czmq, Hcl : !CzmqLaws, Hso : !Sockets, Hsl : !SocketLaws}.
Context (bclock wclock : nat -> Z).
Context (Hbclock : forall i j, bclock i <= bclock j + HEARTBEAT_INTERVAL).
Context (Hwclock : forall n, 0 <= wclock n < 2 ^ 63).
Context (service cid wid : list Z) (work : list (list Z) -> list (list Z)).
Context (Hcstr : cstr service = service) (Hmmi : take 4 service <> MMI) (Hwid : take 4 wid <> MMI).
Context (Hwork : forall body, body <> [] -> work body <> []).

(** Between two exchanges: the client is connected, the worker is in its poll and
    waits for the broker's requests. *)
Definition ready (s : system) : Prop :=
  connected 0 (sys_client s) /\ retries (sys_client s) = 3 /\
  (exists wr, served bclock service wid true wr (sys_broker s)) /\
  exists out, winv wclock service 0 0 out (sys_worker s).

Lemma client_asks req c :
  connected 0 c -> retries c = 3 ->
  mdcli_send calm service req [] c = Ok ((Waiting, []), asked 0 (request_msg service (zmsg_frames req)) c).
Proof.
  intros Hc Hr. rewrite start, Hr, (send_round _ _ _ 0) by done. by rewrite !frames_pushstr.
Qed.

Lemma sent_last {X} (log : list X) x : last log = Some x -> last_sent log = Ok x.
Proof. unfold last_sent. by intros ->. Qed.

Lemma delivered_to id ds : delivered id (Some (id, ds)) = Ok ds.
Proof. simpl. by rewrite decide_True. Qed.

(** The next step has the outcome the equation [E] says. *)
Ltac ostep E := rewrite E; cbv beta iota delta [mbind outcome_bind].

Lemma connect_ready broker :
  exists s, connect bclock wclock service wid broker = Ok s /\ ready s.
Proof.
  unfold connect. destruct (wrk_new_ok wclock Hwclock broker service) as (w & Ew & Hi & He & Hsent).
  cbv beta iota delta [mbind outcome_bind]. simpl mdcli_new. cbv iota. ostep Ew.
  assert (Er : mdwrk_recv wclock None [] w = Ok ((Polling, []), set_expect_reply true w)).
  { unfold mdwrk_recv, mbind, M_bind, get. by rewrite He. }
  ostep Er. ostep (sent_last (sent (MdWorker.ctx (set_expect_reply true w))) _ Hsent).
  destruct (round_ready bclock Hbclock service wid (zmsg_recv (dealer_to_router wid (ready_msg service))))
    as (b & Eb & Hb); [done|done|by rewrite recv_frames, from_dealer|].
  ostep Eb. eexists. split; [reflexivity|]. split; [done|]. split; [done|]. split; [by eexists|].
  eexists. destruct Hi as [Hc ? ? ?]. split; [by destruct Hc|done..].
Qed.

Lemma exchange_ok body s :
  ready s -> body <> [] ->
  exists s', exchange bclock wclock service cid wid work body s = Ok (work body, s') /\ ready s'.
Proof.
  intros (Hc & Hr & [wr Hb] & [out Hw]) Hbody. unfold exchange.
  ostep (client_asks (zmsg_recv body) _ Hc Hr). rewrite recv_frames.
  ostep (sent_last (sent (ctx (asked 0 (request_msg service body) (sys_client s)))) _ (last_snoc _ _)).
  destruct (round_request bclock Hbclock service wid cid body
    (zmsg_recv (req_to_router cid (request_msg service body))) wr (sys_broker s))
    as (b1 & Eb1 & Hb1); [done..|by rewrite recv_frames, from_req|].
  ostep Eb1. destruct Hb1 as [Hs1 Hw1].
  assert (El1 : last_sent (wire b1) = Ok (wid :: [] :: MDPW_WORKER :: MDPW_REQUEST :: cid :: [] :: body)).
  { apply sent_last. by rewrite Hw1, last_snoc. }
  ostep El1. rewrite to_dealer. ostep (delivered_to wid ([] :: MDPW_WORKER :: MDPW_REQUEST :: cid :: [] :: body)).
  destruct (wp_inv _ _ _ (worker_gets wclock Hwclock service _ cid body out (sys_worker s) Hw (recv_frames _)))
    as (re & w1 & Ew1 & Hi1 & f & m & -> & Hrt & Hf & Hm).
  ostep Ew1. rewrite Hm.
  destruct (wp_inv _ _ _ (worker_replies wclock service (zmsg_recv (work body)) f out w1 Hi1 Hrt))
    as (r2 & w2 & Ew2 & Hi2 & Hl2).
  ostep Ew2. ostep (sent_last _ _ Hl2). rewrite Hf, recv_frames.
  destruct (round_reply bclock Hbclock service wid cid (work body)
    (zmsg_recv (dealer_to_router wid (reply_msg cid (work body)))) _ b1 (conj Hs1 Hw1))
    as (b2 & Eb2 & Hb2); [by rewrite recv_frames, from_dealer|].
  ostep Eb2. pose proof Hb2 as [Hs2 Hw2].
  assert (El2 : last_sent (wire b2) = Ok (cid :: [] :: MDPC_CLIENT :: service :: work body)).
  { apply sent_last. by rewrite Hw2, last_snoc. }
  ostep El2. rewrite to_req. ostep (delivered_to cid (MDPC_CLIENT :: service :: work body)).
  destruct (send_answered service (zmsg_recv body) 3 0 (sys_client s) 0
    (zmsg_recv (MDPC_CLIENT :: service :: work body)) (work body) []) as (m' & Hm' & Ec);
    [done|done|done|lia|split; [apply recv_frames|by apply Hwork]|].
  simpl replicate in Ec. simpl app in Ec. ostep Ec. rewrite Hm'.
  eexists. split; [reflexivity|]. split; [done|]. split; [done|]. split; [by eexists|done].
Qed.

Lemma session_ok bodies : forall s,
  ready s -> Forall (fun body => body <> []) bodies ->
  exists s', session bclock wclock service cid wid work bodies s = Ok (work <$> bodies, s') /\ ready s'.
Proof.
  induction bodies as [|body bodies IH]; intros s Hs Hb; [by exists s|].
  apply Forall_cons in Hb as [Hbody Hb]. destruct (exchange_ok body s Hs Hbody) as (s1 & E1 & Hs1).
  destruct (IH s1 Hs1 Hb) as (s2 & E2 & Hs2). exists s2. split; [|done].
  cbn [session]. rewrite E1. simpl. by rewrite E2.
Qed.

(** C6: a worker that announces itself to a new broker, and then a client that
    sends it requests one after the other: every call of [mdcli_send] returns what
    the worker made of that request, whatever the requests are and whatever the
    worker does, as long as the broker's clock does not pass a heartbeat
    interval. *)
Theorem mdp_session broker bodies :
  Forall (fun body => body <> []) bodies ->
  exists s s', connect bclock wclock service wid broker = Ok s /\
    session bclock wclock service cid wid work bodies s = Ok (work <$> bodies, s').
Proof.
  intros Hb. destruct (connect_ready broker) as (s & E & Hs).
  destruct (session_ok bodies s Hs Hb) as (s' & E' & _). eauto.
Qed.

End session.

(** ** An instance of the sockets, and the witness *)

Section examples.
#[local] Existing Instance plain_czmq.
#[local] Existing Instance plain_czmq_laws.

#[local] Instance plain_sockets : Sockets := {|
  zmsg_recv ds := ds;
  dealer_to_router id ds := id :: ds;
  req_to_router id ds := id :: [] :: ds;
  router_to_dealer ds := match ds with id :: ds => Some (id, ds) | [] => None end;
  router_to_req ds := match ds with id :: [] :: ds => Some (id, ds) | _ => None end;
|}.

#[local] Instance plain_socket_laws : SocketLaws.
Proof. by split. Qed.

(** Two requests to a worker that turns the frames round. *)
Lemma mdp_session_witness :
  exists s s', connect (fun _ => 0) (fun _ => 0) [101] [87] [98] = Ok s /\
    session (fun _ => 0) (fun _ => 0) [101] [67] [87] (@rev (list Z)) [[[1]; [2]]; [[3]]] s
    = Ok ([[[2]; [1]]; [[3]]], s').
Proof.
  apply (mdp_session (fun _ => 0) (fun _ => 0)); try done; [|by repeat constructor].
  intros [|x body] Hne; [done|]. simpl. by destruct (rev body).
Defined.

End examples.
